(* ===== verification/_CoqProject ===== *)
-Q . S2P
Prelude.v
Hash.v
DList.v
HList.v
TransTable.v
FileTable.v
Segment.v
Wire.v
Packet.v
Replica.v
PeerTable.v
Tracker.v
Client.v
Sync.v
Download.v
Monitor.v
Scan.v
Events.v
Upload.v
Wait.v
MonitorTask.v
Conf.v
Peer.v
Join.v
Start.v
Versions.v
Converge.v
Broadcast.v
System.v
Typed.v
Agreement.v
Races.v
Sockets.v
