(* ===== verification/Prelude.v ===== *)
(** * TeleSync: a verified model of the file synchroniser

    TeleSync (DartSync) keeps a set of files the same on several machines.  One
    machine runs the tracker ([src/server]); the others run a client
    ([src/client]).  The tracker knows which files exist, their timestamps and
    which machines own a copy.  A client registers, synchronises its table with
    the tracker's, announces local changes, follows the tracker's broadcasts,
    downloads what it misses from the owners in pieces, and announces itself as an
    owner when a download ends.

    ** The files, from the bottom up, and what they model

    - [Prelude]: wrap-around of the C integer types ([u16], [i32], ...), C memory as
      a fault monad ([res]: a result or a fault such as a NULL dereference, a use
      after free or an access out of bounds), its weakest precondition [wp], and
      generic lemmas.
    - [Hash]: [ELFhash], [hash_32], [ilog2] and the bucket index ([include/hash.h]).
    - [DList], [HList]: [include/list.h], [utility/list.c] and the table macros of
      [include/hash.h], pointer by pointer, on an explicit heap.  [ring] and
      [represents] relate a heap to lists and buckets; the theorems say that the
      pointer routines implement the list operations.  The later files use lists
      where the code uses these structures, the view these theorems justify.
    - [TransTable]: the table of files in the form in which it is sent
      ([include/trans_file_table.h], [include/consts.h]).
    - [FileTable]: every operation of [file_table.c], over a heap of entries.
    - [Segment]: the framing of messages ([utility/segment.c]).
    - [Wire]: the memory layout of the structures that are sent; [Codec] is the
      interface of a type that has one, [CodecLaws] its round trip.
    - [Packet]: the packets of the three protocols ([include/packet_def.h],
      [client/packet.h], [client/packet.c], [server/packet.c]).
    - [Replica]: [HasTable], the interface of a process that keeps a file table among
      other state, the loops over received tables, and the operations of
      [FileTable] restated on the map of known files.
    - [PeerTable]: [server/peer_table.c].
    - [Tracker]: every handler thread of [server/start.c], the receiver and the
      events of its world (connections, packets, ends, time-outs).
    - [Client]: registration, synchronisation, broadcasts, keep-alive, announcing
      downloads, upload ports ([client/start.c]).
    - [Sync]: the tracker and a client composed.
    - [Download]: the piece table, the threads of [client/download.c] and their
      interleavings, [do_download] around them, and how an owner serves a piece.
    - [Monitor]: the table of watched directories of [client/file_monitor.c], their
      names on this machine and for the others, blocking and unblocking; [Kernel] is
      the interface to inotify and [mkdir], [KernelLaws] what their manuals promise.
    - [Scan]: reading the shared directories into the table ([get_file_table]) and
      watching everything below them.
    - [Events]: the events of inotify, from the bytes that [read] gives to the table,
      the targets and the tracker; [observe] says what an event means.
    - [Upload]: the thread that serves another peer, and the requests of a
      downloader, both down to the bytes ([client/start.c], [client/download.c]).
    - [Wait]: [utility/pthread_wait.c] and the two threads that use it.
    - [MonitorTask]: [file_monitor_task] whole: what it watches at the start, when it says
      that it runs or failed, its turns, its cancellation.
    - [Conf]: the parsers of the configuration files of both sides.
    - [Peer]: the client's handlers with the watch on the directories
      ([ptop_download_task], [file_delete], [sync_files]).
    - [Join]: a machine joins, from its disk over the wire to the tracker and back.
    - [Start]: [dartsync.c], [client_start], and what is left when the tracker goes.
    - [Versions]: an abstract protocol in which processes hold versions of files and tell
      each other of newer ones; it knows no bytes, packets or tables.
    - [Converge]: an update travels from its announcer over the tracker to the others.
    - [Broadcast]: the handling of a broadcast with the deletions on the disk.
    - [System]: the tracker, any number of clients and the bytes between them, as one step
      relation over the definitions of [Tracker], [Client], [Peer] and [Events].
    - [Typed]: the members of the entries stay in the range of their C types.
    - [Agreement]: the simulation of [System] by [Versions], and what follows from it.
    - [Races]: the schedules for which the machines do not agree.
    - [Sockets]: listening, connecting, accepting and the own address, over the interface
      [Sockets] of the socket calls, whose laws [SocketLaws] are in their manuals.

    ** State and operations

    Each component is a record (the file-scope variables of its C file) and one
    definition per C function, with the name of the function, in the monad [M].
    An operation faults exactly where the C code would touch memory it must not;
    [wp f Q s] says that [f] does not fault from [s] and ends in [Q].  The answers
    of [calloc], [send], [read] and the like are part of the state or arguments,
    so that their failures are branches of the model.

    A function that holds a mutex from beginning to end is one step.  The handler
    threads of the tracker and of the client each run as one step, in an
    arbitrary order ([tk_step]); the gap a handler leaves between two
    mutex-protected operations on a peer is treated in
    [PeerTable.found_peer_may_be_freed].  The threads of a download interleave
    between their shared accesses ([dstep]).

    ** What the theorems show

    - All machines together: [Agreement.machines_agree] (after any interleaving, when
      nothing is in flight every machine knows what the tracker knows),
      [messages_arrive] (what is in flight can be read and reading ends), [step_refines]
      (the processes implement the protocol of [Versions]); and what lies outside:
      [deletion_race], [updates_reordered], [departure_not_told],
      [broadcast_before_reply], [deleted_while_downloading].
    - Synchronisation: [Join.join_agreement] (a machine that reads its directories and
      exchanges bytes with the tracker ends with the same files at the same
      versions), [Converge.update_propagates] (machines that agree agree again after an
      update has travelled over the tracker), [Sync.sync_agreement] (the exchange of
      tables, whatever both sides knew before), from
      [Tracker.sync_task_correct] (the tracker replies with exactly what the peer misses or
      has older, learns what it misses, and tells the others) and
      [Client.file_table_sync_correct].
    - The tracker: [tracker_safe] (no sequence of events faults or breaks the
      tables), [file_update_correct], [cleanup_correct], [register_correct],
      [broadcast_reaches_the_others], [sync_request_received] (from the bytes on
      the wire to the handler).
    - The client: [broadcast_followed], [download_announced], [p2p_ports_correct],
      [Broadcast.broadcast_on_disk] (table, disk and watches after a broadcast),
      [Peer.download_task_correct] and [Peer.file_delete_correct] (what it does to its
      own disk it does behind its own watch), [registration_correct],
      [client_start_correct], [main_correct], [tracker_gone].
    - The file monitor: [monitor_turn_correct] (what the kernel reports is what is
      announced, entered and watched), [events_read_back], [get_file_table_correct],
      [watch_target_add_correct], [watch_target_add_dir_correct],
      [file_monitor_block_correct], [block_creates_directories],
      [get_sys_name_correct], [unwatch_correct], [unwatch_all_correct], and
      [file_monitor_task_correct] for the thread from its start to its end.
    - Downloads and uploads: [download_complete] (the file is the owner's, byte for
      byte, in every interleaving), [pieces_exclusive], [download_terminates],
      [do_download_outcomes], [pieces_served], [pieces_exchanged] and
      [file_len_exchanged] (both sides of the protocol, composed), [transfers_terminate].
    - The file table: [table_invariant] (well-formedness, for every sequence of
      operations), [table_typed] (its entries fit their types), [file_table_add_correct], [updates_converge] (the order of
      updates does not matter), and the other operations.
    - The wire and the files read: [segments_roundtrip], [recv_segment_correct],
      [table_roundtrip], [ptot_table_delivered], [ttop_table_delivered],
      [configuration_roundtrip], [configuration_read_ends].
    - Waiting: [wait_returns_or_lost].
    - The network: [tcp_listen_correct], [accept_loop_correct] (the loop of the tracker is
      a sequence of its events), [get_my_ip_correct].
    - The data structures: [list_insert_correct], [list_del_correct],
      [hash_add_del_correct], [ELFhash_refines_elf32].
    - Limits and errors that the code has, proved as such: [long_table_truncated],
      [ptot_fill_bounds], [unknown_modification_announced_empty],
      [failed_download_reported_ok], [found_peer_may_be_freed],
      [short_write_marked_finished], [serve_piece_overflow],
      [recv_segment_marker_in_payload], [send_segment_result],
      [failing_stats_overflow], [descriptor_out_of_bounds], [failed_block_corrupts],
      [piece_8993_not_served], [upload_task_faults], [failed_length_has_no_pieces],
      [wakeup_lost], [creation_failures_unnoticed], [monitor_failure_unnoticed],
      [connect_leaks], [listening_never_ends].

    ** Assumptions

    [Deployment F P]: at most 4096 file names [F] and 16 machines [P] take part
    ([MAX_FILE_ENTRIES], [MAX_PEER_ENTRIES]); the program relies on it without
    checking and the theorems on the handlers state it.  Tables of more than 240
    entries do not fit a packet ([Wire.long_table_truncated]); a theorem about a
    table that travels has that bound.  [Download.sizes_ok]: a file and a piece
    together fit an [int].

    [Sendable F P]: the names and addresses fit their fields and at most 240 files take
    part, so that every table fits a packet.  In [System] the handler threads of one connection run
    in the order in which they were started ([Races.updates_reordered] shows why), no
    payload has the end marker in it ([clean_since]), and a machine changes files that
    are known, or new, and deletes none.

    [KernelLaws] and [accepts n] (the next [n] watches get descriptors below 128) stand
    for inotify; [clean] and [sendable] exclude packets with the end marker in them,
    which the framing cannot carry.  Code that is not under [src] is given by its
    results: the calls of the kernel, [getopt_long], [pthread_create].  The model
    kernel of [Monitor] shows that the laws can hold.

    ** Fuel

    Loops along pointers ([DList.list_for_each], [HList.hlist_for_each_entry_safe])
    take fuel; their theorems show that one unit more than the length of the list
    is enough.  [ilog2] takes 64 units, one per shift that an
    [unsigned long] allows.  [Monitor.watched_prefix] and [Monitor.make_dirs] take the
    length of the name, which every turn shortens or lengthens by a component;
    [Scan.decimal] ten digits; the loops over a buffer or a connection
    ([Events.event_loop], [Upload.upload_loop], [Upload.ptop_upload_loop]) one unit
    more than there are bytes, of which every turn takes at least one.  The loops of
    [Conf] may not end in the code: they give [None] when the fuel is used up, and
    [configuration_read_ends] says when that is for every amount of it.
    All other recursion is structural, on the list the loop walks or on the
    answers the environment gives; [Download.dstep] has a decreasing weight.

    ** Not modelled

    [debug.h], [usage] and the printing functions are pure output.  The structures of
    the C library ([hostent], directories) are given by what the
    calls on them return.  The client's threads are not interleaved with each other: a
    handler, or a turn of the monitor, is one step; what an interleaving can do is shown
    where it matters ([PeerTable.found_peer_may_be_freed],
    [Races.deleted_while_downloading], [Wait.wait_returns_or_lost]). *)
From Corelib Require Export ssreflect.
From stdpp Require Export base numbers list gmap.
From Stdlib Require Export ZArith Lia.

Declare Scope tele_scope.
Delimit Scope tele_scope with tele.
#[global] Open Scope general_if_scope.
Open Scope tele_scope.
Open Scope Z_scope.

(** ** C integer types: conversion to a [w]-bit type is reduction modulo 2^w *)
Definition u8 (z : Z) : Z := z mod 2 ^ 8.
Definition u16 (z : Z) : Z := z mod 2 ^ 16.
Definition u32 (z : Z) : Z := z mod 2 ^ 32.
Definition u64 (z : Z) : Z := z mod 2 ^ 64.
Definition i8 (z : Z) : Z := (z + 2 ^ 7) mod 2 ^ 8 - 2 ^ 7.
Definition i16 (z : Z) : Z := (z + 2 ^ 15) mod 2 ^ 16 - 2 ^ 15.
Definition i32 (z : Z) : Z := (z + 2 ^ 31) mod 2 ^ 32 - 2 ^ 31.

Definition is_u8 (z : Z) : Prop := 0 ≤ z < 2 ^ 8.
Definition is_u16 (z : Z) : Prop := 0 ≤ z < 2 ^ 16.
Definition is_u32 (z : Z) : Prop := 0 ≤ z < 2 ^ 32.
Definition is_u64 (z : Z) : Prop := 0 ≤ z < 2 ^ 64.

(** ** Faults and the state monad over a process' memory

    [Fault] is undefined behaviour of the C program: the operation has no
    result.  Everything else, the error returns of the code included, is an
    ordinary value. *)
Inductive fault : Set :=
  | NullDeref        (** a NULL pointer is dereferenced *)
  | OutOfBounds      (** an array is read or written outside its bounds *)
  | UseAfterFree     (** a freed object is read or written *)
  | Uninitialised.   (** a pointer that was never assigned is used *)

Inductive res (A : Type) : Type :=
  | Ok (a : A)
  | Fault (f : fault).
Arguments Ok {_} _.
Arguments Fault {_} _.

Definition M (S A : Type) : Type := S → res (A * S).

Definition ret {S A} (a : A) : M S A := λ s, Ok (a, s).
Definition bind {S A B} (m : M S A) (f : A → M S B) : M S B :=
  λ s, match m s with Ok (a, s') => f a s' | Fault e => Fault e end.
Definition fail {S A} (e : fault) : M S A := λ _, Fault e.
Definition gets {S A} (f : S → A) : M S A := λ s, Ok (f s, s).
Definition modify {S} (f : S → S) : M S unit := λ s, Ok (tt, f s).

Notation "x <- m ;; k" := (bind m (λ x, k))
  (at level 100, m at next level, right associativity) : tele_scope.
Notation "m ;;; k" := (bind m (λ _, k)) (at level 100, right associativity) : tele_scope.

(** [n] bytes at offset [o] of a buffer. *)
Definition slice (o n : nat) (l : list Z) : list Z := take n (drop o l).

(** [for (x in l) body], the body threading a local variable [a]. *)
Fixpoint for_each {S A X} (l : list X) (body : X → A → M S A) (a : A) : M S A :=
  match l with
  | [] => ret a
  | x :: l' => a' <- body x a ;; for_each l' body a'
  end.

(** Run an operation on a component of a larger state. *)
Definition zoom {S T A} (view : S → T) (upd : T → S → S) (m : M T A) : M S A :=
  λ s, match m (view s) with
       | Ok (a, t) => Ok (a, upd t s)
       | Fault e => Fault e
       end.

(** ** Weakest preconditions: [wp m Q s] says that [m] run from [s] does not
    fault and ends with a value and a state satisfying [Q]. *)
Definition wp {S A} (m : M S A) (Q : A → S → Prop) (s : S) : Prop :=
  match m s with Ok (a, s') => Q a s' | Fault _ => False end.

Section wp_rules.
Context {S : Type}.

Lemma wp_ret {A} (a : A) Q (s : S) : Q a s → wp (ret a) Q s.
Proof. done. Qed.

Lemma wp_bind {A B} (m : M S A) (f : A → M S B) Q s :
  wp m (λ a s', wp (f a) Q s') s → wp (bind m f) Q s.
Proof. rw /wp /bind. by destruct (m s) as [[a s']|e]. Qed.

Lemma wp_gets {A} (f : S → A) Q s : Q (f s) s → wp (gets f) Q s.
Proof. done. Qed.

Lemma wp_modify (f : S → S) (Q : unit → S → Prop) s : Q tt (f s) → wp (modify f) Q s.
Proof. done. Qed.

Lemma wp_mono {A} (m : M S A) (P Q : A → S → Prop) s :
  wp m P s → (∀ a s', P a s' → Q a s') → wp m Q s.
Proof. rw /wp. destruct (m s) as [[a s']|e]; naive_solver. Qed.

Lemma wp_and {A} (m : M S A) (P Q : A → S → Prop) s :
  wp m P s → wp m Q s → wp m (λ a s', P a s' ∧ Q a s') s.
Proof. rw /wp. by destruct (m s) as [[a s']|e]. Qed.

Lemma wp_run {A} (m : M S A) (Q : A → S → Prop) s :
  wp m Q s ↔ ∃ a s', m s = Ok (a, s') ∧ Q a s'.
Proof.
  rw /wp. split.
  - destruct (m s) as [[a s']|e] eqn:E; [|done]. naive_solver.
  - intros (a & s' & -> & H). done.
Qed.

Lemma wp_zoom {T A} (view : S → T) upd (m : M T A) Q s :
  wp m (λ a t, Q a (upd t s)) (view s) → wp (zoom view upd m) Q s.
Proof. rw /wp /zoom. by destruct (m (view s)) as [[a t]|e]. Qed.

(** The loop rule: an invariant on the part of the list already visited. *)
Lemma wp_for_each {A X} (body : X → A → M S A) (I : list X → A → S → Prop) l done a s :
  I done a s →
  (∀ pre x post a s, done ++ l = pre ++ x :: post →
     I pre a s → wp (body x a) (I (pre ++ [x])) s) →
  wp (for_each l body a) (I (done ++ l)) s.
Proof.
  revert done a s. induction l as [|x l IH]; intros done a s HI Hbody; simpl.
  { by rw app_nil_r. }
  apply wp_bind. eapply wp_mono.
  { eapply (Hbody done x l); done. }
  intros a' s' HI'. rw (cons_middle x) app_assoc.
  apply IH; [done|]. intros pre y post a'' s'' Heq.
  apply (Hbody pre y post). by rw -Heq -app_assoc.
Qed.

(** The same rule for an invariant that does not depend on the position. *)
Lemma wp_for_each_inv {A X} (body : X → A → M S A) (I : A → S → Prop) l a s :
  I a s →
  (∀ x a s, x ∈ l → I a s → wp (body x a) I s) →
  wp (for_each l body a) I s.
Proof.
  intros HI Hbody.
  eapply wp_mono; [apply (wp_for_each body (λ _, I) l [] a s); [done|] | naive_solver].
  intros pre x post a' s' Heq. apply Hbody. simpl in Heq. subst. set_solver.
Qed.
End wp_rules.

Create HintDb wp discriminated.
#[export] Hint Resolve wp_ret wp_gets wp_modify : wp.

(** One step of symbolic execution of a monadic program. *)
Ltac wp_step :=
  lazymatch goal with
  | |- wp (bind _ _) _ _ => apply wp_bind
  | |- wp (ret _) _ _ => apply wp_ret
  | |- wp (gets _) _ _ => apply wp_gets
  | |- wp (modify _) _ _ => apply wp_modify
  | |- wp (zoom _ _ _) _ _ => apply wp_zoom
  | |- wp (if ?b then _ else _) _ _ => destruct b eqn:?
  | |- wp (match ?o with _ => _ end) _ _ => destruct o eqn:?
  end; cbn beta iota.
Ltac wp_steps := repeat wp_step.

(** ** Arithmetic of the C types *)
Lemma u16_id z : is_u16 z → u16 z = z.
Proof. apply Z.mod_small. Qed.
Lemma u32_id z : is_u32 z → u32 z = z.
Proof. apply Z.mod_small. Qed.
Lemma u64_id z : is_u64 z → u64 z = z.
Proof. apply Z.mod_small. Qed.
Lemma u16_range z : is_u16 (u16 z).
Proof. apply Z.mod_pos_bound. lia. Qed.
Lemma u32_range z : is_u32 (u32 z).
Proof. apply Z.mod_pos_bound. lia. Qed.
Lemma u64_range z : is_u64 (u64 z).
Proof. apply Z.mod_pos_bound. lia. Qed.

Lemma i32_range z : - 2 ^ 31 ≤ i32 z < 2 ^ 31.
Proof. rw /i32. pose proof (Z.mod_pos_bound (z + 2 ^ 31) (2 ^ 32)). lia. Qed.
Lemma i32_id z : - 2 ^ 31 ≤ z < 2 ^ 31 → i32 z = z.
Proof. intros H. rw /i32 Z.mod_small; lia. Qed.

(** Going through [int] does not change the low 32 bits. *)
Lemma u32_i32 z : u32 (i32 z) = u32 z.
Proof.
  rw /u32 /i32.
  replace ((z + 2 ^ 31) mod 2 ^ 32 - 2 ^ 31) with ((z + 2 ^ 31) mod 2 ^ 32 + (- 2 ^ 31)) by lia.
  rw Zplus_mod_idemp_l. f_equal. lia.
Qed.
Lemma u32_u64 z : u32 (u64 z) = u32 z.
Proof.
  rw /u32 /u64. apply Z.mod_mod_divide.
  by exists (2 ^ 32).
Qed.

#[export] Hint Resolve u16_range u32_range u64_range : core.
Create HintDb cint.
#[export] Hint Rewrite u16_id u32_id u64_id i32_id using (unfold is_u16, is_u32, is_u64; lia) : cint.

(** ** Lists *)
Section lists.
Context {A : Type}.

Lemma concat_insert_cons (ll : list (list A)) i l x :
  ll !! i = Some l → concat (<[i := x :: l]> ll) ≡ₚ x :: concat ll.
Proof.
  intros Hi. pose proof (lookup_lt_Some _ _ _ Hi) as Hlt.
  rw -{2}(take_drop_middle ll i l) // insert_take_drop //.
  rw !concat_app /=. by rw -Permutation_middle.
Qed.

Lemma elem_of_concat (ll : list (list A)) x :
  x ∈ concat ll ↔ ∃ i l, ll !! i = Some l ∧ x ∈ l.
Proof.
  rw list_elem_of_In in_concat. split.
  - intros (l & Hl & Hx). apply list_elem_of_In, list_elem_of_lookup in Hl as [i Hi].
    exists i, l. by rw list_elem_of_In.
  - intros (i & l & Hi & Hx). exists l. rw -!list_elem_of_In.
    split; [by eapply list_elem_of_lookup_2|done].
Qed.

Lemma concat_map_filter (P : A → Prop) `{!∀ x, Decision (P x)} (ll : list (list A)) :
  concat (filter P <$> ll) = filter P (concat ll).
Proof. induction ll as [|l ll IH]; [done|]. csimpl. by rw filter_app IH. Qed.

Lemma NoDup_concat_chain (ll : list (list A)) i l :
  NoDup (concat ll) → ll !! i = Some l → NoDup l.
Proof.
  intros Hnd Hi. rw -(take_drop_middle ll i l) // in Hnd.
  rw concat_app in Hnd. apply NoDup_app in Hnd as (_ & _ & Hnd).
  simpl in Hnd. by apply NoDup_app in Hnd as (? & _).
Qed.

Lemma NoDup_concat_bucket (ll : list (list A)) i j l k x :
  NoDup (concat ll) → ll !! i = Some l → ll !! j = Some k → x ∈ l → x ∈ k → i = j.
Proof.
  revert i j. induction ll as [|l0 ll IH]; intros i j Hnd Hi Hj Hl Hk; [done|].
  simpl in Hnd. apply NoDup_app in Hnd as (_ & Hdisj & Hnd).
  destruct i as [|i], j as [|j]; simplify_eq/=; [done|..].
  - destruct (Hdisj x Hl). apply elem_of_concat. eauto.
  - destruct (Hdisj x Hk). apply elem_of_concat. eauto.
  - f_equal. by eapply IH.
Qed.
End lists.
