(* ===== verification/Hash.v ===== *)
(** * Hash: the hash functions of [include/hash.h]

    [ELFhash] over a C string, the multiplicative [hash_32], the bit-counting
    loop [ilog2], and the bucket index [hash_min] that [hash_add] and
    [hash_for_each_possible] compute.  A key is the list of the bytes (0..255)
    of a C string before its NUL; [char] is signed, as on the x86 targets of the
    program, and [unsigned long] has 64 bits. *)
From Stdlib Require Import Btauto.
From coqutil Require Import Z.bitblast.
From S2P Require Import Prelude.

(** [#define GOLDEN_RATIO_PRIME_32 0x9e370001UL] *)
Definition GOLDEN_RATIO_PRIME_32 : Z := 0x9e370001.

(** One turn of the loop of [ELFhash], on a 64-bit [h]. *)
Definition elf_step (h c : Z) : Z :=
  let h := u64 (u64 (Z.shiftl h 4) + i8 c) in
  let g := Z.land h 0xf0000000 in
  let h := if g =? 0 then h else Z.lxor h (Z.shiftr g 24) in
  Z.land h (u64 (Z.lnot g)).

Definition ELFhash (key : list Z) : Z := fold_left elf_step key 0.

Definition hash_32 (val bits : Z) : Z :=
  let hash := u32 (u64 (u32 val * GOLDEN_RATIO_PRIME_32)) in
  Z.shiftr hash (32 - bits).

(** [while ((1UL << l) != v) l++]: a shift by 64 or more is undefined, so 64
    turns are all the loop can take; [None] is a run that gets there. *)
Fixpoint ilog2_from (fuel : nat) (l v : Z) : option Z :=
  match fuel with
  | O => None
  | S fuel => if Z.shiftl 1 l =? v then Some l else ilog2_from fuel (l + 1) v
  end.
Definition ilog2 (v : Z) : option Z := ilog2_from 64 0 v.

(** [FILE_HASH_BITS], and [HASH_SIZE]/[HASH_BITS] of [file_htable]. *)
Definition FILE_HASH_BITS : Z := 12.
Definition HASH_SIZE : Z := Z.shiftl 1 FILE_HASH_BITS.
Definition HASH_BITS : Z := default 0 (ilog2 HASH_SIZE).

Definition hash_min (key bits : Z) : Z := hash_32 key bits.

(** The index [file_entry_add] uses: the key is an [unsigned long]. *)
Definition bucket_of (name : list Z) : Z := hash_min (ELFhash name) HASH_BITS.

(** The index [__file_table_search] uses: the hash goes through an [int]. *)
Definition search_bucket_of (name : list Z) : Z := hash_min (i32 (ELFhash name)) HASH_BITS.

(** ** Specification: the 32-bit ELF hash, by arithmetic *)
Definition elf32_step (h c : Z) : Z :=
  let h := (16 * h + i8 c) mod 2 ^ 32 in
  Z.lxor (h mod 2 ^ 28) (16 * (h / 2 ^ 28)).
Definition elf32 (key : list Z) : Z := fold_left elf32_step key 0.

(** ** Lemmas *)
Lemma HASH_SIZE_eq : HASH_SIZE = 4096.
Proof. reflexivity. Qed.
Lemma HASH_BITS_eq : HASH_BITS = 12.
Proof. reflexivity. Qed.

(** The mixing part of a turn, on the word obtained by shifting in a character:
    it computes the same low bits whether the word has 32 or 64 bits. *)
Lemma elf_mix_low w :
  let g := Z.land w 0xf0000000 in
  u32 (Z.land (Z.lxor w (Z.shiftr g 24)) (u64 (Z.lnot g))) =
  Z.lxor (w mod 2 ^ 32 mod 2 ^ 28) (16 * (w mod 2 ^ 32 / 2 ^ 28)).
Proof.
  cbn zeta. change 0xf0000000 with (Z.shiftl (Z.ones 4) 28). rw /u32 /u64.
  rw (Z.mul_comm 16) -(Z.shiftl_mul_pow2 _ 4) //.
  Z.bitblast; subst; rw ?(Z.testbit_mod_pow2 _ 32) //; Z.destruct_ltbs;
    try (exfalso; lia); replace (i - 4 + 28) with (i + 24) by lia; btauto.
Qed.

Lemma elf_step_low h c : u32 (elf_step h c) = elf32_step (u32 h) c.
Proof.
  rw /elf_step /elf32_step. set (w := u64 (u64 (Z.shiftl h 4) + i8 c)).
  assert (Hlow : (16 * u32 h + i8 c) mod 2 ^ 32 = w mod 2 ^ 32).
  { change (w mod 2 ^ 32) with (u32 w). rw /w u32_u64 /u32 /u64.
    rw -(Zplus_mod_idemp_l (_ mod _)) Z.mod_mod_divide; [by exists (2 ^ 32)|].
    rw -(Zplus_mod_idemp_l (16 * _)) Zmult_mod_idemp_r.
    by rw Z.shiftl_mul_pow2 // (Z.mul_comm h). }
  rw Hlow -elf_mix_low /=. clearbody w.
  destruct (Z.eqb_spec (Z.land w 0xf0000000) 0) as [E|E]; [|done].
  by rw E /= Z.lxor_0_r.
Qed.

Lemma ELFhash_low key : u32 (ELFhash key) = elf32 key.
Proof.
  rw /ELFhash /elf32. change 0 with (u32 0) at 2. generalize 0 as h.
  induction key as [|c key IH]; intros h; [done|]. by rw /= IH elf_step_low.
Qed.

Lemma elf32_step_range h c : 0 ≤ elf32_step h c < 2 ^ 28.
Proof.
  rw /elf32_step. set (w := (16 * h + i8 c) mod 2 ^ 32).
  assert (0 ≤ w < 2 ^ 32) as Hw by (apply Z.mod_pos_bound; lia).
  assert (0 ≤ 16 * (w / 2 ^ 28) < 2 ^ 28).
  { assert (0 ≤ w / 2 ^ 28 < 16); [|lia].
    split; [apply Z.div_pos; lia|apply Z.div_lt_upper_bound; lia]. }
  assert (0 ≤ w mod 2 ^ 28 < 2 ^ 28) by (apply Z.mod_pos_bound; lia).
  rw -(Z.mod_small (w mod 2 ^ 28) (2 ^ 28)) // -(Z.mod_small (16 * _) (2 ^ 28)) //.
  assert (∀ a b, Z.lxor (a mod 2 ^ 28) (b mod 2 ^ 28) = Z.lxor a b mod 2 ^ 28) as -> by (intros; Z.bitblast).
  by apply Z.mod_pos_bound.
Qed.

Lemma hash_32_range val bits : 0 ≤ bits ≤ 32 → 0 ≤ hash_32 val bits < 2 ^ bits.
Proof.
  intros Hb. rw /hash_32 Z.shiftr_div_pow2; [lia|].
  pose proof (u32_range (u64 (u32 val * GOLDEN_RATIO_PRIME_32))) as Hr.
  red in Hr. split.
  - apply Z.div_pos; [lia|]. apply Z.pow_pos_nonneg; lia.
  - apply Z.div_lt_upper_bound; [apply Z.pow_pos_nonneg; lia|].
    rw -Z.pow_add_r; [lia..|]. replace (32 - bits + bits) with 32 by lia. by destruct Hr.
Qed.

Lemma hash_32_low v w bits : u32 v = u32 w → hash_32 v bits = hash_32 w bits.
Proof. rw /hash_32. by intros ->. Qed.

Lemma hash_min_range key : 0 ≤ hash_min key HASH_BITS < HASH_SIZE.
Proof. by apply (hash_32_range _ 12). Qed.
Lemma bucket_of_range name : 0 ≤ bucket_of name < HASH_SIZE.
Proof. apply hash_min_range. Qed.

Lemma search_bucket_of_eq name : search_bucket_of name = bucket_of name.
Proof. apply hash_32_low, u32_i32. Qed.

Lemma ilog2_from_Some fuel l v k :
  0 ≤ l → ilog2_from fuel l v = Some k → l ≤ k < l + Z.of_nat fuel ∧ v = 2 ^ k.
Proof.
  revert l. induction fuel as [|fuel IH]; intros l Hl; [done|].
  cbn [ilog2_from]. destruct (Z.eqb_spec (Z.shiftl 1 l) v) as [E|E].
  - intros [= <-]. rw Z.shiftl_mul_pow2 // in E. split; lia.
  - intros [??]%IH; [|lia]. split; [lia|done].
Qed.

Lemma ilog2_from_pow fuel l k :
  0 ≤ l ≤ k → k < l + Z.of_nat fuel → ilog2_from fuel l (2 ^ k) = Some k.
Proof.
  revert l. induction fuel as [|fuel IH]; intros l Hl Hk; [lia|].
  cbn [ilog2_from]. rw Z.shiftl_mul_pow2; [lia|]. rw Z.mul_1_l.
  destruct (Z.eqb_spec (2 ^ l) (2 ^ k)) as [E|E].
  - apply Z.pow_inj_r in E; [by subst|lia..].
  - apply IH; [|lia]. assert (l ≠ k) by congruence. lia.
Qed.

(** ** Theorems *)

(** On every C string, [ELFhash] computed on a 64-bit word agrees, in the 32
    bits the callers keep, with the classical 32-bit ELF hash, which is below
    2^28; so the bucket computed from the [unsigned long] when an entry is added
    and the one computed through an [int] when it is searched are the same, and
    it is a bucket of the table. *)
Theorem ELFhash_refines_elf32 key :
  u32 (ELFhash key) = elf32 key ∧ 0 ≤ elf32 key < 2 ^ 28 ∧
  search_bucket_of key = bucket_of key ∧ 0 ≤ bucket_of key < HASH_SIZE.
Proof.
  split_and!; try apply bucket_of_range; [apply ELFhash_low|..|apply search_bucket_of_eq];
    rw /elf32; destruct key as [|c key] using rev_ind; try done; rw fold_left_app /=;
    apply elf32_step_range.
Qed.

(** [ilog2] returns exactly on the powers of two representable in an unsigned
    long, and returns the exponent; on any other argument the loop never ends
    before its shift becomes undefined. *)
Theorem ilog2_spec v k : ilog2 v = Some k ↔ 0 ≤ k < 64 ∧ v = 2 ^ k.
Proof.
  split.
  - intros [? ?]%ilog2_from_Some; [|done]. split; [lia|done].
  - intros [? ->]. apply ilog2_from_pow; lia.
Qed.

(** Keep the hashes folded in the goals of the clients. *)
#[global] Opaque ELFhash hash_min bucket_of search_bucket_of.
