(* ===== verification/DList.v ===== *)
(** * DList: the circular doubly-linked list of [include/list.h] and [utility/list.c]

    Pointers are modelled: a heap maps the address of a [struct list_head] to
    its two fields, a NULL pointer is [None], and every access through a
    pointer can fault.  The predicate [ring] says that a head and a list of
    elements are linked in a circle; the theorems say that the C routines,
    which only swing pointers, implement the operations on the list. *)
From S2P Require Import Prelude.

(** ** Data *)
Notation loc := nat.

Record list_head := ListHead { lh_prev : option loc; lh_next : option loc }.

Notation dheap := (gmap loc list_head).

Definition LIST_NULL : Z := -1.
Definition LIST_SUCCESS : Z := 1.

(** ** Field accesses through a pointer *)
Definition deref (p : option loc) : M dheap list_head :=
  λ σ, match p with
       | None => Fault NullDeref
       | Some l => match σ !! l with Some n => Ok (n, σ) | None => Fault UseAfterFree end
       end.

Definition set_prev (p v : option loc) : M dheap unit :=
  n <- deref p ;; modify (λ σ, <[default 0%nat p := ListHead v (lh_next n)]> σ).
Definition set_next (p v : option loc) : M dheap unit :=
  n <- deref p ;; modify (λ σ, <[default 0%nat p := ListHead (lh_prev n) v]> σ).

Definition is_null (p : option loc) : bool := match p with None => true | Some _ => false end.

(** ** include/list.h: initialisation and tests *)
Definition INIT_LIST_HEAD (h : option loc) : M dheap unit :=
  set_next h h ;;; set_prev h h.
Definition INIT_LIST_ELM (le : option loc) : M dheap unit :=
  set_next le None ;;; set_prev le None.
Definition list_empty (h : option loc) : M dheap bool :=
  n <- deref h ;; ret (bool_decide (h = lh_next n)).
Definition list_first (h : option loc) : M dheap (option loc) :=
  n <- deref h ;; ret (lh_next n).
Definition list_unattached (le : option loc) : M dheap bool :=
  n <- deref le ;; ret (is_null (lh_next n) && is_null (lh_prev n)).

(** ** utility/list.c *)
Definition listelm_detach (prev next : option loc) : M dheap Z :=
  set_prev next prev ;;; set_next prev next ;;; ret LIST_SUCCESS.

Definition listelm_add (le prev next : option loc) : M dheap Z :=
  set_next prev le ;;; set_prev le prev ;;; set_next le next ;;; set_prev next le ;;;
  ret LIST_SUCCESS.

Definition list_add (head le : option loc) : M dheap Z :=
  if is_null head || is_null le then ret LIST_NULL else
  n <- deref head ;;
  listelm_add le head (lh_next n) ;;;
  ret LIST_SUCCESS.

Definition list_add_tail (head le : option loc) : M dheap Z :=
  if is_null head || is_null le then ret LIST_NULL else
  n <- deref head ;;
  listelm_add le (lh_prev n) head ;;;
  ret LIST_SUCCESS.

Definition list_del (le : option loc) : M dheap Z :=
  if is_null le then ret LIST_NULL else
  unattached <- list_unattached le ;;
  if unattached : bool then ret LIST_NULL else
  n <- deref le ;;
  listelm_detach (lh_prev n) (lh_next n) ;;;
  set_prev le None ;;; set_next le None ;;;
  ret LIST_SUCCESS.

Definition list_del_init (le : option loc) : M dheap Z :=
  r <- list_del le ;;
  set_prev le le ;;; set_next le le ;;;
  ret r.

(** [list_for_each (curr, head) body]: [body] sees the address of each element. *)
Fixpoint list_for_each_from {A} (fuel : nat) (curr head : option loc)
    (body : option loc → A → M dheap A) (a : A) : M dheap (option A) :=
  match fuel with
  | O => ret None
  | S fuel =>
      if bool_decide (curr = head) then ret (Some a) else
      a <- body curr a ;;
      n <- deref curr ;;
      list_for_each_from fuel (lh_next n) head body a
  end.
Definition list_for_each {A} (fuel : nat) (head : option loc)
    (body : option loc → A → M dheap A) (a : A) : M dheap (option A) :=
  n <- deref head ;; list_for_each_from fuel (lh_next n) head body a.

(** [list_for_each_safe (pos, tmp, head) body]: the successor is read before the body runs. *)
Fixpoint list_for_each_safe_from {A} (fuel : nat) (pos tmp head : option loc)
    (body : option loc → A → M dheap A) (a : A) : M dheap (option A) :=
  match fuel with
  | O => ret None
  | S fuel =>
      if bool_decide (pos = head) then ret (Some a) else
      a <- body pos a ;;
      n <- deref tmp ;;
      list_for_each_safe_from fuel tmp (lh_next n) head body a
  end.
Definition list_for_each_safe {A} (fuel : nat) (head : option loc)
    (body : option loc → A → M dheap A) (a : A) : M dheap (option A) :=
  n <- deref head ;;
  m <- deref (lh_next n) ;;
  list_for_each_safe_from fuel (lh_next n) (lh_next m) head body a.

(** [free] of the structure that embeds the element. *)
Definition free (p : option loc) : M dheap unit :=
  match p with
  | None => ret tt
  | Some l => deref p ;;; modify (delete l)
  end.

(** The traversal that unlinks and frees the elements satisfying [P]: the loop
    of [__peer_id_list_destroy] (every element) and of [file_table_delete_owner]
    (the owners with a given address). *)
Definition list_remove_if (P : loc → bool) (fuel : nat) (head : option loc) :
    M dheap (option unit) :=
  list_for_each_safe fuel head
    (λ pos _, if P (default 0%nat pos) then list_del pos ;;; free pos else ret tt) tt.

(** ** The representation predicate *)

Definition nx (σ : dheap) (l : loc) : option (option loc) := lh_next <$> σ !! l.
Definition pv (σ : dheap) (l : loc) : option (option loc) := lh_prev <$> σ !! l.

(** [a] and [b] are neighbours: each points to the other. *)
Definition link (σ : dheap) (a b : loc) : Prop :=
  nx σ a = Some (Some b) ∧ pv σ b = Some (Some a).

Fixpoint path (σ : dheap) (l : list loc) : Prop :=
  match l with
  | a :: (b :: _) as t => link σ a b ∧ path σ t
  | _ => True
  end.

Definition ring (σ : dheap) (h : loc) (l : list loc) : Prop :=
  path σ (h :: l ++ [h]) ∧ NoDup (h :: l).

(** The cells outside [l] are untouched. *)
Definition frame (l : list loc) (σ σ' : dheap) : Prop :=
  ∀ x, x ∉ l → σ' !! x = σ !! x.

(** ** Lemmas: single accesses *)
Definition upd_next (l : loc) (v : option loc) : dheap → dheap :=
  alter (λ n, ListHead (lh_prev n) v) l.
Definition upd_prev (l : loc) (v : option loc) : dheap → dheap :=
  alter (λ n, ListHead v (lh_next n)) l.

Lemma nx_upd_next σ l v x :
  nx (upd_next l v σ) x = if decide (l = x) then (λ _, v) <$> nx σ x else nx σ x.
Proof. rw /nx /upd_next lookup_alter. case_decide; [subst; by destruct (σ !! _)|done]. Qed.
Lemma pv_upd_next σ l v x : pv (upd_next l v σ) x = pv σ x.
Proof. rw /pv /upd_next lookup_alter. case_decide; [subst; by destruct (σ !! _)|done]. Qed.
Lemma pv_upd_prev σ l v x :
  pv (upd_prev l v σ) x = if decide (l = x) then (λ _, v) <$> pv σ x else pv σ x.
Proof. rw /pv /upd_prev lookup_alter. case_decide; [subst; by destruct (σ !! _)|done]. Qed.
Lemma nx_upd_prev σ l v x : nx (upd_prev l v σ) x = nx σ x.
Proof. rw /nx /upd_prev lookup_alter. case_decide; [subst; by destruct (σ !! _)|done]. Qed.
Lemma upd_next_ne σ l v x : l ≠ x → upd_next l v σ !! x = σ !! x.
Proof. apply lookup_alter_ne. Qed.
Lemma upd_prev_ne σ l v x : l ≠ x → upd_prev l v σ !! x = σ !! x.
Proof. apply lookup_alter_ne. Qed.
Lemma upd_next_is_Some σ l v x : is_Some (upd_next l v σ !! x) ↔ is_Some (σ !! x).
Proof. apply lookup_alter_is_Some. Qed.
Lemma upd_prev_is_Some σ l v x : is_Some (upd_prev l v σ !! x) ↔ is_Some (σ !! x).
Proof. apply lookup_alter_is_Some. Qed.

Lemma wp_list_deref l σ n (Q : list_head → dheap → Prop) :
  σ !! l = Some n → Q n σ → wp (deref (Some l)) Q σ.
Proof. rw /wp /deref. by intros ->. Qed.

Lemma wp_list_set_next l v σ (Q : unit → dheap → Prop) :
  is_Some (σ !! l) → Q tt (upd_next l v σ) → wp (set_next (Some l) v) Q σ.
Proof.
  intros [n Hn] HQ. apply wp_bind, (wp_list_deref _ _ n), wp_modify; [done|].
  rw /upd_next in HQ. by rw (alter_alt_Some _ _ _ n) in HQ.
Qed.

Lemma wp_list_set_prev l v σ (Q : unit → dheap → Prop) :
  is_Some (σ !! l) → Q tt (upd_prev l v σ) → wp (set_prev (Some l) v) Q σ.
Proof.
  intros [n Hn] HQ. apply wp_bind, (wp_list_deref _ _ n), wp_modify; [done|].
  rw /upd_prev in HQ. by rw (alter_alt_Some _ _ _ n) in HQ.
Qed.

(** ** Lemmas: paths and rings *)
Lemma path_ext σ σ' l :
  (∀ x, x ∈ removelast l → nx σ' x = nx σ x) →
  (∀ x, x ∈ tail l → pv σ' x = pv σ x) →
  path σ l → path σ' l.
Proof.
  induction l as [|a [|b l] IH]; [done..|].
  intros Hn Hp [[Ha Hb] Hl]. split.
  - split; [rw Hn // | rw Hp //]; set_solver.
  - apply IH; [intros x Hx; apply Hn; set_solver | intros x Hx; apply Hp; set_solver | done].
Qed.

Lemma path_split σ l1 x l2 : path σ (l1 ++ x :: l2) ↔ path σ (l1 ++ [x]) ∧ path σ (x :: l2).
Proof.
  induction l1 as [|a [|b l1] IH].
  - simpl. tauto.
  - simpl. tauto.
  - change ((link σ a b ∧ path σ ((b :: l1) ++ x :: l2)) ↔
            (link σ a b ∧ path σ ((b :: l1) ++ [x])) ∧ path σ (x :: l2)).
    rw IH. tauto.
Qed.

Lemma path_pair σ l1 a b l2 :
  path σ (l1 ++ a :: b :: l2) ↔ path σ (l1 ++ [a]) ∧ link σ a b ∧ path σ (b :: l2).
Proof. by rw path_split. Qed.

Lemma path_is_Some σ l x : path σ l → (2 ≤ length l)%nat → x ∈ l → is_Some (σ !! x).
Proof.
  induction l as [|a [|b l] IH]; simpl; [lia..|].
  intros [[Ha Hb] Hl] _ Hx. rw /nx /pv in Ha, Hb.
  apply elem_of_cons in Hx as [->|Hx].
  { destruct (σ !! a); [by eexists|done]. }
  destruct l as [|c l]; [|apply IH; [done|simpl; lia|done]].
  apply list_elem_of_singleton in Hx as ->. destruct (σ !! b); [by eexists|done].
Qed.

Lemma removelast_snoc {A} (l : list A) x : removelast (l ++ [x]) = l.
Proof. apply removelast_last. Qed.

Lemma removelast_app_cons {A} (l1 : list A) x l2 : removelast (l1 ++ x :: l2) = l1 ++ removelast (x :: l2).
Proof. by apply removelast_app. Qed.

Lemma elem_of_removelast {A} (l : list A) x : x ∈ removelast l → x ∈ l.
Proof.
  destruct l as [|y l] using rev_ind; [done|]. rw removelast_snoc. set_solver.
Qed.

(** The two ends of the gap in which an element is inserted: [p] just before
    it, [n] just after it, in the path that goes once around the ring. *)
Lemma ring_gap σ h l pre p n post :
  ring σ h l → h :: l ++ [h] = pre ++ p :: n :: post →
  p ∉ pre ∧ p ∉ removelast (n :: post) ∧ n ∉ tail (pre ++ [p]) ∧ n ∉ post.
Proof.
  intros [_ Hnd] Heq.
  assert (Hs : h :: l = pre ++ p :: removelast (n :: post)).
  { transitivity (removelast (h :: l ++ [h])); [by rw app_comm_cons removelast_snoc|].
    by rw Heq removelast_app_cons. }
  assert (Ht : l ++ [h] = tail (pre ++ [p]) ++ n :: post).
  { transitivity (tail (h :: l ++ [h])); [done|]. rw Heq. destruct pre; [done|].
    by rw /= -app_assoc. }
  assert (Hnd' : NoDup (l ++ [h])) by by rw -Permutation_cons_append.
  rw Hs in Hnd. rw Ht in Hnd'.
  apply NoDup_app in Hnd as (_ & Hd & [Hp _]%NoDup_cons).
  apply NoDup_app in Hnd' as (_ & Hd' & [Hn _]%NoDup_cons).
  split_and!; [|done| |done]; intros Hin.
  - by eapply Hd; [|left].
  - by eapply Hd'; [|left].
Qed.

(** Compute the fields of a cell after a few updates; the cases where an
    updated cell is the one looked at are settled by the context. *)
Ltac field_simpl :=
  rw ?(nx_upd_prev, pv_upd_next, nx_upd_next, pv_upd_prev);
  repeat (case_decide; subst; try (exfalso; by eauto)).

(** Facts about a path through a gap: its cells are live and inside the ring. *)
Lemma ring_cells σ h l full x :
  ring σ h l → h :: l ++ [h] = full → x ∈ full → x ∈ h :: l ∧ is_Some (σ !! x).
Proof.
  intros [Hpath _] <- Hx. split; [set_solver|].
  eapply path_is_Some; [exact Hpath| |done]. rw /= length_app /=. lia.
Qed.

(** [listelm_add] in the gap between two neighbours. *)
Lemma listelm_add_spec σ h l pre p n post e :
  ring σ h l → h :: l ++ [h] = pre ++ p :: n :: post →
  e ∉ h :: l → is_Some (σ !! e) →
  wp (listelm_add (Some e) (Some p) (Some n))
     (λ r σ', r = LIST_SUCCESS ∧ path σ' (pre ++ p :: e :: n :: post) ∧ frame (e :: h :: l) σ σ') σ.
Proof.
  intros Hring Heq He Hsome.
  pose proof (ring_gap _ _ _ _ _ _ _ Hring Heq) as (Hp1 & Hp2 & Hn1 & Hn2).
  pose proof (ring_cells _ _ _ _ p Hring Heq ltac:(set_solver)) as [Hpin Hplive].
  pose proof (ring_cells _ _ _ _ n Hring Heq ltac:(set_solver)) as [Hnin Hnlive].
  assert (Hfull : ∀ x, x ∈ pre ++ p :: n :: post → x ≠ e).
  { intros x Hx ->. by apply He, (ring_cells _ _ _ _ _ Hring Heq). }
  destruct Hring as [Hpath Hnd]. rw Heq path_pair in Hpath. destruct Hpath as (Hpre & _ & Hpost).
  assert (e ≠ p) as Hep by (intros ->; eapply Hfull; [|done]; set_solver).
  assert (e ≠ n) as Hen by (intros ->; eapply Hfull; [|done]; set_solver).
  rw /listelm_add.
  wp_step. apply wp_list_set_next; [done|].
  wp_step. apply wp_list_set_prev; [by rw upd_next_is_Some|].
  wp_step. apply wp_list_set_next; [by rw upd_prev_is_Some upd_next_is_Some|].
  wp_step. apply wp_list_set_prev; [by rw upd_next_is_Some upd_prev_is_Some upd_next_is_Some|].
  apply wp_ret. split; [done|]. split.
  - rw path_pair. split_and!.
    + eapply path_ext, Hpre; intros x Hx.
      * rw removelast_snoc in Hx. assert (x ≠ e) by (apply Hfull; set_solver). field_simpl; done.
      * assert (x ≠ e) by (apply Hfull; destruct pre; set_solver). field_simpl; done.
    + destruct Hsome as [c Hc], Hplive as [d Hd]. split; field_simpl; rw /nx /pv ?Hc ?Hd //.
    + split.
      * destruct Hsome as [c Hc], Hnlive as [d Hd]. split; field_simpl; rw /nx /pv ?Hc ?Hd //.
      * eapply path_ext, Hpost; intros x Hx.
        -- assert (x ≠ e).
           { apply elem_of_removelast in Hx. apply Hfull. set_solver. }
           field_simpl; done.
        -- simpl in Hx. assert (x ≠ e) by (apply Hfull; set_solver). field_simpl; done.
  - intros x Hx. rw upd_prev_ne; [set_solver|]. rw upd_next_ne; [set_solver|].
    rw upd_prev_ne; [set_solver|]. rw upd_next_ne; [set_solver|]. done.
Qed.

(** [listelm_detach] of the cell between two neighbours. *)
Lemma listelm_detach_spec σ pre p e n post :
  path σ (pre ++ p :: e :: n :: post) →
  p ∉ pre → p ∉ removelast (n :: post) → n ∉ tail (pre ++ [p]) → n ∉ post →
  wp (listelm_detach (Some p) (Some n))
     (λ r σ', r = LIST_SUCCESS ∧ path σ' (pre ++ p :: n :: post) ∧ frame [p; n] σ σ') σ.
Proof.
  intros Hpath Hp1 Hp2 Hn1 Hn2.
  rw path_pair in Hpath. destruct Hpath as (Hpre & [Hpn _] & [[_ Hnp] Hpost]).
  assert (is_Some (σ !! p)) as Hplive by (rw /nx in Hpn; destruct (σ !! p); done).
  assert (is_Some (σ !! n)) as Hnlive by (rw /pv in Hnp; destruct (σ !! n); done).
  rw /listelm_detach.
  wp_step. apply wp_list_set_prev; [done|].
  wp_step. apply wp_list_set_next; [by rw upd_prev_is_Some|].
  apply wp_ret. split; [done|]. split.
  - rw path_pair. split_and!.
    + eapply path_ext, Hpre; intros x Hx; [rw removelast_snoc in Hx|]; field_simpl; done.
    + destruct Hplive as [c Hc], Hnlive as [d Hd]. split; field_simpl; rw /nx /pv ?Hc ?Hd //.
    + eapply path_ext, Hpost; intros x Hx; field_simpl; done.
  - intros x Hx. rw upd_next_ne; [set_solver|]. rw upd_prev_ne; [set_solver|]. done.
Qed.

Lemma cons_snoc_last {A} (x : A) l : ∃ pre p, x :: l = pre ++ [p].
Proof. destruct l as [|y l] using rev_ind; [by exists [], x|by exists (x :: l), y]. Qed.

Lemma snoc_cons_head {A} (x : A) l : ∃ n post, l ++ [x] = n :: post.
Proof. destruct l as [|y l]; simpl; eauto. Qed.

(** [list_del] of an element of a ring. *)
Lemma list_del_spec σ h l1 e l2 :
  ring σ h (l1 ++ e :: l2) →
  wp (list_del (Some e))
     (λ r σ', r = LIST_SUCCESS ∧ ring σ' h (l1 ++ l2) ∧ σ' !! e = Some (ListHead None None) ∧
              frame (h :: l1 ++ e :: l2) σ σ') σ.
Proof.
  intros Hring.
  destruct (cons_snoc_last h l1) as (pre & p & Hp), (snoc_cons_head h l2) as (n & post & Hn).
  assert (Heq : h :: (l1 ++ e :: l2) ++ [h] = pre ++ p :: e :: n :: post).
  { by rw -app_assoc /= Hn app_comm_cons Hp -app_assoc. }
  pose proof Hring as [Hpath Hnd]. rw Heq in Hpath.
  pose proof (ring_gap _ _ _ pre p e (n :: post) Hring Heq) as (Hp1 & Hp2 & He1 & He2).
  pose proof (ring_gap _ _ _ (pre ++ [p]) e n post Hring ltac:(by rw Heq -app_assoc))
    as (He3 & He4 & Hn1 & Hn2).
  pose proof (ring_cells _ _ _ _ e Hring Heq ltac:(set_solver)) as [_ [c Hc]].
  assert (Hlink : nx σ e = Some (Some n) ∧ pv σ e = Some (Some p)).
  { apply path_pair in Hpath as (_ & [_ ?] & [[? _] _]). done. }
  rw /nx /pv Hc /= in Hlink. destruct Hlink as [[= Hcn] [= Hcp]].
  assert (p ≠ e ∧ n ≠ e) as [Hpe Hne] by (split; intros ->; set_solver).
  rw /list_del /=. wp_step. rw /list_unattached. wp_step. eapply wp_list_deref; [done|]. apply wp_ret.
  rw Hcn Hcp /=. wp_step. eapply wp_list_deref; [done|]. wp_step. rw Hcn Hcp.
  eapply wp_mono.
  { apply (listelm_detach_spec _ pre p e n post); [done|done| |..|done].
    - intros Hx. apply Hp2. destruct post; simpl in *; set_solver.
    - intros Hx. apply Hn1. destruct pre; simpl in *; set_solver. }
  intros r σ' (_ & Hpath' & Hframe).
  assert (Hc' : σ' !! e = Some c) by (rw Hframe; [set_solver|done]).
  wp_step. apply wp_list_set_prev; [by eexists|].
  wp_step. apply wp_list_set_next; [by rw upd_prev_is_Some; eexists|]. apply wp_ret.
  assert (Hx : e ∉ pre ++ p :: n :: post).
  { assert (Hnd' : NoDup (h :: l1 ++ l2) ∧ e ∉ h :: l1 ++ l2).
    { rw app_comm_cons -Permutation_middle app_comm_cons in Hnd. by apply NoDup_cons in Hnd as [??]. }
    replace (pre ++ p :: n :: post) with (h :: l1 ++ l2 ++ [h]); [set_solver|].
    by rw Hn app_comm_cons Hp -app_assoc. }
  split; [done|]. split_and!.
  - split.
    + replace (h :: (l1 ++ l2) ++ [h]) with (pre ++ p :: n :: post);
        [|by rw -app_assoc Hn app_comm_cons Hp -app_assoc].
      eapply path_ext, Hpath'; intros x Hx'.
      * apply elem_of_removelast in Hx'. field_simpl; done.
      * assert (x ∈ pre ++ p :: n :: post) by (destruct pre; set_solver). field_simpl; done.
    + rw app_comm_cons -Permutation_middle in Hnd. by apply NoDup_cons in Hnd as [_ ?].
  - rw /upd_next /upd_prev lookup_alter_eq lookup_alter_eq Hc' //.
  - intros x Hx'. rw upd_next_ne; [set_solver|]. rw upd_prev_ne; [set_solver|]. apply Hframe.
    assert (p ∈ h :: l1 ∧ n ∈ l2 ++ [h]) by (rw Hp Hn; set_solver). set_solver.
Qed.

(** ** Lemmas: traversals *)
Lemma list_for_each_from_spec {A} σ h (f : loc → A → A) body l x a :
  path σ (x :: l ++ [h]) → h ∉ l →
  (∀ y a, y ∈ l → body (Some y) a σ = Ok (f y a, σ)) →
  list_for_each_from (S (length l)) (default None (nx σ x)) (Some h) body a σ
  = Ok (Some (fold_left (λ a y, f y a) l a), σ).
Proof.
  revert x a. induction l as [|y l IH]; intros x a Hpath Hh Hbody.
  - destruct Hpath as [[-> _] _]. simpl. by rw bool_decide_true.
  - destruct Hpath as [[-> _] Hpath]. apply not_elem_of_cons in Hh as [Hhy Hh].
    change (default None (Some (Some y))) with (Some y).
    cbn [list_for_each_from length]. rw bool_decide_false; [congruence|].
    rw {1}/bind Hbody; [by left|].
    pose proof Hpath as Hp. apply path_is_Some with (x := y) in Hp as [c Hc];
      [|rw /= length_app /=; lia|by left].
    rw {1}/bind {1}/deref Hc. cbn beta iota.
    specialize (IH y (f y a) Hpath Hh). rw /nx Hc /= in IH. rw /=. apply IH.
    intros z a' Hz. apply Hbody. by right.
Qed.

(** [free] of an element that is no longer in the ring. *)
Lemma ring_free σ h l x : ring σ h l → x ∉ h :: l → ring (delete x σ) h l.
Proof.
  intros [Hpath Hnd] Hx. split; [|done]. eapply path_ext, Hpath; intros z Hz.
  - apply elem_of_removelast in Hz. rw /nx lookup_delete_ne //. intros <-. set_solver.
  - rw /pv lookup_delete_ne //. intros <-. simpl in Hz. set_solver.
Qed.

Lemma ring_notin σ h l1 x l2 : ring σ h (l1 ++ x :: l2) → x ∉ h :: l1 ++ l2.
Proof.
  intros [_ Hnd] Hin. rw -Permutation_middle in Hnd. apply NoDup_cons in Hnd as [Hh Hnd].
  apply NoDup_cons in Hnd as [Hx _]. apply elem_of_cons in Hin as [->|Hin]; [|done]. apply Hh. by left.
Qed.

(** The next field of an element. *)
Lemma ring_next σ h l1 y l2 c :
  ring σ h (l1 ++ y :: l2) → σ !! y = Some c → lh_next c = head (l2 ++ [h]).
Proof.
  intros [Hpath _] Hc. replace (h :: (l1 ++ y :: l2) ++ [h]) with ((h :: l1) ++ y :: l2 ++ [h]) in Hpath
    by by rw -app_assoc.
  destruct (snoc_cons_head h l2) as (z & post & Hz). rw Hz in Hpath. rw Hz /=.
  apply path_pair in Hpath as (_ & [Hn _] & _). rw /nx Hc /= in Hn. by injection Hn.
Qed.

(** The successor read by [list_for_each_safe] before the body runs is still in
    the ring after the current element is unlinked. *)
Lemma list_remove_if_from_spec (P : loc → bool) h keep rest σ pos tmp :
  ring σ h (keep ++ rest) →
  pos = head (rest ++ [h]) → (rest ≠ [] → tmp = head (tail (rest ++ [h]))) →
  wp (list_for_each_safe_from (S (length rest)) pos tmp (Some h)
        (λ pos _, if P (default 0%nat pos) then list_del pos ;;; free pos else ret tt) tt)
     (λ r σ', r = Some tt ∧ ring σ' h (keep ++ filter (λ x, P x = false) rest) ∧
        (∀ x, x ∈ rest → P x = true → σ' !! x = None) ∧ frame (h :: keep ++ rest) σ σ') σ.
Proof.
  revert keep σ pos tmp. induction rest as [|x rest IH]; intros keep σ pos tmp Hring -> Htmp.
  { cbn -[bool_decide]. rw bool_decide_true //. apply wp_ret. split_and!; try done. set_solver. }
  specialize (Htmp ltac:(done)). cbn in Htmp. cbn [list_for_each_safe_from length app head].
  assert (x ≠ h) as Hxh by (destruct Hring as [_ Hnd]; intros ->; apply NoDup_cons in Hnd; set_solver).
  rw bool_decide_false; [congruence|].
  assert (Hnext : ∃ y, tmp = Some y ∧ y ∈ rest ++ [h]).
  { rw Htmp. destruct rest as [|y rest]; simpl; eexists; split; try done; set_solver. }
  destruct Hnext as (y & -> & Hy). apply wp_bind.
  assert (HS : ∀ keep' σ', ring σ' h (keep' ++ rest) →
    (λ _ σ0, wp (n <- deref (Some y);;
      list_for_each_safe_from (S (length rest)) (Some y) (lh_next n) (Some h)
        (λ pos _, if P (default 0%nat pos) then list_del pos ;;; free pos else ret tt) tt)
     (λ r σ', r = Some tt ∧ ring σ' h (keep' ++ filter (λ x, P x = false) rest) ∧
        (∀ x, x ∈ rest → P x = true → σ' !! x = None) ∧ frame (h :: keep' ++ rest) σ0 σ') σ0) tt σ').
  { intros keep' σ' Hring'. apply wp_bind.
    assert (y ∈ h :: (keep' ++ rest) ++ [h]) as Hy' by set_solver.
    pose proof (ring_cells _ _ _ _ y Hring' eq_refl Hy') as [_ [c Hc]].
    eapply wp_list_deref; [done|]. apply IH; [done|by rw -Htmp|].
    intros Hne. destruct rest as [|y' rest]; [done|]. simpl in Htmp. injection Htmp as ->.
    by eapply ring_next. }
  change (default 0%nat (Some x)) with x. destruct (P x) eqn:HPx.
  - apply wp_bind. eapply wp_mono; [by apply list_del_spec|]. intros r σ1 (_ & Hring1 & Hx1 & Hfr1).
    rw /free. apply wp_bind. eapply wp_list_deref; [done|]. apply wp_modify.
    pose proof (ring_notin _ _ _ _ _ Hring) as Hxnot. pose proof (ring_free _ _ _ _ Hring1 Hxnot) as Hring2.
    eapply wp_mono; [by apply HS|]. cbn beta. intros r' σ2 (-> & Hring3 & Hfree & Hfr).
    split; [done|]. rw filter_cons_False; [congruence|]. split_and!; [done| |].
    + intros z Hz HPz. apply elem_of_cons in Hz as [->|Hz]; [|by apply Hfree].
      rw Hfr //. apply lookup_delete_eq.
    + intros z Hz. rw Hfr; [set_solver|]. rw lookup_delete_ne; [set_solver|]. by apply Hfr1.
  - apply wp_ret. eapply wp_mono.
    { apply (HS (keep ++ [x])). by rw -app_assoc. }
    intros r' σ2 (-> & Hring3 & Hfree & Hfr). split; [done|].
    rw filter_cons_True //. rw -app_assoc /= in Hring3. split_and!; [done| |].
    + intros z Hz HPz. apply elem_of_cons in Hz as [->|Hz]; [congruence|by apply Hfree].
    + intros z Hz. apply Hfr. set_solver.
Qed.

Lemma list_add_wp σ h l e :
  ring σ h l → e ∉ h :: l → is_Some (σ !! e) →
  wp (list_add (Some h) (Some e))
     (λ r σ', r = LIST_SUCCESS ∧ ring σ' h (e :: l) ∧ frame (e :: h :: l) σ σ') σ.
Proof.
  intros Hring He Hsome. destruct (snoc_cons_head h l) as (n & post & Hn).
  assert (Heq : h :: l ++ [h] = [] ++ h :: n :: post) by by rw Hn.
  pose proof (ring_cells _ _ _ _ h Hring eq_refl ltac:(by left)) as [_ [c Hc]].
  rw /list_add /=. wp_step. eapply wp_list_deref; [done|].
  assert (lh_next c = Some n) as ->.
  { destruct Hring as [Hpath _]. rw Heq /= /link /nx Hc in Hpath.
    destruct Hpath as [[[=] _] _]. done. }
  wp_step. eapply wp_mono; [by eapply listelm_add_spec|].
  intros r σ' (_ & Hpath & Hfr). apply wp_ret. split_and!; [done| |done].
  split; [by rw /= Hn|]. destruct Hring as [_ Hnd].
  apply not_elem_of_cons in He as [??]. apply NoDup_cons in Hnd as [??].
  repeat (apply NoDup_cons; split; [set_solver|]). done.
Qed.

Lemma list_add_tail_wp σ h l e :
  ring σ h l → e ∉ h :: l → is_Some (σ !! e) →
  wp (list_add_tail (Some h) (Some e))
     (λ r σ', r = LIST_SUCCESS ∧ ring σ' h (l ++ [e]) ∧ frame (e :: h :: l) σ σ') σ.
Proof.
  intros Hring He Hsome. destruct (cons_snoc_last h l) as (pre & p & Hp).
  assert (Heq : h :: l ++ [h] = pre ++ p :: h :: []) by by rw app_comm_cons Hp -app_assoc.
  pose proof (ring_cells _ _ _ _ h Hring eq_refl ltac:(by left)) as [_ [c Hc]].
  rw /list_add_tail /=. wp_step. eapply wp_list_deref; [done|].
  assert (lh_prev c = Some p) as ->.
  { destruct Hring as [Hpath _]. rw Heq path_pair /link /pv Hc in Hpath.
    destruct Hpath as (_ & [_ [=]] & _). done. }
  wp_step. eapply wp_mono; [by eapply listelm_add_spec|].
  intros r σ' (_ & Hpath & Hfr). apply wp_ret. split_and!; [done| |done].
  split.
  - replace (h :: (l ++ [e]) ++ [h]) with (pre ++ p :: e :: [h]); [done|].
    by rw -app_assoc app_comm_cons Hp -app_assoc.
  - destruct Hring as [_ Hnd]. rw app_comm_cons Permutation_app_comm.
    by apply NoDup_cons.
Qed.

(** ** Theorems *)

(** Inserting with the pointer-swinging [list_add] and [list_add_tail] is
    consing and appending: for a live element not yet in the ring, neither
    faults, both return [LIST_SUCCESS], the head then anchors a well-linked ring
    of the element followed (preceded) by the old list, and no cell outside the
    ring and the element changes.  A NULL argument changes nothing and returns
    [LIST_NULL]. *)
Theorem list_insert_correct σ h l e :
  ring σ h l → e ∉ h :: l → is_Some (σ !! e) →
  wp (list_add (Some h) (Some e))
     (λ r σ', r = LIST_SUCCESS ∧ ring σ' h (e :: l) ∧ frame (e :: h :: l) σ σ') σ ∧
  wp (list_add_tail (Some h) (Some e))
     (λ r σ', r = LIST_SUCCESS ∧ ring σ' h (l ++ [e]) ∧ frame (e :: h :: l) σ σ') σ ∧
  list_add None (Some e) σ = Ok (LIST_NULL, σ) ∧ list_add_tail (Some h) None σ = Ok (LIST_NULL, σ).
Proof. intros. split_and!; [by apply list_add_wp|by apply list_add_tail_wp|done..]. Qed.

(** A heap with a head at 0 and two elements at 1 and 2, and a detached cell 3. *)
Definition heap2 : dheap :=
  {[ 0%nat := ListHead (Some 2%nat) (Some 1%nat); 1%nat := ListHead (Some 0%nat) (Some 2%nat);
     2%nat := ListHead (Some 1%nat) (Some 0%nat); 3%nat := ListHead None None ]}.

Lemma heap2_ring : ring heap2 0 [1; 2]%nat.
Proof. split; [repeat split; reflexivity|]. repeat (constructor; [set_solver|]); constructor. Qed.

Lemma list_insert_correct_witness :
  wp (list_add (Some 0%nat) (Some 3%nat))
     (λ r σ', r = LIST_SUCCESS ∧ ring σ' 0 [3; 1; 2]%nat ∧ frame [3; 0; 1; 2]%nat heap2 σ') heap2.
Proof.
  apply (list_insert_correct heap2 0%nat [1; 2]%nat 3%nat); [apply heap2_ring|set_solver|by eexists].
Defined.

(** C37. [list_del] of any element of a ring unlinks exactly that element: it
    does not fault, the rest stays a well-linked ring in the same order, the
    element's two pointers become NULL, and nothing outside the ring changes;
    deleting it a second time returns [LIST_NULL] and changes nothing. *)
Theorem list_del_correct σ h l1 e l2 :
  ring σ h (l1 ++ e :: l2) →
  wp (list_del (Some e))
     (λ r σ', r = LIST_SUCCESS ∧ ring σ' h (l1 ++ l2) ∧ σ' !! e = Some (ListHead None None) ∧
              frame (h :: l1 ++ e :: l2) σ σ' ∧ list_del (Some e) σ' = Ok (LIST_NULL, σ')) σ.
Proof.
  intros Hring. eapply wp_mono; [by apply list_del_spec|].
  intros r σ' (-> & ? & He & ?). split_and!; [done..|].
  rw /list_del /list_unattached /deref /bind /= He //.
Qed.

Lemma list_del_correct_witness :
  wp (list_del (Some 1%nat))
     (λ r σ', r = LIST_SUCCESS ∧ ring σ' 0 [2]%nat ∧ σ' !! 1%nat = Some (ListHead None None) ∧
              frame [0; 1; 2]%nat heap2 σ' ∧ list_del (Some 1%nat) σ' = Ok (LIST_NULL, σ')) heap2.
Proof. apply (list_del_correct heap2 0%nat [] 1%nat [2%nat]), heap2_ring. Defined.

(** The traversals terminate and are memory safe.  [list_for_each] with a
    body that leaves the heap alone visits the elements in order, once each,
    within one more turn than there are elements.  The safe traversal that
    unlinks and frees the elements satisfying [P] (destroying an owner list,
    dropping one owner) never touches a freed cell, leaves the ring of the
    elements not satisfying [P], and has freed all the others. *)
Theorem list_traversals_correct {A} σ h l (f : loc → A → A) body (P : loc → bool) (a : A) :
  ring σ h l →
  (∀ y a, y ∈ l → body (Some y) a σ = Ok (f y a, σ)) →
  list_for_each (S (length l)) (Some h) body a σ
    = Ok (Some (fold_left (λ a y, f y a) l a), σ) ∧
  wp (list_remove_if P (S (length l)) (Some h))
     (λ r σ', r = Some tt ∧ ring σ' h (filter (λ x, P x = false) l) ∧
        (∀ x, x ∈ l → P x = true → σ' !! x = None) ∧ frame (h :: l) σ σ') σ.
Proof.
  intros Hring Hbody.
  pose proof (ring_cells _ _ _ _ h Hring eq_refl ltac:(by left)) as [_ [c Hc]].
  destruct (snoc_cons_head h l) as (n & post & Hn).
  pose proof (ring_cells _ _ _ _ n Hring eq_refl ltac:(rw Hn; set_solver)) as [_ [d Hd]].
  destruct Hring as [Hpath Hnd]. assert (h ∉ l) by by apply NoDup_cons in Hnd as [??].
  assert (lh_next c = Some n) as Hcn.
  { pose proof Hpath as Hp. rw Hn /= /link /nx Hc in Hp. by destruct Hp as [[[=] _] _]. }
  split.
  - rw /list_for_each {1}/bind {1}/deref Hc. cbn beta iota.
    pose proof (list_for_each_from_spec σ h f body l h a Hpath ltac:(done) Hbody) as Hs.
    rw /nx Hc in Hs. exact Hs.
  - rw /list_remove_if /list_for_each_safe. apply wp_bind. eapply wp_list_deref; [done|].
    rw Hcn. apply wp_bind. eapply wp_list_deref; [done|].
    apply (list_remove_if_from_spec P h [] l); [done|by rw Hn|].
    intros Hne. destruct l as [|n' l]; [done|]. injection Hn as -> Hn. cbn [app tail].
    destruct (snoc_cons_head h l) as (m & post' & Hm). rw Hm.
    rw /= Hm in Hpath. destruct Hpath as (_ & [Hx _] & _). rw /nx Hd in Hx. by injection Hx.
Qed.

Lemma list_traversals_correct_witness :
  list_for_each 3 (Some 0%nat) (λ p (acc : list loc), ret (acc ++ [default 0%nat p])) [] heap2
    = Ok (Some [1; 2]%nat, heap2) ∧
  wp (list_remove_if (Nat.eqb 1) 3 (Some 0%nat))
     (λ r σ', r = Some tt ∧ ring σ' 0 [2]%nat ∧
        (∀ x, x ∈ [1; 2]%nat → (1 =? x)%nat = true → σ' !! x = None) ∧ frame [0; 1; 2]%nat heap2 σ') heap2.
Proof.
  apply (list_traversals_correct heap2 0%nat [1; 2]%nat (λ y acc, acc ++ [y])
           (λ p acc, ret (acc ++ [default 0%nat p])) (Nat.eqb 1) []); [apply heap2_ring|done].
Defined.
