(* ===== verification/HList.v ===== *)
(** * HList: the hash chains of [include/list.h] and the table macros of [include/hash.h]

    A [struct hlist_node] has a [next] pointer and a [pprev] pointer to the
    field that points to it: the [first] field of a bucket head or the [next]
    field of a node.  The theorems relate the pointer operations to a table
    seen as a list of buckets, each bucket the list of its nodes: the view the
    file table is modelled with. *)
From S2P Require Import Prelude Hash.

(** ** Data *)
Notation node := nat.

(** The objects of type [struct hlist_node *]: what a [pprev] can point to. *)
Inductive slot : Set :=
  | SFirst (bkt : nat)     (** [&ht[bkt].first] *)
  | SNext (n : node).      (** [&n->next] *)
#[export] Instance slot_eq_dec : EqDecision slot.
Proof. solve_decision. Defined.

Record hlist_node := HNode { hn_next : option node; hn_pprev : option slot }.

Record hheap := HHeap {
  hh_first : list (option node);      (** the array of [struct hlist_head] *)
  hh_nodes : gmap node hlist_node     (** the live nodes *)
}.

(** ** Accesses *)
Definition set_node (n : node) (c : hlist_node) (σ : hheap) : hheap :=
  HHeap (hh_first σ) (<[n := c]> (hh_nodes σ)).

Definition deref (p : option node) : M hheap hlist_node :=
  λ σ, match p with
       | None => Fault NullDeref
       | Some n => match hh_nodes σ !! n with Some c => Ok (c, σ) | None => Fault UseAfterFree end
       end.

Definition set_next (n : node) (v : option node) : M hheap unit :=
  c <- deref (Some n) ;; modify (set_node n (HNode v (hn_pprev c))).
Definition set_pprev (n : node) (v : option slot) : M hheap unit :=
  c <- deref (Some n) ;; modify (set_node n (HNode (hn_next c) v)).

Definition read_first (bkt : nat) : M hheap (option node) :=
  λ σ, match hh_first σ !! bkt with Some p => Ok (p, σ) | None => Fault OutOfBounds end.
Definition set_first (bkt : nat) (v : option node) : M hheap unit :=
  read_first bkt ;;; modify (λ σ, HHeap (<[bkt := v]> (hh_first σ)) (hh_nodes σ)).

(** [*s = v] *)
Definition write_slot (s : option slot) (v : option node) : M hheap unit :=
  match s with
  | None => fail NullDeref
  | Some (SFirst b) => set_first b v
  | Some (SNext n) => set_next n v
  end.

(** ** include/list.h *)
Definition INIT_HLIST_NODE (h : node) : M hheap unit :=
  set_next h None ;;; set_pprev h None.

Definition hlist_add_head (n : node) (h : nat) : M hheap unit :=
  first <- read_first h ;;
  set_next n first ;;;
  (match first with
   | Some f => set_pprev f (Some (SNext n))
   | None => ret tt
   end) ;;;
  set_first h (Some n) ;;;
  set_pprev n (Some (SFirst h)).

Definition hlist_unhashed (h : node) : M hheap bool :=
  c <- deref (Some h) ;;
  ret (match hn_pprev c with None => true | Some _ => false end).

Definition hlist_empty (h : nat) : M hheap bool :=
  first <- read_first h ;;
  ret (match first with None => true | Some _ => false end).

Definition __hlist_del (n : node) : M hheap unit :=
  c <- deref (Some n) ;;
  let next := hn_next c in
  let pprev := hn_pprev c in
  write_slot pprev next ;;;
  match next with
  | Some x => set_pprev x pprev
  | None => ret tt
  end.

Definition hlist_del_init (n : node) : M hheap unit :=
  unhashed <- hlist_unhashed n ;;
  if unhashed : bool then ret tt else
  __hlist_del n ;;; INIT_HLIST_NODE n.

(** ** include/hash.h *)

(** [for (i = 0; i < sz; i++) INIT_HLIST_HEAD(&ht[i]);] *)
Definition __hash_init (sz : nat) : M hheap unit :=
  for_each (seq 0 sz) (λ i _, set_first i None) tt.

(** [hash_add]: the bucket is chosen by [hash_min]. *)
Definition hash_add (n : node) (key : Z) : M hheap unit :=
  hlist_add_head n (Z.to_nat (hash_min key HASH_BITS)).

Definition hash_del (n : node) : M hheap unit := hlist_del_init n.

Definition hash_hashed (n : node) : M hheap bool :=
  b <- hlist_unhashed n ;; ret (negb b).

(** [for (i = 0; i < sz; i++) if (!hlist_empty(&ht[i])) return false; return true;] *)
Fixpoint __hash_empty_from (i sz : nat) : M hheap bool :=
  match sz with
  | O => ret true
  | S sz =>
      e <- hlist_empty i ;;
      if e : bool then __hash_empty_from (S i) sz else ret false
  end.
Definition __hash_empty (sz : nat) : M hheap bool := __hash_empty_from 0 sz.

(** [hlist_for_each_entry_safe]: [n = pos->member.next] is read before the body. *)
Fixpoint hlist_for_each_safe_from {A} (fuel : nat) (pos : option node)
    (body : node → A → M hheap A) (a : A) : M hheap (option A) :=
  match fuel with
  | O => ret None
  | S fuel =>
      match pos with
      | None => ret (Some a)
      | Some p =>
          c <- deref (Some p) ;;
          a <- body p a ;;
          hlist_for_each_safe_from fuel (hn_next c) body a
      end
  end.
Definition hlist_for_each_entry_safe {A} (fuel : nat) (bkt : nat)
    (body : node → A → M hheap A) (a : A) : M hheap (option A) :=
  first <- read_first bkt ;; hlist_for_each_safe_from fuel first body a.

(** ** The representation predicate *)
Definition read_slot (σ : hheap) (s : slot) : option (option node) :=
  match s with
  | SFirst b => hh_first σ !! b
  | SNext n => hn_next <$> hh_nodes σ !! n
  end.
Definition pprev_of (σ : hheap) (n : node) : option (option slot) := hn_pprev <$> hh_nodes σ !! n.

(** The chain of nodes hanging off slot [s] and ending in NULL. *)
Fixpoint hchain (σ : hheap) (s : slot) (l : list node) : Prop :=
  match l with
  | [] => read_slot σ s = Some None
  | x :: l => read_slot σ s = Some (Some x) ∧ pprev_of σ x = Some (Some s) ∧ hchain σ (SNext x) l
  end.

Definition represents (σ : hheap) (ht : list (list node)) : Prop :=
  length (hh_first σ) = length ht ∧
  (∀ b l, ht !! b = Some l → hchain σ (SFirst b) l) ∧
  NoDup (concat ht).

(** [hash_del] on the list view. *)
Definition unlink (n : node) (ht : list (list node)) : list (list node) :=
  filter (λ x, x ≠ n) <$> ht.

(** ** Lemmas: single accesses *)
Definition upd_next (n : node) (v : option node) (σ : hheap) : hheap :=
  HHeap (hh_first σ) (alter (λ c, HNode v (hn_pprev c)) n (hh_nodes σ)).
Definition upd_pprev (n : node) (v : option slot) (σ : hheap) : hheap :=
  HHeap (hh_first σ) (alter (λ c, HNode (hn_next c) v) n (hh_nodes σ)).
Definition upd_first (b : nat) (v : option node) (σ : hheap) : hheap :=
  HHeap (<[b := v]> (hh_first σ)) (hh_nodes σ).
Definition live (σ : hheap) (n : node) : Prop := is_Some (hh_nodes σ !! n).

Lemma live_upd_next σ n v x : live (upd_next n v σ) x ↔ live σ x.
Proof. apply lookup_alter_is_Some. Qed.
Lemma live_upd_pprev σ n v x : live (upd_pprev n v σ) x ↔ live σ x.
Proof. apply lookup_alter_is_Some. Qed.
Lemma live_upd_first σ b v x : live (upd_first b v σ) x ↔ live σ x.
Proof. done. Qed.

Lemma read_upd_next σ n v s :
  live σ n → read_slot (upd_next n v σ) s = if decide (s = SNext n) then Some v else read_slot σ s.
Proof.
  intros [c Hc]. case_decide as H; [subst; by rw /= lookup_alter_eq Hc|].
  destruct s as [b|m]; [done|]. rw /= lookup_alter_ne //. congruence.
Qed.
Lemma read_upd_pprev σ n v s : read_slot (upd_pprev n v σ) s = read_slot σ s.
Proof.
  destruct s as [b|m]; simpl; [done|]. rw lookup_alter. case_decide; [subst|done].
  by destruct (hh_nodes σ !! _).
Qed.
Lemma read_upd_first σ b v s :
  (b < length (hh_first σ))%nat →
  read_slot (upd_first b v σ) s = if decide (s = SFirst b) then Some v else read_slot σ s.
Proof.
  intros Hb. case_decide as H; [subst; by rw /= list_lookup_insert_eq|].
  destruct s as [b'|m]; [|done]. rw /= list_lookup_insert_ne //. congruence.
Qed.
Lemma read_upd_next_ne σ n v s : live σ n → s ≠ SNext n → read_slot (upd_next n v σ) s = read_slot σ s.
Proof. intros H ?. rw read_upd_next //. by case_decide. Qed.
Lemma read_upd_first_ne σ b v s :
  (b < length (hh_first σ))%nat → s ≠ SFirst b → read_slot (upd_first b v σ) s = read_slot σ s.
Proof. intros H ?. rw read_upd_first //. by case_decide. Qed.
Lemma pprev_upd_next σ n v x : pprev_of (upd_next n v σ) x = pprev_of σ x.
Proof.
  rw /pprev_of /= lookup_alter. case_decide; [subst|done]. by destruct (hh_nodes σ !! _).
Qed.
Lemma pprev_upd_pprev σ n v x :
  live σ n → pprev_of (upd_pprev n v σ) x = if decide (x = n) then Some v else pprev_of σ x.
Proof.
  intros [c Hc]. rw /pprev_of /= lookup_alter. case_decide; subst.
  - by rw Hc decide_True.
  - rw decide_False //.
Qed.
Lemma pprev_upd_first σ b v x : pprev_of (upd_first b v σ) x = pprev_of σ x.
Proof. done. Qed.

Lemma wp_node_deref n σ c (Q : hlist_node → hheap → Prop) :
  hh_nodes σ !! n = Some c → Q c σ → wp (deref (Some n)) Q σ.
Proof. rw /wp /deref. by intros ->. Qed.

Lemma wp_node_set_next n v σ (Q : unit → hheap → Prop) :
  live σ n → Q tt (upd_next n v σ) → wp (set_next n v) Q σ.
Proof.
  intros [c Hc] HQ. apply wp_bind, (wp_node_deref _ _ c), wp_modify; [done|].
  by rw /upd_next (alter_alt_Some _ _ _ c) in HQ.
Qed.
Lemma wp_node_set_pprev n v σ (Q : unit → hheap → Prop) :
  live σ n → Q tt (upd_pprev n v σ) → wp (set_pprev n v) Q σ.
Proof.
  intros [c Hc] HQ. apply wp_bind, (wp_node_deref _ _ c), wp_modify; [done|].
  by rw /upd_pprev (alter_alt_Some _ _ _ c) in HQ.
Qed.
Lemma wp_read_first b p σ (Q : option node → hheap → Prop) :
  hh_first σ !! b = Some p → Q p σ → wp (read_first b) Q σ.
Proof. rw /wp /read_first. by intros ->. Qed.
Lemma wp_set_first b v σ (Q : unit → hheap → Prop) :
  (b < length (hh_first σ))%nat → Q tt (upd_first b v σ) → wp (set_first b v) Q σ.
Proof.
  intros [p Hp]%lookup_lt_is_Some HQ. apply wp_bind, (wp_read_first _ p); [done|].
  by apply wp_modify.
Qed.

(** ** Lemmas: chains *)
Lemma hchain_ext σ σ' s l :
  (∀ t, t = s ∨ (∃ x, x ∈ l ∧ t = SNext x) → read_slot σ' t = read_slot σ t) →
  (∀ x, x ∈ l → pprev_of σ' x = pprev_of σ x) →
  hchain σ s l → hchain σ' s l.
Proof.
  revert s. induction l as [|x l IH]; intros s Hr Hp; simpl.
  - rw Hr //. by left.
  - intros (H1 & H2 & H3). rw Hr; [by left|]. rw Hp; [by left|]. split_and!; [done..|].
    apply IH; [|by intros; apply Hp; right|done].
    intros t [->|(y & Hy & ->)]; apply Hr; right; eexists; split; try done; [by left|by right].
Qed.

Lemma hchain_live σ s l x : hchain σ s l → x ∈ l → live σ x.
Proof.
  revert s. induction l as [|y l IH]; intros s; [set_solver|].
  intros (_ & Hp & Hc) [->|Hx]%elem_of_cons; [|by eapply IH].
  rw /pprev_of in Hp. rw /live. destruct (hh_nodes σ !! y); [by eexists|done].
Qed.

(** The slot that holds the pointer to what follows [l1] in a chain from [s]. *)
Definition end_slot (s : slot) (l1 : list node) : slot :=
  match last l1 with None => s | Some x => SNext x end.

Lemma end_slot_cons s x l : end_slot s (x :: l) = end_slot (SNext x) l.
Proof. rw /end_slot. by destruct l as [|y l] using rev_ind; [|rw app_comm_cons !last_snoc]. Qed.

(** Removing the element that follows [l1]: one slot and at most one [pprev] change. *)
Lemma hchain_unlink σ σ' s l1 n l2 :
  hchain σ s (l1 ++ n :: l2) → NoDup (l1 ++ n :: l2) → (∀ x, s = SNext x → x ∉ l1 ++ n :: l2) →
  (∀ t, t ≠ end_slot s l1 → t ≠ SNext n → read_slot σ' t = read_slot σ t) →
  read_slot σ' (end_slot s l1) = read_slot σ (SNext n) →
  (∀ x, x ≠ n → Some x ≠ head l2 → pprev_of σ' x = pprev_of σ x) →
  (∀ x, head l2 = Some x → pprev_of σ' x = Some (Some (end_slot s l1))) →
  hchain σ' s (l1 ++ l2).
Proof.
  revert s. induction l1 as [|y l1 IH]; intros s Hc Hnd Hs Hr He Hp Hh.
  - cbn [app] in *. change (end_slot s []) with s in *. destruct Hc as (H1 & H2 & H3).
    apply NoDup_cons in Hnd as [Hn Hnd]. destruct l2 as [|z l2].
    + simpl. by rw He.
    + destruct H3 as (H3 & H4 & H5). apply NoDup_cons in Hnd as [Hz Hnd].
      split_and!; [by rw He|by apply Hh|].
      eapply hchain_ext, H5.
      * intros t Ht. apply Hr.
        -- intros ->. destruct Ht as [Ht|(x & Hx & Ht)]; (eapply Hs; [done|]); set_solver.
        -- intros ->. destruct Ht as [[= ->]|(x & Hx & [= ->])]; set_solver.
      * intros x Hx. apply Hp; [set_solver|]. simpl. intros [= ->]. done.
  - rw end_slot_cons in Hr He Hh. cbn [app] in *. destruct Hc as (H1 & H2 & H3).
    apply NoDup_cons in Hnd as [Hy Hnd].
    assert (Hs' : s ≠ end_slot (SNext y) l1).
    { rw /end_slot. intros ->. destruct (last l1) as [z|] eqn:Hz.
      - apply last_Some in Hz as [l' ->]. eapply Hs; [done|]. set_solver.
      - eapply Hs; [done|]. by left. }
    split_and!.
    + rw Hr //. intros ->. eapply Hs; [done|]. set_solver.
    + rw Hp //; [set_solver|]. destruct l2; simpl; [done|]. intros [= ->]. set_solver.
    + apply IH; [done..| |done|done|done|done]. intros x [= <-]. done.
Qed.

(** Pushing an element in front of the chain of slot [s]. *)
Lemma hchain_push σ σ' s n l :
  hchain σ s l → NoDup l →
  read_slot σ' s = Some (Some n) → pprev_of σ' n = Some (Some s) →
  read_slot σ' (SNext n) = Some (head l) →
  (∀ x, head l = Some x → pprev_of σ' x = Some (Some (SNext n))) →
  (∀ x, x ∈ l → read_slot σ' (SNext x) = read_slot σ (SNext x)) →
  (∀ x, x ∈ l → Some x ≠ head l → pprev_of σ' x = pprev_of σ x) →
  hchain σ' s (n :: l).
Proof.
  intros Hc Hnd H1 H2 H3 H4 H5 H6. split_and!; [done..|].
  destruct l as [|f l]; [done|]. destruct Hc as (_ & _ & Hc).
  apply NoDup_cons in Hnd as [Hf Hnd]. split_and!; [done|by apply H4|].
  eapply hchain_ext, Hc.
  - intros t [->|(x & Hx & ->)]; apply H5; [by left|by right].
  - intros x Hx. apply H6; [by right|]. intros [= ->]. done.
Qed.

(** ** Lemmas: the table *)
Lemma represents_bucket σ ht b l : represents σ ht → ht !! b = Some l → hchain σ (SFirst b) l.
Proof. intros (_ & H & _). apply H. Qed.

Lemma represents_live σ ht n : represents σ ht → n ∈ concat ht → live σ n.
Proof.
  intros (_ & Hc & _) (b & l & Hb & Hn)%elem_of_concat. eapply hchain_live; [by apply Hc|done].
Qed.

Lemma represents_lt σ ht b l : represents σ ht → ht !! b = Some l → (b < length (hh_first σ))%nat.
Proof. intros (-> & _ & _) Hb. by eapply lookup_lt_Some. Qed.

Definition write_upd (t : slot) (v : option node) (σ : hheap) : hheap :=
  match t with SFirst b => upd_first b v σ | SNext m => upd_next m v σ end.

(** [t] is a slot of the heap. *)
Definition slot_ok (σ : hheap) (t : slot) : Prop :=
  match t with SFirst b => (b < length (hh_first σ))%nat | SNext m => live σ m end.

Lemma wp_write_slot t v σ (Q : unit → hheap → Prop) :
  slot_ok σ t → Q tt (write_upd t v σ) → wp (write_slot (Some t) v) Q σ.
Proof. destruct t; simpl; [apply wp_set_first|apply wp_node_set_next]. Qed.

Lemma read_write_upd σ t v t' :
  slot_ok σ t → read_slot (write_upd t v σ) t' = if decide (t' = t) then Some v else read_slot σ t'.
Proof. destruct t; simpl; [apply read_upd_first|apply read_upd_next]. Qed.
Lemma pprev_write_upd σ t v x : pprev_of (write_upd t v σ) x = pprev_of σ x.
Proof. destruct t; simpl; [apply pprev_upd_first|apply pprev_upd_next]. Qed.
Lemma live_write_upd σ t v x : live (write_upd t v σ) x ↔ live σ x.
Proof. destruct t; simpl; [apply live_upd_first|apply live_upd_next]. Qed.
Lemma first_write_upd σ t v : length (hh_first (write_upd t v σ)) = length (hh_first σ).
Proof. destruct t; simpl; by rw ?length_insert. Qed.

(** What both [hlist_add_head] and [__hlist_del] do to the neighbour: the slot [t]
    points to [v], and the [pprev] of [v], unless it is NULL, to the slot [u]. *)
Definition repoint (t : slot) (v : option node) (u : slot) (σ : hheap) : hheap :=
  let σ1 := write_upd t v σ in
  match v with Some x => upd_pprev x (Some u) σ1 | None => σ1 end.

Lemma live_repoint t v u σ x : live (repoint t v u σ) x ↔ live σ x.
Proof. rw /repoint. destruct v; by rw ?live_upd_pprev live_write_upd. Qed.
Lemma first_repoint t v u σ : length (hh_first (repoint t v u σ)) = length (hh_first σ).
Proof. rw /repoint. destruct v; by rw /= first_write_upd. Qed.
Lemma read_repoint t v u σ t' :
  slot_ok σ t → read_slot (repoint t v u σ) t' = if decide (t' = t) then Some v else read_slot σ t'.
Proof. intros Ht. rw /repoint. destruct v; rw ?read_upd_pprev read_write_upd //. Qed.
Lemma pprev_repoint t v u σ x :
  (∀ y, v = Some y → live σ y) →
  pprev_of (repoint t v u σ) x = if decide (Some x = v) then Some (Some u) else pprev_of σ x.
Proof.
  intros Hv. rw /repoint. destruct v as [y|]; [|by rw pprev_write_upd].
  rw pprev_upd_pprev; [rw live_write_upd; by apply Hv|]. rw pprev_write_upd.
  repeat case_decide; congruence.
Qed.

Lemma set_neighbour_wp t v u σ (Q : unit → hheap → Prop) :
  (∀ y, v = Some y → live σ y) → Q tt (repoint t v u σ) →
  wp (match v with Some x => set_pprev x (Some u) | None => ret tt end) Q (write_upd t v σ).
Proof.
  intros Hv HQ. rw /repoint in HQ. destruct v as [x|]; [|by apply wp_ret].
  apply wp_node_set_pprev; [rw live_write_upd; by apply Hv|done].
Qed.

Lemma head_live σ s l f : hchain σ s l → head l = Some f → live σ f ∧ f ∈ l.
Proof.
  intros Hc Hf. assert (f ∈ l) by (destruct l; simplify_eq/=; by left).
  split; [by eapply hchain_live|done].
Qed.

(** Pushing, from its effect on the slots and on the [pprev] fields. *)
Lemma represents_push σ σ' ht b l n :
  represents σ ht → ht !! b = Some l → n ∉ concat ht →
  length (hh_first σ') = length (hh_first σ) →
  (∀ t, read_slot σ' t = if decide (t = SFirst b) then Some (Some n)
                         else if decide (t = SNext n) then Some (head l) else read_slot σ t) →
  (∀ x, pprev_of σ' x = if decide (x = n) then Some (Some (SFirst b))
                        else if decide (Some x = head l) then Some (Some (SNext n)) else pprev_of σ x) →
  represents σ' (<[b := n :: l]> ht).
Proof.
  intros Hrep Hb Hnin Hlen' Hread Hpr. pose proof (represents_bucket _ _ _ _ Hrep Hb) as Hcb.
  destruct Hrep as (Hlen & Hchain & Hnd).
  assert (Hin : ∀ b' l' (x : node), ht !! b' = Some l' → x ∈ l' → x ≠ n).
  { intros b' l' x Hb' Hx ->. apply Hnin, elem_of_concat. eauto. }
  split_and!; [by rw length_insert Hlen'| |rw concat_insert_cons //; by apply NoDup_cons].
  intros b' l' Hb'. destruct (decide (b' = b)) as [->|Hne].
  - rw list_lookup_insert_eq in Hb'; [by eapply lookup_lt_Some|]. injection Hb' as <-.
    eapply hchain_push; [exact Hcb|by eapply NoDup_concat_chain|by rw Hread decide_True|by rw Hpr decide_True|..].
    + rw Hread. by repeat case_decide.
    + intros x Hx. assert (x ≠ n) by (eapply Hin; [exact Hb|]; by eapply head_live).
      rw Hpr. by repeat case_decide.
    + intros x Hx. assert (SNext x ≠ SNext n) by (intros [= ->]; by eapply Hin).
      rw Hread. by repeat case_decide.
    + intros x Hx Hx'. assert (x ≠ n) by by eapply Hin. rw Hpr. by repeat case_decide.
  - rw list_lookup_insert_ne // in Hb'. eapply hchain_ext, Hchain, Hb'.
    + intros t Ht. rw Hread. case_decide; [|case_decide; [|done]]; subst t.
      * destruct Ht as [[= ?]|(x & _ & [=])]. done.
      * destruct Ht as [[=]|(x & Hx & [= <-])]. by destruct (Hin _ _ _ Hb' Hx).
    + intros x Hx. assert (x ≠ n) by by eapply Hin. rw Hpr. case_decide; [done|]. case_decide as Hx'; [|done].
      destruct Hne. eapply (NoDup_concat_bucket ht b' b l' l x); [done..|].
      destruct l; simplify_eq/=. by left.
Qed.

Lemma hlist_add_head_wp σ ht b l n :
  represents σ ht → ht !! b = Some l → live σ n → n ∉ concat ht →
  wp (hlist_add_head n b)
     (λ _ σ', represents σ' (<[b := n :: l]> ht) ∧ (∀ x, live σ' x ↔ live σ x)) σ.
Proof.
  intros Hrep Hb Hn Hnin. pose proof (represents_lt _ _ _ _ Hrep Hb) as Hlt.
  pose proof (represents_bucket _ _ _ _ Hrep Hb) as Hcb.
  assert (Hhd : hh_first σ !! b = Some (head l)) by (destruct l; [done|by destruct Hcb]).
  assert (Hf : ∀ f, head l = Some f → live σ f) by (intros f Hf; by eapply head_live).
  rw /hlist_add_head. wp_step. apply (wp_read_first _ (head l)); [done|].
  wp_step. apply wp_node_set_next; [done|]. wp_step.
  apply (set_neighbour_wp (SNext n)); [done|]. set (σ2 := repoint (SNext n) (head l) (SNext n) σ).
  assert (Hl2 : ∀ x, live σ2 x ↔ live σ x) by apply live_repoint.
  assert (Hlt2 : (b < length (hh_first σ2))%nat) by by rw first_repoint.
  wp_step. apply wp_set_first; [done|]. apply wp_node_set_pprev; [rw live_upd_first Hl2 //|].
  split; [|intros x; by rw live_upd_pprev live_upd_first].
  apply (represents_push σ); [done..| | |].
  - rw /= length_insert. apply first_repoint.
  - intros t. rw read_upd_pprev read_upd_first //. case_decide; [done|]. by rw read_repoint.
  - intros x. rw pprev_upd_pprev; [by rw live_upd_first Hl2|]. case_decide; [done|].
    rw pprev_upd_first. by apply pprev_repoint.
Qed.

Lemma hchain_node σ s l1 n l2 :
  hchain σ s (l1 ++ n :: l2) →
  pprev_of σ n = Some (Some (end_slot s l1)) ∧ read_slot σ (SNext n) = Some (head l2).
Proof.
  revert s. induction l1 as [|y l1 IH]; intros s.
  - intros (_ & Hp & Hc). split; [done|]. destruct l2; [done|by destruct Hc].
  - rw end_slot_cons. intros (_ & _ & Hc). by apply IH.
Qed.

Lemma end_slot_ok σ ht b l1 l2 :
  represents σ ht → ht !! b = Some (l1 ++ l2) → slot_ok σ (end_slot (SFirst b) l1).
Proof.
  intros Hrep Hb. rw /end_slot. destruct (last l1) as [x|] eqn:Hx; simpl.
  - eapply hchain_live; [by eapply represents_bucket|].
    apply last_Some in Hx as [l' ->]. set_solver.
  - by eapply represents_lt.
Qed.

Lemma end_slot_SNext b l1 x : end_slot (SFirst b) l1 = SNext x → x ∈ l1.
Proof.
  rw /end_slot. destruct (last l1) as [y|] eqn:E; [|done]. intros [= ->].
  apply last_Some in E as [l' ->]. set_solver.
Qed.
Lemma end_slot_SFirst b b' l1 : end_slot (SFirst b) l1 = SFirst b' → b' = b.
Proof. rw /end_slot. by destruct (last l1); [|intros [= ->]]. Qed.

Lemma unlink_notin (n : node) (l : list node) : n ∉ l → filter (λ x, x ≠ n) l = l.
Proof.
  induction l as [|x l IH]; [done|]. intros [??]%not_elem_of_cons.
  rw filter_cons_True //. by rw IH.
Qed.

Lemma unlink_split ht b l1 n l2 :
  NoDup (concat ht) → ht !! b = Some (l1 ++ n :: l2) → unlink n ht = <[b := l1 ++ l2]> ht.
Proof.
  intros Hnd Hb. apply list_eq. intros b'. rw list_lookup_fmap.
  destruct (decide (b' = b)) as [->|Hne].
  - rw list_lookup_insert_eq; [by eapply lookup_lt_Some|]. rw Hb /=. f_equal.
    pose proof (NoDup_concat_chain _ _ _ Hnd Hb) as Hndl.
    rw -Permutation_middle in Hndl. apply NoDup_cons in Hndl as [Hn _].
    rw filter_app filter_cons_False; [by intros H|]. rw !unlink_notin //; set_solver.
  - rw list_lookup_insert_ne //. destruct (ht !! b') as [l'|] eqn:E; [|done]. simpl. f_equal.
    apply unlink_notin. intros Hn. apply Hne. eapply (NoDup_concat_bucket ht b' b); try done.
    set_solver.
Qed.

Lemma concat_unlink n ht : concat (unlink n ht) = filter (λ x, x ≠ n) (concat ht).
Proof. apply concat_map_filter. Qed.

(** Unlinking, from its effect on the slots and on the [pprev] fields. *)
Lemma represents_unlink σ σ' ht b l1 n l2 :
  let t := end_slot (SFirst b) l1 in
  represents σ ht → ht !! b = Some (l1 ++ n :: l2) →
  length (hh_first σ') = length (hh_first σ) →
  (∀ t', t' ≠ SNext n → read_slot σ' t' = if decide (t' = t) then Some (head l2) else read_slot σ t') →
  (∀ x, x ≠ n → pprev_of σ' x = if decide (Some x = head l2) then Some (Some t) else pprev_of σ x) →
  represents σ' (unlink n ht).
Proof.
  intros t Hrep Hb Hlen' Hread Hpr.
  pose proof (represents_bucket _ _ _ _ Hrep Hb) as Hcb.
  pose proof (hchain_node _ _ _ _ _ Hcb) as [_ Hnx].
  destruct Hrep as (Hlen & Hchain & Hnd). pose proof (NoDup_concat_chain _ _ _ Hnd Hb) as Hndl.
  assert (Hnin : n ∉ l1 ++ l2) by (rw -Permutation_middle in Hndl; by apply NoDup_cons in Hndl as [??]).
  assert (Htn : t ≠ SNext n) by (intros Hin%end_slot_SNext; set_solver).
  split_and!; [by rw length_map Hlen'| |rw concat_unlink; by apply NoDup_filter].
  intros b' l'. rw (unlink_split _ b l1 n l2) // => Hb'.
  destruct (decide (b' = b)) as [->|Hne].
  - rw list_lookup_insert_eq in Hb'; [by eapply lookup_lt_Some|]. injection Hb' as <-.
    eapply hchain_unlink; [exact Hcb|done|done|..].
    + intros t' H1 H2. rw Hread //. by case_decide.
    + rw Hread // decide_True //.
    + intros x H1 H2. rw Hpr //. by case_decide.
    + intros x Hx. assert (x ∈ l2) by (destruct l2; simplify_eq/=; by left).
      rw Hpr; [set_solver|]. rw decide_True //.
  - rw list_lookup_insert_ne // in Hb'.
    assert (Hdisj : ∀ x, x ∈ l' → x ∉ l1 ++ n :: l2).
    { intros x H1 H2. apply Hne. by eapply (NoDup_concat_bucket ht b' b). }
    eapply hchain_ext, Hchain, Hb'.
    + intros t' Ht'. rw Hread.
      * intros ->. destruct Ht' as [[=]|(x & Hx & [= <-])]. apply (Hdisj _ Hx). set_solver.
      * case_decide as E; [|done]. subst t'. destruct Ht' as [E|(x & Hx & E)].
        -- by apply end_slot_SFirst in E.
        -- apply end_slot_SNext in E. destruct (Hdisj _ Hx). set_solver.
    + intros x Hx. rw Hpr; [intros ->; apply (Hdisj _ Hx); set_solver|].
      case_decide as E; [|done]. destruct (Hdisj _ Hx), l2; simplify_eq/=. set_solver.
Qed.

Lemma hash_del_wp σ ht n :
  represents σ ht → n ∈ concat ht →
  wp (hash_del n)
     (λ _ σ', represents σ' (unlink n ht) ∧ hh_nodes σ' !! n = Some (HNode None None) ∧
              (∀ x, live σ' x ↔ live σ x)) σ.
Proof.
  intros Hrep (b & l & Hb & (l1 & l2 & ->)%list_elem_of_split)%elem_of_concat.
  pose proof (represents_bucket _ _ _ _ Hrep Hb) as Hcb.
  pose proof (hchain_node _ _ _ _ _ Hcb) as [Hpp Hnx].
  pose proof (end_slot_ok _ _ _ _ _ Hrep Hb) as Hok.
  pose proof Hrep as (_ & _ & Hnd). pose proof (NoDup_concat_chain _ _ _ Hnd Hb) as Hndl.
  assert (Hnin : n ∉ l1 ++ l2) by (rw -Permutation_middle in Hndl; by apply NoDup_cons in Hndl as [??]).
  assert (Hln : live σ n) by (eapply hchain_live; [exact Hcb|set_solver]).
  pose proof Hln as [c Hc]. rw /pprev_of /= Hc /= in Hpp Hnx.
  injection Hpp as Hpp. injection Hnx as Hnx.
  set (t := end_slot (SFirst b) l1) in *.
  assert (Htn : t ≠ SNext n) by (intros Hin%end_slot_SNext; set_solver).
  assert (Hh2 : ∀ x, head l2 = Some x → live σ x).
  { intros x Hx. eapply hchain_live; [exact Hcb|]. destruct l2; simplify_eq/=. set_solver. }
  rw /hash_del /hlist_del_init /hlist_unhashed. wp_step. wp_step. apply (wp_node_deref _ _ c); [done|].
  apply wp_ret. rw Hpp. wp_step. rw /__hlist_del. wp_step. apply (wp_node_deref _ _ c); [done|].
  rw Hpp Hnx. wp_step. apply wp_write_slot; [done|]. apply (set_neighbour_wp t); [done|].
  set (σ2 := repoint t (head l2) t σ).
  assert (Hlive2 : ∀ x, live σ2 x ↔ live σ x) by apply live_repoint.
  rw /INIT_HLIST_NODE. wp_step. apply wp_node_set_next; [by apply Hlive2|].
  apply wp_node_set_pprev; [rw live_upd_next; by apply Hlive2|]. split_and!.
  - apply (represents_unlink σ _ _ b l1 n l2); [done..|apply first_repoint| |].
    + intros t' Ht'. rw read_upd_pprev read_upd_next_ne //; [by apply Hlive2|]. by rw read_repoint.
    + intros x Hx. rw pprev_upd_pprev; [rw live_upd_next; by apply Hlive2|].
      rw decide_False // pprev_upd_next. by apply pprev_repoint.
  - destruct (proj2 (Hlive2 n) Hln) as [d Hd]. rw /= lookup_alter_eq lookup_alter_eq Hd //.
  - intros x. by rw live_upd_pprev live_upd_next.
Qed.

(** [free] of the structure that embeds the node. *)
Definition free (n : node) : M hheap unit :=
  deref (Some n) ;;; modify (λ σ, HHeap (hh_first σ) (delete n (hh_nodes σ))).

(** The traversal of one bucket that unlinks and frees the entries satisfying
    [P]: the inner loop of [file_table_destroy] and [file_table_delete_owner]. *)
Definition bucket_remove_if (P : node → bool) (fuel bkt : nat) : M hheap (option unit) :=
  hlist_for_each_entry_safe fuel bkt (λ n _, if P n then hash_del n ;;; free n else ret tt) tt.

Lemma represents_free σ ht n :
  represents σ ht → n ∉ concat ht → represents (HHeap (hh_first σ) (delete n (hh_nodes σ))) ht.
Proof.
  intros (Hlen & Hchain & Hnd) Hn. split_and!; [done| |done].
  intros b l Hb. eapply hchain_ext, Hchain, Hb.
  - intros t Ht. destruct t as [b'|m]; [done|]. simpl. rw lookup_delete_ne //.
    intros ->. destruct Ht as [[=]|(x & Hx & [= ->])]. apply Hn, elem_of_concat; eauto.
  - intros x Hx. rw /pprev_of /= lookup_delete_ne //. intros ->. apply Hn, elem_of_concat; eauto.
Qed.

Lemma bucket_remove_if_from_spec (P : node → bool) b keep rest σ ht :
  represents σ ht → ht !! b = Some (keep ++ rest) →
  wp (hlist_for_each_safe_from (S (length rest)) (head rest)
        (λ n _, if P n then hash_del n ;;; free n else ret tt) tt)
     (λ r σ', r = Some tt ∧
        represents σ' (<[b := keep ++ filter (λ x, P x = false) rest]> ht) ∧
        (∀ x, x ∈ rest → P x = true → ¬ live σ' x) ∧ (∀ x, live σ' x → live σ x)) σ.
Proof.
  revert keep σ ht. induction rest as [|x rest IH]; intros keep σ ht Hrep Hb.
  { apply wp_ret. rw filter_nil list_insert_id //. split_and!; [done..|set_solver|done]. }
  cbn [hlist_for_each_safe_from length head].
  pose proof (represents_bucket _ _ _ _ Hrep Hb) as Hcb.
  pose proof (hchain_node _ _ _ _ _ Hcb) as [_ Hnx].
  assert (x ∈ concat ht) as Hxin by (apply elem_of_concat; exists b, (keep ++ x :: rest); set_solver).
  pose proof (represents_live _ _ _ Hrep Hxin) as [c Hc].
  rw /= Hc /= in Hnx. injection Hnx as Hnx.
  wp_step. apply (wp_node_deref _ _ c); [done|]. rw Hnx. apply wp_bind.
  pose proof (proj2 (proj2 Hrep)) as Hnd.
  destruct (P x) eqn:HPx.
  - apply wp_bind. eapply wp_mono; [by eapply hash_del_wp|]. intros _ σ1 (Hrep1 & Hx1 & Hlive1).
    rw /free. wp_step. apply (wp_node_deref _ _ (HNode None None)); [done|]. apply wp_modify.
    assert (Hxn : x ∉ concat (unlink x ht)).
    { rw concat_unlink. intros [? _]%list_elem_of_filter. done. }
    pose proof (represents_free _ _ _ Hrep1 Hxn) as Hrep2.
    rw (unlink_split ht b keep x rest) // in Hrep2.
    eapply wp_mono; [eapply (IH keep); [done|]; apply list_lookup_insert_eq; by eapply lookup_lt_Some|].
    intros r σ2 (-> & Hrep3 & Hfree & Hmono). rw list_insert_insert_eq in Hrep3.
    assert (Hmono' : ∀ z, live σ2 z → live σ1 z ∧ z ≠ x).
    { intros z Hz%Hmono. rw /live /= lookup_delete_is_Some in Hz. by destruct Hz. }
    rw filter_cons_False; [congruence|]. split_and!; [done..| |].
    + intros z [->|Hz]%elem_of_cons HPz; [|by apply Hfree]. by intros [_ ?]%Hmono'.
    + intros z [Hz _]%Hmono'. by apply Hlive1.
  - apply wp_ret. eapply wp_mono; [apply (IH (keep ++ [x])); [done|by rw -app_assoc]|].
    intros r σ2 (-> & Hrep3 & Hfree & Hmono). split; [done|].
    rw filter_cons_True //. rw -app_assoc /= in Hrep3. split_and!; [done| |done].
    intros z [->|Hz]%elem_of_cons HPz; [congruence|by apply Hfree].
Qed.

Lemma hash_init_wp sz σ :
  length (hh_first σ) = sz →
  wp (__hash_init sz)
     (λ _ σ', represents σ' (replicate sz []) ∧ hh_nodes σ' = hh_nodes σ) σ.
Proof.
  intros Hlen. rw /__hash_init.
  eapply wp_mono.
  { apply (wp_for_each _ (λ done _ σ', length (hh_first σ') = sz ∧ hh_nodes σ' = hh_nodes σ ∧
                            ∀ b, b ∈ done → hh_first σ' !! b = Some None) (seq 0 sz) []).
    - split_and!; [done..|set_solver].
    - intros pre x post [] s Heq (Hl & Hn & Hd). apply wp_set_first.
      { rw Hl. assert (x ∈ seq 0 sz) as Hx by (simpl in Heq; rw Heq; set_solver).
        apply elem_of_seq in Hx. lia. }
      split_and!; [by rw /= length_insert|done|].
      intros b. rw elem_of_app list_elem_of_singleton. intros Hb.
      destruct (decide (x = b)) as [->|Hne]; simpl.
      + apply list_lookup_insert_eq. rw Hl. assert (b ∈ seq 0 sz) as Hx by (simpl in Heq; rw Heq; set_solver).
        apply elem_of_seq in Hx. lia.
      + rw list_lookup_insert_ne //. apply Hd. destruct Hb; [done|congruence]. }
  intros [] σ' (Hl & Hn & Hd). split; [|done]. split_and!.
  - by rw length_replicate.
  - intros b l [-> Hb]%lookup_replicate. simpl. apply Hd, elem_of_seq. lia.
  - clear. induction sz as [|sz IH]; [constructor|done].
Qed.

(** ** Theorems *)

(** C36. The hash-table macros implement a table of buckets.  On a heap that
    represents the buckets [ht] (one per array slot, no node twice):
    [hash_add] of a live node that is not in the table pushes it in front of
    bucket [hash_min key HASH_BITS] and of no other; [hash_del] of a node of the
    table removes it from its bucket, leaves both its pointers NULL, and a
    second [hash_del] of it changes nothing.  Neither faults. *)
Theorem hash_add_del_correct σ ht n key :
  represents σ ht → Z.of_nat (length ht) = HASH_SIZE →
  (live σ n → n ∉ concat ht →
   wp (hash_add n key) (λ _ σ', ∃ l, ht !! Z.to_nat (hash_min key HASH_BITS) = Some l ∧
       represents σ' (<[Z.to_nat (hash_min key HASH_BITS) := n :: l]> ht)) σ) ∧
  (n ∈ concat ht →
   wp (hash_del n) (λ _ σ', represents σ' (unlink n ht) ∧
       hh_nodes σ' !! n = Some (HNode None None) ∧ hash_del n σ' = Ok (tt, σ')) σ).
Proof.
  intros Hrep Hlen. split.
  - intros Hlive Hn.
    assert (Hlt : (Z.to_nat (hash_min key HASH_BITS) < length ht)%nat).
    { pose proof (hash_min_range key). lia. }
    apply lookup_lt_is_Some in Hlt as [l Hl].
    eapply wp_mono; [by eapply hlist_add_head_wp|]. intros _ σ' [Hrep' _]. by exists l.
  - intros Hn. eapply wp_mono; [by eapply hash_del_wp|]. intros _ σ' (Hrep' & Hn' & _).
    split_and!; [done..|].
    rw /hash_del /hlist_del_init /hlist_unhashed /bind /deref Hn' //.
Qed.

(** A table of the size of the file table with node 7 in bucket 5. *)
Definition table1 : hheap :=
  HHeap (<[5%nat := Some 7%nat]> (replicate 4096 None))
        {[ 7%nat := HNode None (Some (SFirst 5)); 8%nat := HNode None None ]}.
Definition buckets1 : list (list node) := <[5%nat := [7%nat]]> (replicate 4096 []).

Lemma table1_represents : represents table1 buckets1.
Proof.
  split_and!.
  - reflexivity.
  - intros b l Hb. rw /buckets1 list_lookup_insert in Hb. case_decide as H.
    + destruct H as [<- _]. injection Hb as <-. repeat split; reflexivity.
    + apply lookup_replicate in Hb as [-> Hb]. cbn [hchain read_slot table1 hh_first].
      rw list_lookup_insert_ne; [|by apply lookup_replicate_2].
      intros <-. apply H. split; [done|]. rw length_replicate. lia.
  - rw (concat_insert_cons (replicate 4096 []) 5 [] 7%nat) //.
    replace (concat (replicate 4096 [])) with (@nil node) by reflexivity.
    by apply NoDup_singleton.
Qed.

Lemma hash_add_del_correct_witness :
  wp (hash_del 7%nat) (λ _ σ', represents σ' (unlink 7 buckets1) ∧
       hh_nodes σ' !! 7%nat = Some (HNode None None) ∧ hash_del 7%nat σ' = Ok (tt, σ')) table1.
Proof.
  apply (hash_add_del_correct table1 buckets1 7%nat 0); [apply table1_represents|reflexivity|].
  apply elem_of_concat. exists 5%nat, [7%nat]. split; [reflexivity|set_solver].
Defined.

(** [hash_init] empties a table of any contents, and the safe traversal of
    a bucket whose body unlinks and frees the entries satisfying [P] ends within
    one more turn than the bucket has entries, never reads a freed entry, keeps
    exactly the entries not satisfying [P], in order, and frees the others. *)
Theorem hash_init_and_sweep_correct σ ht b l (P : node → bool) :
  represents σ ht → ht !! b = Some l →
  wp (__hash_init (length ht))
     (λ _ σ', represents σ' (replicate (length ht) []) ∧ hh_nodes σ' = hh_nodes σ) σ ∧
  wp (bucket_remove_if P (S (length l)) b)
     (λ r σ', r = Some tt ∧ represents σ' (<[b := filter (λ x, P x = false) l]> ht) ∧
        (∀ x, x ∈ l → P x = true → ¬ live σ' x)) σ.
Proof.
  intros Hrep Hb. split.
  - apply hash_init_wp, (proj1 Hrep).
  - pose proof (represents_bucket _ _ _ _ Hrep Hb) as Hcb.
    rw /bucket_remove_if /hlist_for_each_entry_safe. wp_step.
    apply (wp_read_first _ (head l)); [destruct l; [done|by destruct Hcb]|].
    eapply wp_mono; [by apply (bucket_remove_if_from_spec P b [] l)|].
    intros r σ' (-> & ? & ? & _). done.
Qed.

Lemma hash_init_and_sweep_correct_witness :
  wp (bucket_remove_if (Nat.eqb 7) 2 5%nat)
     (λ r σ', r = Some tt ∧
        represents σ' (<[5%nat := filter (λ x, (7 =? x)%nat = false) [7%nat]]> buckets1) ∧
        (∀ x, x ∈ [7%nat] → (7 =? x)%nat = true → ¬ live σ' x)) table1.
Proof.
  apply (hash_init_and_sweep_correct table1 buckets1 5%nat [7%nat] (Nat.eqb 7));
    [apply table1_represents|reflexivity].
Defined.

