(* ===== verification/TransTable.v ===== *)
(** * TransTable: the file table as it is sent between the machines

    [include/trans_file_table.h] and [include/consts.h]: the entries and the
    fixed array of a [struct trans_file_table].  A name is the list of the bytes
    of the C string before its NUL.  Of the array of 4096 entries only a prefix
    is represented; the entries beyond it are all-zero memory. *)
From S2P Require Import Prelude.

(** ** include/consts.h *)
Definition MAX_PEER_ENTRIES : nat := 16.
Definition MAX_FILE_ENTRIES : Z := 4096.
Definition MAX_NAME_LEN : nat := 128.
Definition MAX_PKT_DATA_LEN : Z := Z.shiftl 2 15.
Definition P2P_PORT : Z := 4192.

(** ** Enumerations, and their values on the wire *)
Inductive file_type : Set := REGULAR | DIRECTORY | SOFT_LINK.
Definition file_type_code (t : file_type) : Z :=
  match t with REGULAR => 0 | DIRECTORY => 1 | SOFT_LINK => 2 end.

Inductive operation_type : Set := FILE_NONE | FILE_ADD | FILE_DELETE | FILE_MODIFY.
Definition op_code (o : operation_type) : Z :=
  match o with FILE_NONE => 0 | FILE_ADD => 1 | FILE_DELETE => 2 | FILE_MODIFY => 3 end.
(** The [case] of a [switch] a value selects; [None] is [default]. *)
Definition op_of (z : Z) : option operation_type :=
  if z =? 0 then Some FILE_NONE else if z =? 1 then Some FILE_ADD
  else if z =? 2 then Some FILE_DELETE else if z =? 3 then Some FILE_MODIFY else None.

(** ** Entries *)
Record peer_id := PeerId { ip : Z; port : Z }.
#[export] Instance peer_id_eq_dec : EqDecision peer_id.
Proof. solve_decision. Defined.

Record trans_file_entry := TransEntry {
  te_name : list Z;
  te_timestamp : Z;            (** uint64_t *)
  te_op_type : Z;              (** uint16_t *)
  te_file_type : Z;            (** uint16_t *)
  te_owner_n : Z;              (** uint16_t *)
  te_owners : list peer_id     (** MAX_PEER_ENTRIES of them *)
}.

(** [bzero(te, sizeof(struct trans_file_entry))] *)
Definition zero_owners : list peer_id := replicate MAX_PEER_ENTRIES (PeerId 0 0).
Definition zero_entry : trans_file_entry := TransEntry [] 0 0 0 0 zero_owners.

Definition set_op_type (op : operation_type) (te : trans_file_entry) : trans_file_entry :=
  TransEntry (te_name te) (te_timestamp te) (op_code op) (te_file_type te) (te_owner_n te) (te_owners te).

(** [te->owners[te->owner_n].ip = ip; .port = port; te->owner_n++]; [None] is a
    write past the array. *)
Definition push_owner (p : peer_id) (te : trans_file_entry) : option trans_file_entry :=
  let i := Z.to_nat (te_owner_n te) in
  match te_owners te !! i with
  | None => None
  | Some _ => Some (TransEntry (te_name te) (te_timestamp te) (te_op_type te) (te_file_type te)
                      (u16 (te_owner_n te + 1)) (<[i := p]> (te_owners te)))
  end.

(** ** Tables *)
Record trans_file_table := TransTable {
  tft_n : Z;                                  (** int *)
  tft_entries : list trans_file_entry         (** the rest is zero *)
}.

(** [bzero(tft, sizeof(struct trans_file_table))], [calloc(1, sizeof *tft)] *)
Definition zero_table : trans_file_table := TransTable 0 [].

Definition in_table (i : Z) : bool := (0 <=? i) && (i <? MAX_FILE_ENTRIES).

(** [tft->entries[i]] *)
Definition tft_get (t : trans_file_table) (i : Z) : option trans_file_entry :=
  if in_table i then Some (default zero_entry (tft_entries t !! Z.to_nat i)) else None.

(** [tft->entries[i] = te] *)
Definition tft_set (t : trans_file_table) (i : Z) (te : trans_file_entry) : option trans_file_table :=
  if in_table i then
    let k := Z.to_nat i in
    Some (TransTable (tft_n t)
            (<[k := te]> (tft_entries t ++ replicate (S k - length (tft_entries t)) zero_entry)))
  else None.

(** [tft->entries[tft->n] = te; tft->n++] *)
Definition tft_push (t : trans_file_table) (te : trans_file_entry) : option trans_file_table :=
  t' ← tft_set t (tft_n t) te; Some (TransTable (tft_n t' + 1) (tft_entries t')).

(** A table all of whose [n] entries are represented: what the program builds. *)
Definition packed (t : trans_file_table) : Prop := tft_n t = Z.of_nat (length (tft_entries t)).

(** The entries a loop [for (i = 0; i < tft->n; i++)] visits. *)
Definition tft_visited (t : trans_file_table) : list trans_file_entry :=
  (λ i, default zero_entry (tft_entries t !! i)) <$> seq 0 (Z.to_nat (tft_n t)).

(** What the program assumes of an entry it received: the array has its size,
    the owner count does not exceed it, the owners are distinct machines. *)
Definition owners_of (te : trans_file_entry) : list peer_id := take (Z.to_nat (te_owner_n te)) (te_owners te).
Definition te_wf (te : trans_file_entry) : Prop :=
  length (te_owners te) = MAX_PEER_ENTRIES ∧ 0 ≤ te_owner_n te ≤ Z.of_nat MAX_PEER_ENTRIES.

(** ** Lemmas *)
Lemma op_of_code o : op_of (op_code o) = Some o.
Proof. by destruct o. Qed.

Lemma packed_zero : packed zero_table.
Proof. done. Qed.

Lemma packed_visited t : packed t → tft_visited t = tft_entries t.
Proof.
  intros Hp. rw /tft_visited Hp Nat2Z.id. apply list_eq. intros i.
  rw list_lookup_fmap. destruct (decide (i < length (tft_entries t))%nat) as [Hi|Hi].
  - rw lookup_seq_lt //=. by destruct (lookup_lt_is_Some_2 _ _ Hi) as [te ->].
  - rw lookup_seq_ge; [lia|]. rw lookup_ge_None_2 //. lia.
Qed.

Lemma tft_push_packed t te :
  packed t → tft_n t < MAX_FILE_ENTRIES →
  tft_push t te = Some (TransTable (tft_n t + 1) (tft_entries t ++ [te])) .
Proof.
  intros Hp Hn. rw /tft_push /tft_set /in_table Hp.
  rw (proj2 (Z.leb_le 0 _)); [lia|]. rw -Hp (proj2 (Z.ltb_lt _ _)) // Hp Nat2Z.id /=.
  do 2 f_equal. replace (S (length (tft_entries t)) - length (tft_entries t))%nat with 1%nat by lia.
  simpl. by rw insert_app_r_alt // Nat.sub_diag.
Qed.

Lemma packed_push t te : packed t → packed (TransTable (tft_n t + 1) (tft_entries t ++ [te])).
Proof. rw /packed /= length_app /=. lia. Qed.

Lemma push_owner_spec te p :
  length (te_owners te) = MAX_PEER_ENTRIES → 0 ≤ te_owner_n te < Z.of_nat MAX_PEER_ENTRIES →
  ∃ te', push_owner p te = Some te' ∧ owners_of te' = owners_of te ++ [p] ∧
    te_name te' = te_name te ∧ te_timestamp te' = te_timestamp te ∧ te_op_type te' = te_op_type te ∧
    te_file_type te' = te_file_type te ∧ te_owner_n te' = te_owner_n te + 1 ∧
    length (te_owners te') = MAX_PEER_ENTRIES.
Proof.
  intros Hlen Hn. rw /push_owner.
  assert (Hi : (Z.to_nat (te_owner_n te) < length (te_owners te))%nat) by lia.
  destruct (lookup_lt_is_Some_2 _ _ Hi) as [o ->]. eexists. split; [done|].
  assert (u16 (te_owner_n te + 1) = te_owner_n te + 1) as E.
  { apply u16_id. rw /is_u16. rw /MAX_PEER_ENTRIES in Hn. lia. }
  cbn [te_name te_timestamp te_op_type te_file_type te_owner_n te_owners].
  rw length_insert. split_and!; try done.
  rw /owners_of. cbn [te_owner_n te_owners]. rw E. replace (Z.to_nat (te_owner_n te + 1)) with (S (Z.to_nat (te_owner_n te))) by lia.
  rw (take_S_r _ _ p); [by apply list_lookup_insert_eq|].
  by rw take_insert_ge.
Qed.
