(* ===== verification/FileTable.v ===== *)
(** * FileTable: the table of known files, [file_table.c] and [include/file_table.h]

    Both the tracker and the client keep one.  [struct file_entry] objects live
    in a heap and are designated by their address, because the program keeps
    pointers to them outside the table (a download thread, the tracker's
    handlers): a use of an entry after [free] is a fault.  The chains of the
    hash table and the owner lists are lists, the view [HList] and [DList]
    justify.  The allocator's answers are part of the state, so every branch
    that checks [calloc] is modelled.  The table pointer is always the address of
    a static object and is not NULL; entry and trans-entry pointers may be. *)
From S2P Require Import Prelude Hash TransTable.

(** ** Data *)
Record file_entry := FileEntry {
  fe_name : list Z;
  fe_timestamp : Z;              (** uint64_t *)
  fe_type : Z;                   (** enum file_type *)
  fe_owners : list peer_id       (** the list hanging off [owner_head] *)
}.

(** The address of a [struct file_entry]. *)
Notation fid := nat.

Record fstate := FState {
  fs_heap : gmap fid file_entry;      (** the live entries, in the table or not *)
  fs_next : fid;                      (** addresses from here on were never used *)
  fs_n : Z;                           (** table->n *)
  fs_ht : list (list fid);            (** table->file_htable *)
  fs_calloc : list bool               (** answers of the next calls of calloc; then all succeed *)
}.

Definition set_heap (h : gmap fid file_entry) (s : fstate) : fstate :=
  FState h (fs_next s) (fs_n s) (fs_ht s) (fs_calloc s).
Definition set_ht (n : Z) (ht : list (list fid)) (s : fstate) : fstate :=
  FState (fs_heap s) (fs_next s) n ht (fs_calloc s).

(** ** The allocator and entry accesses *)
Definition calloc : M fstate bool :=
  λ s, match fs_calloc s with
       | [] => Ok (true, s)
       | ok :: rest => Ok (ok, FState (fs_heap s) (fs_next s) (fs_n s) (fs_ht s) rest)
       end.

Definition deref (p : option fid) : M fstate file_entry :=
  λ s, match p with
       | None => Fault NullDeref
       | Some i => match fs_heap s !! i with Some e => Ok (e, s) | None => Fault UseAfterFree end
       end.

Definition store (p : option fid) (e : file_entry) : M fstate unit :=
  deref p ;;; modify (λ s, set_heap (<[default 0%nat p := e]> (fs_heap s)) s).

Definition free (p : option fid) : M fstate unit :=
  deref p ;;; modify (λ s, set_heap (delete (default 0%nat p) (fs_heap s)) s).

Definition of_option {A} (o : option A) : M fstate A :=
  match o with Some a => ret a | None => fail OutOfBounds end.

(** ** Owner lists *)
Definition already_in_owners (owners : list peer_id) (o : peer_id) : bool :=
  existsb (λ p, ip p =? ip o) owners.

(** The loop of [__peer_id_list_add] from index [i], [k] turns left. *)
Fixpoint peer_id_list_add_from (k i : nat) (te : trans_file_entry) (owners : list peer_id) :
    M fstate (list peer_id) :=
  match k with
  | O => ret owners
  | S k =>
      p <- calloc ;;
      if p : bool then
        o <- of_option (te_owners te !! i) ;;
        peer_id_list_add_from k (S i) te
          (if already_in_owners owners o then owners else owners ++ [o])
      else ret owners                                                   (* break *)
  end.

Definition __peer_id_list_add (owners : list peer_id) (te : option trans_file_entry) :
    M fstate (list peer_id) :=
  match te with
  | None => ret owners
  | Some te => peer_id_list_add_from (Z.to_nat (te_owner_n te)) 0 te owners
  end.

Definition __peer_id_list_destroy (owners : list peer_id) : list peer_id := [].

Definition __peer_id_list_replace (owners : list peer_id) (te : option trans_file_entry) :
    M fstate (list peer_id) :=
  __peer_id_list_add (__peer_id_list_destroy owners) te.

Definition set_owners (e : file_entry) (owners : list peer_id) : file_entry :=
  FileEntry (fe_name e) (fe_timestamp e) (fe_type e) owners.
Definition set_timestamp (e : file_entry) (ts : Z) : file_entry :=
  FileEntry (fe_name e) ts (fe_type e) (fe_owners e).

Definition peer_id_list_replace (fe : option fid) (te : option trans_file_entry) : M fstate unit :=
  e <- deref fe ;;
  owners <- __peer_id_list_replace (fe_owners e) te ;;
  store fe (set_owners e owners).

(** ** Entries *)
Definition file_entry_alloc : M fstate (option fid) :=
  ok <- calloc ;;
  if ok : bool then
    i <- gets fs_next ;;
    modify (λ s, FState (<[i := FileEntry [] 0 0 []]> (fs_heap s)) (S i) (fs_n s) (fs_ht s) (fs_calloc s)) ;;;
    ret (Some i)
  else ret None.

Definition file_entry_add (fe : option fid) : M fstate unit :=
  match fe with
  | None => ret tt
  | Some i =>
      e <- deref fe ;;
      let b := Z.to_nat (bucket_of (fe_name e)) in
      modify (λ s, set_ht (fs_n s + 1) (<[b := i :: default [] (fs_ht s !! b)]> (fs_ht s)) s)
  end.

Definition file_entry_fill_from (fe : option fid) (te : option trans_file_entry) : M fstate unit :=
  match fe, te with
  | Some _, Some t =>
      e <- deref fe ;;
      owners <- __peer_id_list_add (fe_owners e) te ;;
      store fe (FileEntry (te_name t) (te_timestamp t) (te_file_type t) owners)
  | _, _ => ret tt
  end.

(** The trans entry is an out-parameter: the old contents in, the new out. *)
Definition trans_entry_fill_from (te : trans_file_entry) (fe : option fid) : M fstate trans_file_entry :=
  match fe with
  | None => ret te
  | Some _ =>
      e <- deref fe ;;
      for_each (fe_owners e) (λ p te, of_option (push_owner p te))
        (TransEntry (fe_name e) (fe_timestamp e) 0 (fe_type e) 0 zero_owners)
  end.

Definition file_entry_update (fe : option fid) (te : option trans_file_entry) : M fstate Z :=
  match fe, te with
  | Some _, Some t =>
      e <- deref fe ;;
      if te_timestamp t >? fe_timestamp e then
        owners <- __peer_id_list_replace (fe_owners e) te ;;
        store fe (set_owners (set_timestamp e (te_timestamp t)) owners) ;;;
        ret 0
      else if te_timestamp t =? fe_timestamp e then
        owners <- __peer_id_list_add (fe_owners e) te ;;
        store fe (set_owners e owners) ;;;
        ret 0
      else ret (-1)
  | _, _ => ret (-1)
  end.

Definition file_entry_update_timestamp (fe : option fid) (timestamp : Z) : M fstate unit :=
  e <- deref fe ;; store fe (set_timestamp e timestamp).

(** [hash_del(&fe->hlist)] on the chains. *)
Definition unlink (i : fid) (ht : list (list fid)) : list (list fid) := filter (λ x, x ≠ i) <$> ht.

Definition file_entry_delete (fe : option fid) : M fstate unit :=
  match fe with
  | None => ret tt
  | Some i =>
      e <- deref fe ;;
      store fe (set_owners e (__peer_id_list_destroy (fe_owners e))) ;;;
      modify (λ s, set_ht (fs_n s) (unlink i (fs_ht s)) s) ;;;
      free fe ;;;
      modify (λ s, set_ht (fs_n s - 1) (fs_ht s) s)
  end.

(** ** The table *)

(** [hash_for_each_possible]: the chain of one bucket. *)
Fixpoint search_chain (l : list fid) (name : list Z) : M fstate (option fid) :=
  match l with
  | [] => ret None
  | i :: l =>
      e <- deref (Some i) ;;
      if bool_decide (fe_name e = name) then ret (Some i) else search_chain l name
  end.

Definition __file_table_search (name : list Z) : M fstate (option fid) :=
  ht <- gets fs_ht ;;
  search_chain (default [] (ht !! Z.to_nat (search_bucket_of name))) name.

(** [file_table_init]; the heap and the allocator belong to the process. *)
Definition file_table_init : M fstate unit :=
  modify (λ s, set_ht 0 (replicate (Z.to_nat HASH_SIZE) []) s).

Definition file_table_find (te : trans_file_entry) : M fstate (option fid) :=
  __file_table_search (te_name te).

Definition file_table_add (te : option trans_file_entry) : M fstate (option fid) :=
  match te with
  | None => ret None
  | Some t =>
      fe <- __file_table_search (te_name t) ;;
      match fe with
      | None =>
          fe <- file_entry_alloc ;;
          match fe with
          | None => ret None
          | Some _ =>
              file_entry_fill_from fe te ;;;
              file_entry_add fe ;;;
              ret fe
          end
      | Some _ => file_entry_update fe te ;;; ret fe
      end
  end.

Definition file_table_update (te : option trans_file_entry) : M fstate Z :=
  match te with
  | None => ret (-1)
  | Some t =>
      fe <- __file_table_search (te_name t) ;;
      match fe with
      | None => ret (-1)
      | Some _ => file_entry_update fe te ;;; ret 0
      end
  end.

Definition file_table_delete (te : option trans_file_entry) : M fstate Z :=
  match te with
  | None => ret (-1)
  | Some t =>
      fe <- __file_table_search (te_name t) ;;
      match fe with
      | Some _ => file_entry_delete fe ;;; ret 0
      | None => ret (-1)
      end
  end.

(** [hash_for_each_safe]: the entries in bucket order, each chain as it is when
    the traversal starts (the bodies unlink at most the current entry). *)
Definition hash_for_each_safe {A} (body : fid → A → M fstate A) (a : A) : M fstate A :=
  ht <- gets fs_ht ;; for_each (concat ht) body a.

Definition file_table_delete_owner (ip0 : Z) : M fstate unit :=
  hash_for_each_safe (λ i _,
    e <- deref (Some i) ;;
    let owners := filter (λ p, ip p ≠ ip0) (fe_owners e) in
    store (Some i) (set_owners e owners) ;;;
    if bool_decide (owners = []) then
      modify (λ s, set_ht (fs_n s) (unlink i (fs_ht s)) s) ;;; free (Some i)
    else ret tt) tt.

Definition file_table_destroy : M fstate unit :=
  hash_for_each_safe (λ i _, file_entry_delete (Some i)) tt.

Definition trans_table_fill_from : M fstate trans_file_table :=
  hash_for_each_safe (λ i tft,
    te0 <- of_option (tft_get tft (tft_n tft)) ;;
    te <- trans_entry_fill_from te0 (Some i) ;;
    of_option (tft_push tft te)) zero_table.

(** The second loop of [has_same_owners]. *)
Fixpoint same_owners_from (l : list peer_id) (n : nat) (te : trans_file_entry) : M fstate bool :=
  match l with
  | [] => ret true
  | p :: l =>
      o <- of_option (te_owners te !! n) ;;
      if negb (ip p =? ip o) || negb (port p =? port o) then ret false
      else same_owners_from l (S n) te
  end.

Definition has_same_owners (fe : option fid) (te : option trans_file_entry) : M fstate bool :=
  match fe, te with
  | Some _, Some t =>
      e <- deref fe ;;
      if negb (Z.of_nat (length (fe_owners e)) =? te_owner_n t) then ret false
      else same_owners_from (fe_owners e) 0 t
  | _, _ => ret false
  end.

(** ** Specification: what a table is, seen from outside

    [view s] maps the name of every entry in the table to its contents;
    [merge] is the intended effect of learning of a version of a file:
    the newer version wins, the same version gains owners. *)
Definition add_owner (owners : list peer_id) (o : peer_id) : list peer_id :=
  if already_in_owners owners o then owners else owners ++ [o].
Definition add_owners (owners l : list peer_id) : list peer_id := fold_left add_owner l owners.

Definition new_entry (te : trans_file_entry) : file_entry :=
  FileEntry (te_name te) (te_timestamp te) (te_file_type te) (add_owners [] (owners_of te)).

Definition merge (te : trans_file_entry) (fe : file_entry) : file_entry :=
  if te_timestamp te >? fe_timestamp fe then
    FileEntry (fe_name fe) (te_timestamp te) (fe_type fe) (add_owners [] (owners_of te))
  else if te_timestamp te =? fe_timestamp fe then
    set_owners fe (add_owners (fe_owners fe) (owners_of te))
  else fe.

Definition drop_owner (ip0 : Z) (fe : file_entry) : option file_entry :=
  match filter (λ p, ip p ≠ ip0) (fe_owners fe) with
  | [] => None
  | owners => Some (set_owners fe owners)
  end.

(** The entries in traversal order. *)
Definition listed (s : fstate) : list fid := concat (fs_ht s).
Definition entries (s : fstate) : list file_entry := omap (λ i, fs_heap s !! i) (listed s).

Notation fview := (gmap (list Z) file_entry).
Definition view (s : fstate) : fview := list_to_map ((λ e, (fe_name e, e)) <$> entries s).

Definition owners_ok (owners : list peer_id) : Prop := NoDup (ip <$> owners).

(** The well-formedness invariant of a table. *)
Record wf (s : fstate) : Prop := {
  wf_len : Z.of_nat (length (fs_ht s)) = HASH_SIZE;
  wf_nodup : NoDup (listed s);
  wf_bucket : ∀ b l i, fs_ht s !! b = Some l → i ∈ l →
      ∃ e, fs_heap s !! i = Some e ∧ Z.to_nat (bucket_of (fe_name e)) = b;
  wf_names : ∀ i j e e', i ∈ listed s → j ∈ listed s →
      fs_heap s !! i = Some e → fs_heap s !! j = Some e' → fe_name e = fe_name e' → i = j;
  wf_fresh : ∀ i, is_Some (fs_heap s !! i) → (i < fs_next s)%nat;
  wf_owners : ∀ i e, fs_heap s !! i = Some e → owners_ok (fe_owners e)
}.

(** [table->n] counts the entries. *)
Definition counted (s : fstate) : Prop := fs_n s = Z.of_nat (length (listed s)).
(** The allocator does not fail from here on. *)
Definition no_oom (s : fstate) : Prop := fs_calloc s = [].

(** Entry [i], of contents [e], is in the table under [name]. *)
Definition entry_at (s : fstate) (name : list Z) (i : fid) (e : file_entry) : Prop :=
  i ∈ listed s ∧ fs_heap s !! i = Some e ∧ fe_name e = name.

(** ** Lemmas: the view *)
Lemma wf_listed_live s i : wf s → i ∈ listed s → ∃ e, fs_heap s !! i = Some e.
Proof.
  intros Hwf (b & l & Hb & Hi)%elem_of_concat.
  destruct (wf_bucket s Hwf _ _ _ Hb Hi) as (e & He & _). by exists e.
Qed.

Lemma elem_of_entries s e : e ∈ entries s ↔ ∃ i, i ∈ listed s ∧ fs_heap s !! i = Some e.
Proof. rw /entries list_elem_of_omap. done. Qed.

Lemma entries_names_nodup s : wf s → NoDup (fe_name <$> entries s).
Proof.
  intros Hwf. rw /entries. pose proof (wf_nodup s Hwf) as Hnd. pose proof (wf_names s Hwf) as Hn.
  revert Hnd Hn. generalize (listed s). intros l. induction l as [|i l IH]; intros Hnd Hn; [constructor|].
  apply NoDup_cons in Hnd as [Hi Hnd]. csimpl.
  assert (IH' : NoDup (fe_name <$> omap (λ i, fs_heap s !! i) l)).
  { apply IH; [done|]. intros x y e e' Hx Hy. apply Hn; by right. }
  destruct (fs_heap s !! i) as [e|] eqn:E; [|done]. csimpl. apply NoDup_cons. split; [|done].
  intros (e' & Heq & (j & Hj & He')%list_elem_of_omap)%list_elem_of_fmap.
  assert (i = j) as -> by (eapply Hn; [by left|by right|done..]). done.
Qed.

Lemma view_lookup s name e :
  wf s → view s !! name = Some e ↔ ∃ i, entry_at s name i e.
Proof.
  intros Hwf. rw /view.
  assert (Hnd : NoDup ((λ e, (fe_name e, e)) <$> entries s).*1).
  { rw -list_fmap_compose. by apply entries_names_nodup. }
  rw -elem_of_list_to_map // list_elem_of_fmap. split.
  - intros (e' & [= -> ->] & (i & ? & ?)%elem_of_entries). by exists i.
  - intros (i & ? & ? & <-). exists e. split; [done|]. apply elem_of_entries. by exists i.
Qed.

Lemma view_lookup_None s name :
  wf s → view s !! name = None ↔ ∀ i e, ¬ entry_at s name i e.
Proof.
  intros Hwf. rw eq_None_not_Some. split.
  - intros H i e He. apply H. exists e. apply view_lookup; eauto.
  - intros H [e [i He]%view_lookup]; [|done]. by eapply H.
Qed.

Lemma entry_at_inj s name i j e e' :
  wf s → entry_at s name i e → entry_at s name j e' → i = j ∧ e = e'.
Proof.
  intros Hwf (Hi & He & Hn) (Hj & He' & Hn').
  assert (i = j) as -> by (eapply (wf_names s Hwf); try done; congruence).
  split; [done|congruence].
Qed.

Lemma view_ext s s' :
  wf s → wf s' → (∀ name e, (∃ i, entry_at s name i e) ↔ (∃ i, entry_at s' name i e)) →
  view s = view s'.
Proof.
  intros H1 H2 H. apply map_eq. intros name. apply option_eq. intros e.
  rw !view_lookup //.
Qed.

(** ** Lemmas: the three elementary changes of a table *)

(** The fields a change of the allocator or of [n] does not concern. *)
Lemma wf_irrel s n c :
  wf s → wf (FState (fs_heap s) (fs_next s) n (fs_ht s) c).
Proof. by intros []; split. Qed.

Lemma view_irrel s n c : view (FState (fs_heap s) (fs_next s) n (fs_ht s) c) = view s.
Proof. done. Qed.

Lemma wf_write s i e e' :
  wf s → fs_heap s !! i = Some e → fe_name e' = fe_name e → owners_ok (fe_owners e') →
  wf (set_heap (<[i := e']> (fs_heap s)) s).
Proof.
  intros [Hl Hnd Hb Hn Hf Ho] Hi Hname Hok.
  assert (Hlook : ∀ j x, <[i := e']> (fs_heap s) !! j = Some x →
                  ∃ y, fs_heap s !! j = Some y ∧ fe_name y = fe_name x).
  { intros j x. rw lookup_insert. case_decide as Hij; [|by eauto].
    subst. intros [= <-]. by exists e. }
  split; simpl; [done|done| | | |].
  - intros b l j Hbl Hj. destruct (Hb _ _ _ Hbl Hj) as (x & Hx & Hbx).
    rw lookup_insert. case_decide as Hij; [|by eauto]. subst.
    exists e'. split; [done|]. simplify_eq. by rw Hname.
  - intros j k x y Hj Hk (x' & Hx' & <-)%Hlook (y' & Hy' & <-)%Hlook. by eapply Hn.
  - intros j [x (y & Hy & _)%Hlook]. apply Hf. by eexists.
  - intros j x. rw lookup_insert. case_decide; [by intros [= <-]|]. by apply Ho.
Qed.

Lemma view_write s name i e e' :
  wf s → entry_at s name i e → fe_name e' = name → owners_ok (fe_owners e') →
  view (set_heap (<[i := e']> (fs_heap s)) s) = <[name := e']> (view s).
Proof.
  intros Hwf He Hname Hok. pose proof He as (Hi & Hh & Hne).
  assert (Hwf' : wf (set_heap (<[i := e']> (fs_heap s)) s)).
  { eapply wf_write; try done. congruence. }
  apply map_eq. intros name'. apply option_eq. intros x. rw view_lookup //.
  rw lookup_insert. case_decide as Heq.
  - subst name'. split.
    + intros (j & Hj & Hx & Hxn). simpl in *. rw lookup_insert in Hx. case_decide as Hij.
      { congruence. }
      exfalso. apply Hij. eapply (wf_names s Hwf); try done. congruence.
    + intros [= <-]. exists i. split_and!; [done| |done]. simpl. apply lookup_insert_eq.
  - rw view_lookup //. split.
    + intros (j & Hj & Hx & Hxn). simpl in *. rw lookup_insert in Hx. case_decide as Hij; [congruence|].
      by exists j.
    + intros (j & Hj & Hx & Hxn). exists j. split_and!; [done| |done]. simpl.
      rw lookup_insert_ne //. intros ->. congruence.
Qed.

Lemma bucket_in_range s name : wf s → (Z.to_nat (bucket_of name) < length (fs_ht s))%nat.
Proof.
  intros Hwf. pose proof (wf_len s Hwf). pose proof (bucket_of_range name). lia.
Qed.

(** The state after a new entry was allocated, filled and linked. *)
Definition inserted (s : fstate) (e : file_entry) (c : list bool) : fstate :=
  let b := Z.to_nat (bucket_of (fe_name e)) in
  FState (<[fs_next s := e]> (fs_heap s)) (S (fs_next s)) (fs_n s + 1)
         (<[b := fs_next s :: default [] (fs_ht s !! b)]> (fs_ht s)) c.

Lemma listed_inserted s e c :
  wf s → listed (inserted s e c) ≡ₚ fs_next s :: listed s.
Proof.
  intros Hwf. rw /listed. cbn [fs_ht inserted].
  destruct (lookup_lt_is_Some_2 _ _ (bucket_in_range s (fe_name e) Hwf)) as [l Hl].
  rw Hl. by apply concat_insert_cons.
Qed.

Lemma next_not_listed s : wf s → fs_next s ∉ listed s.
Proof.
  intros Hwf (e & He)%wf_listed_live; [|done].
  pose proof (wf_fresh s Hwf (fs_next s) ltac:(by eexists)). lia.
Qed.

Lemma wf_inserted s e c :
  wf s → view s !! fe_name e = None → owners_ok (fe_owners e) → wf (inserted s e c).
Proof.
  intros Hwf Hnone Hok. pose proof (next_not_listed s Hwf) as Hnext.
  rw view_lookup_None // in Hnone.
  destruct (lookup_lt_is_Some_2 _ _ (bucket_in_range s (fe_name e) Hwf)) as [l Hl].
  assert (Hne : ∀ j, j ∈ listed s → fs_next s ≠ j) by (intros j Hj <-; done).
  split.
  - cbn [fs_ht inserted]. rw length_insert. exact (wf_len s Hwf).
  - rw listed_inserted //. apply NoDup_cons. split; [done|apply (wf_nodup s Hwf)].
  - simpl. rw Hl. intros b l' j Hb Hj. rw list_lookup_insert in Hb. case_decide as Heq.
    + destruct Heq as [<- _]. injection Hb as <-. apply elem_of_cons in Hj as [->|Hj].
      * exists e. by rw lookup_insert_eq.
      * rw lookup_insert_ne; [apply Hne, elem_of_concat; eauto|]. by eapply (wf_bucket s Hwf).
    + rw lookup_insert_ne; [apply Hne, elem_of_concat; eauto|]. by eapply (wf_bucket s Hwf).
  - intros i j x y Hi Hj. rw listed_inserted // in Hi. rw listed_inserted // in Hj. simpl.
    apply elem_of_cons in Hi as [->|Hi], Hj as [->|Hj]; try done.
    + rw lookup_insert_eq lookup_insert_ne; [by apply Hne|]. intros [= <-] Hy Hxy.
      destruct (Hnone j y). by split_and!.
    + rw lookup_insert_eq lookup_insert_ne; [by apply Hne|]. intros Hx [= <-] Hxy.
      destruct (Hnone i x). by split_and!.
    + rw !lookup_insert_ne; [by apply Hne..|]. by apply (wf_names s Hwf).
  - simpl. intros i. rw lookup_insert. case_decide; [lia|]. intros Hi.
    pose proof (wf_fresh s Hwf i Hi). lia.
  - simpl. intros i x. rw lookup_insert. case_decide; [by intros [= <-]|]. apply (wf_owners s Hwf).
Qed.

Lemma view_inserted s e c :
  wf s → view s !! fe_name e = None → owners_ok (fe_owners e) →
  view (inserted s e c) = <[fe_name e := e]> (view s).
Proof.
  intros Hwf Hnone Hok. pose proof (wf_inserted s e c Hwf Hnone Hok) as Hwf'.
  pose proof (next_not_listed s Hwf) as Hnext.
  apply map_eq. intros name. apply option_eq. intros x. rw view_lookup //.
  assert (Hiff : (∃ i, entry_at (inserted s e c) name i x) ↔
                 (name = fe_name e ∧ x = e) ∨ (∃ i, entry_at s name i x)).
  { split.
    - intros (i & Hi & Hx & Hn). rw listed_inserted // in Hi. simpl in Hx.
      apply elem_of_cons in Hi as [->|Hi].
      + rw lookup_insert_eq in Hx. injection Hx as ->. by left.
      + right. exists i. rw lookup_insert_ne // in Hx. congruence.
    - intros [[-> ->]|(i & Hi & Hx & Hn)].
      + exists (fs_next s). split_and!; [rw listed_inserted //; by left| |done]. apply lookup_insert_eq.
      + exists i. split_and!; [rw listed_inserted //; by right| |done]. simpl.
        rw lookup_insert_ne //. congruence. }
  rw Hiff lookup_insert. case_decide as Heq.
  - subst name. split.
    + intros [[_ ->]|[i Hi]]; [done|]. apply view_lookup_None with (i := i) (e := x) in Hnone; done.
    + intros [= <-]. by left.
  - rw view_lookup //. split; [|by right]. intros [[-> _]|?]; done.
Qed.

(** The state after an entry was unlinked and freed. *)
Definition removed (s : fstate) (i : fid) (n : Z) : fstate :=
  FState (delete i (fs_heap s)) (fs_next s) n (unlink i (fs_ht s)) (fs_calloc s).

Lemma listed_removed s i n : listed (removed s i n) = filter (λ x, x ≠ i) (listed s).
Proof. apply concat_map_filter. Qed.

Lemma wf_removed s i n : wf s → wf (removed s i n).
Proof.
  intros [Hl Hnd Hb Hn Hf Ho]. split; rw ?listed_removed /=.
  - by rw length_map.
  - by apply NoDup_filter.
  - intros b l j Hbl Hj. rw list_lookup_fmap in Hbl. destruct (fs_ht s !! b) as [l'|] eqn:E; [|done].
    injection Hbl as <-. apply list_elem_of_filter in Hj as [Hji Hj].
    rw lookup_delete_ne //. by eapply Hb.
  - intros j k x y [Hj1 Hj]%list_elem_of_filter [Hk1 Hk]%list_elem_of_filter.
    rw !lookup_delete_ne //. by apply Hn.
  - intros j [_ Hj]%lookup_delete_is_Some. by apply Hf.
  - intros j x [_ Hx]%lookup_delete_Some. by eapply Ho.
Qed.

Lemma view_removed s name i e n :
  wf s → entry_at s name i e → view (removed s i n) = delete name (view s).
Proof.
  intros Hwf He. pose proof (wf_removed s i n Hwf) as Hwf'. pose proof He as (Hi & Hh & Hne).
  apply map_eq. intros name'. apply option_eq. intros x. rw view_lookup //.
  rw lookup_delete_Some view_lookup //. split.
  - intros (j & Hj & Hx & Hxn). rw listed_removed in Hj. simpl in Hx.
    apply list_elem_of_filter in Hj as [Hji Hj]. rw lookup_delete_ne // in Hx.
    split; [|by exists j]. intros ->. apply Hji. eapply (wf_names s Hwf); try done. congruence.
  - intros (Hne' & j & Hj & Hx & Hxn). exists j.
    assert (j ≠ i) by (intros ->; congruence). split_and!; [|simpl; by rw lookup_delete_ne|done].
    rw listed_removed. by apply list_elem_of_filter.
Qed.

(** ** Lemmas: owner lists *)
Definition with_calloc (c : list bool) (s : fstate) : fstate :=
  FState (fs_heap s) (fs_next s) (fs_n s) (fs_ht s) c.

Lemma with_calloc_wf c s : wf s → wf (with_calloc c s).
Proof. apply wf_irrel. Qed.
Lemma with_calloc_view c s : view (with_calloc c s) = view s.
Proof. done. Qed.
Lemma with_calloc_id s : with_calloc (fs_calloc s) s = s.
Proof. by destruct s. Qed.

Lemma already_in_owners_spec owners o : already_in_owners owners o = true ↔ ip o ∈ ip <$> owners.
Proof.
  rw /already_in_owners existsb_exists list_elem_of_fmap. split.
  - intros (p & Hp & E). apply Z.eqb_eq in E. exists p. by rw list_elem_of_In.
  - intros (p & E & Hp). exists p. rw -list_elem_of_In. by rw E Z.eqb_refl.
Qed.

Lemma add_owner_ok owners o : owners_ok owners → owners_ok (add_owner owners o).
Proof.
  rw /owners_ok /add_owner. intros Hnd.
  destruct (already_in_owners owners o) eqn:E; [done|].
  rw fmap_app. apply NoDup_app. split_and!; [done| |apply NoDup_singleton].
  intros x Hx ->%list_elem_of_singleton. apply already_in_owners_spec in Hx. congruence.
Qed.
Lemma add_owners_ok owners l : owners_ok owners → owners_ok (add_owners owners l).
Proof.
  revert owners. induction l as [|o l IH]; intros owners H; [done|]. by apply IH, add_owner_ok.
Qed.
Lemma owners_ok_nil : owners_ok [].
Proof. constructor. Qed.
#[local] Hint Resolve add_owners_ok owners_ok_nil : core.

(** The addresses in the result: those that were there and those added. *)
Lemma add_owners_ips owners l x :
  x ∈ ip <$> add_owners owners l ↔ x ∈ ip <$> owners ∨ x ∈ ip <$> l.
Proof.
  revert owners. induction l as [|o l IH]; intros owners; csimpl; [set_solver|].
  change (add_owners owners (o :: l)) with (add_owners (add_owner owners o) l). rw IH /add_owner.
  destruct (already_in_owners owners o) eqn:E.
  - apply already_in_owners_spec in E. rw elem_of_cons. naive_solver.
  - rw fmap_app elem_of_app elem_of_cons list_elem_of_singleton. tauto.
Qed.

(** Adding an owner list that has distinct addresses to nothing copies it. *)
Lemma add_owners_fresh owners l :
  owners_ok (owners ++ l) → add_owners owners l = owners ++ l.
Proof.
  revert owners. induction l as [|o l IH]; intros owners H; [by rw app_nil_r|].
  change (add_owners owners (o :: l)) with (add_owners (add_owner owners o) l).
  assert (E : add_owner owners o = owners ++ [o]).
  { rw /add_owner. destruct (already_in_owners owners o) eqn:E; [|done].
    apply already_in_owners_spec in E. rw /owners_ok fmap_app in H.
    apply NoDup_app in H as (_ & H & _). destruct (H _ E). by left. }
  by rw E IH -app_assoc.
Qed.

Lemma peer_id_list_add_from_wp k i te owners s :
  (i + k ≤ length (te_owners te))%nat →
  wp (peer_id_list_add_from k i te owners)
     (λ r s', ∃ m c, r = add_owners owners (take m (take k (drop i (te_owners te)))) ∧
        s' = with_calloc c s ∧ (no_oom s → c = [] ∧ r = add_owners owners (take k (drop i (te_owners te))))) s.
Proof.
  revert i owners s. induction k as [|k IH]; intros i owners s Hlen.
  { apply wp_ret. exists 0%nat, (fs_calloc s). by rw with_calloc_id. }
  cbn [peer_id_list_add_from]. apply wp_bind.
  assert (∃ ok c, calloc s = Ok (ok, with_calloc c s) ∧ (no_oom s → ok = true ∧ c = [])) as (ok & c & E & Hoom).
  { rw /calloc /no_oom. destruct s as [? ? ? ? [|b c]]; simpl; eauto. by exists b, c. }
  rw /wp E. destruct ok; [|exists 0%nat, c; split_and!; [done..|]; intros [??]%Hoom; done].
  destruct (lookup_lt_is_Some_2 (te_owners te) i ltac:(lia)) as [o Ho].
  rw Ho. fold (add_owner owners o).
  eapply wp_mono; [apply (IH (S i)); lia|].
  intros r s' (m & c' & -> & -> & Hoom').
  rw (drop_S _ o i) // firstn_cons. exists (S m), c'. split_and!; [done..|].
  intros [_ ->]%Hoom. apply Hoom'. done.
Qed.

Lemma __peer_id_list_add_wp owners te s :
  te_wf te →
  wp (__peer_id_list_add owners (Some te))
     (λ r s', ∃ m c, r = add_owners owners (take m (owners_of te)) ∧ s' = with_calloc c s ∧
        (no_oom s → c = [] ∧ r = add_owners owners (owners_of te))) s.
Proof.
  intros [Hlen Hn]. apply (peer_id_list_add_from_wp (Z.to_nat (te_owner_n te)) 0 te).
  rw Hlen. lia.
Qed.

(** ** Lemmas: entries *)
Lemma wp_fe_deref i e s (Q : file_entry → fstate → Prop) :
  fs_heap s !! i = Some e → Q e s → wp (deref (Some i)) Q s.
Proof. rw /wp /deref. by intros ->. Qed.

Lemma wp_store i e e' s (Q : unit → fstate → Prop) :
  fs_heap s !! i = Some e → Q tt (set_heap (<[i := e']> (fs_heap s)) s) → wp (store (Some i) e') Q s.
Proof. intros H HQ. apply wp_bind. eapply wp_fe_deref; [done|]. by apply wp_modify. Qed.

Lemma wp_free i e s (Q : unit → fstate → Prop) :
  fs_heap s !! i = Some e → Q tt (set_heap (delete i (fs_heap s)) s) → wp (free (Some i)) Q s.
Proof. intros H HQ. apply wp_bind. eapply wp_fe_deref; [done|]. by apply wp_modify. Qed.

(** Writing entry [i] and changing the allocator: the effect of every update. *)
Definition written (s : fstate) (i : fid) (e : file_entry) (c : list bool) : fstate :=
  with_calloc c (set_heap (<[i := e]> (fs_heap s)) s).

Lemma written_wf s i e e' c :
  wf s → fs_heap s !! i = Some e → fe_name e' = fe_name e → owners_ok (fe_owners e') →
  wf (written s i e' c).
Proof. intros. apply with_calloc_wf. by eapply wf_write. Qed.

Lemma written_view s name i e e' c :
  wf s → entry_at s name i e → fe_name e' = name → owners_ok (fe_owners e') →
  view (written s i e' c) = <[name := e']> (view s).
Proof. intros. rw with_calloc_view. by eapply view_write. Qed.

Lemma written_entry_at s name i e e' c :
  entry_at s name i e → fe_name e' = name → entry_at (written s i e' c) name i e'.
Proof. intros (Hi & _ & _) Hn. split_and!; [done| |done]. apply lookup_insert_eq. Qed.

(** What an update does to the entry when the allocator may fail midway. *)
Definition updated (te : trans_file_entry) (e e' : file_entry) : Prop :=
  fe_name e' = fe_name e ∧ fe_type e' = fe_type e ∧ owners_ok (fe_owners e') ∧
  fe_timestamp e' = Z.max (fe_timestamp e) (te_timestamp te) ∧
  ∃ m, (m ≤ Z.to_nat (te_owner_n te))%nat ∧ e' = merge (TransEntry (te_name te) (te_timestamp te) (te_op_type te) (te_file_type te)
                     (Z.of_nat m) (te_owners te)) e.

Lemma merge_newer te e :
  fe_timestamp e < te_timestamp te →
  merge te e = FileEntry (fe_name e) (te_timestamp te) (fe_type e) (add_owners [] (owners_of te)).
Proof. intros H. rw /merge Z.gtb_ltb (proj2 (Z.ltb_lt _ _)) //. Qed.
Lemma merge_same te e :
  te_timestamp te = fe_timestamp e →
  merge te e = set_owners e (add_owners (fe_owners e) (owners_of te)).
Proof. intros H. rw /merge Z.gtb_ltb (proj2 (Z.ltb_ge _ _)) ?H; [lia|]. rw Z.eqb_refl //. Qed.
Lemma merge_older te e : te_timestamp te < fe_timestamp e → merge te e = e.
Proof. intros H. rw /merge Z.gtb_ltb (proj2 (Z.ltb_ge _ _)) ?(proj2 (Z.eqb_neq _ _)) //; lia. Qed.

Lemma merge_name te e : fe_name (merge te e) = fe_name e.
Proof. rw /merge. by repeat case_match. Qed.
Lemma merge_type te e : fe_type (merge te e) = fe_type e.
Proof. rw /merge. by repeat case_match. Qed.
Lemma merge_timestamp te e : fe_timestamp (merge te e) = Z.max (fe_timestamp e) (te_timestamp te).
Proof.
  rw /merge. rw Z.gtb_ltb. destruct (Z.ltb_spec (fe_timestamp e) (te_timestamp te)); [simpl; lia|].
  destruct (Z.eqb_spec (te_timestamp te) (fe_timestamp e)); simpl; lia.
Qed.
Lemma merge_owners_ok te e : owners_ok (fe_owners e) → owners_ok (fe_owners (merge te e)).
Proof. intros H. rw /merge. repeat case_match; simpl; auto. Qed.

Lemma owners_of_prefix te m :
  te_wf te → ∃ k, (k ≤ Z.to_nat (te_owner_n te))%nat ∧ take m (owners_of te) =
    owners_of (TransEntry (te_name te) (te_timestamp te) (te_op_type te) (te_file_type te)
                 (Z.of_nat k) (te_owners te)).
Proof.
  intros _. exists (m `min` Z.to_nat (te_owner_n te))%nat. split; [lia|].
  by rw /owners_of /= Nat2Z.id take_take.
Qed.

Lemma file_entry_update_wp i e te s :
  fs_heap s !! i = Some e → owners_ok (fe_owners e) → te_wf te →
  wp (file_entry_update (Some i) (Some te))
     (λ r s', r = (if te_timestamp te <? fe_timestamp e then -1 else 0) ∧
        ∃ e' c, s' = written s i e' c ∧ updated te e e' ∧ (no_oom s → c = [] ∧ e' = merge te e)) s.
Proof.
  intros Hi Hok Hte. rw /file_entry_update. apply wp_bind. eapply wp_fe_deref; [done|].
  set (te' m := TransEntry (te_name te) (te_timestamp te) (te_op_type te) (te_file_type te)
                 (Z.of_nat m) (te_owners te)).
  assert (Hupd : ∀ e' m, (m ≤ Z.to_nat (te_owner_n te))%nat → e' = merge (te' m) e → updated te e e').
  { intros e' m Hm ->. split_and!; [apply merge_name|apply merge_type|by apply merge_owners_ok| |by exists m].
    exact (merge_timestamp (te' m) e). }
  rw Z.gtb_ltb. destruct (Z.ltb_spec (fe_timestamp e) (te_timestamp te)) as [Hlt|Hge];
    [|destruct (Z.eqb_spec (te_timestamp te) (fe_timestamp e)) as [Heq|Hne]].
  - apply wp_bind. eapply wp_mono; [by apply __peer_id_list_add_wp|].
    intros r s' (m & c & -> & -> & Hoom). apply wp_bind. eapply wp_store; [done|]. apply wp_ret.
    rw (proj2 (Z.ltb_ge _ _)); [lia|]. split; [done|].
    destruct (owners_of_prefix te m Hte) as (k & Hkn & Hk). eexists _, c. split_and!; [done| |].
    + apply (Hupd _ k Hkn). rw merge_newer // Hk //.
    + intros [-> ->]%Hoom. split; [done|]. rw merge_newer //.
  - apply wp_bind. eapply wp_mono; [by apply __peer_id_list_add_wp|].
    intros r s' (m & c & -> & -> & Hoom). apply wp_bind. eapply wp_store; [done|]. apply wp_ret.
    rw (proj2 (Z.ltb_ge _ _)); [lia|]. split; [done|].
    destruct (owners_of_prefix te m Hte) as (k & Hkn & Hk). eexists _, c. split_and!; [done| |].
    + apply (Hupd _ k Hkn). rw merge_same // Hk //.
    + intros [-> ->]%Hoom. split; [done|]. rw merge_same //.
  - apply wp_ret. rw (proj2 (Z.ltb_lt _ _)); [lia|]. split; [done|].
    assert (E : ∀ m, merge (te' m) e = e) by (intros; apply merge_older; simpl; lia).
    exists e, (fs_calloc s). split_and!.
    + rw /written /set_heap insert_id //. by destruct s.
    + apply (Hupd _ 0%nat); [lia|done].
    + intros H. by rw merge_older; [lia|].
Qed.

(** ** Lemmas: the table operations *)
Lemma search_chain_wp l name s :
  (∀ i, i ∈ l → ∃ e, fs_heap s !! i = Some e) →
  wp (search_chain l name)
     (λ r s', s' = s ∧ match r with
        | Some i => ∃ e, i ∈ l ∧ fs_heap s !! i = Some e ∧ fe_name e = name
        | None => ∀ i e, i ∈ l → fs_heap s !! i = Some e → fe_name e ≠ name end) s.
Proof.
  induction l as [|i l IH]; intros Hl; [apply wp_ret; set_solver|].
  destruct (Hl i ltac:(by left)) as [e He]. cbn [search_chain].
  apply wp_bind. eapply wp_fe_deref; [done|]. case_bool_decide as Hn.
  - apply wp_ret. split; [done|]. exists e. split_and!; [by left|done..].
  - eapply wp_mono; [apply IH; intros j Hj; apply Hl; by right|].
    intros [j|] s' [-> H]; (split; [done|]).
    + destruct H as (e' & ? & ? & ?). exists e'. split_and!; [by right|done..].
    + intros j e' [->|Hj]%elem_of_cons Hj'; [congruence|by eapply H].
Qed.

Lemma __file_table_search_wp name s :
  wf s →
  wp (__file_table_search name)
     (λ r s', s' = s ∧ match r with
        | Some i => ∃ e, entry_at s name i e ∧ view s !! name = Some e
        | None => view s !! name = None end) s.
Proof.
  intros Hwf. rw /__file_table_search search_bucket_of_eq. apply wp_bind, wp_gets.
  destruct (lookup_lt_is_Some_2 _ _ (bucket_in_range s name Hwf)) as [l Hl]. rw Hl /=.
  eapply wp_mono; [apply search_chain_wp|].
  { intros i Hi. destruct (wf_bucket s Hwf _ _ _ Hl Hi) as (e & He & _). by exists e. }
  intros [i|] s' [-> H]; (split; [done|]).
  - destruct H as (e & Hi & He & Hn). assert (entry_at s name i e) as Hat.
    { split_and!; [apply elem_of_concat; eauto|done..]. }
    exists e. split; [done|]. apply view_lookup; eauto.
  - apply view_lookup_None; [done|]. intros i e (Hi & He & Hn).
    apply elem_of_concat in Hi as (b & l' & Hb & Hi).
    destruct (wf_bucket s Hwf _ _ _ Hb Hi) as (e' & He' & <-). simplify_eq.
    by eapply H.
Qed.

(** A new entry, when the allocator may fail while its owners are copied. *)
Definition created (te : trans_file_entry) (e : file_entry) : Prop :=
  fe_name e = te_name te ∧ fe_timestamp e = te_timestamp te ∧ fe_type e = te_file_type te ∧
  owners_ok (fe_owners e) ∧ ∃ m, fe_owners e = add_owners [] (take m (owners_of te)).

Lemma file_entry_create_wp te s :
  wf s → te_wf te →
  wp (fe <- file_entry_alloc ;;
      match fe with
      | None => ret None
      | Some _ => file_entry_fill_from fe (Some te) ;;; file_entry_add fe ;;; ret fe
      end)
     (λ r s', ∃ c, (no_oom s → c = []) ∧ match r with
        | None => s' = with_calloc c s ∧ ¬ no_oom s
        | Some i => i = fs_next s ∧ ∃ e, s' = inserted s e c ∧ created te e ∧ (no_oom s → e = new_entry te)
        end) s.
Proof.
  intros Hwf Hte. apply wp_bind. rw /file_entry_alloc. apply wp_bind.
  assert (∃ ok c, calloc s = Ok (ok, with_calloc c s) ∧ (no_oom s ↔ ok = true ∧ c = [] ∧ no_oom s))
    as (ok & c & E & Hoom).
  { rw /calloc /no_oom. destruct s as [? ? ? ? [|b c]]; simpl; [by eexists _, _|].
    exists b, c. split; [done|]. naive_solver. }
  rw {1}/wp E. destruct ok; [|cbn beta iota; apply wp_ret, wp_ret; exists c; naive_solver].
  apply wp_bind, wp_gets, wp_bind, wp_modify, wp_ret. cbn [fs_heap with_calloc fs_next fs_n fs_ht fs_calloc].
  set (i := fs_next s). set (s1 := FState _ _ _ _ c).
  assert (Hs1 : fs_heap s1 !! i = Some (FileEntry [] 0 0 [])) by apply lookup_insert_eq.
  apply wp_bind. rw /file_entry_fill_from. apply wp_bind. eapply wp_fe_deref; [exact Hs1|].
  apply wp_bind. eapply wp_mono; [by apply __peer_id_list_add_wp|].
  intros owners s2 (m & c' & Howners & -> & Hoom'). eapply wp_store; [exact Hs1|].
  set (e := FileEntry (te_name te) (te_timestamp te) (te_file_type te) owners).
  apply wp_bind. rw /file_entry_add. apply wp_bind. eapply wp_fe_deref; [apply lookup_insert_eq|].
  apply wp_modify, wp_ret. cbn [fs_heap set_heap set_ht with_calloc fs_next fs_n fs_ht fs_calloc s1].
  exists c'. split; [intros H; apply Hoom'; by apply Hoom in H as (_ & -> & _)|].
  split; [done|]. exists e. split_and!.
  - by rw /set_ht /inserted /= insert_insert_eq.
  - split_and!; try done; simpl; subst owners; [auto|by exists m].
  - intros H. rw /e /new_entry. f_equal. apply Hoom'. by apply Hoom in H as (_ & -> & _).
Qed.

Lemma created_new te : created te (new_entry te).
Proof.
  split_and!; try done; simpl; [auto|]. exists (length (owners_of te)).
  by rw take_ge.
Qed.

Lemma file_table_add_wp te s :
  wf s → te_wf te →
  wp (file_table_add (Some te))
     (λ r s', match view s !! te_name te with
        | Some e => ∃ i e' c, r = Some i ∧ entry_at s (te_name te) i e ∧ s' = written s i e' c ∧
                     updated te e e' ∧ (no_oom s → c = [] ∧ e' = merge te e)
        | None => ∃ c, (no_oom s → c = []) ∧ match r with
            | None => s' = with_calloc c s ∧ ¬ no_oom s
            | Some i => i = fs_next s ∧ ∃ e, s' = inserted s e c ∧ created te e ∧ (no_oom s → e = new_entry te)
            end end) s.
Proof.
  intros Hwf Hte. rw /file_table_add. apply wp_bind.
  eapply wp_mono; [by apply __file_table_search_wp|]. intros [i|] s' [-> H].
  - destruct H as (e & Hat & ->). pose proof Hat as (Hi & He & Hn). apply wp_bind.
    eapply wp_mono; [apply file_entry_update_wp; [done|by eapply (wf_owners s Hwf)|done]|].
    intros _ s' (_ & e' & c & -> & Hupd & Hoom). apply wp_ret. by exists i, e', c.
  - rw H. by apply file_entry_create_wp.
Qed.

Lemma file_table_update_wp te s :
  wf s → te_wf te →
  wp (file_table_update (Some te))
     (λ r s', match view s !! te_name te with
        | Some e => r = 0 ∧ ∃ i e' c, entry_at s (te_name te) i e ∧ s' = written s i e' c ∧
                     updated te e e' ∧ (no_oom s → c = [] ∧ e' = merge te e)
        | None => r = -1 ∧ s' = s end) s.
Proof.
  intros Hwf Hte. rw /file_table_update. apply wp_bind.
  eapply wp_mono; [by apply __file_table_search_wp|]. intros [i|] s' [-> H].
  - destruct H as (e & Hat & ->). pose proof Hat as (Hi & He & Hn). apply wp_bind.
    eapply wp_mono; [apply file_entry_update_wp; [done|by eapply (wf_owners s Hwf)|done]|].
    intros _ s' (_ & e' & c & -> & Hupd & Hoom). apply wp_ret. split; [done|]. by exists i, e', c.
  - rw H. by apply wp_ret.
Qed.

Lemma file_entry_delete_wp i e s :
  fs_heap s !! i = Some e →
  wp (file_entry_delete (Some i)) (λ _ s', s' = removed s i (fs_n s - 1)) s.
Proof.
  intros He. rw /file_entry_delete. apply wp_bind. eapply wp_fe_deref; [done|]. apply wp_bind.
  eapply wp_store; [done|]. apply wp_bind, wp_modify, wp_bind.
  eapply wp_free; [apply lookup_insert_eq|]. apply wp_modify.
  by rw /removed /set_ht /set_heap /= delete_insert_eq.
Qed.

Lemma file_table_delete_wp te s :
  wf s →
  wp (file_table_delete (Some te))
     (λ r s', match view s !! te_name te with
        | Some e => r = 0 ∧ ∃ i, entry_at s (te_name te) i e ∧ s' = removed s i (fs_n s - 1)
        | None => r = -1 ∧ s' = s end) s.
Proof.
  intros Hwf. rw /file_table_delete. apply wp_bind.
  eapply wp_mono; [by apply __file_table_search_wp|]. intros [i|] s' [-> H].
  - destruct H as (e & Hat & ->). pose proof Hat as (Hi & He & Hn). apply wp_bind.
    eapply wp_mono; [by eapply file_entry_delete_wp|]. intros _ s' ->. apply wp_ret.
    split; [done|]. by exists i.
  - rw H. by apply wp_ret.
Qed.

(** [n] and the listing. *)
Lemma listed_written s i e c : listed (written s i e c) = listed s.
Proof. done. Qed.

Lemma length_unlink (l : list fid) i :
  NoDup l → i ∈ l → length l = S (length (filter (λ x, x ≠ i) l)).
Proof.
  intros Hnd (l1 & l2 & ->)%list_elem_of_split.
  rw -Permutation_middle in Hnd. apply NoDup_cons in Hnd as [Hi _].
  assert (E : ∀ k : list fid, i ∉ k → filter (λ x, x ≠ i) k = k).
  { clear. induction k as [|x k IH]; [done|]. intros [??]%not_elem_of_cons.
    rw filter_cons_True //. by rw IH. }
  rw filter_app filter_cons_False; [by intros H|]. rw !E; [set_solver..|].
  rw !length_app /=. lia.
Qed.

Lemma counted_written s i e c : counted s → counted (written s i e c).
Proof. done. Qed.
Lemma counted_inserted s e c : wf s → counted s → counted (inserted s e c).
Proof. rw /counted. intros Hwf H. rw listed_inserted // /= H. lia. Qed.
Lemma counted_removed s i : wf s → i ∈ listed s → counted s → counted (removed s i (fs_n s - 1)).
Proof.
  rw /counted. intros Hwf Hi H. rw listed_removed /= H.
  rw (length_unlink (listed s) i) //; [apply (wf_nodup s Hwf)|]. lia.
Qed.

(** ** Lemmas: sweeping the whole table *)

(** One turn of a sweep: the current entry, of contents [e], becomes [f e] (or
    is unlinked and freed), [n] moves by [d], the other entries are untouched. *)
Definition sweep_turn (f : file_entry → option file_entry) (d : Z) (body : fid → M fstate unit) : Prop :=
  ∀ s name i e, wf s → entry_at s name i e →
    wp (body i) (λ _ s', wf s' ∧ view s' = partial_alter (λ _, f e) name (view s) ∧
       fs_n s' = fs_n s + d ∧ fs_calloc s' = fs_calloc s ∧
       ∀ name' j e', j ≠ i → entry_at s name' j e' → entry_at s' name' j e') s.

Lemma sweep_wp f d body s :
  sweep_turn f d body → wf s →
  wp (hash_for_each_safe (λ i _, body i) tt)
     (λ _ s', wf s' ∧ view s' = omap f (view s) ∧
        fs_n s' = fs_n s + d * Z.of_nat (length (listed s)) ∧ fs_calloc s' = fs_calloc s) s.
Proof.
  intros Hbody Hwf. rw /hash_for_each_safe. apply wp_bind, wp_gets. fold (listed s).
  set (I (pre : list fid) (_ : unit) (s' : fstate) :=
    wf s' ∧ fs_n s' = fs_n s + d * Z.of_nat (length pre) ∧ fs_calloc s' = fs_calloc s ∧
    (∀ name i e, i ∈ pre → entry_at s name i e → view s' !! name = f e) ∧
    (∀ name i e, i ∉ pre → entry_at s name i e → entry_at s' name i e) ∧
    (∀ name, view s !! name = None → view s' !! name = None)).
  eapply wp_mono; [apply (wp_for_each _ I (listed s) [])|].
  - split_and!; try done; [simpl; lia|set_solver].
  - intros pre x post [] s1 Heq (Hwf1 & Hn1 & Hc1 & Ha & Hb & Hc). simpl in Heq.
    assert (Hx : x ∈ listed s) by (rw Heq; set_solver).
    pose proof (wf_nodup s Hwf) as Hnd. rw Heq in Hnd. apply NoDup_app in Hnd as (_ & Hd & _).
    assert (Hxp : x ∉ pre) by (intros Hp; eapply Hd; [done|by left]).
    destruct (wf_listed_live s x Hwf Hx) as [e He].
    assert (Hat : entry_at s (fe_name e) x e) by done.
    eapply wp_mono; [eapply Hbody; [done|by apply Hb]|].
    intros [] s2 (Hwf2 & Hv2 & Hn2 & Hc2 & Hother). split_and!; [done|..].
    + rw length_app Hn2 Hn1 /=. lia.
    + by rw Hc2.
    + intros name i e' Hi Hat'. rw Hv2. destruct (decide (i = x)) as [->|Hix].
      * destruct (entry_at_inj s name x x e' e) as [_ ->]; [done|done| |].
        { destruct Hat' as (? & ? & <-). by simplify_eq. }
        destruct Hat' as (_ & _ & <-). apply lookup_partial_alter_eq.
      * rw lookup_partial_alter_ne.
        { intros <-. apply Hix. by eapply (entry_at_inj s _ i x e' e). }
        eapply (Ha _ i); [set_solver|done].
    + intros name i e' Hi Hat'. apply Hother; [set_solver|]. apply Hb; [set_solver|done].
    + intros name Hnone. rw Hv2 lookup_partial_alter_ne; [|by apply Hc]. intros <-.
      apply view_lookup_None with (i := x) (e := e) in Hnone; done.
  - intros [] s' (Hwf' & Hn' & Hc' & Ha & _ & Hnone). split_and!; [done| |done|done].
    apply map_eq. intros name. rw lookup_omap. destruct (view s !! name) as [e|] eqn:E; [|by apply Hnone].
    apply view_lookup in E as [i Hi]; [|done]. simpl. eapply Ha; [apply Hi|done].
Qed.

Lemma removed_turn s (name : list Z) i e n :
  wf s → entry_at s name i e →
  wf (removed s i n) ∧ view (removed s i n) = partial_alter (λ _, None) name (view s) ∧
  ∀ name' j e', j ≠ i → entry_at s name' j e' → entry_at (removed s i n) name' j e'.
Proof.
  intros Hwf Hat. split; [by apply wf_removed|]. split; [by erewrite view_removed|].
  intros name' j e' Hji (Hj & He' & Hn'). split_and!; [|simpl; by rw lookup_delete_ne|done].
  rw listed_removed. by apply list_elem_of_filter.
Qed.

Lemma written_other s i e c (name' : list Z) j e' :
  j ≠ i → entry_at s name' j e' → entry_at (written s i e c) name' j e'.
Proof. intros Hji (? & ? & ?). split_and!; [done| |done]. simpl. by rw lookup_insert_ne. Qed.

Lemma drop_owner_turn ip0 :
  sweep_turn (drop_owner ip0) 0 (λ i,
    e <- deref (Some i) ;;
    let owners := filter (λ p, ip p ≠ ip0) (fe_owners e) in
    store (Some i) (set_owners e owners) ;;;
    if bool_decide (owners = []) then
      modify (λ s, set_ht (fs_n s) (unlink i (fs_ht s)) s) ;;; free (Some i)
    else ret tt).
Proof.
  intros s name i e Hwf Hat. pose proof Hat as (Hi & He & Hn).
  set (owners := filter (λ p, ip p ≠ ip0) (fe_owners e)).
  assert (Hok : owners_ok (fe_owners (set_owners e owners))).
  { simpl. pose proof (wf_owners s Hwf _ _ He) as Hok. rw /owners_ok in Hok.
    eapply sublist_NoDup; [exact Hok|]. apply fmap_sublist, sublist_filter. }
  apply wp_bind. eapply wp_fe_deref; [done|]. apply wp_bind. eapply wp_store; [done|].
  fold owners. rw /drop_owner. fold owners. case_bool_decide as Ho.
  - apply wp_bind, wp_modify. eapply wp_free; [apply lookup_insert_eq|].
    replace (set_heap _ _) with (removed s i (fs_n s)).
    2:{ by rw /removed /set_ht /set_heap /= delete_insert_eq. }
    rw Ho. destruct (removed_turn s name i e (fs_n s) Hwf Hat) as (? & ? & ?).
    split_and!; [done..|simpl; lia|done|done].
  - apply wp_ret.
    replace (set_heap _ _) with (written s i (set_owners e owners) (fs_calloc s)) by by destruct s.
    split_and!; [by eapply written_wf| |simpl; lia|done|intros; by apply written_other].
    rw (written_view s name i e) //. destruct owners; [done|]. done.
Qed.

Lemma destroy_turn : sweep_turn (λ _, None) (-1) (λ i, file_entry_delete (Some i)).
Proof.
  intros s name i e Hwf Hat. pose proof Hat as (Hi & He & Hn).
  eapply wp_mono; [by eapply file_entry_delete_wp|]. intros _ s' ->.
  destruct (removed_turn s name i e (fs_n s - 1) Hwf Hat) as (? & ? & ?).
  split_and!; [done..|done|done].
Qed.

(** ** Lemmas: exporting entries *)
Definition export (e : file_entry) : trans_file_entry :=
  TransEntry (fe_name e) (fe_timestamp e) 0 (fe_type e) (Z.of_nat (length (fe_owners e)))
    (fe_owners e ++ replicate (MAX_PEER_ENTRIES - length (fe_owners e)) (PeerId 0 0)).

(** The owner loop of [trans_entry_fill_from], from the [k]-th slot on. *)
Lemma push_owners_run l name ts op ty pre s :
  (length pre + length l ≤ MAX_PEER_ENTRIES)%nat →
  for_each l (λ p te, of_option (push_owner p te))
    (TransEntry name ts op ty (Z.of_nat (length pre))
       (pre ++ replicate (MAX_PEER_ENTRIES - length pre) (PeerId 0 0))) s
  = Ok (TransEntry name ts op ty (Z.of_nat (length pre + length l))
          ((pre ++ l) ++ replicate (MAX_PEER_ENTRIES - (length pre + length l)) (PeerId 0 0)), s).
Proof.
  revert pre. induction l as [|p l IH]; intros pre Hlen; cbn [length for_each] in *.
  { by rw app_nil_r Nat.add_0_r. }
  assert (E : (MAX_PEER_ENTRIES - length pre)%nat = S (MAX_PEER_ENTRIES - length (pre ++ [p]))).
  { rw length_app /=. lia. }
  assert (Hpush : push_owner p (TransEntry name ts op ty (Z.of_nat (length pre))
        (pre ++ replicate (MAX_PEER_ENTRIES - length pre) (PeerId 0 0))) =
      Some (TransEntry name ts op ty (Z.of_nat (length (pre ++ [p])))
        ((pre ++ [p]) ++ replicate (MAX_PEER_ENTRIES - length (pre ++ [p])) (PeerId 0 0)))).
  { rw /push_owner E. cbn [te_owner_n te_owners te_name te_timestamp te_op_type te_file_type].
    rw Nat2Z.id lookup_app_r // Nat.sub_diag /= insert_app_r_alt // Nat.sub_diag /=.
    rw u16_id; [rw /is_u16; rw /MAX_PEER_ENTRIES in Hlen; lia|].
    rw -app_assoc /= length_app /=. do 2 f_equal. lia. }
  rw {1}/bind Hpush. cbn [of_option ret]. rw IH; [rw length_app /=; lia|].
  rw length_app -(app_assoc pre [p] l) /= -(Nat.add_assoc (length pre)) //.
Qed.

Lemma push_owners_overflow l te s :
  length (te_owners te) = MAX_PEER_ENTRIES → 0 ≤ te_owner_n te ≤ Z.of_nat MAX_PEER_ENTRIES →
  Z.of_nat MAX_PEER_ENTRIES < te_owner_n te + Z.of_nat (length l) →
  for_each l (λ p te, of_option (push_owner p te)) te s = Fault OutOfBounds.
Proof.
  revert te. induction l as [|p l IH]; intros te Hlen Hn Hbig; simpl in *; [lia|].
  rw {1}/bind. destruct (decide (te_owner_n te = Z.of_nat MAX_PEER_ENTRIES)) as [E|E].
  - rw /push_owner E Nat2Z.id lookup_ge_None_2 ?Hlen //.
  - destruct (push_owner_spec te p Hlen) as (te' & -> & _ & _ & _ & _ & _ & Hn' & Hl'); [lia|].
    simpl. apply IH; [done|lia|lia].
Qed.

Lemma trans_entry_fill_from_run te i e s :
  fs_heap s !! i = Some e →
  trans_entry_fill_from te (Some i) s =
    if decide (length (fe_owners e) ≤ MAX_PEER_ENTRIES)%nat then Ok (export e, s)
    else Fault OutOfBounds.
Proof.
  intros He. rw /trans_entry_fill_from {1}/bind {1}/deref He. case_decide as H.
  - rw (push_owners_run (fe_owners e) (fe_name e) (fe_timestamp e) 0 (fe_type e) [] s) //.
  - apply push_owners_overflow; [done|done|]. cbn [te_owner_n]. lia.
Qed.

Lemma trans_entry_fill_from_wp te i e s (Q : trans_file_entry → fstate → Prop) :
  fs_heap s !! i = Some e → (length (fe_owners e) ≤ MAX_PEER_ENTRIES)%nat →
  Q (export e) s → wp (trans_entry_fill_from te (Some i)) Q s.
Proof. intros He Hlen HQ. rw /wp (trans_entry_fill_from_run _ _ e) // decide_True //. Qed.

Lemma export_wf e : (length (fe_owners e) ≤ MAX_PEER_ENTRIES)%nat → te_wf (export e).
Proof. intros H. split; rw /= ?length_app ?length_replicate; lia. Qed.

Lemma export_owners e : owners_of (export e) = fe_owners e.
Proof. by rw /owners_of /= Nat2Z.id take_app_length. Qed.

Lemma trans_table_fill_from_wp s :
  wf s → (length (listed s) ≤ Z.to_nat MAX_FILE_ENTRIES)%nat →
  (∀ e, e ∈ entries s → (length (fe_owners e) ≤ MAX_PEER_ENTRIES)%nat) →
  wp trans_table_fill_from
     (λ t s', s' = s ∧ packed t ∧ tft_entries t = export <$> entries s) s.
Proof.
  intros Hwf Hmax Howners. rw /trans_table_fill_from /hash_for_each_safe. apply wp_bind, wp_gets.
  fold (listed s).
  eapply wp_mono; [apply (wp_for_each _ (λ pre t s', s' = s ∧ packed t ∧
    tft_entries t = export <$> omap (λ i, fs_heap s !! i) pre ∧ (length (tft_entries t) = length pre))
    (listed s) [])|].
  - done.
  - intros pre x post t s1 Heq (-> & Hp & Ht & Hlen). simpl in Heq.
    assert (Hx : x ∈ listed s) by (rw Heq; set_solver).
    assert (Hlt : (length pre < Z.to_nat MAX_FILE_ENTRIES)%nat).
    { rw Heq length_app /= in Hmax. lia. }
    destruct (wf_listed_live s x Hwf Hx) as [e He].
    assert (Hn : tft_n t < MAX_FILE_ENTRIES) by (rw Hp Hlen /MAX_FILE_ENTRIES; rw /MAX_FILE_ENTRIES in Hlt; lia).
    apply wp_bind. rw /tft_get /in_table Hp (proj2 (Z.leb_le 0 _)); [lia|].
    rw -Hp (proj2 (Z.ltb_lt _ _)) //. apply wp_ret, wp_bind.
    eapply trans_entry_fill_from_wp; [done|apply Howners, elem_of_entries; eauto|].
    rw tft_push_packed //. apply wp_ret. split_and!; [done|by apply packed_push| |].
    + rw /= omap_app Ht fmap_app. csimpl. by rw He.
    + rw /= !length_app /= Hlen. done.
  - intros t s' (-> & ? & ? & _). done.
Qed.

(** ** Lemmas: versions of a file form a semilattice

    Two entries are equivalent when they differ only in the order of the owners
    (and in the port recorded for an address listed twice). *)
Record fe_equiv (e e' : file_entry) : Prop := {
  equiv_name : fe_name e = fe_name e';
  equiv_timestamp : fe_timestamp e = fe_timestamp e';
  equiv_type : fe_type e = fe_type e';
  equiv_owners : ∀ x, x ∈ ip <$> fe_owners e ↔ x ∈ ip <$> fe_owners e'
}.

#[export] Instance fe_equiv_equivalence : Equivalence fe_equiv.
Proof.
  split.
  - intros e. by split.
  - intros e e' [? ? ? H]. split; [done..|]. intros x. by rw H.
  - intros e1 e2 e3 [? ? ? H] [? ? ? H']. split; [congruence..|]. intros x. by rw H H'.
Qed.

Lemma merge_ips te e x :
  x ∈ ip <$> fe_owners (merge te e) ↔
  (x ∈ ip <$> fe_owners e ∧ te_timestamp te ≤ fe_timestamp e) ∨
  (x ∈ ip <$> owners_of te ∧ fe_timestamp e ≤ te_timestamp te).
Proof.
  destruct (Z.lt_trichotomy (te_timestamp te) (fe_timestamp e)) as [H|[H|H]].
  - rw merge_older //. intuition lia.
  - rw merge_same //= add_owners_ips. intuition lia.
  - rw merge_newer //= add_owners_ips. assert (x ∉ ip <$> []) by set_solver. intuition lia.
Qed.

#[export] Instance merge_proper : Proper (eq ==> fe_equiv ==> fe_equiv) merge.
Proof.
  intros te _ <- e e' [? Ht ? Ho]. split.
  - by rw !merge_name.
  - by rw !merge_timestamp Ht.
  - by rw !merge_type.
  - intros x. by rw !merge_ips Ht Ho.
Qed.

Lemma merge_comm te te' e : fe_equiv (merge te (merge te' e)) (merge te' (merge te e)).
Proof.
  split; rw ?merge_name ?merge_type ?merge_timestamp //; [lia|].
  intros x. rw !merge_ips !merge_timestamp. intuition lia.
Qed.

Lemma merge_idemp te e : fe_equiv (merge te (merge te e)) (merge te e).
Proof.
  split; rw ?merge_name ?merge_type ?merge_timestamp //; [lia|].
  intros x. rw !merge_ips !merge_timestamp. intuition lia.
Qed.

Definition merge_all (tes : list trans_file_entry) (e : file_entry) : file_entry :=
  fold_left (λ e te, merge te e) tes e.

#[export] Instance merge_all_proper tes : Proper (fe_equiv ==> fe_equiv) (merge_all tes).
Proof.
  induction tes as [|te tes IH]; intros e e' He; [done|]. apply IH. by rw He.
Qed.

Lemma merge_all_Permutation tes tes' e : tes ≡ₚ tes' → fe_equiv (merge_all tes e) (merge_all tes' e).
Proof.
  intros Hp. revert e. induction Hp as [|te l l' _ IH|te te' l|l1 l2 l3 _ IH1 _ IH2]; intros e.
  - done.
  - apply IH.
  - change (fe_equiv (merge_all l (merge te (merge te' e))) (merge_all l (merge te' (merge te e)))).
    by rw merge_comm.
  - by rw IH1 IH2.
Qed.

Lemma merge_all_timestamp tes e :
  fe_timestamp (merge_all tes e) = fold_left Z.max (te_timestamp <$> tes) (fe_timestamp e).
Proof.
  revert e. induction tes as [|te tes IH]; intros e; [done|].
  change (merge_all (te :: tes) e) with (merge_all tes (merge te e)). by rw IH merge_timestamp.
Qed.

(** ** Lemmas: owner comparison *)
Lemma same_owners_from_run l n te s :
  (n + length l ≤ length (te_owners te))%nat →
  same_owners_from l n te s = Ok (bool_decide (l = take (length l) (drop n (te_owners te))), s).
Proof.
  revert n. induction l as [|p l IH]; intros n Hlen; [by cbn [same_owners_from length]; case_bool_decide|].
  cbn [same_owners_from length] in *.
  destruct (lookup_lt_is_Some_2 (te_owners te) n ltac:(lia)) as [o Ho].
  rw {1}/bind Ho. cbn [of_option ret]. rw (drop_S _ o n) // firstn_cons.
  destruct (Z.eqb_spec (ip p) (ip o)) as [E1|E1]; simpl;
    [destruct (Z.eqb_spec (port p) (port o)) as [E2|E2]; simpl|].
  - rw IH; [lia|]. do 2 f_equal. apply bool_decide_ext.
    assert (p = o) as -> by (destruct p, o; simpl in *; congruence). split; congruence.
  - rw bool_decide_false //. intros [= -> _]. done.
  - rw bool_decide_false //. intros [= -> _]. done.
Qed.

Lemma has_same_owners_run i e te s :
  fs_heap s !! i = Some e → te_wf te →
  has_same_owners (Some i) (Some te) s = Ok (bool_decide (fe_owners e = owners_of te), s).
Proof.
  intros He [Hlen Hn]. rw /has_same_owners {1}/bind {1}/deref He.
  assert (Hl : length (owners_of te) = Z.to_nat (te_owner_n te)) by (rw length_take; lia).
  destruct (Z.eqb_spec (Z.of_nat (length (fe_owners e))) (te_owner_n te)) as [E|E]; simpl.
  - rw same_owners_from_run; [simpl; lia|]. do 2 f_equal. apply bool_decide_ext.
    rw /owners_of drop_0. by replace (length (fe_owners e)) with (Z.to_nat (te_owner_n te)) by lia.
  - rw bool_decide_false //. intros Ho. apply E. rw Ho Hl. lia.
Qed.

(** ** Lemmas: sequences of operations *)

(** The operations the program performs on a table as a whole. *)
Inductive table_op :=
  | OpFind (te : trans_file_entry)
  | OpAdd (te : trans_file_entry)
  | OpUpdate (te : trans_file_entry)
  | OpDelete (te : trans_file_entry)
  | OpDropOwner (ip0 : Z)
  | OpDestroy.

Definition run_op (o : table_op) : M fstate unit :=
  match o with
  | OpFind te => file_table_find te ;;; ret tt
  | OpAdd te => file_table_add (Some te) ;;; ret tt
  | OpUpdate te => file_table_update (Some te) ;;; ret tt
  | OpDelete te => file_table_delete (Some te) ;;; ret tt
  | OpDropOwner ip0 => file_table_delete_owner ip0
  | OpDestroy => file_table_destroy
  end.

Definition op_wf (o : table_op) : Prop :=
  match o with OpAdd te | OpUpdate te => te_wf te | _ => True end.
Definition op_keeps_count (o : table_op) : Prop :=
  match o with OpDropOwner _ => False | _ => True end.

(** A process that has just called [file_table_init]. *)
Definition fresh (c : list bool) : fstate := FState ∅ 0 0 (replicate (Z.to_nat HASH_SIZE) []) c.

Lemma listed_fresh c : listed (fresh c) = [].
Proof. rw /listed /fresh. cbn [fs_ht]. generalize (Z.to_nat HASH_SIZE). by induction n. Qed.

Lemma fresh_wf c : wf (fresh c).
Proof.
  split; rw ?listed_fresh.
  - cbn [fresh fs_ht]. rw length_replicate HASH_SIZE_eq. lia.
  - constructor.
  - intros b l i [-> _]%lookup_replicate. set_solver.
  - set_solver.
  - intros i [e He]. done.
  - done.
Qed.
Lemma fresh_view c : view (fresh c) = ∅.
Proof. by rw /view /entries listed_fresh. Qed.

Lemma updated_wf s i te e e' c name :
  wf s → entry_at s name i e → updated te e e' → wf (written s i e' c).
Proof. intros Hwf (_ & He & _) (Hn & _ & Ho & _). by eapply written_wf. Qed.

Lemma run_op_wf o s :
  wf s → op_wf o →
  wp (run_op o) (λ _ s', wf s' ∧ (op_keeps_count o → counted s → counted s')) s.
Proof.
  intros Hwf Ho. destruct o as [te|te|te|te|ip0|]; cbn [run_op op_wf op_keeps_count] in *.
  - apply wp_bind. eapply wp_mono; [by apply __file_table_search_wp|]. by intros ? ? [-> _].
  - apply wp_bind. eapply wp_mono; [by apply file_table_add_wp|]. intros r s' H.
    destruct (view s !! te_name te) as [e|] eqn:E.
    + destruct H as (i & e' & c & _ & Hat & -> & Hupd & _). apply wp_ret.
      split; [by eapply updated_wf|]. intros _. apply counted_written.
    + destruct H as (c & _ & H). destruct r as [i|]; apply wp_ret.
      * destruct H as (_ & e & -> & (Hn & _ & _ & Hok & _) & _).
        split; [apply wf_inserted; congruence|]. intros _. by apply counted_inserted.
      * destruct H as [-> _]. split; [by apply with_calloc_wf|done].
  - apply wp_bind. eapply wp_mono; [by apply file_table_update_wp|]. intros r s' H.
    destruct (view s !! te_name te) as [e|] eqn:E; apply wp_ret.
    + destruct H as (_ & i & e' & c & Hat & -> & Hupd & _).
      split; [by eapply updated_wf|]. intros _. apply counted_written.
    + by destruct H as [_ ->].
  - apply wp_bind. eapply wp_mono; [by apply file_table_delete_wp|]. intros r s' H.
    destruct (view s !! te_name te) as [e|] eqn:E; apply wp_ret.
    + destruct H as (_ & i & Hat & ->). split; [by apply wf_removed|]. intros _.
      apply counted_removed; [done|apply Hat].
    + by destruct H as [_ ->].
  - eapply wp_mono; [by apply (sweep_wp _ _ _ _ (drop_owner_turn ip0))|].
    by intros _ s' (? & _).
  - eapply wp_mono; [by apply (sweep_wp _ _ _ _ destroy_turn)|].
    intros _ s' (Hwf' & Hv & Hn & _). split; [done|]. intros _ Hc.
    assert (Hnil : listed s' = []).
    { destruct (listed s') as [|i l] eqn:E; [done|].
      assert (i ∈ listed s') as Hi by (rw E; by left).
      destruct (wf_listed_live s' i Hwf' Hi) as [e He].
      assert (view s' !! fe_name e = Some e) as H by (apply view_lookup; [done|]; by exists i).
      rw Hv lookup_omap in H. destruct (view s !! fe_name e); done. }
    rw /counted Hnil Hn Hc /=. lia.
Qed.

(** ** Theorems *)

(** C17. Adding a file is an insertion in the map of known files: on a
    well-formed table with memory available, [file_table_add] returns the entry
    now in the table under the name, that entry is the merge of the old one and
    the announced version if there was one and the announced version otherwise,
    every other name is untouched, the table stays well formed and its count
    exact.  With [calloc] failing on a new name it returns NULL and the table is
    the same. *)
Theorem file_table_add_correct te s :
  wf s → te_wf te →
  (no_oom s →
   let e' := match view s !! te_name te with Some e => merge te e | None => new_entry te end in
   wp (file_table_add (Some te))
     (λ r s', wf s' ∧ view s' = <[te_name te := e']> (view s) ∧ no_oom s' ∧
        (counted s → counted s') ∧ ∃ i, r = Some i ∧ entry_at s' (te_name te) i e') s) ∧
  (view s !! te_name te = None →
   file_table_add (Some te) (with_calloc [false] s) = Ok (None, with_calloc [] s)).
Proof.
  intros Hwf Hte. split.
  - intros Hoom. simpl. eapply wp_mono; [by apply file_table_add_wp|]. intros r s' H.
    destruct (view s !! te_name te) as [e|] eqn:E.
    + destruct H as (i & e' & c & -> & Hat & -> & Hupd & [-> ->]%(λ f, f Hoom)).
      pose proof Hupd as (Hn & _ & Hok & _). pose proof Hat as (_ & _ & Hne).
      split_and!; [by eapply updated_wf|eapply written_view; [done..|congruence|done]|done..|].
      exists i. split; [done|]. eapply written_entry_at; [done|congruence].
    + destruct H as (c & Hc & H). specialize (Hc Hoom) as ->. destruct r as [i|]; [|by destruct H].
      destruct H as (-> & e & -> & (Hn & _ & _ & Hok & _) & ->%(λ f, f Hoom)).
      split_and!; [by apply wf_inserted|by apply view_inserted|done|by apply counted_inserted|].
      exists (fs_next s). split; [done|]. split_and!; [|apply lookup_insert_eq|done].
      rw listed_inserted //. by left.
  - intros Hnone. rw /file_table_add {1}/bind.
    pose proof (__file_table_search_wp (te_name te) (with_calloc [false] s) (with_calloc_wf _ _ Hwf)) as Hs.
    rw /wp with_calloc_view Hnone in Hs.
    destruct (__file_table_search _ _) as [[[i|] s']|]; [by destruct Hs as (_ & e & _ & [=])| |done].
    destruct Hs as [-> _]. done.
Qed.

(** A table with the file "1/a", version 5, owned by 10.0.0.1. *)
Definition owner1 : peer_id := PeerId 0x0100000a P2P_PORT.
Definition owner2 : peer_id := PeerId 0x0200000a P2P_PORT.
Definition sample_te (ts : Z) (o : peer_id) : trans_file_entry :=
  TransEntry [49; 47; 97] ts 1 0 1 (o :: replicate 15 (PeerId 0 0)).
Definition sample : fstate :=
  match run_op (OpAdd (sample_te 5 owner1)) (fresh []) with Ok (_, s) => s | Fault _ => fresh [] end.

Lemma sample_te_wf ts o : te_wf (sample_te ts o).
Proof. by split. Qed.

Lemma sample_wf : wf sample.
Proof.
  pose proof (run_op_wf (OpAdd (sample_te 5 owner1)) (fresh []) (fresh_wf []) (sample_te_wf _ _)) as H.
  rw /sample. rw /wp in H. destruct (run_op _ _) as [[[] s]|]; [by destruct H|done].
Qed.

Lemma file_table_add_correct_witness :
  wp (file_table_add (Some (sample_te 5 owner2)))
     (λ r s', wf s' ∧ view s' = <[[49; 47; 97] := FileEntry [49; 47; 97] 5 0 [owner1; owner2]]> (view sample) ∧
        no_oom s' ∧ (counted sample → counted s') ∧
        ∃ i, r = Some i ∧ entry_at s' [49; 47; 97] i (FileEntry [49; 47; 97] 5 0 [owner1; owner2])) sample.
Proof.
  apply (proj1 (file_table_add_correct (sample_te 5 owner2) sample sample_wf (sample_te_wf _ _))).
  vm_compute. reflexivity.
Defined.

(** C34. Looking a file up, updating it and deleting it are the operations of the
    map of known files: [file_table_find] returns the entry of that name or
    NULL; [file_table_update] merges the version into it and returns 0, or
    returns -1 and changes nothing if the name is unknown; [file_table_delete]
    removes exactly that name and returns 0, or returns -1. *)
Theorem file_table_find_update_delete_correct te s :
  wf s → te_wf te → no_oom s →
  wp (file_table_find te)
     (λ r s', s' = s ∧ match r with
        | Some i => ∃ e, entry_at s (te_name te) i e ∧ view s !! te_name te = Some e
        | None => view s !! te_name te = None end) s ∧
  wp (file_table_update (Some te))
     (λ r s', wf s' ∧ r = (if view s !! te_name te then 0 else -1) ∧
        view s' = alter (merge te) (te_name te) (view s)) s ∧
  wp (file_table_delete (Some te))
     (λ r s', wf s' ∧ r = (if view s !! te_name te then 0 else -1) ∧
        view s' = delete (te_name te) (view s) ∧ (counted s → counted s')) s.
Proof.
  intros Hwf Hte Hoom. split_and!; [by apply __file_table_search_wp|..].
  - eapply wp_mono; [by apply file_table_update_wp|]. intros r s' H.
    destruct (view s !! te_name te) as [e|] eqn:E.
    + destruct H as (-> & i & e' & c & Hat & -> & Hupd & [-> ->]%(λ f, f Hoom)).
      pose proof Hupd as (Hn & _ & Hok & _). pose proof Hat as (_ & _ & Hne).
      split_and!; [by eapply updated_wf|done|].
      rw (alter_alt_Some _ _ _ e) //. eapply written_view; [done..|congruence|done].
    + destruct H as [-> ->]. split_and!; [done..|]. by rw alter_alt E.
  - eapply wp_mono; [by apply file_table_delete_wp|]. intros r s' H.
    destruct (view s !! te_name te) as [e|] eqn:E.
    + destruct H as (-> & i & Hat & ->).
      split_and!; [by apply wf_removed|done|by eapply view_removed|].
      apply counted_removed; [done|apply Hat].
    + destruct H as [-> ->]. split_and!; try done. by rw delete_id.
Qed.

Lemma file_table_find_update_delete_correct_witness :
  wp (file_table_delete (Some (sample_te 5 owner2)))
     (λ r s', wf s' ∧ r = 0 ∧ view s' = delete [49; 47; 97] (view sample) ∧
              (counted sample → counted s')) sample.
Proof.
  apply (file_table_find_update_delete_correct (sample_te 5 owner2) sample sample_wf (sample_te_wf _ _)).
  vm_compute. reflexivity.
Defined.

(** C19. Well-formedness is an invariant: starting from [file_table_init], any
    sequence of finds, additions, updates, deletions, owner drops and destructions,
    whatever the allocator answers, runs without fault (no freed entry is ever
    reached through the table) and ends in a well-formed table: every entry in
    the bucket of its name, one entry per name, no entry twice, owners with
    distinct addresses.  Without owner drops, [n] is the number of entries. *)
Theorem table_invariant ops c :
  Forall op_wf ops →
  wp (for_each ops (λ o _, run_op o) tt)
     (λ _ s', wf s' ∧ (Forall op_keeps_count ops → counted s')) (fresh c).
Proof.
  intros Hops.
  eapply wp_mono; [apply (wp_for_each _ (λ done _ s, wf s ∧ (Forall op_keeps_count done → counted s)) ops [])|done].
  - split; [apply fresh_wf|]. intros _. by rw /counted listed_fresh.
  - intros pre o post [] s Heq [Hwf Hc]. simpl in Heq. subst.
    apply Forall_app in Hops as [_ [Ho _]%Forall_cons].
    eapply wp_mono; [by apply run_op_wf|]. intros [] s' [Hwf' Hk]. split; [done|].
    intros [Hp [Hq _]%Forall_cons]%Forall_app. auto.
Qed.

Lemma table_invariant_witness :
  wp (for_each [OpAdd (sample_te 5 owner1); OpAdd (sample_te 6 owner2); OpDropOwner (ip owner2)]
        (λ o _, run_op o) tt)
     (λ _ s', wf s' ∧ (Forall op_keeps_count
        [OpAdd (sample_te 5 owner1); OpAdd (sample_te 6 owner2); OpDropOwner (ip owner2)] → counted s'))
     (fresh [true; true; false]).
Proof. apply table_invariant. repeat (constructor; [by split|]). constructor. Defined.

(** When a machine leaves, [file_table_delete_owner] removes its address from
    the owners of every file, removes the files nobody else owns, and keeps every
    other field of every other file; but it leaves [n] as it was, so after it
    dropped an entry [n] counts more entries than the table has. *)
Theorem file_table_delete_owner_correct ip0 s :
  wf s →
  wp (file_table_delete_owner ip0)
     (λ _ s', wf s' ∧ view s' = omap (drop_owner ip0) (view s) ∧ fs_n s' = fs_n s ∧
        (∀ name e, view s' !! name = Some e → ip0 ∉ ip <$> fe_owners e)) s.
Proof.
  intros Hwf. eapply wp_mono; [by apply (sweep_wp _ _ _ _ (drop_owner_turn ip0))|].
  intros [] s' (Hwf' & Hv & Hn & _). split_and!; [done..|lia|].
  intros name e. rw Hv lookup_omap. destruct (view s !! name) as [e0|]; [|done]. simpl.
  rw /drop_owner. destruct (filter _ (fe_owners e0)) as [|p l] eqn:E; [done|]. intros [= <-].
  cbn [set_owners fe_owners]. rw -E. intros (q & -> & [Hq _]%list_elem_of_filter)%list_elem_of_fmap. done.
Qed.

Lemma file_table_delete_owner_correct_witness :
  wp (file_table_delete_owner (ip owner1))
     (λ _ s', wf s' ∧ view s' = omap (drop_owner (ip owner1)) (view sample) ∧ fs_n s' = fs_n sample ∧
        (∀ name e, view s' !! name = Some e → ip owner1 ∉ ip <$> fe_owners e)) sample.
Proof. apply file_table_delete_owner_correct, sample_wf. Defined.

(** [file_table_destroy] of any well-formed table frees every entry of it
    without touching a freed one, leaves every bucket empty, and brings an exact
    count back to 0. *)
Theorem file_table_destroy_correct s :
  wf s →
  wp file_table_destroy (λ _ s', wf s' ∧ listed s' = [] ∧ view s' = ∅ ∧ (counted s → fs_n s' = 0)) s.
Proof.
  intros Hwf.
  eapply wp_mono; [apply wp_and; [by apply (sweep_wp _ _ _ _ destroy_turn)|by apply (run_op_wf OpDestroy)]|].
  intros [] s' [(_ & Hv & Hn & _) [Hwf' Hcount]]. simpl in Hcount.
  assert (Hv0 : view s' = ∅).
  { rw Hv. apply map_eq. intros name. rw lookup_omap lookup_empty. by destruct (view s !! name). }
  assert (Hnil : listed s' = []).
  { destruct (listed s') as [|i l] eqn:E; [done|].
    assert (i ∈ listed s') as Hi by (rw E; by left).
    destruct (wf_listed_live s' i Hwf' Hi) as [e He].
    assert (view s' !! fe_name e = Some e) as H by (apply view_lookup; [done|]; by exists i).
    by rw Hv0 in H. }
  split_and!; try done. intros Hc. rw (Hcount I Hc) Hnil. done.
Qed.

Lemma file_table_destroy_correct_witness :
  wp file_table_destroy
    (λ _ s', wf s' ∧ listed s' = [] ∧ view s' = ∅ ∧ (counted sample → fs_n s' = 0)) sample.
Proof. apply file_table_destroy_correct, sample_wf. Defined.

(** C18. Replicas converge: [file_entry_update] with memory available makes the
    entry the merge of its old contents and the version, and merging a set of
    versions gives the same entry (same timestamp, same type, same owner
    addresses) whatever the order in which they arrive, the newest timestamp
    winning; a version that arrives twice changes nothing the second time. *)
Theorem updates_converge i e s te tes tes' :
  fs_heap s !! i = Some e → owners_ok (fe_owners e) → te_wf te → no_oom s → tes ≡ₚ tes' →
  wp (file_entry_update (Some i) (Some te))
     (λ r s', r = (if te_timestamp te <? fe_timestamp e then -1 else 0) ∧
              fs_heap s' !! i = Some (merge te e)) s ∧
  fe_equiv (merge_all tes e) (merge_all tes' e) ∧
  fe_timestamp (merge_all tes e) = fold_left Z.max (te_timestamp <$> tes) (fe_timestamp e) ∧
  fe_equiv (merge te (merge te e)) (merge te e).
Proof.
  intros Hi Hok Hte Hoom Hp. split_and!.
  - eapply wp_mono; [by apply file_entry_update_wp|].
    intros r s' (-> & e' & c & -> & _ & [-> ->]%(λ f, f Hoom)). split; [done|]. apply lookup_insert_eq.
  - by apply merge_all_Permutation.
  - apply merge_all_timestamp.
  - apply merge_idemp.
Qed.

Lemma updates_converge_witness :
  let e := FileEntry [49; 47; 97] 5 0 [owner1] in
  wp (file_entry_update (Some 0%nat) (Some (sample_te 5 owner2)))
     (λ r s', r = 0 ∧ fs_heap s' !! 0%nat = Some (merge (sample_te 5 owner2) e)) sample ∧
  fe_equiv (merge_all [sample_te 7 owner2; sample_te 5 owner2] e)
           (merge_all [sample_te 5 owner2; sample_te 7 owner2] e) ∧
  fe_timestamp (merge_all [sample_te 7 owner2; sample_te 5 owner2] e) = 7 ∧
  fe_equiv (merge (sample_te 5 owner2) (merge (sample_te 5 owner2) e)) (merge (sample_te 5 owner2) e).
Proof.
  apply (updates_converge 0%nat (FileEntry [49; 47; 97] 5 0 [owner1]) sample (sample_te 5 owner2)
    [sample_te 7 owner2; sample_te 5 owner2] [sample_te 5 owner2; sample_te 7 owner2]).
  - vm_compute. reflexivity.
  - by apply NoDup_singleton.
  - apply sample_te_wf.
  - vm_compute. reflexivity.
  - constructor.
Defined.

(** Exporting a table lists every entry once, in traversal order, with its
    name, timestamp, type and owners, and does not change the table, as long as
    the table has at most 4096 entries and no file more than 16 owners.  An entry
    with more than 16 owners is written past the fixed array [owners]. *)
Theorem trans_table_fill_from_correct s i e te :
  wf s → fs_heap s !! i = Some e →
  ((length (listed s) ≤ Z.to_nat MAX_FILE_ENTRIES)%nat →
   (∀ e, e ∈ entries s → (length (fe_owners e) ≤ MAX_PEER_ENTRIES)%nat) →
   wp trans_table_fill_from
     (λ t s', s' = s ∧ packed t ∧ tft_entries t = export <$> entries s ∧
        ∀ te, te ∈ tft_entries t → te_wf te ∧
          ∃ e, view s !! te_name te = Some e ∧ te_timestamp te = fe_timestamp e ∧
               te_file_type te = fe_type e ∧ owners_of te = fe_owners e) s) ∧
  ((MAX_PEER_ENTRIES < length (fe_owners e))%nat →
   trans_entry_fill_from te (Some i) s = Fault OutOfBounds).
Proof.
  intros Hwf Hi. split.
  - intros Hmax Howners. eapply wp_mono; [by apply trans_table_fill_from_wp|].
    intros t s' (-> & Hp & Ht). split_and!; [done..|]. rw Ht.
    intros te' (e' & -> & He')%list_elem_of_fmap. split; [by apply export_wf, Howners|].
    exists e'. apply elem_of_entries in He' as (j & Hj & He').
    split_and!; [apply view_lookup; [done|]; by exists j|done..|apply export_owners].
  - intros Hbig. rw (trans_entry_fill_from_run te i e s Hi) decide_False //. lia.
Qed.

Lemma trans_table_fill_from_correct_witness :
  wp trans_table_fill_from
     (λ t s', s' = sample ∧ packed t ∧ tft_entries t = export <$> entries sample ∧
        ∀ te, te ∈ tft_entries t → te_wf te ∧
          ∃ e, view sample !! te_name te = Some e ∧ te_timestamp te = fe_timestamp e ∧
               te_file_type te = fe_type e ∧ owners_of te = fe_owners e) sample.
Proof.
  assert (He : entries sample = [FileEntry [49; 47; 97] 5 0 [owner1]]) by (vm_compute; reflexivity).
  assert (Hl : listed sample = [0%nat]) by (vm_compute; reflexivity).
  apply (trans_table_fill_from_correct sample 0%nat (FileEntry [49; 47; 97] 5 0 [owner1]) zero_entry sample_wf).
  - vm_compute. reflexivity.
  - rw Hl /=. rw /MAX_FILE_ENTRIES. lia.
  - rw He. intros e ->%list_elem_of_singleton. rw /= /MAX_PEER_ENTRIES. lia.
Defined.

(** [has_same_owners] decides whether the owners recorded for a file are
    exactly the ones a peer announces: same machines, same ports, same order. *)
Theorem has_same_owners_correct i e te s :
  fs_heap s !! i = Some e → te_wf te →
  has_same_owners (Some i) (Some te) s = Ok (bool_decide (fe_owners e = owners_of te), s).
Proof. apply has_same_owners_run. Qed.

Lemma has_same_owners_correct_witness :
  has_same_owners (Some 0%nat) (Some (sample_te 5 owner2)) sample = Ok (false, sample).
Proof.
  apply (has_same_owners_correct 0%nat (FileEntry [49; 47; 97] 5 0 [owner1]) (sample_te 5 owner2) sample);
    [vm_compute; reflexivity|apply sample_te_wf].
Defined.
