(* ===== verification/Segment.v ===== *)
(** * Segment: the framing of messages on a TCP stream, [utility/segment.c]

    [send_segment] writes "!&", the bytes and "!#"; [recv_segment] reads a byte
    at a time through a small state machine.  A connection is the bytes that
    went out and the answers of the next [send] calls; the incoming side is the
    list of bytes that [recv] will deliver before it returns 0 or an error. *)
From S2P Require Import Prelude.

(** ** Bytes of the markers *)
Definition BANG : Z := 33.      (** '!' *)
Definition AMP : Z := 38.       (** '&' *)
Definition SHARP : Z := 35.     (** '#' *)
Definition start_buf : list Z := [BANG; AMP].
Definition end_buf : list Z := [BANG; SHARP].

(** ** Sending *)
Record out_conn := OutConn {
  oc_sent : list Z;        (** everything the peer can read *)
  oc_answers : list Z      (** results of the next calls of send; then all bytes are taken *)
}.

(** [send(conn, buf, len, 0)]: a negative answer is an error, an answer smaller
    than [len] a partial write; reading past [buf] is a fault. *)
Definition send (buf : list Z) (len : Z) : M out_conn Z :=
  λ c, if Z.of_nat (length buf) <? len then Fault OutOfBounds else
       match oc_answers c with
       | [] => Ok (len, OutConn (oc_sent c ++ take (Z.to_nat len) buf) [])
       | a :: rest =>
           if a <? 0 then Ok (-1, OutConn (oc_sent c) rest)
           else let n := Z.min a len in
                Ok (n, OutConn (oc_sent c ++ take (Z.to_nat n) buf) rest)
       end.

Definition send_segment (buf : list Z) (len : Z) : M out_conn Z :=
  r <- send start_buf 2 ;;
  if r <? 0 then ret (-1) else
  r <- send buf len ;;
  if r <? 0 then ret (-1) else
  r <- send end_buf 2 ;;
  if r <? 0 then ret (-1) else
  ret (len + 2 + 2).

(** ** Receiving *)

(** The values of [state] while the loop runs. *)
Inductive rstate : Set :=
  | RStart        (** 0: starting point *)
  | RBang         (** 1: '!' received *)
  | RData         (** 2: '&' received, receiving the segment *)
  | RDataBang.    (** 3: '!' received in the segment *)

(** [buf[idx] = c] *)
Definition buf_put (buf : list Z) (idx : nat) (c : Z) : option (list Z) :=
  if decide (idx < length buf)%nat then Some (<[idx := c]> buf) else None.

(** The loop of [recv_segment]: the return value, the buffer, and the bytes
    still unread.  The parameter [len] of the C function is not used by it. *)
Fixpoint recv_loop (input : list Z) (state : rstate) (idx : nat) (buf : list Z) :
    res (Z * list Z * list Z) :=
  match input with
  | [] => Ok (-1, buf, [])
  | c :: input =>
      match state with
      | RStart => recv_loop input (if c =? BANG then RBang else RStart) idx buf
      | RBang => recv_loop input (if c =? AMP then RData else RStart) idx buf
      | RData =>
          match buf_put buf idx c with
          | None => Fault OutOfBounds
          | Some buf => recv_loop input (if c =? BANG then RDataBang else RData) (S idx) buf
          end
      | RDataBang =>
          match buf_put buf idx c with
          | None => Fault OutOfBounds
          | Some buf =>
              if c =? SHARP then Ok (Z.of_nat (S idx), buf, input)
              else recv_loop input (if c =? BANG then RDataBang else RData) (S idx) buf
          end
      end
  end.

Definition recv_segment (input : list Z) (buf : list Z) : res (Z * list Z * list Z) :=
  recv_loop input RStart 0 buf.

(** ** Specification *)

(** A framed payload. *)
Definition frame (p : list Z) : list Z := start_buf ++ p ++ end_buf.

(** The bytes after the first start marker, as the receiver recognises it (a
    byte that follows a '!' and is not '&' is skipped, even if it is a '!'). *)
Fixpoint after_start (input : list Z) : option (list Z) :=
  match input with
  | [] => None
  | c :: input =>
      if c =? BANG then
        match input with
        | [] => None
        | c' :: input => if c' =? AMP then Some input else after_start input
        end
      else after_start input
  end.

(** Cut a list after its first end marker; [None]: it has none. *)
Fixpoint cut_end (l : list Z) : list Z * option (list Z) :=
  match l with
  | [] => ([], None)
  | c :: l' =>
      match l' with
      | c' :: rest =>
          if (c =? BANG) && (c' =? SHARP) then ([c; c'], Some rest)
          else let r := cut_end l' in (c :: fst r, snd r)
      | [] => ([c], None)
      end
  end.

(** What the receiver computes, without its state machine. *)
Definition recv_spec (input buf : list Z) : res (Z * list Z * list Z) :=
  match after_start input with
  | None => Ok (-1, buf, [])
  | Some l =>
      let r := cut_end l in
      let w := fst r in
      if decide (length w ≤ length buf)%nat then
        match snd r with
        | Some rest => Ok (Z.of_nat (length w), w ++ drop (length w) buf, rest)
        | None => Ok (-1, w ++ drop (length w) buf, [])
        end
      else Fault OutOfBounds
  end.

(** A payload that does not contain the end marker. *)
Definition clean (p : list Z) : Prop := snd (cut_end p) = None.
#[export] Instance clean_dec p : Decision (clean p).
Proof. rw /clean. apply _. Defined.

(** A message per payload: what the sender calls in a loop. *)
Definition send_all (ps : list (list Z)) : M out_conn unit :=
  for_each ps (λ p _, send_segment p (Z.of_nat (length p)) ;;; ret tt) tt.

(** [n] calls of [recv_segment], each into a fresh zeroed buffer of [cap] bytes;
    the received segments (the first [result] bytes of the buffer), and what is unread. *)
Fixpoint recv_all (n cap : nat) (input : list Z) : res (list (list Z) * list Z) :=
  match n with
  | O => Ok ([], input)
  | S n =>
      match recv_segment input (replicate cap 0) with
      | Fault e => Fault e
      | Ok (r, buf, input) =>
          if r <? 0 then Ok ([], input) else
          match recv_all n cap input with
          | Fault e => Fault e
          | Ok (l, rest) => Ok (take (Z.to_nat r) buf :: l, rest)
          end
      end
  end.

(** ** Lemmas *)
Lemma buf_put_app pre buf c :
  buf_put (pre ++ buf) (length pre) c =
    match buf with [] => None | _ :: buf' => Some ((pre ++ [c]) ++ buf') end.
Proof.
  rw /buf_put length_app. destruct buf as [|x buf]; case_decide; simpl in *; try lia; [done|].
  rw insert_app_r_alt // Nat.sub_diag /=. by rw -app_assoc.
Qed.

(** What remains to be done when the data state (or, with [bang], the state
    after a '!') is reached with [pre] already in the buffer. *)
Definition data_spec (bang : bool) (input pre buf : list Z) : res (Z * list Z * list Z) :=
  let r := cut_end (if bang then BANG :: input else input) in
  let w := if bang then tail (fst r) else fst r in
  if decide (length w ≤ length buf)%nat then
    match snd r with
    | Some rest => Ok (Z.of_nat (length pre + length w), (pre ++ w) ++ drop (length w) buf, rest)
    | None => Ok (-1, (pre ++ w) ++ drop (length w) buf, [])
    end
  else Fault OutOfBounds.

Lemma cut_end_cons_data c l :
  c ≠ BANG → cut_end (c :: l) = (c :: fst (cut_end l), snd (cut_end l)).
Proof.
  intros Hc. apply Z.eqb_neq in Hc. destruct l as [|c' l]; [done|].
  cbn [cut_end]. by rw Hc.
Qed.

Lemma cut_end_cons_bang c l :
  cut_end (BANG :: c :: l) =
    if c =? SHARP then ([BANG; c], Some l)
    else (BANG :: fst (cut_end (c :: l)), snd (cut_end (c :: l))).
Proof. cbn [cut_end]. by destruct (c =? SHARP). Qed.

(** One byte stored: the specification of the rest, with that byte moved to [pre]. *)
Lemma data_spec_shift (w : list Z) o (c : Z) pre x buf :
  (if decide (length (c :: w) ≤ length (x :: buf))%nat then
     match o with
     | Some rest => Ok (Z.of_nat (length pre + length (c :: w)), (pre ++ c :: w) ++ drop (length (c :: w)) (x :: buf), rest)
     | None => Ok (-1, (pre ++ c :: w) ++ drop (length (c :: w)) (x :: buf), [])
     end
   else Fault OutOfBounds) =
  (if decide (length w ≤ length buf)%nat then
     match o with
     | Some rest => Ok (Z.of_nat (length (pre ++ [c]) + length w), ((pre ++ [c]) ++ w) ++ drop (length w) buf, rest)
     | None => Ok (-1, ((pre ++ [c]) ++ w) ++ drop (length w) buf, @nil Z)
     end
   else Fault OutOfBounds).
Proof.
  rw length_app. simpl. rw -(app_assoc pre [c] w) /=.
  repeat case_decide; try lia; [|done].
  destruct o; [|done]. do 3 f_equal. lia.
Qed.

Lemma recv_loop_data bang input pre buf :
  recv_loop input (if bang : bool then RDataBang else RData) (length pre) (pre ++ buf) =
  data_spec bang input pre buf.
Proof.
  revert bang pre buf. induction input as [|c input IH]; intros bang pre buf.
  { by destruct bang; rw /data_spec /= app_nil_r. }
  destruct bang.
  - cbn [recv_loop]. rw buf_put_app. rw /data_spec cut_end_cons_bang.
    destruct (Z.eqb_spec c SHARP) as [->|Hs].
    + destruct buf as [|x buf]; cbn [fst snd tail]; [done|].
      cbn [length]. case_decide; [|lia]. cbn [drop]. rw drop_0. do 3 f_equal. lia.
    + cbn [fst snd tail]. destruct buf as [|x buf].
      { destruct (cut_end (c :: input)) as [w o] eqn:E. simpl.
        destruct w as [|y w]; [|done].
        destruct input; simpl in E; [done|]. by case_match. }
      replace (S (length pre)) with (length (pre ++ [c])) by (rw length_app /=; lia).
      destruct (Z.eqb_spec c BANG) as [->|Hb].
      * rw (IH true) /data_spec.
        assert (E : fst (cut_end (BANG :: input)) = BANG :: tail (fst (cut_end (BANG :: input)))).
        { destruct input as [|c' input]; [done|]. rw cut_end_cons_bang. by case_match. }
        rw E. cbn [tail]. by rw data_spec_shift.
      * rw (IH false) /data_spec cut_end_cons_data //. cbn [fst snd]. by rw data_spec_shift.
  - cbn [recv_loop]. rw buf_put_app. rw /data_spec. destruct buf as [|x buf].
    { destruct (cut_end (c :: input)) as [w o] eqn:E. simpl.
      destruct w as [|y w]; [|done].
      destruct input; simpl in E; [done|]. by case_match. }
    replace (S (length pre)) with (length (pre ++ [c])) by (rw length_app /=; lia).
    destruct (Z.eqb_spec c BANG) as [->|Hb].
    + rw (IH true) /data_spec.
      assert (E : fst (cut_end (BANG :: input)) = BANG :: tail (fst (cut_end (BANG :: input)))).
      { destruct input as [|c' input]; [done|]. rw cut_end_cons_bang. by case_match. }
      rw E. cbn [tail]. by rw data_spec_shift.
    + rw (IH false) /data_spec cut_end_cons_data //. cbn [fst snd]. by rw data_spec_shift.
Qed.

(** Looking for the start marker does not touch the buffer. *)
Lemma recv_loop_start input buf :
  recv_loop input RStart 0 buf = recv_spec input buf.
Proof.
  rw /recv_spec. remember (length input) as n eqn:Hn.
  revert input Hn. induction (lt_wf n) as [n _ IH]. intros input ->.
  destruct input as [|c input]; [done|]. cbn [recv_loop after_start].
  destruct (Z.eqb_spec c BANG) as [_|_].
  - destruct input as [|c' input]; [done|]. cbn [recv_loop].
    destruct (Z.eqb_spec c' AMP) as [_|_].
    + rw (recv_loop_data false input [] buf) /data_spec. cbn zeta.
      by destruct (snd (cut_end input)).
    + apply (IH (length input)); simpl; [lia|done].
  - apply (IH (length input)); simpl; [lia|done].
Qed.

Lemma cut_end_cons2 c c' l :
  cut_end (c :: c' :: l) =
    if (c =? BANG) && (c' =? SHARP) then ([c; c'], Some l)
    else (c :: fst (cut_end (c' :: l)), snd (cut_end (c' :: l))).
Proof. done. Qed.

Lemma cut_end_app_Some p w rest l :
  cut_end p = (w, Some rest) → cut_end (p ++ l) = (w, Some (rest ++ l)).
Proof.
  revert w rest. induction p as [|c p IH]; intros w rest; [done|].
  destruct p as [|c' p]; [done|]. cbn [app]. rw !cut_end_cons2.
  destruct ((c =? BANG) && (c' =? SHARP)); [by intros [= <- <-]|].
  destruct (cut_end (c' :: p)) as [w' o]. cbn [fst snd]. intros [= <- ->].
  cbn [app] in IH. by rw (IH w' rest).
Qed.

Lemma cut_end_parts p : fst (cut_end p) ++ default [] (snd (cut_end p)) = p.
Proof.
  induction p as [|c p IH]; [done|]. destruct p as [|c' p]; [done|].
  rw cut_end_cons2. case_match; [done|]. cbn [fst snd app]. by rw IH.
Qed.

Lemma clean_cut p : clean p → cut_end p = (p, None).
Proof.
  rw /clean. intros H. pose proof (cut_end_parts p) as E.
  destruct (cut_end p) as [w o]. simpl in *. subst. by rw app_nil_r.
Qed.

Lemma cut_end_framed p l : clean p → cut_end (p ++ end_buf ++ l) = (p ++ end_buf, Some l).
Proof.
  rw /clean. induction p as [|c p IH]; [done|]. destruct p as [|c' p].
  - intros _. cbn [app end_buf]. rw !cut_end_cons2.
    replace ((c =? BANG) && (BANG =? SHARP)) with false by (by rw andb_false_r). done.
  - cbn [app]. rw !cut_end_cons2.
    destruct ((c =? BANG) && (c' =? SHARP)); [done|]. cbn [snd]. intros H.
    cbn [app] in IH. by rw IH.
Qed.

Lemma after_start_frame p l : after_start (frame p ++ l) = Some (p ++ end_buf ++ l).
Proof. rw /frame /= -app_assoc. done. Qed.

Lemma recv_segment_frame p l buf :
  clean p → (length p + 2 ≤ length buf)%nat →
  recv_segment (frame p ++ l) buf =
    Ok (Z.of_nat (length p + 2), p ++ end_buf ++ drop (length p + 2) buf, l).
Proof.
  intros Hc Hlen. rw /recv_segment recv_loop_start /recv_spec after_start_frame cut_end_framed //.
  cbn [fst snd]. rw length_app. case_decide; [|simpl in *; lia]. by rw -app_assoc.
Qed.

(** Every [send] of the segment accepts everything. *)
Lemma send_segment_run p c :
  oc_answers c = [] →
  send_segment p (Z.of_nat (length p)) c =
    Ok (Z.of_nat (length p) + 4, OutConn (oc_sent c ++ frame p) []).
Proof.
  destruct c as [sent ans]. cbn [oc_answers]. intros ->.
  rw /send_segment /bind /send. cbn [oc_answers oc_sent]. simpl length.
  rw /= (Z.ltb_irrefl (Z.of_nat _)). cbn [oc_answers oc_sent].
  rw (proj2 (Z.ltb_ge _ _)); [lia|]. rw /ret Nat2Z.id firstn_all.
  do 2 f_equal; [lia|]. rw /frame /start_buf /end_buf. by rw -!app_assoc.
Qed.

Lemma send_all_run ps c :
  oc_answers c = [] → send_all ps c = Ok (tt, OutConn (oc_sent c ++ concat (frame <$> ps)) []).
Proof.
  revert c. induction ps as [|p ps IH]; intros [sent ans]; cbn [oc_answers]; intros ->.
  { by rw /= app_nil_r. }
  rw /send_all in IH *. cbn [for_each]. rw {1}/bind {1}/bind send_segment_run //. cbn [oc_sent].
  rw {1}/ret. rw IH //. cbn [oc_sent fmap list_fmap concat].
  by rw app_assoc.
Qed.

(** ** Properties *)

(** C31. [recv_segment] computes, for every byte stream and every buffer, what the
    framing says: skip to the first start marker, store everything up to and
    including the first end marker, leave the rest unread; -1 when the stream
    ends first; and it writes outside the buffer exactly when the segment with
    its end marker is longer than the buffer (its [len] parameter is not consulted). *)
Theorem recv_segment_correct input buf :
  recv_segment input buf = recv_spec input buf.
Proof. apply recv_loop_start. Qed.

(** C30. Framing is a round trip: payloads that do not contain the end marker and
    fit the receiver's buffer are received one by one, in order, each followed by
    the two bytes of the end marker, and nothing beyond the last is consumed. *)
Theorem segments_roundtrip ps cap c later :
  Forall (λ p, clean p ∧ (length p + 2 ≤ cap)%nat) ps →
  oc_answers c = [] → oc_sent c = [] →
  ∃ c', send_all ps c = Ok (tt, c') ∧
    recv_all (length ps) cap (oc_sent c' ++ later) = Ok ((λ p, p ++ end_buf) <$> ps, later).
Proof.
  intros Hps Hans Hsent. eexists. split; [by apply send_all_run|]. cbn [oc_sent]. rw Hsent. clear Hans Hsent.
  induction Hps as [|p ps [Hc Hl] _ IH]; [done|].
  cbn [recv_all length]. csimpl. rw -app_assoc recv_segment_frame //.
  { by rw length_replicate. }
  destruct (Z.ltb_spec (Z.of_nat (length p + 2)) 0); [lia|].
  cbn [app] in IH. rw IH. rw app_assoc Nat2Z.id take_app_length' //. by rw length_app /=.
Qed.

(** A payload that contains the end marker is cut there: the receiver gets
    the part up to it as a segment, and reads the rest of the payload as the
    beginning of the stream of the next one. *)
Theorem recv_segment_marker_in_payload p w rest l buf :
  cut_end p = (w, Some rest) → (length w ≤ length buf)%nat →
  recv_segment (frame p ++ l) buf =
    Ok (Z.of_nat (length w), w ++ drop (length w) buf, rest ++ end_buf ++ l).
Proof.
  intros Hp Hw. rw /recv_segment recv_loop_start /recv_spec after_start_frame.
  rw (cut_end_app_Some _ _ _ _ Hp). cbn [fst snd]. by case_decide.
Qed.

(** What [send_segment] reports and what reaches the wire: -1 exactly when one
    of its three [send] calls fails; otherwise [len + 4], even if [send] accepted
    only a part of the bytes. *)
Theorem send_segment_result p a1 a2 a3 rest sent :
  let c := OutConn sent (a1 :: a2 :: a3 :: rest) in
  let n := Z.of_nat (length p) in
  let part (l : list Z) a := take (Z.to_nat a) l in
  send_segment p n c =
    if a1 <? 0 then Ok (-1, OutConn sent (a2 :: a3 :: rest))
    else if a2 <? 0 then Ok (-1, OutConn (sent ++ part start_buf a1) (a3 :: rest))
    else if a3 <? 0 then Ok (-1, OutConn ((sent ++ part start_buf a1) ++ part p a2) rest)
    else Ok (n + 4, OutConn (((sent ++ part start_buf a1) ++ part p a2) ++ part end_buf a3) rest).
Proof.
  intros c n part.
  assert (Hsend : ∀ buf s a r, send buf (Z.of_nat (length buf)) (OutConn s (a :: r)) =
    Ok (if a <? 0 then -1 else Z.min a (Z.of_nat (length buf)),
        OutConn (if a <? 0 then s else s ++ part buf a) r)).
  { intros buf s a r. rw /send Z.ltb_irrefl. cbn [oc_answers oc_sent].
    destruct (Z.ltb_spec a 0); [done|]. do 3 f_equal. rw /part Z2Nat.inj_min Nat2Z.id.
    destruct (Nat.min_spec (Z.to_nat a) (length buf)) as [[? ->]|[? ->]]; [done|].
    rw firstn_all take_ge //. }
  rw /send_segment /c /bind (Hsend start_buf).
  destruct (Z.ltb_spec a1 0); [done|].
  destruct (Z.ltb_spec (Z.min a1 (Z.of_nat (length start_buf))) 0); [simpl in *; lia|].
  rw Hsend. destruct (Z.ltb_spec a2 0); [done|].
  destruct (Z.ltb_spec (Z.min a2 (Z.of_nat (length p))) 0); [lia|].
  rw (Hsend end_buf). destruct (Z.ltb_spec a3 0); [done|].
  destruct (Z.ltb_spec (Z.min a3 (Z.of_nat (length end_buf))) 0); [simpl in *; lia|].
  rw /ret. do 2 f_equal. lia.
Qed.

(** ** Witnesses *)
Lemma segments_roundtrip_witness :
  ∃ c', send_all [[1; 33; 2]; [33]] (OutConn [] []) = Ok (tt, c') ∧
    recv_all 2 8 (oc_sent c' ++ [7]) = Ok ([[1; 33; 2; 33; 35]; [33; 33; 35]], [7]).
Proof.
  apply (segments_roundtrip [[1; 33; 2]; [33]] 8 (OutConn [] []) [7]); [|reflexivity..].
  repeat (constructor; [split; [reflexivity|simpl; lia]|]). constructor.
Defined.

Lemma recv_segment_marker_in_payload_witness :
  recv_segment (frame [5; 33; 35; 6] ++ []) (replicate 10 0) =
    Ok (3, [5; 33; 35] ++ replicate 7 0, [6] ++ end_buf ++ []).
Proof.
  apply (recv_segment_marker_in_payload [5; 33; 35; 6] [5; 33; 35] [6] [] (replicate 10 0));
    [reflexivity|simpl; lia].
Defined.

(** A '!' just before a start marker hides it. *)
Example start_marker_missed : recv_segment ([33] ++ frame [1]) (replicate 8 0) = Ok (-1, replicate 8 0, []).
Proof. reflexivity. Qed.
