(* ===== verification/Wire.v ===== *)
(** * Wire: the bytes of the structures that travel between the machines

    The program copies C structures to and from byte buffers with [memcpy], so
    what the machines exchange is the memory of the structures: their fields at
    the offsets of the System V AMD64 ABI, little-endian, padding included.
    [Codec] is the interface: the size of a type, its bytes, the value a buffer
    of that size holds, and the round-trip law.  [trans_file_table], of which
    only a prefix travels, is treated at the end. *)
From S2P Require Import Prelude TransTable.

(** ** Layout of C structures: offsets of members given as (size, alignment) *)
Definition align_up (o a : nat) : nat := ((o + a - 1) / a * a)%nat.
Fixpoint offsets (o : nat) (ms : list (nat * nat)) : list nat :=
  match ms with
  | [] => []
  | (s, a) :: ms => align_up o a :: offsets (align_up o a + s) ms
  end.
Definition struct_align (ms : list (nat * nat)) : nat := foldr (λ m, Nat.max (snd m)) 1%nat ms.
Definition struct_size (ms : list (nat * nat)) : nat :=
  align_up (foldl (λ o m, align_up o (snd m) + fst m)%nat 0%nat ms) (struct_align ms).

Definition peer_id_members : list (nat * nat) := [(4, 4); (2, 2)]%nat.
Definition trans_file_entry_members : list (nat * nat) :=
  [(MAX_NAME_LEN, 1); (8, 8); (2, 2); (2, 2); (2, 2);
   (MAX_PEER_ENTRIES * struct_size peer_id_members, struct_align peer_id_members)]%nat.

(** ** Little-endian integers *)
Fixpoint le (n : nat) (z : Z) : list Z :=
  match n with O => [] | S n => z mod 256 :: le n (z / 256) end.
Fixpoint unle (l : list Z) : Z :=
  match l with [] => 0 | b :: l => b + 256 * unle l end.

Definition get (o n : nat) (l : list Z) : Z := unle (slice o n l).
Definition zeros (n : nat) : list Z := replicate n 0.

(** A [char name[n]] filled by [strcpy] in zeroed memory, and the C string in it. *)
Definition put_name (n : nat) (name : list Z) : list Z := name ++ zeros (n - length name).
Fixpoint c_string (l : list Z) : list Z :=
  match l with
  | [] => []
  | c :: l => if c =? 0 then [] else c :: c_string l
  end.
Definition is_char (c : Z) : Prop := 0 < c < 256.
Definition name_ok (n : nat) (name : list Z) : Prop := Forall is_char name ∧ (length name < n)%nat.

(** ** The interface *)
Class Codec (A : Type) := {
  csize : nat;                  (** [sizeof] *)
  enc : A → list Z;             (** the bytes of a value *)
  dec : list Z → A;             (** the value in a buffer of [csize] bytes *)
  storable : A → Prop           (** every member fits its C type *)
}.
Arguments csize A {_}.

Class CodecLaws (A : Type) `{Codec A} := {
  length_enc : ∀ a : A, storable a → length (enc a) = csize A;
  dec_enc : ∀ a : A, storable a → dec (enc a) = a
}.

(** An array of structures. *)
Definition enc_array `{Codec A} (l : list A) : list Z := concat (enc <$> l).
Fixpoint dec_array `{Codec A} (n : nat) (l : list Z) : list A :=
  match n with O => [] | S n => dec (take (csize A) l) :: dec_array n (drop (csize A) l) end.

(** ** [struct peer_id] *)
#[export] Instance peer_id_codec : Codec peer_id := {
  csize := 8;
  enc p := le 4 (ip p) ++ le 2 (port p) ++ zeros 2;
  dec l := PeerId (get 0 4 l) (get 4 2 l);
  storable p := is_u32 (ip p) ∧ is_u16 (port p)
}.

(** ** [struct trans_file_entry] *)
#[export] Instance trans_file_entry_codec : Codec trans_file_entry := {
  csize := 272;
  enc te := put_name MAX_NAME_LEN (te_name te) ++ le 8 (te_timestamp te) ++ le 2 (te_op_type te) ++
    le 2 (te_file_type te) ++ le 2 (te_owner_n te) ++ zeros 2 ++ enc_array (te_owners te);
  dec l := TransEntry (c_string (slice 0 128 l)) (get 128 8 l) (get 136 2 l) (get 138 2 l) (get 140 2 l)
    (dec_array MAX_PEER_ENTRIES (slice 144 128 l));
  storable te := name_ok MAX_NAME_LEN (te_name te) ∧ is_u64 (te_timestamp te) ∧ is_u16 (te_op_type te) ∧
    is_u16 (te_file_type te) ∧ is_u16 (te_owner_n te) ∧
    length (te_owners te) = MAX_PEER_ENTRIES ∧ Forall storable (te_owners te)
}.

(** ** [struct trans_file_table]: only a prefix of its memory is ever copied *)

(** The memory of a table up to its last represented entry; zero after it. *)
Definition table_mem (t : trans_file_table) : list Z :=
  le 4 (tft_n t) ++ zeros 4 ++ enc_array (tft_entries t).

(** The first [len] bytes of memory that is [l] and then zero. *)
Definition mem_read (len : nat) (l : list Z) : list Z := take len l ++ zeros (len - length l).

(** The table whose memory is [l] and then zero. *)
Definition table_of_mem (l : list Z) : trans_file_table :=
  let body := drop 8 l in
  let k := ((length body + 271) / 272)%nat in
  TransTable (i32 (get 0 4 l)) (dec_array k (mem_read (k * 272) body)).

(** [trans_table_len(table)] of type [size_t]; the argument of [memcpy] in
    [memcpy(data, tft, trans_table_len(tft))]. *)
Definition trans_table_len (t : trans_file_table) : Z := u64 (4 + u64 (u64 (tft_n t) * 272)).

(** [memcpy(tft, data, len)] over a table that was there. *)
Definition table_load (old : trans_file_table) (data : list Z) : trans_file_table :=
  table_of_mem (data ++ drop (length data) (table_mem old)).

(** ** Specification: what arrives of a table *)

(** [trans_table_len] does not count the padding after [n], so the last four
    bytes of the last entry, where the port of its sixteenth owner is, stay behind. *)
Definition clip_entry (te : trans_file_entry) : trans_file_entry :=
  TransEntry (te_name te) (te_timestamp te) (te_op_type te) (te_file_type te) (te_owner_n te)
    (alter (λ p, PeerId (ip p) 0) 15%nat (te_owners te)).
Definition clip (t : trans_file_table) : trans_file_table :=
  TransTable (tft_n t) (alter clip_entry (length (tft_entries t) - 1)%nat (tft_entries t)).

(** The table as it is after the trip: the last port zeroed. *)
Definition table_storable (t : trans_file_table) : Prop := packed t ∧ Forall storable (tft_entries t).
(** The entries that fit a packet whose [data_len] is 16 bits wide. *)
Definition MAX_SENT_ENTRIES : Z := 240.

(** ** Lemmas: integers and buffers *)
Lemma length_le n z : length (le n z) = n.
Proof. revert z. induction n as [|n IH]; intros z; simpl; [done|by rw IH]. Qed.

Lemma unle_le n z : unle (le n z) = z mod 256 ^ Z.of_nat n.
Proof.
  revert z. induction n as [|n IH]; intros z; [by rw Z.mod_1_r|].
  cbn [le unle]. rw IH Nat2Z.inj_succ Z.pow_succ_r; [lia|].
  rw (Z.rem_mul_r z 256); [lia..|done].
Qed.

Lemma unle_le_id n z : 0 ≤ z < 256 ^ Z.of_nat n → unle (le n z) = z.
Proof. intros H. rw unle_le Z.mod_small; done. Qed.

Lemma length_zeros n : length (zeros n) = n.
Proof. apply length_replicate. Qed.

Lemma slice_here n a l : length a = n → slice 0 n (a ++ l) = a.
Proof. intros <-. rw /slice drop_0. by apply take_app_length. Qed.

Lemma slice_skip o n a l : (length a ≤ o)%nat → slice o n (a ++ l) = slice (o - length a) n l.
Proof. intros H. rw /slice. by rw drop_app_ge. Qed.

Lemma slice_all n a : length a = n → slice 0 n a = a.
Proof. intros <-. rw /slice drop_0. by apply firstn_all. Qed.

Lemma length_put_name n name : name_ok n name → length (put_name n name) = n.
Proof. intros [_ H]. rw /put_name length_app length_zeros. lia. Qed.

Lemma c_string_put n name : name_ok n name → c_string (put_name n name) = name.
Proof.
  intros [Hc Hl]. rw /put_name.
  assert (∃ k, (n - length name = S k)%nat) as [k ->] by (exists (n - length name - 1)%nat; lia).
  clear Hl. induction Hc as [|c name [Hc _] _ IH]; [done|]. cbn [app c_string].
  destruct (Z.eqb_spec c 0); [lia|]. by rw IH.
Qed.

(** Find a field in the concatenation of the members. *)
Ltac find_slice :=
  repeat (rw slice_skip; [rw ?length_le ?length_zeros ?length_put_name //; lia|]);
  rw ?length_le ?length_zeros ?length_put_name //;
  match goal with
  | |- context [slice ?o ?n (_ ++ _)] => replace o with 0%nat by lia; rw slice_here
  | |- context [slice ?o ?n _] => replace o with 0%nat by lia; rw slice_all
  end.

(** ** Lemmas: arrays *)
Section array.
Context `{CodecLaws A}.

Lemma length_enc_array (l : list A) : Forall storable l → length (enc_array l) = (csize A * length l)%nat.
Proof.
  induction 1 as [|a l Ha _ IH]; [simpl; lia|].
  rw /enc_array. csimpl. rw length_app length_enc // -/(enc_array l) IH. lia.
Qed.

Lemma enc_array_cons (a : A) l : enc_array (a :: l) = enc a ++ enc_array l.
Proof. done. Qed.

Lemma enc_array_app (l k : list A) : enc_array (l ++ k) = enc_array l ++ enc_array k.
Proof. rw /enc_array fmap_app. apply concat_app. Qed.

Lemma dec_enc_array (l : list A) b :
  Forall storable l → dec_array (length l) (enc_array l ++ b) = l.
Proof.
  induction 1 as [|a l Ha _ IH]; [done|]. cbn [length dec_array]. rw enc_array_cons -app_assoc.
  rw take_app_length' ?length_enc // drop_app_length' ?length_enc // dec_enc // IH //.
Qed.

Lemma dec_array_app n m b c :
  length b = (csize A * n)%nat → dec_array (n + m) (b ++ c) = dec_array n b ++ dec_array m c.
Proof.
  revert b. induction n as [|n IH]; intros b Hb.
  { destruct b; [done|simpl in Hb; lia]. }
  cbn [Nat.add dec_array app]. f_equal.
  - rw take_app_le //. lia.
  - rw drop_app_le; [lia|]. apply IH. rw length_drop. lia.
Qed.
End array.

(** ** Lemmas: the structures *)
Ltac fits := unfold is_u16, is_u32, is_u64 in *; simpl; lia.

#[export] Instance peer_id_codec_laws : CodecLaws peer_id.
Proof.
  split.
  - intros p _. done.
  - intros [i p] [Hi Hp]. cbn [ip port] in *. cbn -[le slice zeros]. rw /get.
    f_equal; find_slice; try done; rw unle_le_id //; fits.
Qed.

Lemma length_enc_owners (l : list peer_id) :
  length l = MAX_PEER_ENTRIES → Forall storable l → length (enc_array l) = 128%nat.
Proof. intros Hl Hs. rw length_enc_array // Hl. done. Qed.

#[export] Instance trans_file_entry_codec_laws : CodecLaws trans_file_entry.
Proof.
  split.
  - intros te (Hn & _ & _ & _ & _ & Hl & Ho). cbn -[le zeros put_name enc_array MAX_NAME_LEN].
    rw length_app length_put_name // !length_app !length_le length_zeros length_enc_owners //.
  - intros [name ts op ft n owners] (Hn & Hts & Hop & Hft & Hon & Hl & Ho).
    cbn [te_name te_timestamp te_op_type te_file_type te_owner_n te_owners] in *.
    cbn -[le slice zeros put_name enc_array dec_array MAX_NAME_LEN MAX_PEER_ENTRIES]. rw /get.
    assert (Hmax : MAX_NAME_LEN = 128%nat) by done.
    f_equal.
    + rw slice_here; [by rw length_put_name|]. by apply c_string_put.
    + find_slice; [done|]. rw unle_le_id //; fits.
    + find_slice; [done|]. rw unle_le_id //; fits.
    + find_slice; [done|]. rw unle_le_id //; fits.
    + find_slice; [done|]. rw unle_le_id //; fits.
    + find_slice; [by apply length_enc_owners|]. rw -(app_nil_r (enc_array owners)) -Hl.
      by apply dec_enc_array.
Qed.

(** ** Lemmas: tables *)
Lemma mem_read_exact n l k : length l = (n + k)%nat → mem_read n l = take n l.
Proof. intros H. rw /mem_read. replace (n - length l)%nat with 0%nat by lia. by rw app_nil_r. Qed.

Lemma mem_read_more n l : (length l ≤ n)%nat → mem_read n l = l ++ zeros (n - length l).
Proof. intros H. rw /mem_read take_ge //. Qed.

Lemma length_mem_read n l : length (mem_read n l) = n.
Proof. rw /mem_read length_app length_take length_zeros. lia. Qed.

Lemma slice_mem_read o n m l : (o + n ≤ m)%nat → (o + n ≤ length l)%nat → slice o n (mem_read m l) = slice o n l.
Proof.
  intros H1 H2. rw /slice /mem_read. rw drop_app_le; [rw length_take; lia|].
  rw take_app_le; [rw length_drop length_take; lia|]. rw skipn_firstn_comm take_take. f_equal. lia.
Qed.

Lemma lookup_dec_array `{Codec A} n l i :
  (i < n)%nat → dec_array n l !! i = Some (dec (slice (i * csize A) (csize A) l)).
Proof.
  revert l i. induction n as [|n IH]; intros l i Hi; [lia|]. destruct i as [|i]; cbn [dec_array].
  { by rw /= /slice drop_0. }
  cbn [lookup list_lookup]. rw IH; [lia|]. do 2 f_equal. rw /slice drop_drop. by do 2 f_equal.
Qed.

Lemma slice_enc_array `{CodecLaws A} (l : list A) i a :
  Forall storable l → l !! i = Some a → slice (i * csize A) (csize A) (enc_array l) = enc a.
Proof.
  intros Hl. revert i. induction Hl as [|b l Hb Hl IH]; intros i Hi; [done|].
  rw enc_array_cons. destruct i as [|i].
  - injection Hi as ->. rw slice_here // length_enc //.
  - rw slice_skip length_enc //; [simpl; lia|].
    replace (S i * csize A - csize A)%nat with (i * csize A)%nat by lia. by apply IH.
Qed.

Lemma length_table_mem t :
  Forall storable (tft_entries t) → length (table_mem t) = (8 + 272 * length (tft_entries t))%nat.
Proof. intros H. by rw /table_mem 2!length_app length_le length_zeros (length_enc_array _ H). Qed.

Lemma trans_table_len_eq t :
  0 ≤ tft_n t ≤ MAX_FILE_ENTRIES → trans_table_len t = 4 + 272 * tft_n t.
Proof. rw /trans_table_len /MAX_FILE_ENTRIES. intros H. rw !u64_id; fits. Qed.

Lemma get_table_n t l : 0 ≤ tft_n t < 2 ^ 31 → i32 (get 0 4 (le 4 (tft_n t) ++ l)) = tft_n t.
Proof.
  intros H. rw /get slice_here ?length_le // unle_le_id; [simpl; lia|]. apply i32_id. lia.
Qed.

Lemma last_owner (l : list peer_id) :
  length l = MAX_PEER_ENTRIES → ∃ k x, l = k ++ [x] ∧ length k = 15%nat.
Proof.
  intros H. destruct (lookup_lt_is_Some_2 l 15) as [x Hx]; [rw H /MAX_PEER_ENTRIES; lia|].
  exists (take 15 l), x. split; [|rw length_take H; done].
  rw -{1}(firstn_skipn 15 l). f_equal. rw (drop_S _ _ _ Hx) drop_ge // H. done.
Qed.

(** The sixteenth owner's port and padding are the last four bytes of an entry. *)
Lemma enc_clip_entry te :
  storable te → enc (clip_entry te) = take 268 (enc te) ++ zeros 4.
Proof.
  intros (Hn & _ & _ & _ & _ & Hl & Ho).
  destruct (last_owner _ Hl) as (l & x & E & Hlen). rw E in Ho. apply Forall_app in Ho as [Ho Hx].
  assert (Halt : te_owners (clip_entry te) = l ++ [PeerId (ip x) 0]).
  { rw /clip_entry /= E -Hlen alter_app_r_alt; [lia|]. by rw Nat.sub_diag. }
  cbn -[le zeros put_name enc_array take MAX_NAME_LEN clip_entry]. rw Halt E !enc_array_app.
  rw /clip_entry. cbn [te_name te_timestamp te_op_type te_file_type te_owner_n].
  assert (Hput : length (put_name MAX_NAME_LEN (te_name te)) = 128%nat) by (by rw length_put_name).
  assert (Harr : length (enc_array l) = 120%nat) by (rw length_enc_array // Hlen //).
  do 7 (rw take_app_ge; [rw ?Hput ?Harr ?length_le ?length_zeros; lia|]).
  rw Hput Harr !length_le length_zeros -!app_assoc. by do 8 f_equal.
Qed.

Lemma storable_clip_entry te : storable te → storable (clip_entry te).
Proof.
  intros (Hn & Hts & Hop & Hft & Hon & Hl & Ho). rw /clip_entry.
  repeat split; cbn [te_name te_timestamp te_op_type te_file_type te_owner_n te_owners];
    try apply Hn; try apply Hts; try apply Hop; try apply Hft; try apply Hon.
  - by rw length_alter.
  - destruct (last_owner _ Hl) as (l & x & E & Hlen). rw E -Hlen alter_app_r_alt // Nat.sub_diag.
    rw E in Ho. apply Forall_app in Ho as [? [Hx _]%Forall_cons]. apply Forall_app. split; [done|].
    constructor; [|done]. destruct Hx. split; [done|]. simpl. rw /is_u16. lia.
Qed.

Lemma length_enc_clip_entry te : storable te → length (enc (clip_entry te)) = 272%nat.
Proof. intros H. rw (length_enc (clip_entry te)) //. by apply storable_clip_entry. Qed.

(** The memory of a received table of which only a multiple of the entry size
    less four bytes travelled. *)
Lemma table_of_mem_clip n es te :
  0 ≤ n < 2 ^ 31 → Forall storable es → storable te →
  table_of_mem (le 4 n ++ zeros 4 ++ enc_array es ++ take 268 (enc te)) =
    TransTable n (es ++ [clip_entry te]).
Proof.
  intros Hn Hes Hte.
  assert (Hlen : length (enc_array es ++ take 268 (enc te)) = (272 * length es + 268)%nat).
  { rw length_app length_enc_array // length_take length_enc //. }
  rw /table_of_mem. rw (get_table_n (TransTable n [])) //.
  rw (app_assoc (le 4 n)) drop_app_length' //. rw Hlen.
  replace ((272 * length es + 268 + 271) / 272)%nat with (length es + 1)%nat.
  2: { apply (Nat.div_unique _ 272 _ 267); lia. }
  rw mem_read_more Hlen; [lia|].
  replace ((length es + 1) * 272 - (272 * length es + 268))%nat with 4%nat by lia.
  rw -app_assoc -enc_clip_entry //.
  rw (dec_array_app (length es) 1); [by rw length_enc_array|].
  rw -{1}(app_nil_r (enc_array es)) dec_enc_array //. do 3 f_equal. cbn [dec_array].
  rw take_ge; [rw length_enc_clip_entry //|].
  rw dec_enc //. by apply storable_clip_entry.
Qed.

(** What [memcpy] takes of a table: all but the last four bytes. *)
Lemma sent_bytes n es te :
  n = Z.of_nat (length es + 1) → Forall storable es → storable te →
  mem_read (Z.to_nat (4 + 272 * n)) (table_mem (TransTable n (es ++ [te]))) =
    le 4 n ++ zeros 4 ++ enc_array es ++ take 268 (enc te).
Proof.
  intros Hp Hes Hte. rw /table_mem. cbn [tft_n tft_entries]. rw enc_array_app.
  assert (Hte' : enc_array [te] = enc te) by (rw /enc_array /= app_nil_r //). rw Hte'.
  assert (Hlen : length (le 4 n ++ zeros 4 ++ enc_array es ++ enc te) = (272 * length es + 280)%nat).
  { rw 3!length_app length_le length_zeros length_enc_array // length_enc //. simpl. lia. }
  rw (mem_read_exact _ _ 4); [rw Hlen; lia|].
  replace (Z.to_nat (4 + 272 * n)) with (4 + (4 + (length (enc_array es) + 268)))%nat.
  2: { rw length_enc_array //. simpl. lia. }
  rw take_app_add' //. rw take_app_add' //. by rw take_app_add.
Qed.

Lemma table_load_sent t :
  table_storable t → tft_n t ≤ MAX_FILE_ENTRIES →
  table_load zero_table (mem_read (Z.to_nat (trans_table_len t)) (table_mem t)) = clip t.
Proof.
  intros [Hp Hs] Hn. rw trans_table_len_eq; [rw Hp in Hn *; lia|].
  destruct t as [n es]. rw /packed /= in Hp. cbn [tft_n tft_entries] in *.
  destruct es as [|te es _] using rev_ind.
  { simpl in Hp. by subst n. }
  apply Forall_app in Hs as [Hes [Hte _]%Forall_cons]. rw length_app /= in Hp.
  rw sent_bytes //.
  rw /table_load. rw drop_ge; [rw !length_app length_le length_zeros; simpl; lia|].
  rw app_nil_r table_of_mem_clip //; [rw /MAX_FILE_ENTRIES in Hn; lia|].
  rw /clip. cbn [tft_n tft_entries]. f_equal. rw length_app /= Nat.add_sub.
  rw alter_app_r_alt // Nat.sub_diag //.
Qed.

Lemma clip_entry_id te :
  port <$> te_owners te !! 15%nat = Some 0 → clip_entry te = te.
Proof.
  intros H. rw /clip_entry. destruct te as [name ts op ft n owners]. f_equal.
  cbn [te_owners] in *. apply list_eq. intros i. rw list_lookup_alter. case_decide; [|done]. subst.
  destruct (owners !! 15%nat) as [[i p]|]; simpl in *; [|done]. by injection H as ->.
Qed.

(** The entries a table keeps when only its first [L] bytes travel. *)
Lemma table_load_prefix t L i te :
  Forall storable (tft_entries t) → tft_entries t !! i = Some te →
  (8 + 272 * (i + 1) ≤ L)%nat →
  tft_entries (table_load zero_table (mem_read L (table_mem t))) !! i = Some te.
Proof.
  intros Hs Hi HL. pose proof (lookup_lt_Some _ _ _ Hi) as Hlt.
  rw /table_load. rw drop_ge; [rw length_mem_read /table_mem /=; lia|]. rw app_nil_r /table_of_mem.
  cbn [tft_entries].
  assert (Hd : length (drop 8 (mem_read L (table_mem t))) = (L - 8)%nat) by (rw length_drop length_mem_read //).
  assert ((i + 1 ≤ (L - 8 + 271) / 272)%nat) by (apply Nat.div_le_lower_bound; lia).
  rw lookup_dec_array Hd; [lia|]. f_equal. cbn [csize trans_file_entry_codec].
  rw slice_mem_read; [lia|lia|]. rw {1}/slice drop_drop.
  fold (slice (8 + i * 272) 272 (mem_read L (table_mem t))).
  rw slice_mem_read ?length_table_mem //; [lia|lia|].
  rw /table_mem !slice_skip ?length_le ?length_zeros; [lia|lia|].
  replace (8 + i * 272 - 4 - 4)%nat with (i * 272)%nat by lia.
  rw (slice_enc_array _ _ te Hs Hi). apply dec_enc. by eapply Forall_lookup_1.
Qed.

Lemma table_load_beyond t L i :
  (8 ≤ L)%nat → (L ≤ 8 + 272 * i)%nat →
  tft_entries (table_load zero_table (mem_read L (table_mem t))) !! i = None.
Proof.
  intros H8 HL. rw /table_load. rw drop_ge; [rw length_mem_read /table_mem /=; lia|].
  rw app_nil_r /table_of_mem. cbn [tft_entries]. apply lookup_ge_None_2.
  assert (Hd : length (drop 8 (mem_read L (table_mem t))) = (L - 8)%nat) by (rw length_drop length_mem_read //).
  rw Hd. assert (Hda : ∀ n l, length (@dec_array trans_file_entry _ n l) = n).
  { induction n as [|n IH]; intros l; simpl; [done|by rw IH]. }
  rw Hda. apply Nat.lt_succ_r, Nat.div_lt_upper_bound; lia.
Qed.

(** ** Properties *)

(** The offsets the codecs use are those of the ABI. *)
Example trans_file_entry_layout :
  offsets 0 trans_file_entry_members = [0; 128; 136; 138; 140; 144]%nat ∧
  struct_size trans_file_entry_members = csize trans_file_entry ∧
  struct_size peer_id_members = csize peer_id.
Proof. vm_compute. done. Qed.

(** C32. The bytes [memcpy(data, tft, trans_table_len(tft))] takes from a table,
    copied over a zeroed table on the other side, give the table back, except that
    the port of the sixteenth owner of the last entry is lost ([trans_table_len]
    leaves out the four bytes of padding after [n]); nothing is lost when the
    last entry has at most fifteen owners. *)
Theorem table_roundtrip t :
  table_storable t → tft_n t ≤ MAX_FILE_ENTRIES →
  let data := mem_read (Z.to_nat (trans_table_len t)) (table_mem t) in
  table_load zero_table data = clip t ∧
  ((∀ te, last (tft_entries t) = Some te → port <$> te_owners te !! 15%nat = Some 0) →
   table_load zero_table data = t).
Proof.
  intros Hs Hn data. rw /data table_load_sent //. split; [done|]. intros Hlast.
  rw /clip. destruct t as [n es]. cbn [tft_n tft_entries] in *. f_equal.
  apply list_eq. intros i. rw list_lookup_alter. case_decide as Hi; [|done]. subst i.
  destruct (es !! _) as [te|] eqn:E; [|done]. simpl. f_equal. apply clip_entry_id, Hlast.
  rw last_lookup -E. f_equal. lia.
Qed.

(** [data_len] is 16 bits wide: of a table of more than 240 entries only
    [trans_table_len mod 65536] bytes travel.  The receiver reads the entries that
    fit in them, sees the full count [n], and finds zeroed entries beyond. *)
Theorem long_table_truncated t i te :
  table_storable t → MAX_SENT_ENTRIES < tft_n t ≤ MAX_FILE_ENTRIES → tft_entries t !! i = Some te →
  let L := Z.to_nat (u16 (trans_table_len t)) in
  let got := table_load zero_table (mem_read L (table_mem t)) in
  u16 (trans_table_len t) < trans_table_len t ∧ tft_n got = tft_n t ∧
  ((8 + 272 * (i + 1) ≤ L)%nat → tft_get got (Z.of_nat i) = Some te) ∧
  ((8 ≤ L ≤ 8 + 272 * i)%nat → tft_get got (Z.of_nat i) = Some zero_entry).
Proof.
  intros [Hp Hs] [Hmin Hmax] Hi L got.
  assert (Hlen : trans_table_len t = 4 + 272 * tft_n t).
  { apply trans_table_len_eq. rw /MAX_SENT_ENTRIES in Hmin. lia. }
  pose proof (lookup_lt_Some _ _ _ Hi) as Hlt.
  assert (Hin : in_table (Z.of_nat i) = true).
  { rw /in_table. apply andb_true_iff. split; [apply Z.leb_le|apply Z.ltb_lt]; rw Hp in Hmax; lia. }
  split_and!.
  - rw Hlen /u16. rw /MAX_SENT_ENTRIES in Hmin. pose proof (Z.mod_pos_bound (4 + 272 * tft_n t) (2 ^ 16)). lia.
  - assert (H4 : (4 ≤ L)%nat).
    { rw /L Hlen /u16. replace (4 + 272 * tft_n t) with (4 * (1 + 68 * tft_n t)) by lia.
      pose proof (Z.mod_pos_bound (1 + 68 * tft_n t) (2 ^ 14)).
      replace (2 ^ 16) with (4 * 2 ^ 14) by done. rw Zmult_mod_distr_l.
      destruct (decide ((1 + 68 * tft_n t) mod 2 ^ 14 = 0)) as [E|E]; [|lia].
      apply Z.mod_divide in E as [q Hq]; lia. }
    rw /got /table_load /table_of_mem. cbn [tft_n].
    assert (Htake : ∃ l, mem_read L (table_mem t) = le 4 (tft_n t) ++ l).
    { rw /mem_read /table_mem take_app_ge ?length_le // -app_assoc. by eexists. }
    destruct Htake as [l ->]. rw -app_assoc get_table_n //.
    rw /MAX_SENT_ENTRIES in Hmin. rw /MAX_FILE_ENTRIES in Hmax. lia.
  - intros HL. rw /tft_get Hin Nat2Z.id (table_load_prefix _ _ _ te) //.
  - intros [H8 HL]. rw /tft_get Hin Nat2Z.id table_load_beyond //.
Qed.

(** ** Witnesses *)
Definition wire_entry : trans_file_entry := TransEntry [97; 47; 98] 7 3 0 1 (<[0%nat := PeerId 9 4192]> zero_owners).

Lemma wire_entry_storable : storable wire_entry.
Proof.
  rw /storable /= /name_ok /is_char !Forall_cons !Forall_nil.
  cbn [te_name te_timestamp te_op_type te_file_type te_owner_n te_owners ip port].
  rw /is_u16 /is_u32 /is_u64 /MAX_NAME_LEN. simpl. intuition lia.
Qed.

Lemma table_roundtrip_witness :
  let t := TransTable 2 [wire_entry; wire_entry] in
  table_load zero_table (mem_read (Z.to_nat (trans_table_len t)) (table_mem t)) = t.
Proof.
  intros t. apply (table_roundtrip t).
  - split; [done|]. repeat constructor; apply wire_entry_storable.
  - done.
  - intros te [= <-]. done.
Defined.

Lemma long_table_truncated_witness :
  let t := TransTable 500 (replicate 500 wire_entry) in
  let got := table_load zero_table (mem_read (Z.to_nat (u16 (trans_table_len t))) (table_mem t)) in
  tft_n got = 500 ∧ tft_get got 10 = Some wire_entry ∧ tft_get got 300 = Some zero_entry.
Proof.
  intros t got.
  assert (Hs : table_storable t).
  { split; [done|]. apply Forall_replicate, wire_entry_storable. }
  pose proof (long_table_truncated t 10 wire_entry Hs) as H1.
  pose proof (long_table_truncated t 300 wire_entry Hs) as H3.
  destruct H1 as (_ & Hn & H1 & _); [split; vm_compute; congruence || reflexivity|reflexivity|].
  destruct H3 as (_ & _ & _ & H3); [split; vm_compute; congruence || reflexivity|reflexivity|].
  split; [exact Hn|]. split.
  - apply H1. apply Nat.leb_le. vm_compute. reflexivity.
  - apply H3. split; apply Nat.leb_le; vm_compute; reflexivity.
Defined.
