(* ===== verification/Packet.v ===== *)
(** * Packet: the packets of the three protocols, [include/packet_def.h],
    [client/packet.h], [client/packet.c] and [server/packet.c]

    "ptot" goes from a peer to the tracker, "ttop" from the tracker to a peer,
    "p2p" between peers.  Each is a header and an array [data] of 65536 bytes of
    which [data_len] are sent.  The array is represented by its first bytes; the
    bytes after them are never read.  [socket], [bind] and [listen] are not modelled. *)
From S2P Require Import Prelude TransTable Wire Segment.

(** ** Packet types *)
Inductive ptot_packet_type : Set := PEER_REGISTER | PEER_KEEP_ALIVE | PEER_FILE_UPDATE | PEER_SYNC.
Definition ptot_code (t : ptot_packet_type) : Z :=
  match t with PEER_REGISTER => 0 | PEER_KEEP_ALIVE => 1 | PEER_FILE_UPDATE => 2 | PEER_SYNC => 3 end.
(** The [case] of a [switch]; [None] is [default]. *)
Definition ptot_of (z : Z) : option ptot_packet_type :=
  if z =? 0 then Some PEER_REGISTER else if z =? 1 then Some PEER_KEEP_ALIVE
  else if z =? 2 then Some PEER_FILE_UPDATE else if z =? 3 then Some PEER_SYNC else None.

Inductive ttop_packet_type : Set := TRACKER_ACCEPT | TRACKER_BROADCAST | TRACKER_SYNC | TRACKER_CLOSE.
Definition ttop_code (t : ttop_packet_type) : Z :=
  match t with TRACKER_ACCEPT => 0 | TRACKER_BROADCAST => 1 | TRACKER_SYNC => 2 | TRACKER_CLOSE => 3 end.
Definition ttop_of (z : Z) : option ttop_packet_type :=
  if z =? 0 then Some TRACKER_ACCEPT else if z =? 1 then Some TRACKER_BROADCAST
  else if z =? 2 then Some TRACKER_SYNC else if z =? 3 then Some TRACKER_CLOSE else None.

Inductive p2p_packet_type : Set :=
  | P2P_FILE_LEN_REQ | P2P_PORT_REQ | P2P_PIECE_REQ | P2P_FINISH
  | P2P_FILE_LEN_RET | P2P_PORT_RET | P2P_PIECE_RET.
Definition p2p_code (t : p2p_packet_type) : Z :=
  match t with
  | P2P_FILE_LEN_REQ => 0 | P2P_PORT_REQ => 1 | P2P_PIECE_REQ => 2 | P2P_FINISH => 3
  | P2P_FILE_LEN_RET => 4 | P2P_PORT_RET => 5 | P2P_PIECE_RET => 6
  end.

(** ** Structures *)
Record ptot_packet_header := PtotHeader {
  protocol_name : list Z;
  ptot_type : Z;           (** uint16_t *)
  ptot_ip : Z;             (** uint32_t *)
  ptot_port : Z;           (** uint16_t *)
  ptot_data_len : Z        (** uint16_t *)
}.
(** [ttop_packet_header]; a [p2p_packet] begins with the same two members. *)
Record ttop_packet_header := TtopHeader {
  ttop_type : Z;           (** uint16_t *)
  ttop_data_len : Z        (** uint16_t *)
}.
Record ttop_control_info := ControlInfo { interval : Z; piece_len : Z }.   (** int, int *)
Record p2p_piece_request := PieceRequest { req_piece_id : Z; req_len : Z }.  (** uint32_t, uint32_t *)

Record ptot_packet := PtotPacket { ptot_hdr : ptot_packet_header; ptot_data : list Z }.
Record ttop_packet := TtopPacket { ttop_hdr : ttop_packet_header; ttop_data : list Z }.
Record p2p_packet := P2pPacket { p2p_type : Z; p2p_data_len : Z; p2p_data : list Z }.

Definition is_i32 (z : Z) : Prop := - 2 ^ 31 ≤ z < 2 ^ 31.

#[export] Instance ptot_header_codec : Codec ptot_packet_header := {
  csize := 140;
  enc h := put_name MAX_NAME_LEN (protocol_name h) ++ le 2 (ptot_type h) ++ zeros 2 ++ le 4 (ptot_ip h) ++
    le 2 (ptot_port h) ++ le 2 (ptot_data_len h);
  dec l := PtotHeader (c_string (slice 0 128 l)) (get 128 2 l) (get 132 4 l) (get 136 2 l) (get 138 2 l);
  storable h := name_ok MAX_NAME_LEN (protocol_name h) ∧ is_u16 (ptot_type h) ∧ is_u32 (ptot_ip h) ∧
    is_u16 (ptot_port h) ∧ is_u16 (ptot_data_len h)
}.
#[export] Instance ttop_header_codec : Codec ttop_packet_header := {
  csize := 4;
  enc h := le 2 (ttop_type h) ++ le 2 (ttop_data_len h);
  dec l := TtopHeader (get 0 2 l) (get 2 2 l);
  storable h := is_u16 (ttop_type h) ∧ is_u16 (ttop_data_len h)
}.
#[export] Instance control_info_codec : Codec ttop_control_info := {
  csize := 8;
  enc c := le 4 (interval c) ++ le 4 (piece_len c);
  dec l := ControlInfo (i32 (get 0 4 l)) (i32 (get 4 4 l));
  storable c := is_i32 (interval c) ∧ is_i32 (piece_len c)
}.
#[export] Instance piece_request_codec : Codec p2p_piece_request := {
  csize := 8;
  enc r := le 4 (req_piece_id r) ++ le 4 (req_len r);
  dec l := PieceRequest (get 0 4 l) (get 4 4 l);
  storable r := is_u32 (req_piece_id r) ∧ is_u32 (req_len r)
}.

(** ** Building packets *)

(** [my_ip] is the client's global. *)
Definition ptot_packet_init (my_ip : Z) (type : ptot_packet_type) : ptot_packet :=
  PtotPacket (PtotHeader [] (ptot_code type) my_ip P2P_PORT 0) [].

(** [memcpy(data, buf, len)]: a length that is negative as an [int], or larger
    than the array, writes outside the packet. *)
Definition copy_data {S} (buf : list Z) (len : Z) : M S (list Z) :=
  if (0 <=? len) && (len <=? MAX_PKT_DATA_LEN) then ret (mem_read (Z.to_nat len) buf)
  else fail OutOfBounds.

(** The bytes [data] holds after [len] bytes are copied over what it held. *)
Definition overwrite (new old : list Z) : list Z := new ++ drop (length new) old.

Definition set_ptot_data (h : ptot_packet_header) (len : Z) : ptot_packet_header :=
  PtotHeader (protocol_name h) (ptot_type h) (ptot_ip h) (ptot_port h) (u16 len).

Definition ptot_packet_fill {S} (pkt : ptot_packet) (buf : list Z) (len : Z) : M S ptot_packet :=
  data <- copy_data buf len ;;
  ret (PtotPacket (set_ptot_data (ptot_hdr pkt) len) (overwrite data (ptot_data pkt))).

Definition p2p_packet_init (type : p2p_packet_type) : p2p_packet := P2pPacket (p2p_code type) 0 [].

Definition p2p_packet_fill {S} (pkt : p2p_packet) (buf : list Z) (len : Z) : M S p2p_packet :=
  data <- copy_data buf len ;;
  ret (P2pPacket (p2p_type pkt) (u16 len) (overwrite data (p2p_data pkt))).

(** ** Sending: [send_segment] of the header and [data_len] bytes of data.
    [data_len] being 16 bits, that never reaches past the end of the packet. *)
Definition ptot_packet_len (pkt : ptot_packet) : Z := 140 + ptot_data_len (ptot_hdr pkt).
Definition ttop_packet_len (pkt : ttop_packet) : Z := 4 + ttop_data_len (ttop_hdr pkt).
Definition p2p_packet_len (pkt : p2p_packet) : Z := 2 + 2 + p2p_data_len pkt.

Definition send_memory (mem : list Z) (len : Z) : M out_conn Z :=
  send_segment (mem_read (Z.to_nat len) mem) len.

Definition ptot_mem (pkt : ptot_packet) : list Z := enc (ptot_hdr pkt) ++ ptot_data pkt.
Definition ttop_mem (pkt : ttop_packet) : list Z := enc (ttop_hdr pkt) ++ ttop_data pkt.
Definition p2p_mem (pkt : p2p_packet) : list Z := le 2 (p2p_type pkt) ++ le 2 (p2p_data_len pkt) ++ p2p_data pkt.

Definition send_ptot_packet (pkt : ptot_packet) : M out_conn Z := send_memory (ptot_mem pkt) (ptot_packet_len pkt).
Definition send_ttop_packet (pkt : ttop_packet) : M out_conn Z := send_memory (ttop_mem pkt) (ttop_packet_len pkt).
Definition send_p2p_packet (pkt : p2p_packet) : M out_conn Z := send_memory (p2p_mem pkt) (p2p_packet_len pkt).

(** ** Receiving: the state is the incoming stream *)
Definition sizeof_ptot_packet : nat := 140 + Z.to_nat MAX_PKT_DATA_LEN.
Definition sizeof_ttop_packet : nat := 4 + Z.to_nat MAX_PKT_DATA_LEN.
Definition sizeof_p2p_packet : nat := 4 + Z.to_nat MAX_PKT_DATA_LEN.

(** [char buf[size + 2] = { 0 }; recv_segment(conn, buf, sizeof(buf))], then the
    first [size] bytes of [buf]. *)
Definition recv_memory (size : nat) : M (list Z) (Z * list Z) :=
  λ input, match recv_segment input (zeros (size + 2)) with
           | Fault e => Fault e
           | Ok (r, buf, rest) => Ok (if r <? 0 then -1 else r, take size buf, rest)
           end.

(** The packet out-parameter is not written when the result is negative. *)
Definition recv_ptot_packet (pkt : ptot_packet) : M (list Z) (Z * ptot_packet) :=
  p <- recv_memory sizeof_ptot_packet ;;
  ret (fst p, if fst p <? 0 then pkt else PtotPacket (dec (take 140 (snd p))) (drop 140 (snd p))).
Definition recv_ttop_packet (pkt : ttop_packet) : M (list Z) (Z * ttop_packet) :=
  p <- recv_memory sizeof_ttop_packet ;;
  ret (fst p, if fst p <? 0 then pkt else TtopPacket (dec (take 4 (snd p))) (drop 4 (snd p))).
(** It copies [sizeof(struct ttop_packet)] bytes, which is the size of a p2p packet. *)
Definition recv_p2p_packet (pkt : p2p_packet) : M (list Z) (Z * p2p_packet) :=
  p <- recv_memory sizeof_p2p_packet ;;
  ret (fst p, if fst p <? 0 then pkt
              else P2pPacket (get 0 2 (snd p)) (get 2 2 (snd p)) (take (Z.to_nat MAX_PKT_DATA_LEN) (drop 4 (snd p)))).

(** ** Tables in packets *)

(** The tracker's packets that carry a table: [hdr.data_len = trans_table_len(tft)]
    truncates to 16 bits, and that many bytes are copied. *)
Definition ttop_table_packet (type : ttop_packet_type) (tft : trans_file_table) : ttop_packet :=
  let data_len := u16 (trans_table_len tft) in
  TtopPacket (TtopHeader (ttop_code type) data_len) (mem_read (Z.to_nat data_len) (table_mem tft)).

(** The client's: [ptot_packet_fill(&pkt, tft, trans_table_len(tft))], the length
    converted to [int]. *)
Definition ptot_table_packet {S} (my_ip : Z) (type : ptot_packet_type) (tft : trans_file_table) : M S ptot_packet :=
  ptot_packet_fill (ptot_packet_init my_ip type) (table_mem tft) (i32 (trans_table_len tft)).

(** [memcpy(tft, pkt.data, pkt.hdr.data_len)] *)
Definition ptot_table (old : trans_file_table) (pkt : ptot_packet) : trans_file_table :=
  table_load old (mem_read (Z.to_nat (ptot_data_len (ptot_hdr pkt))) (ptot_data pkt)).
Definition ttop_table (old : trans_file_table) (pkt : ttop_packet) : trans_file_table :=
  table_load old (mem_read (Z.to_nat (ttop_data_len (ttop_hdr pkt))) (ttop_data pkt)).

(** ** Specification *)

(** What [send_ptot_packet] and [send_ttop_packet] put between the markers. *)
Definition ptot_bytes (pkt : ptot_packet) : list Z := mem_read (Z.to_nat (ptot_packet_len pkt)) (ptot_mem pkt).
Definition ttop_bytes (pkt : ttop_packet) : list Z := mem_read (Z.to_nat (ttop_packet_len pkt)) (ttop_mem pkt).
Definition p2p_bytes (pkt : p2p_packet) : list Z := mem_read (Z.to_nat (p2p_packet_len pkt)) (p2p_mem pkt).

(** The packet a client makes of a table that fits. *)
Definition table_request (my_ip : Z) (type : ptot_packet_type) (t : trans_file_table) : ptot_packet :=
  PtotPacket (PtotHeader [] (ptot_code type) my_ip P2P_PORT (trans_table_len t))
    (mem_read (Z.to_nat (trans_table_len t)) (table_mem t)).

(** ** Lemmas *)
Lemma ptot_of_code t : ptot_of (ptot_code t) = Some t.
Proof. by destruct t. Qed.
Lemma ttop_of_code t : ttop_of (ttop_code t) = Some t.
Proof. by destruct t. Qed.

Lemma unle_le_i32 z : is_i32 z → i32 (unle (le 4 z)) = z.
Proof.
  rw /is_i32 unle_le /i32. intros H.
  replace (256 ^ Z.of_nat 4) with (2 ^ 32) by done. rw Zplus_mod_idemp_l Z.mod_small; lia.
Qed.

Ltac field := find_slice; [done|..]; rw ?unle_le_id //; fits.

#[export] Instance ptot_header_codec_laws : CodecLaws ptot_packet_header.
Proof.
  split.
  - intros h (Hn & _). cbn -[le zeros put_name MAX_NAME_LEN].
    rw length_app length_put_name // !length_app !length_le length_zeros //.
  - intros [name t i p d] (Hn & Ht & Hi & Hp & Hd).
    cbn [protocol_name ptot_type ptot_ip ptot_port ptot_data_len] in *.
    cbn -[le slice zeros put_name MAX_NAME_LEN]. rw /get.
    assert (Hmax : MAX_NAME_LEN = 128%nat) by done.
    f_equal; [|field..]. rw slice_here; [by rw length_put_name|]. by apply c_string_put.
Qed.

#[export] Instance ttop_header_codec_laws : CodecLaws ttop_packet_header.
Proof.
  split; [done|]. intros [t d] [Ht Hd]. cbn [ttop_type ttop_data_len] in *.
  cbn -[le slice]. rw /get. f_equal; field.
Qed.

#[export] Instance control_info_codec_laws : CodecLaws ttop_control_info.
Proof.
  split; [done|]. intros [t d] [Ht Hd]. cbn [interval piece_len] in *.
  cbn -[le slice]. rw /get. f_equal; find_slice; try done; by apply unle_le_i32.
Qed.

#[export] Instance piece_request_codec_laws : CodecLaws p2p_piece_request.
Proof.
  split; [done|]. intros [t d] [Ht Hd]. cbn [req_piece_id req_len] in *.
  cbn -[le slice]. rw /get. f_equal; field.
Qed.

(** Sending on a connection whose [send] accepts everything. *)
Lemma send_memory_run mem len c :
  oc_answers c = [] → 0 ≤ len →
  send_memory mem len c = Ok (len + 4, OutConn (oc_sent c ++ frame (mem_read (Z.to_nat len) mem)) []).
Proof.
  intros Hc Hlen. rw /send_memory. pose proof (length_mem_read (Z.to_nat len) mem) as Hl.
  rw -{2}(Z2Nat.id len) // -{2}Hl send_segment_run // Hl Z2Nat.id //.
Qed.

Lemma send_ttop_packet_run pkt c :
  oc_answers c = [] → 0 ≤ ttop_data_len (ttop_hdr pkt) →
  send_ttop_packet pkt c = Ok (ttop_packet_len pkt + 4, OutConn (oc_sent c ++ frame (ttop_bytes pkt)) []).
Proof. intros Hc Hlen. apply send_memory_run; [done|]. rw /ttop_packet_len. lia. Qed.

Lemma send_ptot_packet_run pkt c :
  oc_answers c = [] → 0 ≤ ptot_data_len (ptot_hdr pkt) →
  send_ptot_packet pkt c = Ok (ptot_packet_len pkt + 4, OutConn (oc_sent c ++ frame (ptot_bytes pkt)) []).
Proof. intros Hc Hlen. apply send_memory_run; [done|]. rw /ptot_packet_len. lia. Qed.

Lemma recv_memory_frame size p l :
  clean p → (length p ≤ size)%nat →
  recv_memory size (frame p ++ l) =
    Ok (Z.of_nat (length p + 2), take size (p ++ end_buf ++ zeros (size - length p)), l).
Proof.
  intros Hc Hlen. rw /recv_memory recv_segment_frame //; [rw length_zeros; lia|].
  destruct (Z.ltb_spec (Z.of_nat (length p + 2)) 0); [lia|].
  rw /zeros drop_replicate. by replace (size + 2 - (length p + 2))%nat with (size - length p)%nat by lia.
Qed.

(** A header of [h] bytes and [n] bytes of data, received into a packet of [size] bytes. *)
Lemma received_parts h n size (hdr data tail : list Z) :
  length hdr = h → (h + n ≤ size)%nat →
  let buf := take size (mem_read (h + n) (hdr ++ data) ++ tail) in
  take h buf = hdr ∧ mem_read n (drop h buf) = mem_read n data.
Proof.
  intros Hh Hn buf. assert (Hr : mem_read (h + n) (hdr ++ data) = hdr ++ mem_read n data).
  { rw /mem_read length_app Hh -Hh take_app_add -app_assoc. do 3 f_equal. lia. }
  rw /buf Hr -app_assoc. split.
  - rw take_take Nat.min_l; [lia|]. by apply take_app_length'.
  - rw skipn_firstn_comm drop_app_length' //. rw {1}/mem_read take_take Nat.min_l; [lia|].
    rw take_app_length' ?length_mem_read //. rw length_take length_app length_mem_read.
    replace (n - _)%nat with 0%nat by lia. apply app_nil_r.
Qed.

Lemma is_u16_le_data z : is_u16 z → (Z.to_nat z ≤ Z.to_nat MAX_PKT_DATA_LEN)%nat.
Proof. rw /is_u16 /MAX_PKT_DATA_LEN. change (Z.shiftl 2 15) with 65536. lia. Qed.

(** The common part of receiving a packet: a header [hdr] and [n] bytes of data. *)
Lemma recv_header `{CodecLaws A} (hdr : A) n data size l :
  storable hdr → (csize A + n ≤ size)%nat → clean (mem_read (csize A + n) (enc hdr ++ data)) →
  ∃ r buf, recv_memory size (frame (mem_read (csize A + n) (enc hdr ++ data)) ++ l) = Ok (r, buf, l) ∧
    0 < r ∧ dec (take (csize A) buf) = hdr ∧ mem_read n (drop (csize A) buf) = mem_read n data.
Proof.
  intros Hs Hn Hc. rw recv_memory_frame // ?length_mem_read //.
  eexists _, _. split; [reflexivity|]. split; [lia|].
  destruct (received_parts (csize A) n size (enc hdr) data (end_buf ++ zeros (size - (csize A + n))))
    as [-> ->]; [by apply length_enc|done|]. by rw dec_enc.
Qed.

Lemma ptot_received pkt p0 l :
  storable (ptot_hdr pkt) → clean (ptot_bytes pkt) →
  ∃ r data, recv_ptot_packet p0 (frame (ptot_bytes pkt) ++ l) = Ok (r, PtotPacket (ptot_hdr pkt) data, l) ∧
    0 < r ∧ (let n := Z.to_nat (ptot_data_len (ptot_hdr pkt)) in mem_read n data = mem_read n (ptot_data pkt)).
Proof.
  intros Hs. pose proof Hs as (_ & _ & _ & _ & Hd). pose proof (is_u16_le_data _ Hd).
  rw /ptot_bytes. replace (Z.to_nat (ptot_packet_len pkt))
    with (csize ptot_packet_header + Z.to_nat (ptot_data_len (ptot_hdr pkt)))%nat.
  2: { rw /ptot_packet_len /=. rw /is_u16 in Hd. lia. }
  intros Hc. destruct (recv_header (ptot_hdr pkt) (Z.to_nat (ptot_data_len (ptot_hdr pkt))) (ptot_data pkt) sizeof_ptot_packet l Hs) as (r & buf & Hr & Hpos & Hh & Hdata).
  { rw /sizeof_ptot_packet /=. lia. }
  { done. }
  rw /recv_ptot_packet /bind Hr.
  cbn [fst snd]. rw (proj2 (Z.ltb_ge _ _)); [lia|]. change 140%nat with (csize ptot_packet_header). rw Hh. by eexists _, _.
Qed.

Lemma ttop_received pkt p0 l :
  storable (ttop_hdr pkt) → clean (ttop_bytes pkt) →
  ∃ r data, recv_ttop_packet p0 (frame (ttop_bytes pkt) ++ l) = Ok (r, TtopPacket (ttop_hdr pkt) data, l) ∧
    0 < r ∧ (let n := Z.to_nat (ttop_data_len (ttop_hdr pkt)) in mem_read n data = mem_read n (ttop_data pkt)).
Proof.
  intros Hs. pose proof Hs as (_ & Hd). pose proof (is_u16_le_data _ Hd).
  rw /ttop_bytes. replace (Z.to_nat (ttop_packet_len pkt))
    with (csize ttop_packet_header + Z.to_nat (ttop_data_len (ttop_hdr pkt)))%nat.
  2: { rw /ttop_packet_len /=. rw /is_u16 in Hd. lia. }
  intros Hc. destruct (recv_header (ttop_hdr pkt) (Z.to_nat (ttop_data_len (ttop_hdr pkt))) (ttop_data pkt) sizeof_ttop_packet l Hs) as (r & buf & Hr & Hpos & Hh & Hdata).
  { rw /sizeof_ttop_packet /=. lia. }
  { done. }
  rw /recv_ttop_packet /bind Hr.
  cbn [fst snd]. rw (proj2 (Z.ltb_ge _ _)); [lia|]. change 4%nat with (csize ttop_packet_header). rw Hh. by eexists _, _.
Qed.

Lemma MAX_PKT_DATA_LEN_eq : MAX_PKT_DATA_LEN = 65536.
Proof. done. Qed.

(** A table that fits is copied whole; a longer one does not fit [data]. *)
Lemma ptot_table_packet_run {S} my_ip type t (s : S) :
  packed t → tft_n t ≤ MAX_FILE_ENTRIES →
  ptot_table_packet my_ip type t s =
    if tft_n t <=? MAX_SENT_ENTRIES then
      Ok (table_request my_ip type t, s)
    else Fault OutOfBounds.
Proof.
  intros Hp Hn. assert (Hlen : trans_table_len t = 4 + 272 * tft_n t).
  { apply trans_table_len_eq. rw Hp in Hn *. lia. }
  assert (H0 : 0 ≤ tft_n t) by (rw Hp; lia).
  rw /ptot_table_packet /ptot_packet_fill /copy_data i32_id; [rw Hlen /MAX_FILE_ENTRIES in Hn *; lia|].
  rw MAX_PKT_DATA_LEN_eq (proj2 (Z.leb_le 0 _)); [lia|]. rw andb_true_l /MAX_SENT_ENTRIES.
  destruct (Z.leb_spec (tft_n t) 240), (Z.leb_spec (trans_table_len t) 65536); try lia; [|done].
  rw /bind /ret /set_ptot_data /overwrite /= drop_nil app_nil_r u16_id //. rw /is_u16. lia.
Qed.

Lemma storable_ptot_header type my_ip len :
  is_u32 my_ip → is_u16 len → storable (PtotHeader [] (ptot_code type) my_ip P2P_PORT len).
Proof.
  intros Hip Hlen. split; [split; [constructor|rw /MAX_NAME_LEN /=; lia]|].
  cbn. split; [by destruct type|]. split; [done|]. by split.
Qed.

Lemma fit_u16 t : packed t → tft_n t ≤ MAX_SENT_ENTRIES → is_u16 (trans_table_len t).
Proof.
  intros Hp Hn. rw trans_table_len_eq; rw Hp /MAX_SENT_ENTRIES /MAX_FILE_ENTRIES in Hn *; [lia|].
  rw /is_u16. lia.
Qed.

Lemma mem_read_idem n l : mem_read n (mem_read n l) = mem_read n l.
Proof. rw {1}/mem_read length_mem_read Nat.sub_diag app_nil_r take_ge ?length_mem_read //. Qed.

Lemma table_load_data t data n :
  table_storable t → tft_n t ≤ MAX_FILE_ENTRIES → n = Z.to_nat (trans_table_len t) →
  mem_read n data = mem_read n (mem_read n (table_mem t)) →
  table_load zero_table (mem_read n data) = clip t.
Proof.
  intros Hs Hn -> ->. rw mem_read_idem. by apply table_load_sent.
Qed.

Lemma request_delivered my_ip type t c later p0 :
  is_u32 my_ip → table_storable t → tft_n t ≤ MAX_SENT_ENTRIES → oc_answers c = [] → oc_sent c = [] →
  clean (ptot_bytes (table_request my_ip type t)) →
  ∃ c' r pkt', send_ptot_packet (table_request my_ip type t) c = Ok (ptot_packet_len (table_request my_ip type t) + 4, c') ∧
      recv_ptot_packet p0 (oc_sent c' ++ later) = Ok (r, pkt', later) ∧ 0 < r ∧
      ptot_of (ptot_type (ptot_hdr pkt')) = Some type ∧ ptot_ip (ptot_hdr pkt') = my_ip ∧
      ptot_port (ptot_hdr pkt') = P2P_PORT ∧ ptot_table zero_table pkt' = clip t.
Proof.
  intros Hip Hs Hn Hans Hsent Hc. pose proof Hs as [Hp _].
  assert (Hmax : tft_n t ≤ MAX_FILE_ENTRIES) by (rw /MAX_SENT_ENTRIES in Hn; rw /MAX_FILE_ENTRIES; lia).
  pose proof (fit_u16 _ Hp Hn) as Hu.
  destruct (ptot_received (table_request my_ip type t) p0 later) as (r & data & Hr & Hpos & Hdata); [|done|].
  { by apply storable_ptot_header. }
  eexists _, r, _. split_and!.
  - apply send_ptot_packet_run; [done|]. cbn. rw /is_u16 in Hu. lia.
  - cbn [oc_sent]. rw Hsent. exact Hr.
  - done.
  - apply ptot_of_code.
  - done.
  - done.
  - by eapply table_load_data.
Qed.

(** ** Properties *)

(** A peer's table packet: filled, sent and received, it comes out of the
    tracker's [recv_ptot_packet] with the same type, the peer's address and the
    port P2P_PORT, and the [memcpy] of its data into a zeroed table yields the table
    that was sent (up to the clipped last port), for every table of at most 240
    entries whose bytes do not contain the end marker. *)
Theorem ptot_table_delivered {S} my_ip type t (s : S) c later p0 :
  is_u32 my_ip → table_storable t → tft_n t ≤ MAX_SENT_ENTRIES → oc_answers c = [] → oc_sent c = [] →
  ∃ pkt, ptot_table_packet my_ip type t s = Ok (pkt, s) ∧
    (clean (ptot_bytes pkt) →
     ∃ c' r pkt', send_ptot_packet pkt c = Ok (ptot_packet_len pkt + 4, c') ∧
      recv_ptot_packet p0 (oc_sent c' ++ later) = Ok (r, pkt', later) ∧ 0 < r ∧
      ptot_of (ptot_type (ptot_hdr pkt')) = Some type ∧ ptot_ip (ptot_hdr pkt') = my_ip ∧
      ptot_port (ptot_hdr pkt') = P2P_PORT ∧ ptot_table zero_table pkt' = clip t).
Proof.
  intros Hip Hs Hn Hans Hsent. exists (table_request my_ip type t). split.
  - rw ptot_table_packet_run; [apply Hs|rw /MAX_SENT_ENTRIES in Hn; rw /MAX_FILE_ENTRIES; lia|].
    rw (proj2 (Z.leb_le _ _)) //.
  - by apply request_delivered.
Qed.

(** The tracker's table packet (the reply to a synchronisation, a broadcast),
    sent and received by a peer, carries the table, under the same conditions. *)
Theorem ttop_table_delivered type t c later p0 :
  table_storable t → tft_n t ≤ MAX_SENT_ENTRIES → oc_answers c = [] → oc_sent c = [] →
  clean (ttop_bytes (ttop_table_packet type t)) →
  ∃ c' r pkt', send_ttop_packet (ttop_table_packet type t) c = Ok (trans_table_len t + 8, c') ∧
    recv_ttop_packet p0 (oc_sent c' ++ later) = Ok (r, pkt', later) ∧ 0 < r ∧
    ttop_of (ttop_type (ttop_hdr pkt')) = Some type ∧ ttop_table zero_table pkt' = clip t.
Proof.
  intros Hs Hn Hans Hsent Hc. pose proof Hs as [Hp _].
  assert (Hmax : tft_n t ≤ MAX_FILE_ENTRIES) by (rw /MAX_SENT_ENTRIES in Hn; rw /MAX_FILE_ENTRIES; lia).
  pose proof (fit_u16 _ Hp Hn) as Hu.
  destruct (ttop_received (ttop_table_packet type t) p0 later) as (r & data & Hr & Hpos & Hdata); [|done|].
  { split; cbn; [by destruct type|apply u16_range]. }
  eexists _, r, _. split_and!.
  - rw send_ttop_packet_run //; [apply u16_range|]. rw {1}/ttop_packet_len /= u16_id //. do 2 f_equal. lia.
  - cbn [oc_sent]. rw Hsent. exact Hr.
  - done.
  - apply ttop_of_code.
  - eapply table_load_data; [done|done| |exact Hdata]. by rw /= u16_id.
Qed.

(** [ptot_packet_fill] has no bound check: filling a packet with a table writes
    past [data] exactly when the table has more than 240 entries (a client with
    more files than that corrupts its stack when it synchronises). *)
Theorem ptot_fill_bounds {S} my_ip type t (s : S) :
  packed t → tft_n t ≤ MAX_FILE_ENTRIES →
  (ptot_table_packet my_ip type t s = Fault OutOfBounds ↔ MAX_SENT_ENTRIES < tft_n t).
Proof.
  intros Hp Hn. rw ptot_table_packet_run //.
  destruct (Z.leb_spec (tft_n t) MAX_SENT_ENTRIES); split; intros; [done|lia|lia|done].
Qed.

(** ** Witnesses *)
Lemma ptot_table_delivered_witness :
  ∃ pkt c' r pkt', ptot_table_packet 9 PEER_SYNC (TransTable 1 [wire_entry]) tt = Ok (pkt, tt) ∧
    send_ptot_packet pkt (OutConn [] []) = Ok (420, c') ∧
    recv_ptot_packet (ptot_packet_init 0 PEER_SYNC) (oc_sent c' ++ []) = Ok (r, pkt', []) ∧
    ptot_table zero_table pkt' = TransTable 1 [wire_entry].
Proof.
  destruct (ptot_table_delivered 9 PEER_SYNC (TransTable 1 [wire_entry]) tt (OutConn [] []) []
    (ptot_packet_init 0 PEER_SYNC)) as (pkt & Hpkt & H).
  - rw /is_u32. lia.
  - split; [done|]. repeat constructor; apply wire_entry_storable.
  - done.
  - done.
  - done.
  - assert (pkt = match ptot_table_packet 9 PEER_SYNC (TransTable 1 [wire_entry]) tt with
                  | Ok p => fst p | _ => pkt end) as E by (rw Hpkt; done).
    vm_compute in E. subst pkt.
    destruct H as (c' & r & pkt' & Hs & Hr & _ & _ & _ & _ & Ht); [vm_compute; reflexivity|].
    eexists _, c', r, pkt'. split; [exact Hpkt|]. split; [exact Hs|]. split; [exact Hr|exact Ht].
Defined.

Lemma ttop_table_delivered_witness :
  let t := TransTable 1 [wire_entry] in
  ∃ c' r pkt', send_ttop_packet (ttop_table_packet TRACKER_SYNC t) (OutConn [] []) = Ok (284, c') ∧
    recv_ttop_packet (TtopPacket (TtopHeader 0 0) []) (oc_sent c' ++ [1; 2]) = Ok (r, pkt', [1; 2]) ∧
    ttop_table zero_table pkt' = t.
Proof.
  intros t. destruct (ttop_table_delivered TRACKER_SYNC t (OutConn [] []) [1; 2] (TtopPacket (TtopHeader 0 0) []))
    as (c' & r & pkt' & Hs & Hr & _ & _ & Ht).
  - split; [done|]. repeat constructor; apply wire_entry_storable.
  - done.
  - done.
  - done.
  - vm_compute. reflexivity.
  - exists c', r, pkt'. split; [exact Hs|]. split; [exact Hr|exact Ht].
Defined.

Lemma ptot_fill_bounds_witness :
  let t := TransTable 241 (replicate 241 wire_entry) in
  ptot_table_packet 9 PEER_SYNC t tt = Fault OutOfBounds.
Proof. intros t. apply (ptot_fill_bounds 9 PEER_SYNC t tt); vm_compute; [reflexivity|congruence|reflexivity]. Defined.
