(* ===== verification/Replica.v ===== *)
(** * Replica: how the tracker and the client use their file tables

    Both processes keep one [file_table] among other state and reach it through
    the operations of [file_table.c].  [HasTable] is the interface of such a
    process; the handlers are written, and their theorems proved, against it.

    A deployment has at most 4096 file names and 16 machines ([MAX_FILE_ENTRIES],
    [MAX_PEER_ENTRIES]); the program relies on it without checking.  [bounded]
    says a table only mentions them, and the lemmas here restate the operations of
    [FileTable] on bounded tables: what they do to the map of known files. *)
From S2P Require Import Prelude Hash TransTable FileTable.

(** ** The interface *)
Class HasTable (St : Type) := {
  get_table : St → fstate;
  put_table : fstate → St → St
}.
Class HasTableLaws (St : Type) `{HasTable St} := {
  get_put : ∀ t s, get_table (put_table t s) = t;
  put_put : ∀ t t' s, put_table t (put_table t' s) = put_table t s;
  put_get : ∀ s, put_table (get_table s) s = s
}.

(** Run an operation of [file_table.c] on the process' table. *)
Definition on_table `{HasTable St} {A} (m : M fstate A) : M St A := zoom get_table put_table m.

Definition some_or_oob {St A} (o : option A) : M St A :=
  match o with Some a => ret a | None => fail OutOfBounds end.

(** [for (i = 0; i < tft->n; i++) body(tft->entries + i)]; an index past the
    4096 entries of the array is a fault. *)
Fixpoint for_entries_from {St A} (k i : nat) (tft : trans_file_table)
    (body : trans_file_entry → A → M St A) (a : A) : M St A :=
  match k with
  | O => ret a
  | S k =>
      te <- some_or_oob (tft_get tft (Z.of_nat i)) ;;
      a <- body te a ;;
      for_entries_from k (S i) tft body a
  end.
Definition for_entries {St A} (tft : trans_file_table) (body : trans_file_entry → A → M St A) (a : A) : M St A :=
  for_entries_from (Z.to_nat (tft_n tft)) 0 tft body a.

(** [tft->entries[tft->n] = te; tft->n++] *)
Definition push_entry {St} (tft : trans_file_table) (te : trans_file_entry) : M St trans_file_table :=
  some_or_oob (tft_push tft te).

(** [trans_entry_fill_from(tft->entries + tft->n, fe); tft->entries[tft->n].op_type = op; tft->n++] *)
Definition push_file `{HasTable St} (tft : trans_file_table) (fe : option fid) (op : operation_type) :
    M St trans_file_table :=
  te0 <- some_or_oob (tft_get tft (tft_n tft)) ;;
  te <- on_table (trans_entry_fill_from te0 fe) ;;
  push_entry tft (set_op_type op te).

(** ** Specification: what learning a version does to the map of known files *)
Definition learn (te : trans_file_entry) (v : fview) : fview :=
  <[te_name te := match v !! te_name te with Some e => merge te e | None => new_entry te end]> v.
Definition learn_all (tes : list trans_file_entry) (v : fview) : fview := fold_left (λ v te, learn te v) tes v.

(** An announcement of version [e] with an operation. *)
Definition announce (op : operation_type) (e : file_entry) : trans_file_entry := set_op_type op (export e).

(** A table all of whose entries are within the array. *)
Definition small_table (t : trans_file_table) : Prop := packed t ∧ tft_n t ≤ MAX_FILE_ENTRIES.
Definition pushed (t : trans_file_table) (te : trans_file_entry) : trans_file_table :=
  TransTable (tft_n t + 1) (tft_entries t ++ [te]).

Lemma length_entries s : wf s → length (entries s) = length (listed s).
Proof.
  intros Hwf. rw /entries.
  assert (H : ∀ i, i ∈ listed s → ∃ e, fs_heap s !! i = Some e) by (intros; by apply wf_listed_live).
  revert H. generalize (listed s). induction l as [|i l IH]; intros H; [done|]. csimpl.
  destruct (H i (list_elem_of_here _ _)) as [e ->]. simpl. rw IH //. intros j Hj. apply H. by right.
Qed.

Lemma NoDup_length_size `{Countable A} (l : list A) (X : gset A) :
  NoDup l → (∀ x, x ∈ l → x ∈ X) → (length l ≤ size X)%nat.
Proof.
  intros Hnd Hl. rw -(size_list_to_set (C:=gset A) l) //. apply subseteq_size. set_solver.
Qed.

(** ** Tables and announcements of a deployment *)

(** The files and the machines of a deployment are as few as the arrays allow. *)
Class Deployment (F : gset (list Z)) (P : gset Z) : Prop := {
  few_files : Z.of_nat (size F) ≤ MAX_FILE_ENTRIES;
  few_peers : (size P ≤ MAX_PEER_ENTRIES)%nat
}.

Section deployment.
Context (F : gset (list Z)) (P : gset Z).

Definition known (te : trans_file_entry) : Prop :=
  te_wf te ∧ te_name te ∈ F ∧ ∀ p, p ∈ owners_of te → ip p ∈ P.

Definition known_entry (e : file_entry) : Prop := fe_name e ∈ F ∧ ∀ p, p ∈ fe_owners e → ip p ∈ P.

Record bounded (s : fstate) : Prop := {
  bd_wf : wf s;
  bd_known : ∀ name e, view s !! name = Some e → known_entry e
}.

(** A table received or built: the entries that are counted are there, and known. *)
Definition known_table (t : trans_file_table) : Prop :=
  small_table t ∧ ∀ te, te ∈ tft_entries t → known te.

Context {D : Deployment F P}.

(** ** Lemmas: bounds *)
Lemma bounded_at s name i e : bounded s → entry_at s name i e → known_entry e.
Proof. intros [Hwf Hk] He. apply (Hk name). apply view_lookup; [done|]. by exists i. Qed.

Lemma bounded_few s i e : bounded s → i ∈ listed s → fs_heap s !! i = Some e →
  (length (fe_owners e) ≤ MAX_PEER_ENTRIES)%nat.
Proof.
  intros Hb Hi He. pose proof (bd_wf s Hb) as Hwf. pose proof (wf_owners s Hwf _ _ He) as Hnd.
  destruct (bounded_at s (fe_name e) i e Hb) as [_ Ho]; [done|].
  etrans; [|exact few_peers]. rw -(length_fmap ip). apply NoDup_length_size; [done|].
  intros x (p & -> & Hp)%list_elem_of_fmap. by apply Ho.
Qed.

Lemma bounded_entries s : bounded s → (length (listed s) ≤ Z.to_nat MAX_FILE_ENTRIES)%nat.
Proof.
  intros Hb. pose proof (bd_wf s Hb) as Hwf. pose proof few_files as HF.
  rw -length_entries // -(length_fmap fe_name). transitivity (size F); [|lia].
  apply NoDup_length_size; [by apply entries_names_nodup|].
  intros x (e & -> & (i & Hi & He)%elem_of_entries)%list_elem_of_fmap.
  apply (bounded_at s (fe_name e) i e Hb). done.
Qed.

Lemma announce_known op e :
  known_entry e → (length (fe_owners e) ≤ MAX_PEER_ENTRIES)%nat → known (announce op e).
Proof.
  intros [Hn Ho] Hlen. pose proof (export_wf e Hlen) as [H1 H2]. split; [by split|]. split; [done|].
  change (owners_of (announce op e)) with (owners_of (export e)). by rw export_owners.
Qed.

Lemma known_set_op op te : known te → known (set_op_type op te).
Proof. intros ([? ?] & ? & ?). split; [by split|]. done. Qed.

Lemma bounded_calloc c s : bounded s → bounded (with_calloc c s).
Proof. intros [Hwf Hk]. split; [by apply with_calloc_wf|done]. Qed.

Lemma merge_known te e : known te → known_entry e → known_entry (merge te e).
Proof.
  intros (_ & _ & Ht) [Hn He]. split; [by rw merge_name|]. intros p Hp.
  assert (Hx : ip p ∈ ip <$> fe_owners (merge te e)) by (apply list_elem_of_fmap; eauto).
  apply merge_ips in Hx as [[Hx _]|[Hx _]]; apply list_elem_of_fmap in Hx as (q & -> & Hq); eauto.
Qed.

Lemma updated_known te e e' : known te → known_entry e → updated te e e' → known_entry e'.
Proof.
  intros (_ & HnF & Ho) He (_ & _ & _ & _ & m & Hm & ->). destruct He as [HeF Heo].
  set (te' := TransEntry _ _ _ _ _ _). split; [by rw merge_name|]. intros p Hp.
  assert (Hx : ip p ∈ ip <$> fe_owners (merge te' e)) by (apply list_elem_of_fmap; eauto).
  assert (Hpre : ∀ q, q ∈ owners_of te' → q ∈ owners_of te).
  { intros q. rw /owners_of /te' /= Nat2Z.id. intros Hq.
    replace m with (m `min` Z.to_nat (te_owner_n te))%nat in Hq by lia. rw -take_take in Hq.
    eapply elem_of_sublist; [|apply sublist_take]; exact Hq. }
  apply merge_ips in Hx as [[Hx _]|[Hx _]]; apply list_elem_of_fmap in Hx as (q & -> & Hq); eauto.
Qed.

(** ** Lemmas: the operations keep a table bounded *)
Lemma bounded_written s name i e e' c :
  bounded s → entry_at s name i e → fe_name e' = name → owners_ok (fe_owners e') → known_entry e' →
  bounded (written s i e' c) ∧ view (written s i e' c) = <[name := e']> (view s) ∧
  entry_at (written s i e' c) name i e'.
Proof.
  intros [Hwf Hk] Hat Hn Hok Hke. pose proof Hat as (_ & He & Hne).
  assert (Hv : view (written s i e' c) = <[name := e']> (view s)) by by eapply written_view.
  split_and!; [split|done|by eapply written_entry_at].
  - eapply written_wf; [done|done|congruence|done].
  - intros name' e0. rw Hv lookup_insert. case_decide; [by intros [= <-]|apply Hk].
Qed.

Lemma bounded_inserted s e c :
  bounded s → view s !! fe_name e = None → owners_ok (fe_owners e) → known_entry e →
  bounded (inserted s e c) ∧ view (inserted s e c) = <[fe_name e := e]> (view s) ∧
  entry_at (inserted s e c) (fe_name e) (fs_next s) e.
Proof.
  intros [Hwf Hk] Hnone Hok Hke.
  assert (Hv : view (inserted s e c) = <[fe_name e := e]> (view s)) by by apply view_inserted.
  split_and!; [split|done|split_and!]; [by apply wf_inserted| | |apply lookup_insert_eq|done].
  - intros name' e0. rw Hv lookup_insert. case_decide; [by intros [= <-]|apply Hk].
  - rw listed_inserted //. by left.
Qed.

Lemma table_add_wp te s :
  bounded s → known te →
  wp (file_table_add (Some te))
     (λ r s', bounded s' ∧ (no_oom s → no_oom s' ∧ view s' = learn te (view s)) ∧
        match r with
        | Some i => ∃ e, entry_at s' (te_name te) i e ∧ te_timestamp te ≤ fe_timestamp e
        | None => ¬ no_oom s ∧ view s' = view s end) s.
Proof.
  intros Hb Hk. pose proof (bd_wf s Hb) as Hwf. pose proof Hk as (Hte & HnF & Ho).
  eapply wp_mono; [by apply file_table_add_wp|]. intros r s' H. rw /learn.
  destruct (view s !! te_name te) as [e|] eqn:E.
  - destruct H as (i & e' & c & -> & Hat & -> & Hupd & Hoom).
    pose proof (bounded_at s _ _ _ Hb Hat) as Hke. pose proof Hupd as (Hn & _ & Hok & Hts & _).
    pose proof Hat as (_ & _ & Hne).
    destruct (bounded_written s (te_name te) i e e' c) as (Hb' & Hv & Hat'); [done|done|congruence|done| |].
    { by eapply updated_known. }
    split; [done|]. split; [by intros [-> <-]%Hoom|]. exists e'. split; [done|lia].
  - destruct H as (c & Hc & H). destruct r as [i|].
    + destruct H as (-> & e & -> & (Hn & Hts & _ & Hok & m & Hm) & Hoom).
      destruct (bounded_inserted s e c) as (Hb' & Hv & Hat'); [done|by rw Hn|done| |].
      { split; [by rw Hn|]. intros p Hp. rw Hm in Hp.
        assert (Hx : ip p ∈ ip <$> add_owners [] (take m (owners_of te))) by (apply list_elem_of_fmap; eauto).
        apply add_owners_ips in Hx as [[]%elem_of_nil|(q & -> & Hq)%list_elem_of_fmap].
        apply Ho. eapply elem_of_sublist; [exact Hq|apply sublist_take]. }
      split; [done|]. split.
      * intros H. split; [by apply Hc|]. by rw Hv Hn (Hoom H).
      * exists e. rw -Hn. split; [done|lia].
    + destruct H as [-> Hno]. split; [by apply bounded_calloc|]. split; [done|]. by split.
Qed.

Lemma table_find_wp te s :
  bounded s →
  wp (file_table_find te)
     (λ r s', s' = s ∧ match r with
        | Some i => ∃ e, entry_at s (te_name te) i e ∧ view s !! te_name te = Some e
        | None => view s !! te_name te = None end) s.
Proof. intros Hb. apply __file_table_search_wp, (bd_wf s Hb). Qed.

Lemma entry_update_wp te s i e :
  bounded s → known te → entry_at s (te_name te) i e →
  wp (file_entry_update (Some i) (Some te))
     (λ r s', bounded s' ∧ (no_oom s → no_oom s' ∧ view s' = learn te (view s)) ∧
        ∃ e', entry_at s' (te_name te) i e') s.
Proof.
  intros Hb Hk Hat. pose proof (bd_wf s Hb) as Hwf. pose proof Hk as (Hte & HnF & Ho).
  pose proof Hat as (_ & He & Hne).
  eapply wp_mono; [apply file_entry_update_wp; [done|by eapply (wf_owners s Hwf)|done]|].
  intros r s' (-> & e' & c & -> & Hupd & Hoom). pose proof Hupd as (Hn & _ & Hok & _ & _).
  destruct (bounded_written s (te_name te) i e e' c) as (Hb' & Hv & Hat'); [done|done|congruence|done| |].
  { eapply updated_known; [done| |done]. by eapply bounded_at. }
  split; [done|]. split; [|by eexists]. intros [-> ->]%Hoom. split; [done|].
  rw Hv /learn. replace (view s !! te_name te) with (Some e); [done|].
  symmetry. apply view_lookup; [done|]. by exists i.
Qed.

Lemma table_update_wp te s :
  bounded s → known te →
  wp (file_table_update (Some te))
     (λ r s', bounded s' ∧ (no_oom s → no_oom s' ∧ (is_Some (view s !! te_name te) → view s' = learn te (view s)))) s.
Proof.
  intros Hb Hk. rw /file_table_update. apply wp_bind.
  eapply wp_mono; [apply (table_find_wp te s Hb)|]. intros [i|] s' [-> H].
  - destruct H as (e & Hat & Hv). apply wp_bind.
    eapply wp_mono; [by eapply entry_update_wp|]. intros r s' (Hb' & Hoom & _). apply wp_ret.
    split; [done|]. intros H. by apply Hoom in H as [? ?].
  - apply wp_ret. split; [done|]. intros H'. split; [done|]. rw H. by intros [? ?].
Qed.

Lemma table_update_none te s :
  bounded s → view s !! te_name te = None → wp (file_table_update (Some te)) (λ _ s', s' = s) s.
Proof.
  intros Hb Hnone. rw /file_table_update. apply wp_bind.
  eapply wp_mono; [apply (table_find_wp te s Hb)|]. intros [i|] s' [-> H]; [|by apply wp_ret].
  destruct H as (e & _ & Hv). congruence.
Qed.

Lemma table_delete_wp te s :
  bounded s →
  wp (file_table_delete (Some te))
     (λ r s', bounded s' ∧ (no_oom s → no_oom s') ∧ view s' = delete (te_name te) (view s) ∧
        r = (if view s !! te_name te then 0 else -1)) s.
Proof.
  intros Hb. pose proof (bd_wf s Hb) as Hwf.
  eapply wp_mono; [by apply file_table_delete_wp|]. intros r s' H.
  destruct (view s !! te_name te) as [e|] eqn:E.
  - destruct H as (-> & i & Hat & ->).
    assert (Hv : view (removed s i (fs_n s - 1)) = delete (te_name te) (view s)) by by eapply view_removed.
    split_and!; [|done|done|done]. split; [by apply wf_removed|]. intros name e'. rw Hv.
    intros [_ H]%lookup_delete_Some. by eapply (bd_known s Hb).
  - destruct H as [-> ->]. split_and!; [done|done|by rw delete_id|done].
Qed.

Lemma drop_owner_known ip0 e e' : known_entry e → drop_owner ip0 e = Some e' → known_entry e'.
Proof.
  intros [Hn Ho]. rw /drop_owner. destruct (filter _ _) as [|p l] eqn:E; [done|]. intros [= <-].
  split; [done|]. cbn [set_owners fe_owners]. rw -E. intros q [_ Hq]%list_elem_of_filter. by apply Ho.
Qed.

Lemma table_drop_wp ip0 s :
  bounded s →
  wp (file_table_delete_owner ip0)
     (λ _ s', bounded s' ∧ (no_oom s → no_oom s') ∧ view s' = omap (drop_owner ip0) (view s)) s.
Proof.
  intros Hb. eapply wp_mono; [apply (sweep_wp _ _ _ _ (drop_owner_turn ip0)), (bd_wf s Hb)|].
  intros [] s' (Hwf' & Hv & _ & Hc). split_and!; [split; [done|]|by rw /no_oom Hc|done].
  intros name e. rw Hv lookup_omap. destruct (view s !! name) as [e0|] eqn:E; [|done].
  apply drop_owner_known. by eapply (bd_known s Hb).
Qed.

(** ** Lemmas: loops over a received table, tables under construction *)
Lemma for_entries_run {St A} t (body : trans_file_entry → A → M St A) a s :
  packed t → tft_n t ≤ MAX_FILE_ENTRIES →
  for_entries t body a s = for_each (tft_entries t) body a s.
Proof.
  intros Hp Hn. rw /for_entries. rw Hp Nat2Z.id.
  assert (H : ∀ k i a s, (i + k = length (tft_entries t))%nat →
    for_entries_from k i t body a s = for_each (drop i (tft_entries t)) body a s).
  2: { by rw (H _ 0%nat). }
  clear a s. induction k as [|k IH]; intros i a s Hk.
  { rw drop_ge //. lia. }
  destruct (lookup_lt_is_Some_2 (tft_entries t) i ltac:(lia)) as [te Hte].
  rw (drop_S _ te i) //. cbn [for_entries_from for_each]. rw {1}/bind.
  rw /tft_get /in_table (proj2 (Z.leb_le _ _)); [lia|]. rw (proj2 (Z.ltb_lt _ _)).
  { rw Hp in Hn. lia. }
  rw Nat2Z.id Hte /=. rw /bind. destruct (body te a s) as [[a' s']|]; [|done].
  apply IH. lia.
Qed.

Lemma wp_for_entries {St A} (body : trans_file_entry → A → M St A) (I : list trans_file_entry → A → St → Prop) t a s :
  known_table t → I [] a s →
  (∀ pre te post a s, tft_entries t = pre ++ te :: post → known te → I pre a s →
     wp (body te a) (I (pre ++ [te])) s) →
  wp (for_entries t body a) (I (tft_entries t)) s.
Proof.
  intros [[Hp Hn] Hk] H0 Hbody. rw /wp for_entries_run //.
  apply (wp_for_each body I (tft_entries t) [] a s H0).
  intros pre te post a' s' Heq. simpl in Heq. apply (Hbody pre te post); [done|].
  apply Hk. rw Heq. set_solver.
Qed.

Lemma small_table_push t te :
  small_table t → tft_n t < MAX_FILE_ENTRIES →
  tft_push t te = Some (pushed t te) ∧ small_table (pushed t te).
Proof.
  intros (Hp & _) Hn. split; [by apply tft_push_packed|].
  split; [by apply packed_push|]. simpl. lia.
Qed.

Lemma small_table_get t :
  small_table t → tft_n t < MAX_FILE_ENTRIES → tft_get t (tft_n t) = Some zero_entry.
Proof.
  intros (Hp & _) Hn. rw /tft_get /in_table (proj2 (Z.leb_le _ _)); [rw Hp; lia|].
  rw (proj2 (Z.ltb_lt _ _)) // Hp Nat2Z.id lookup_ge_None_2 //.
Qed.

Lemma small_zero_table : small_table zero_table.
Proof. by split. Qed.

Section process.
Context `{HasTableLaws St}.

Lemma wp_on_table {A} (m : M fstate A) Q (s : St) :
  wp m (λ a t, Q a (put_table t s)) (get_table s) → wp (on_table m) Q s.
Proof. apply wp_zoom. Qed.

(** Reading operations do not change the process. *)
Lemma wp_on_table_read {A} (m : M fstate A) Q (s : St) :
  wp m (λ a t, t = get_table s ∧ Q a s) (get_table s) → wp (on_table m) Q s.
Proof.
  intros Hm. apply wp_on_table. eapply wp_mono; [exact Hm|]. intros a t [-> HQ]. by rw put_get.
Qed.

Lemma wp_push_entry t te (s : St) Q :
  small_table t → tft_n t < MAX_FILE_ENTRIES →
  (small_table (pushed t te) → Q (pushed t te) s) → wp (push_entry t te) Q s.
Proof.
  intros Ht Hn HQ. destruct (small_table_push t te Ht Hn) as [E Hk].
  rw /push_entry E. by apply wp_ret, HQ.
Qed.

Lemma wp_push_file t i e op (s : St) Q :
  small_table t → tft_n t < MAX_FILE_ENTRIES → bounded (get_table s) →
  i ∈ listed (get_table s) → fs_heap (get_table s) !! i = Some e →
  (small_table (pushed t (announce op e)) → Q (pushed t (announce op e)) s) →
  wp (push_file t (Some i) op) Q s.
Proof.
  intros Ht Hn Hb Hi He HQ. rw /push_file. apply wp_bind. rw small_table_get //.
  apply wp_ret, wp_bind, wp_on_table_read. pose proof (bounded_few _ i e Hb Hi He) as Hlen.
  eapply trans_entry_fill_from_wp; [done|done|]. split; [done|]. by apply wp_push_entry.
Qed.

(** With a NULL file, what is pushed is the zeroed slot. *)
Lemma wp_push_null t op (s : St) Q :
  small_table t → tft_n t < MAX_FILE_ENTRIES →
  (small_table (pushed t (set_op_type op zero_entry)) → Q (pushed t (set_op_type op zero_entry)) s) →
  wp (push_file t None op) Q s.
Proof.
  intros Ht Hn HQ. rw /push_file. apply wp_bind. rw small_table_get //.
  apply wp_ret, wp_bind, wp_on_table_read, wp_ret. split; [done|]. by apply wp_push_entry.
Qed.
End process.
End deployment.
