(* ===== verification/PeerTable.v ===== *)
(** * PeerTable: the tracker's table of live peers, [server/peer_table.c]

    [struct peer_entry] objects live in a heap, because the tracker's threads keep
    a pointer to one after the table's mutex is released; the linked list is the
    list of their addresses, newest first, the view [DList] justifies.  Each
    function holds the mutex from beginning to end and is one atomic operation. *)
From S2P Require Import Prelude TransTable.

(** ** Data *)
Record peer_entry := PeerEntry {
  pe_conn : Z;               (** int *)
  pe_timestamp : Z;          (** uint64_t *)
  pe_peerid : peer_id;
  pe_tid : Z                 (** pthread_t *)
}.

Record pstate := PState {
  ps_heap : gmap nat peer_entry;    (** the live objects, in the table or not *)
  ps_next : nat;                    (** addresses from here on were never used *)
  ps_num : Z;                       (** pt->peer_num *)
  ps_list : list nat;               (** the list at pt->peer_head *)
  ps_calloc : list bool             (** answers of the next calls of calloc; then all succeed *)
}.

(** [GET_TIMESTAMP(tv)] stored in a [uint64_t] *)
Definition get_timestamp (sec usec : Z) : Z := u64 (sec * 1000000 + usec).

Definition set_peers (h : gmap nat peer_entry) (n : Z) (l : list nat) (s : pstate) : pstate :=
  PState h (ps_next s) n l (ps_calloc s).

(** ** Operations *)
Definition pe_deref (i : nat) : M pstate peer_entry :=
  λ s, match ps_heap s !! i with Some e => Ok (e, s) | None => Fault UseAfterFree end.

Definition pe_store (i : nat) (e : peer_entry) : M pstate unit :=
  pe_deref i ;;; modify (λ s, set_peers (<[i := e]> (ps_heap s)) (ps_num s) (ps_list s) s).

(** [now] is what [gettimeofday] answers. *)
Definition peer_entry_alloc (now : Z) : M pstate (option nat) :=
  λ s, match ps_calloc s with
       | false :: rest => Ok (None, PState (ps_heap s) (ps_next s) (ps_num s) (ps_list s) rest)
       | _ =>
           let i := ps_next s in
           Ok (Some i, PState (<[i := PeerEntry 0 now (PeerId 0 0) 0]> (ps_heap s)) (S i)
                         (ps_num s) (ps_list s) (tail (ps_calloc s)))
       end.

Definition peer_table_init : M pstate unit := modify (set_peers ∅ 0 []).

Definition peer_table_add (i : nat) : M pstate Z :=
  pe_deref i ;;;
  modify (λ s, set_peers (ps_heap s) (ps_num s + 1) (i :: ps_list s) s) ;;;
  ret 0.

Fixpoint delete_from (l : list nat) (conn : Z) : M pstate Z :=
  match l with
  | [] => ret (-1)
  | i :: l =>
      e <- pe_deref i ;;
      if pe_conn e =? conn then
        modify (λ s, set_peers (delete i (ps_heap s)) (ps_num s - 1) (filter (λ j, j ≠ i) (ps_list s)) s) ;;;
        ret (i32 (ip (pe_peerid e)))
      else delete_from l conn
  end.
Definition peer_table_delete (conn : Z) : M pstate Z := l <- gets ps_list ;; delete_from l conn.

Fixpoint find_from (l : list nat) (ip0 : Z) : M pstate (option nat) :=
  match l with
  | [] => ret None
  | i :: l => e <- pe_deref i ;; if ip (pe_peerid e) =? ip0 then ret (Some i) else find_from l ip0
  end.
Definition peer_table_find (ip0 : Z) : M pstate (option nat) := l <- gets ps_list ;; find_from l ip0.

(** ** Specification *)

(** The entries, in list order. *)
Definition peers (s : pstate) : list peer_entry := omap (λ i, ps_heap s !! i) (ps_list s).

Record pwf (s : pstate) : Prop := {
  pwf_nodup : NoDup (ps_list s);
  pwf_live : ∀ i, i ∈ ps_list s → is_Some (ps_heap s !! i);
  pwf_fresh : ∀ i, is_Some (ps_heap s !! i) → (i < ps_next s)%nat;
  pwf_num : ps_num s = Z.of_nat (length (ps_list s))
}.

(** Remove the first entry of a connection. *)
Fixpoint remove_conn (conn : Z) (l : list peer_entry) : list peer_entry :=
  match l with
  | [] => []
  | e :: l => if pe_conn e =? conn then l else e :: remove_conn conn l
  end.

(** ** Lemmas *)
Lemma wp_pe_deref i e s (Q : peer_entry → pstate → Prop) :
  ps_heap s !! i = Some e → Q e s → wp (pe_deref i) Q s.
Proof. intros He HQ. by rw /wp /pe_deref He. Qed.

Lemma pwf_lookup s i : pwf s → i ∈ ps_list s → ∃ e, ps_heap s !! i = Some e.
Proof. intros Hwf Hi. apply (pwf_live s Hwf i Hi). Qed.

Lemma omap_insert_fresh (h : gmap nat peer_entry) i e (l : list nat) :
  i ∉ l → omap (λ j, <[i := e]> h !! j) l = omap (λ j, h !! j) l.
Proof.
  induction l as [|j l IH]; intros Hi; [done|]. apply not_elem_of_cons in Hi as [Hij Hi].
  csimpl. rw lookup_insert_ne // IH //.
Qed.

Lemma omap_delete_fresh (h : gmap nat peer_entry) i (l : list nat) :
  i ∉ l → omap (λ j, delete i h !! j) l = omap (λ j, h !! j) l.
Proof.
  induction l as [|j l IH]; intros Hi; [done|]. apply not_elem_of_cons in Hi as [Hij Hi].
  csimpl. rw lookup_delete_ne // IH //.
Qed.

Lemma filter_ne_id (i : nat) (l : list nat) : i ∉ l → filter (λ j, j ≠ i) l = l.
Proof.
  induction l as [|j l IH]; intros Hi; [done|]. apply not_elem_of_cons in Hi as [Hij Hi].
  rw filter_cons_True ?IH //.
Qed.

Lemma peer_entry_alloc_wp now s :
  pwf s →
  wp (peer_entry_alloc now)
     (λ r s', pwf s' ∧ ps_list s' = ps_list s ∧ peers s' = peers s ∧ match r with
        | None => ∃ c, ps_calloc s = false :: c
        | Some i => i ∉ ps_list s ∧ ps_heap s' !! i = Some (PeerEntry 0 now (PeerId 0 0) 0)
        end) s.
Proof.
  intros Hwf. assert (Hf : ps_next s ∉ ps_list s).
  { intros Hi. pose proof (pwf_fresh s Hwf _ (pwf_live s Hwf _ Hi)). lia. }
  assert (Hwf' : ∀ c e, pwf (PState (<[ps_next s := e]> (ps_heap s)) (S (ps_next s)) (ps_num s) (ps_list s) c)).
  { intros c e. destruct Hwf as [Hn Hl Hf' Hnum]. split; [done| | |done]; cbn.
    - intros i Hi. rw lookup_insert_ne; [intros <-; done|]. by apply Hl.
    - intros i. rw lookup_insert. case_decide; [lia|]. intros Hlt%Hf'. lia. }
  rw /wp /peer_entry_alloc. destruct (ps_calloc s) as [|[] c] eqn:E.
  - split_and!; [by apply Hwf'|done|by apply omap_insert_fresh|done|apply lookup_insert_eq].
  - split_and!; [by apply Hwf'|done|by apply omap_insert_fresh|done|apply lookup_insert_eq].
  - split_and!; [by destruct Hwf; split|done|done|by eexists].
Qed.

Lemma pe_store_wp i e e' s :
  pwf s → ps_heap s !! i = Some e →
  wp (pe_store i e')
     (λ _ s', pwf s' ∧ ps_list s' = ps_list s ∧ ps_heap s' = <[i := e']> (ps_heap s)) s.
Proof.
  intros Hwf He. rw /pe_store. apply wp_bind. eapply wp_pe_deref; [done|]. apply wp_modify.
  split_and!; [|done|done]. destruct Hwf as [Hn Hl Hf Hnum]. split; [done| | |done]; cbn.
  - intros j Hj. rw lookup_insert. case_decide; [done|]. by apply Hl.
  - intros j. rw lookup_insert. case_decide; [subst; intros _; by apply Hf; eexists|apply Hf].
Qed.

Lemma peer_table_add_wp i e s :
  pwf s → i ∉ ps_list s → ps_heap s !! i = Some e →
  wp (peer_table_add i)
     (λ r s', r = 0 ∧ pwf s' ∧ peers s' = e :: peers s) s.
Proof.
  intros Hwf Hi He. rw /peer_table_add. apply wp_bind. eapply wp_pe_deref; [done|].
  apply wp_bind, wp_modify, wp_ret. split; [done|]. split; [|rw /peers /= He //].
  destruct Hwf as [Hn Hl Hf Hnum]. split; cbn; [by constructor| |done|lia].
  intros j [->|Hj]%elem_of_cons; [by eexists|by apply Hl].
Qed.

(** The first entry of a connection, after entries of others. *)
Lemma remove_conn_app conn k e l :
  Forall (λ e, pe_conn e ≠ conn) k → pe_conn e = conn → remove_conn conn (k ++ e :: l) = k ++ l.
Proof.
  intros Hk He. induction Hk as [|x k Hx _ IH]; simpl; [by rw (proj2 (Z.eqb_eq _ _))|].
  rw (proj2 (Z.eqb_neq _ _)) // IH //.
Qed.

Lemma remove_conn_absent conn k : Forall (λ e, pe_conn e ≠ conn) k → remove_conn conn k = k.
Proof. induction 1 as [|x k Hx _ IH]; simpl; [done|]. rw (proj2 (Z.eqb_neq _ _)) // IH //. Qed.

Lemma first_conn conn k e l :
  Forall (λ e, pe_conn e ≠ conn) k → pe_conn e = conn →
  list_find (λ e, pe_conn e = conn) (k ++ e :: l) = Some (length k, e).
Proof.
  intros Hk He. induction Hk as [|x k Hx _ IH]; simpl; [by rw decide_True|].
  rw decide_False // IH //.
Qed.

Lemma delete_from_wp s conn l pre :
  pwf s → ps_list s = pre ++ l →
  (∀ i e, i ∈ pre → ps_heap s !! i = Some e → pe_conn e ≠ conn) →
  wp (delete_from l conn)
     (λ r s', pwf s' ∧ peers s' = remove_conn conn (peers s) ∧
        r = match list_find (λ e, pe_conn e = conn) (peers s) with
            | Some (_, e) => i32 (ip (pe_peerid e)) | None => -1 end) s.
Proof.
  intros Hwf. revert pre. induction l as [|i l IH]; intros pre Hl Hpre.
  - rw app_nil_r in Hl. apply wp_ret.
    assert (Hno : Forall (λ e, pe_conn e ≠ conn) (peers s)).
    { apply Forall_forall. intros e (i & Hi & He)%list_elem_of_omap. eapply Hpre; [by rw -Hl|done]. }
    rw remove_conn_absent // (proj2 (list_find_None _ _)) //.
  - destruct (pwf_lookup s i Hwf) as [e He]; [rw Hl; set_solver|].
    cbn [delete_from]. apply wp_bind. eapply wp_pe_deref; [done|].
    destruct (Z.eqb_spec (pe_conn e) conn) as [Hc|Hc].
    2: { apply (IH (pre ++ [i])); [by rw -app_assoc|].
         intros j e' [Hj| ->%list_elem_of_singleton]%elem_of_app; [by apply Hpre|congruence]. }
    apply wp_bind, wp_modify, wp_ret.
    pose proof (pwf_nodup s Hwf) as Hnd. rw Hl in Hnd.
    apply NoDup_app in Hnd as (Hndp & Hdisj & [Hil Hndl]%NoDup_cons).
    assert (Hip : i ∉ pre) by (intros Hip; apply (Hdisj i Hip); by left).
    assert (Hfil : filter (λ j, j ≠ i) (ps_list s) = pre ++ l).
    { rw Hl filter_app filter_ne_id // filter_cons_False; [tauto|]. by rw filter_ne_id. }
    assert (Hpeers : peers s = omap (λ j, ps_heap s !! j) pre ++ e :: omap (λ j, ps_heap s !! j) l).
    { rw /peers Hl omap_app. csimpl. by rw He. }
    assert (Hno : Forall (λ e, pe_conn e ≠ conn) (omap (λ j, ps_heap s !! j) pre)).
    { apply Forall_forall. intros x (j & Hj & Hx)%list_elem_of_omap. by eapply Hpre. }
    split_and!.
    + destruct Hwf as [Hn Hlive Hf Hnum]. split; cbn; rw ?Hfil.
      * apply NoDup_app. split_and!; [done| |done]. intros j Hj Hjl. apply (Hdisj j Hj). by right.
      * intros j Hj. rw lookup_delete_ne; [intros <-; apply elem_of_app in Hj; tauto|].
        apply Hlive. rw Hl. apply elem_of_app in Hj. set_solver.
      * intros j. rw lookup_delete. case_decide; [by intros [? ?]|]. apply Hf.
      * rw Hnum Hl !length_app /=. lia.
    + rw {1}/peers. cbn [ps_heap ps_list set_peers]. rw Hfil omap_delete_fresh; [set_solver|].
      by rw omap_app Hpeers remove_conn_app.
    + by rw Hpeers first_conn.
Qed.

Lemma find_from_wp s ip0 l :
  (∀ i, i ∈ l → is_Some (ps_heap s !! i)) →
  wp (find_from l ip0)
     (λ r s', s' = s ∧ match list_find (λ e, ip (pe_peerid e) = ip0) (omap (λ i, ps_heap s !! i) l) with
        | Some (_, e) => ∃ i, r = Some i ∧ i ∈ l ∧ ps_heap s !! i = Some e
        | None => r = None end) s.
Proof.
  induction l as [|i l IH]; intros Hl; [by apply wp_ret|].
  destruct (Hl i (list_elem_of_here _ _)) as [e He]. cbn [find_from]. apply wp_bind.
  eapply wp_pe_deref; [done|]. csimpl. rw He. simpl.
  destruct (Z.eqb_spec (ip (pe_peerid e)) ip0) as [Hip|Hip].
  - apply wp_ret. rw decide_True //. split; [done|]. exists i. split_and!; [done|by left|done].
  - rw decide_False //. eapply wp_mono; [apply IH; intros j Hj; apply Hl; by right|].
    intros r s' [-> H]. split; [done|].
    destruct (list_find _ _) as [[? e']|]; simpl; [|done].
    destruct H as (j & -> & Hj & ?). exists j. split_and!; [done|by right|done].
Qed.

Lemma peer_table_find_wp ip0 s :
  pwf s →
  wp (peer_table_find ip0)
     (λ r s', s' = s ∧ match list_find (λ e, ip (pe_peerid e) = ip0) (peers s) with
        | Some (_, e) => ∃ i, r = Some i ∧ i ∈ ps_list s ∧ ps_heap s !! i = Some e
        | None => r = None end) s.
Proof. intros Hwf. apply wp_bind, wp_gets, find_from_wp, (pwf_live s Hwf). Qed.

Lemma peer_table_delete_wp conn s :
  pwf s →
  wp (peer_table_delete conn)
     (λ r s', pwf s' ∧ peers s' = remove_conn conn (peers s) ∧
        r = match list_find (λ e, pe_conn e = conn) (peers s) with
            | Some (_, e) => i32 (ip (pe_peerid e)) | None => -1 end) s.
Proof. intros Hwf. apply wp_bind, wp_gets, (delete_from_wp s conn _ []); [done|done|set_solver]. Qed.

(** The entry that is removed is freed. *)
Lemma delete_first_run pre i post e s :
  (∀ j, j ∈ pre → ∃ e', ps_heap s !! j = Some e' ∧ pe_conn e' ≠ pe_conn e) → ps_heap s !! i = Some e →
  delete_from (pre ++ i :: post) (pe_conn e) s =
    Ok (i32 (ip (pe_peerid e)),
        set_peers (delete i (ps_heap s)) (ps_num s - 1) (filter (λ j, j ≠ i) (ps_list s)) s).
Proof.
  intros Hpre He. induction pre as [|j pre IH]; cbn [app delete_from].
  - rw {1}/bind {1}/pe_deref He Z.eqb_refl //.
  - destruct (Hpre j (list_elem_of_here _ _)) as (e' & Hj & Hne).
    rw {1}/bind {1}/pe_deref Hj (proj2 (Z.eqb_neq _ _)) //. apply IH. intros k Hk. apply Hpre. by right.
Qed.

Lemma length_peers s : pwf s → length (peers s) = length (ps_list s).
Proof.
  intros Hwf. rw /peers. pose proof (pwf_live s Hwf) as Hl. revert Hl. generalize (ps_list s).
  induction l as [|i l IH]; intros Hl; [done|]. csimpl.
  destruct (Hl i (list_elem_of_here _ _)) as [e ->]. simpl. rw IH //. intros j Hj. apply Hl. by right.
Qed.

Lemma pwf_init : pwf (PState ∅ 0 0 [] []).
Proof. split; cbn; [constructor|set_solver|intros i [? ?]; done|done]. Qed.

Lemma peer_table_init_pwf s Q : (∀ s', pwf s' → peers s' = [] → Q tt s') → wp peer_table_init Q s.
Proof.
  intros HQ. apply wp_modify, HQ; [|done].
  split; cbn; [constructor|set_solver|intros i [? ?]; done|done].
Qed.

(** ** Properties *)

(** A new peer: allocated, filled and linked, it is the first of the table, every
    other entry and the order are kept, [peer_num] counts the entries, and the
    result is 0; when [calloc] fails the table is unchanged. *)
Theorem peer_table_add_correct now conn pid tid s :
  pwf s →
  wp (pe <- peer_entry_alloc now ;;
      match pe with
      | None => ret (-1)
      | Some i =>
          e <- pe_deref i ;;
          pe_store i (PeerEntry conn (pe_timestamp e) pid tid) ;;;
          peer_table_add i
      end)
     (λ r s', pwf s' ∧ ps_num s' = Z.of_nat (length (peers s')) ∧
        ((r = 0 ∧ peers s' = PeerEntry conn now pid tid :: peers s) ∨
         (r = -1 ∧ peers s' = peers s ∧ ∃ c, ps_calloc s = false :: c))) s.
Proof.
  intros Hwf. apply wp_bind. eapply wp_mono; [by apply peer_entry_alloc_wp|].
  intros [i|] s1 (Hwf1 & Hl1 & Hp1 & H).
  - destruct H as [Hi He]. apply wp_bind. eapply wp_pe_deref; [exact He|].
    apply wp_bind. eapply wp_mono; [by eapply pe_store_wp|]. intros _ s2 (Hwf2 & Hl2 & Hh2).
    eapply wp_mono; [apply (peer_table_add_wp i (PeerEntry conn now pid tid)); [done|by rw Hl2 Hl1|]|].
    { rw Hh2 lookup_insert_eq //. }
    intros r s' (-> & Hwf' & Hp'). split; [done|]. split; [rw length_peers // (pwf_num _ Hwf') //|].
    left. split; [done|]. rw Hp' -Hp1. f_equal. rw /peers Hl2 Hh2 omap_insert_fresh //. by rw Hl1.
  - apply wp_ret. split; [done|]. split; [rw length_peers // (pwf_num _ Hwf1) //|]. by right.
Qed.

(** [peer_table_delete] removes the most recent entry of the connection and no other,
    keeps [peer_num] exact, and returns its address, which survives the trip
    through [int] to the [uint32_t] the caller keeps; without such an entry the
    table is unchanged and the caller keeps 0xffffffff. *)
Theorem peer_table_delete_correct conn s :
  pwf s → (∀ e, e ∈ peers s → is_u32 (ip (pe_peerid e))) →
  wp (peer_table_delete conn)
     (λ r s', pwf s' ∧ ps_num s' = Z.of_nat (length (peers s')) ∧ peers s' = remove_conn conn (peers s) ∧
        u32 r = match list_find (λ e, pe_conn e = conn) (peers s) with
                | Some (_, e) => ip (pe_peerid e) | None => 2 ^ 32 - 1 end) s.
Proof.
  intros Hwf Hip. eapply wp_mono; [by apply peer_table_delete_wp|]. intros r s' (Hwf' & Hp & ->).
  split_and!; [done|rw length_peers // (pwf_num _ Hwf') //|done|].
  destruct (list_find _ (peers s)) as [[k e]|] eqn:E; [|done].
  rw u32_i32 u32_id //. apply Hip. apply list_find_Some in E as (E & _). by eapply list_elem_of_lookup_2.
Qed.

(** [peer_table_find] returns the most recent entry with the address, and NULL
    exactly when no entry has it; the table is not changed. *)
Theorem peer_table_find_correct ip0 s :
  pwf s →
  wp (peer_table_find ip0)
     (λ r s', s' = s ∧ match r with
        | Some i => ∃ e k, ps_heap s !! i = Some e ∧ ip (pe_peerid e) = ip0 ∧ peers s !! k = Some e ∧
                      ∀ j e', (j < k)%nat → peers s !! j = Some e' → ip (pe_peerid e') ≠ ip0
        | None => ∀ e, e ∈ peers s → ip (pe_peerid e) ≠ ip0
        end) s.
Proof.
  intros Hwf. eapply wp_mono; [by apply peer_table_find_wp|]. intros r s' [-> H]. split; [done|].
  destruct (list_find _ (peers s)) as [[k e]|] eqn:E.
  - destruct H as (i & -> & _ & He). apply list_find_Some in E as (Hk & Hip & Hmin).
    exists e, k. split_and!; [done..|]. intros j e' Hj Hje. by apply (Hmin j e').
  - subst. apply list_find_None in E. rw Forall_forall in E. done.
Qed.

(** The pointer [peer_table_find] returns is not protected by the mutex once it
    has returned: when the connection of that peer ends before its caller uses it,
    the caller dereferences a freed entry ([peer_life_update_task] and
    [peer_check_alive_task] do so). *)
Theorem found_peer_may_be_freed ip0 s :
  pwf s → NoDup (pe_conn <$> peers s) →
  wp (peer_table_find ip0)
     (λ r s', match r with
        | Some i => ∃ e, ps_heap s' !! i = Some e ∧
            wp (peer_table_delete (pe_conn e)) (λ _ s'', pe_deref i s'' = Fault UseAfterFree) s'
        | None => True end) s.
Proof.
  intros Hwf Hnd. eapply wp_mono; [by apply peer_table_find_wp|]. intros r s' [-> H].
  destruct (list_find _ (peers s)) as [[k e]|]; [|by subst].
  destruct H as (i & -> & Hi & He). exists e. split; [done|].
  apply list_elem_of_split in Hi as (pre & post & Hl). apply wp_bind, wp_gets. rw Hl.
  rw {1}/wp delete_first_run //; [|rw /pe_deref /= lookup_delete_eq //].
  intros j Hj. destruct (pwf_lookup s j Hwf) as [e' He']; [rw Hl; set_solver|]. exists e'. split; [done|].
  rw /peers Hl omap_app in Hnd. csimpl in Hnd. rw He fmap_app in Hnd. apply NoDup_app in Hnd as (_ & Hd & _).
  intros Heq. apply (Hd (pe_conn e')).
  - apply list_elem_of_fmap. exists e'. split; [done|]. apply list_elem_of_omap. by exists j.
  - csimpl. rw Heq. by left.
Qed.

(** ** Witnesses *)
Definition two_machines (p q : peer_id) : pstate :=
  PState {[0%nat := PeerEntry 5 10 p 1; 1%nat := PeerEntry 6 11 q 2]} 2 2 [1; 0]%nat [].
Definition two_peers : pstate := two_machines (PeerId 7 4192) (PeerId 4000000000 4192).

Lemma two_machines_wf p q : pwf (two_machines p q).
Proof.
  split; cbn.
  - apply NoDup_cons. split; [set_solver|]. apply NoDup_cons. split; [set_solver|constructor].
  - intros i. rw !elem_of_cons elem_of_nil. intros [->|[->|[]]]; by eexists.
  - intros i [e He]. destruct (decide (i = 0 ∨ i = 1)%nat) as [|Hi]; [lia|].
    exfalso. revert He. rw !lookup_insert_ne; [lia|lia|]. by rw lookup_empty.
  - done.
Qed.
Lemma two_peers_wf : pwf two_peers.
Proof. apply two_machines_wf. Qed.

Lemma peer_table_add_correct_witness :
  ∃ r s', peer_entry_alloc 3 two_peers = Ok (r, s') ∧ r = Some 2%nat ∧
    wp (pe <- peer_entry_alloc 3 ;;
        match pe with
        | None => ret (-1)
        | Some i => e <- pe_deref i ;; pe_store i (PeerEntry 8 (pe_timestamp e) (PeerId 1 2) 0) ;;; peer_table_add i
        end) (λ r s', ps_num s' = Z.of_nat (length (peers s'))) two_peers.
Proof.
  eexists _, _. split; [reflexivity|]. split; [reflexivity|].
  eapply wp_mono; [apply (peer_table_add_correct 3 8 (PeerId 1 2) 0 two_peers two_peers_wf)|].
  intros r s' H. exact (proj1 (proj2 H)).
Defined.

Lemma peer_table_delete_correct_witness :
  wp (peer_table_delete 6) (λ r s', u32 r = 4000000000 ∧ peers s' = [PeerEntry 5 10 (PeerId 7 4192) 1]) two_peers.
Proof.
  eapply wp_mono; [apply (peer_table_delete_correct 6 two_peers two_peers_wf)|].
  - intros e. rw /peers /= !elem_of_cons elem_of_nil. intros [->|[->|[]]]; rw /is_u32 /=; lia.
  - intros r s' (_ & _ & Hp & Hr). split; [exact Hr|exact Hp].
Defined.

Lemma peer_table_find_correct_witness :
  wp (peer_table_find 7) (λ r s', s' = two_peers) two_peers.
Proof.
  eapply wp_mono; [apply (peer_table_find_correct 7 two_peers two_peers_wf)|].
  intros r s' H. exact (proj1 H).
Defined.

Lemma found_peer_may_be_freed_witness :
  ∃ i, peer_table_find 7 two_peers = Ok (Some i, two_peers) ∧
    wp (peer_table_find 7)
     (λ r s', match r with
        | Some i => ∃ e, ps_heap s' !! i = Some e ∧
            wp (peer_table_delete (pe_conn e)) (λ _ s'', pe_deref i s'' = Fault UseAfterFree) s'
        | None => True end) two_peers.
Proof.
  exists 0%nat. split; [reflexivity|]. apply (found_peer_may_be_freed 7 two_peers two_peers_wf).
  apply NoDup_cons. split; [set_solver|]. apply NoDup_cons. split; [set_solver|constructor].
Defined.
