(* ===== verification/Tracker.v ===== *)
(** * Tracker: the handlers of the tracker, [server/start.c]

    The tracker keeps the table of files and the table of peers; a thread per
    connection receives packets and starts a thread per packet.  The state holds
    both tables, what was written to each open connection, the receiver threads
    and the threads started and not yet run.  A handler thread runs as one step;
    which one runs next is arbitrary ([tk_step]).  [pthread_create] succeeds. *)
From S2P Require Import Prelude Hash TransTable FileTable Replica Segment Wire Packet PeerTable.

(** ** State *)

(** A thread that was started: its routine and its argument.  For
    [peer_check_alive_task], a turn of its loop with its local variables. *)
Inductive task : Set :=
  | RegisterTask (conn : Z) (peer : peer_id) (receiver_tid : Z)
  | LifeUpdateTask (ip0 : Z)
  | SyncTask (conn : Z) (tft : trans_file_table)
  | FileUpdateTask (conn : Z) (tft : trans_file_table)
  | CheckAliveTask (ip0 : Z) (receiver_tid : Z) (last_timestamp : Z)
  | CancelledReceiver (tid : Z) (conn : Z).   (** runs the cleanup handler and ends *)

Record tracker := Tracker {
  tk_ft : fstate;                    (** ft *)
  tk_pt : pstate;                    (** pt *)
  tk_ctr : ttop_control_info;        (** ctr_info *)
  tk_conns : gmap Z out_conn;        (** open connections: bytes written *)
  tk_receivers : gmap Z Z;           (** receiver threads: tid to connection *)
  tk_tasks : list task;              (** threads started, not run yet *)
  tk_calloc : list bool              (** answers of the handlers' own callocs; then all succeed *)
}.

Definition set_ft (t : fstate) (s : tracker) : tracker :=
  Tracker t (tk_pt s) (tk_ctr s) (tk_conns s) (tk_receivers s) (tk_tasks s) (tk_calloc s).
Definition set_pt (p : pstate) (s : tracker) : tracker :=
  Tracker (tk_ft s) p (tk_ctr s) (tk_conns s) (tk_receivers s) (tk_tasks s) (tk_calloc s).
Definition set_conns (c : gmap Z out_conn) (s : tracker) : tracker :=
  Tracker (tk_ft s) (tk_pt s) (tk_ctr s) c (tk_receivers s) (tk_tasks s) (tk_calloc s).
Definition set_threads (r : gmap Z Z) (l : list task) (s : tracker) : tracker :=
  Tracker (tk_ft s) (tk_pt s) (tk_ctr s) (tk_conns s) r l (tk_calloc s).

#[export] Instance tracker_table : HasTable tracker := { get_table := tk_ft; put_table := set_ft }.
#[export] Instance tracker_table_laws : HasTableLaws tracker.
Proof. split; [done|done|]. by intros []. Qed.

Definition on_peers {A} (m : M pstate A) : M tracker A := zoom tk_pt set_pt m.

Definition set_calloc (c : list bool) (s : tracker) : tracker :=
  Tracker (tk_ft s) (tk_pt s) (tk_ctr s) (tk_conns s) (tk_receivers s) (tk_tasks s) c.

Definition tk_malloc : M tracker bool :=
  λ s, match tk_calloc s with
       | [] => Ok (true, s)
       | ok :: rest => Ok (ok, set_calloc rest s)
       end.

(** [pthread_create] *)
Definition spawn (t : task) : M tracker unit := modify (λ s, set_threads (tk_receivers s) (tk_tasks s ++ [t]) s).

(** [pthread_cancel(tid)]: a receiver that still runs will run its cleanup
    handler at its next cancellation point. *)
Definition pthread_cancel (tid : Z) : M tracker unit :=
  modify (λ s, match tk_receivers s !! tid with
               | Some conn => set_threads (delete tid (tk_receivers s)) (tk_tasks s ++ [CancelledReceiver tid conn]) s
               | None => s
               end).

(** [send_ttop_packet(conn, &pkt)]; a closed connection is an error. *)
Definition send_to (conn : Z) (pkt : ttop_packet) : M tracker Z :=
  λ s, match tk_conns s !! conn with
       | None => Ok (-1, s)
       | Some c => match send_ttop_packet pkt c with
                   | Ok (r, c') => Ok (r, set_conns (<[conn := c']> (tk_conns s)) s)
                   | Fault e => Fault e
                   end
       end.

Definition close (conn : Z) : M tracker unit := modify (λ s, set_conns (delete conn (tk_conns s)) s).

(** ** Broadcasting *)
Definition broadcast_one (pkt : ttop_packet) (exclusive_conn : Z) (i : nat) (_ : unit) : M tracker unit :=
  pe <- on_peers (pe_deref i) ;;
  if negb (pe_conn pe =? exclusive_conn) then send_to (pe_conn pe) pkt ;;; ret tt else ret tt.

Definition broadcast_update (tft : trans_file_table) (exclusive_conn : Z) : M tracker unit :=
  if tft_n tft =? 0 then ret tt else
  l <- gets (λ s, ps_list (tk_pt s)) ;;
  for_each l (broadcast_one (ttop_table_packet TRACKER_BROADCAST tft) exclusive_conn) tt.

(** ** The life of a peer *)
Definition accept_packet (ctr : ttop_control_info) : ttop_packet :=
  TtopPacket (TtopHeader (ttop_code TRACKER_ACCEPT) 8) (enc ctr).

Definition peer_register_handler_task (now : Z) (conn : Z) (peer : peer_id) (receiver_tid : Z) : M tracker Z :=
  ctr <- gets tk_ctr ;;
  r <- send_to conn (accept_packet ctr) ;;
  if r <? 0 then ret (-1) else
  pe <- on_peers (peer_entry_alloc now) ;;
  match pe with
  | None => ret (-1)
  | Some i =>
      e <- on_peers (pe_deref i) ;;
      on_peers (pe_store i (PeerEntry conn (pe_timestamp e) peer receiver_tid)) ;;;
      on_peers (peer_table_add i) ;;;
      spawn (CheckAliveTask (ip peer) receiver_tid 0) ;;;
      ret 0
  end.

(** One turn of the loop, after the sleep. *)
Definition peer_check_alive_task (ip0 receiver_tid last_timestamp : Z) : M tracker unit :=
  pe <- on_peers (peer_table_find ip0) ;;
  match pe with
  | None => pthread_cancel receiver_tid
  | Some i =>
      e <- on_peers (pe_deref i) ;;
      if pe_timestamp e =? last_timestamp then pthread_cancel receiver_tid
      else spawn (CheckAliveTask ip0 receiver_tid (pe_timestamp e))
  end.

(** The second half of [peer_life_update_task], once it has the mutex. *)
Definition touch (i : nat) : M tracker unit :=
  ctr <- gets tk_ctr ;;
  e <- on_peers (pe_deref i) ;;
  on_peers (pe_store i (PeerEntry (pe_conn e) (u64 (pe_timestamp e + u64 (interval ctr))) (pe_peerid e) (pe_tid e))).

Definition peer_life_update_task (ip0 : Z) : M tracker Z :=
  pe <- on_peers (peer_table_find ip0) ;;
  match pe with
  | None => ret (-1)
  | Some i => touch i ;;; ret (-1)
  end.

(** ** Synchronisation *)
Fixpoint trans_file_search_from (k i : nat) (tft : trans_file_table) (name : list Z) : M tracker (option trans_file_entry) :=
  match k with
  | O => ret None
  | S k =>
      te <- some_or_oob (tft_get tft (Z.of_nat i)) ;;
      if bool_decide (te_name te = name) then ret (Some te) else trans_file_search_from k (S i) tft name
  end.
Definition trans_file_search (tft : trans_file_table) (name : list Z) : M tracker (option trans_file_entry) :=
  trans_file_search_from (Z.to_nat (tft_n tft)) 0 tft name.

(** The body of the loop over the tracker's table: what the peer misses. *)
Definition sync_reply_one (tft : trans_file_table) (i : fid) (peer_tft : trans_file_table) : M tracker trans_file_table :=
  fe <- on_table (deref (Some i)) ;;
  te <- trans_file_search tft (fe_name fe) ;;
  match te with
  | None => push_file peer_tft (Some i) FILE_ADD
  | Some te =>
      if fe_timestamp fe >? te_timestamp te then push_file peer_tft (Some i) FILE_MODIFY
      else if fe_timestamp fe =? te_timestamp te then
        same <- on_table (has_same_owners (Some i) (Some te)) ;;
        if negb same then push_file peer_tft (Some i) FILE_MODIFY else ret peer_tft
      else ret peer_tft
  end.

Definition sync_reply (tft : trans_file_table) : M tracker trans_file_table :=
  l <- gets (λ s, listed (tk_ft s)) ;; for_each l (sync_reply_one tft) zero_table.

(** The body of the loop over the peer's table: what the tracker misses. *)
Definition sync_learn_one (te : trans_file_entry) (broad_tft : trans_file_table) : M tracker trans_file_table :=
  fe <- on_table (file_table_find te) ;;
  match fe with
  | None =>
      on_table (file_table_add (Some te)) ;;;
      push_entry broad_tft (set_op_type FILE_ADD te)
  | Some i =>
      e <- on_table (deref (Some i)) ;;
      if fe_timestamp e <? te_timestamp te then
        on_table (file_table_update (Some te)) ;;;
        push_entry broad_tft (set_op_type FILE_MODIFY te)
      else on_table (file_table_update (Some te)) ;;; ret broad_tft
  end.

Definition sync_task (conn : Z) (tft : trans_file_table) : M tracker Z :=
  ok <- tk_malloc ;; if negb ok then ret (-1) else
  ok <- tk_malloc ;; if negb ok then ret (-1) else
  ok <- tk_malloc ;; if negb ok then ret (-1) else
  peer_tft <- sync_reply tft ;;
  send_to conn (ttop_table_packet TRACKER_SYNC peer_tft) ;;;
  broad_tft <- for_entries tft sync_learn_one zero_table ;;
  broadcast_update broad_tft conn ;;;
  ret 0.

(** ** File updates *)
Definition file_update_one (te : trans_file_entry) (new_tft : trans_file_table) : M tracker trans_file_table :=
  match op_of (te_op_type te) with
  | Some FILE_ADD =>
      fe <- on_table (file_table_add (Some te)) ;;
      match fe with
      | Some _ => push_file new_tft fe FILE_ADD
      | None => ret new_tft
      end
  | Some FILE_DELETE =>
      r <- on_table (file_table_delete (Some te)) ;;
      if r =? 0 then push_entry new_tft te else ret new_tft
  | Some FILE_MODIFY =>
      fe <- on_table (file_table_find te) ;;
      op_type <- match fe with
                 | None => on_table (file_table_add (Some te)) ;;; ret FILE_ADD
                 | Some _ => on_table (file_entry_update fe (Some te)) ;;; ret FILE_MODIFY
                 end ;;
      push_file new_tft fe op_type
  | Some FILE_NONE | None => ret new_tft
  end.

Definition peer_file_update_task (conn : Z) (tft : trans_file_table) : M tracker Z :=
  new_tft <- for_entries tft file_update_one zero_table ;;
  (if 0 <? tft_n new_tft then broadcast_update new_tft conn else ret tt) ;;;
  ret 0.

(** ** The end of a connection *)
Definition all_modified (tft : trans_file_table) : trans_file_table :=
  TransTable (tft_n tft) (set_op_type FILE_MODIFY <$> tft_entries tft).

Definition receiver_task_cleanup (conn : Z) : M tracker unit :=
  r <- on_peers (peer_table_delete conn) ;;
  let peer_ip := u32 r in
  on_table (file_table_delete_owner peer_ip) ;;;
  ok <- tk_malloc ;;
  if negb ok then ret tt else
  tft <- on_table trans_table_fill_from ;;
  broadcast_update (all_modified tft) (-1) ;;;
  close conn.

(** ** The receiver thread *)

(** The receiver ends, by returning or by [pthread_exit] or a cancellation. *)
Definition receiver_end (tid conn : Z) : M tracker unit :=
  modify (λ s, set_threads (delete tid (tk_receivers s)) (tk_tasks s) s) ;;;
  receiver_task_cleanup conn.

(** What the receiver does with a packet; [false]: it ends. *)
Definition receiver_dispatch (tid conn : Z) (pkt : ptot_packet) : M tracker bool :=
  let hdr := ptot_hdr pkt in
  match ptot_of (ptot_type hdr) with
  | Some PEER_REGISTER =>
      ok <- tk_malloc ;; if negb ok then ret false else
      spawn (RegisterTask conn (PeerId (ptot_ip hdr) (ptot_port hdr)) tid) ;;; ret true
  | Some PEER_KEEP_ALIVE => spawn (LifeUpdateTask (ptot_ip hdr)) ;;; ret true
  | Some PEER_SYNC =>
      ok <- tk_malloc ;; if negb ok then ret false else
      ok <- tk_malloc ;; if negb ok then ret false else
      spawn (SyncTask conn (ptot_table zero_table pkt)) ;;; ret true
  | Some PEER_FILE_UPDATE =>
      ok <- tk_malloc ;; if negb ok then ret false else
      ok <- tk_malloc ;; if negb ok then ret false else
      spawn (FileUpdateTask conn (ptot_table zero_table pkt)) ;;; ret true
  | None => ret true
  end.

(** A turn of the loop of [receiver_task] on what its connection delivers; the
    unread input, [None] when the thread ended. *)
Definition receiver_turn (tid conn : Z) (pkt : ptot_packet) (input : list Z) : M tracker (option (ptot_packet * list Z)) :=
  match recv_ptot_packet pkt input with
  | Fault e => fail e
  | Ok (r, pkt, rest) =>
      if r <=? 0 then receiver_end tid conn ;;; ret None else
      go <- receiver_dispatch tid conn pkt ;;
      if go : bool then ret (Some (pkt, rest)) else receiver_end tid conn ;;; ret None
  end.

(** ** The whole process *)

(** A thread that was started runs; [now] is the time of day. *)
Definition run_task (now : Z) (t : task) : M tracker unit :=
  match t with
  | RegisterTask conn peer tid => peer_register_handler_task now conn peer tid ;;; ret tt
  | LifeUpdateTask ip0 => peer_life_update_task ip0 ;;; ret tt
  | SyncTask conn tft => sync_task conn tft ;;; ret tt
  | FileUpdateTask conn tft => peer_file_update_task conn tft ;;; ret tt
  | CheckAliveTask ip0 tid last => peer_check_alive_task ip0 tid last
  | CancelledReceiver tid conn => receiver_task_cleanup conn
  end.

(** [server_start], up to the loop that accepts connections. *)
Definition server_start (ctr : ttop_control_info) (s : tracker) : res (unit * tracker) :=
  (on_table file_table_init ;;; on_peers peer_table_init)
    (Tracker (tk_ft s) (tk_pt s) ctr (tk_conns s) (tk_receivers s) (tk_tasks s) (tk_calloc s)).

(** [accept] returned [conn] and a receiver thread [tid] was started for it. *)
Definition accept_conn (tid conn : Z) : M tracker unit :=
  modify (λ s, set_threads (<[tid := conn]> (tk_receivers s)) (tk_tasks s)
                 (set_conns (<[conn := OutConn [] []]> (tk_conns s)) s)).

(** One step of the process: an event from outside, or some started thread runs. *)
Inductive event :=
  | EvAccept (tid conn : Z)
  | EvPacket (tid : Z) (pkt : ptot_packet)     (** the receiver received a packet *)
  | EvEnd (tid : Z)                            (** [recv] failed or the peer closed *)
  | EvRun (k : nat) (now : Z).                 (** the [k]-th started thread runs *)

Definition handle (ev : event) : M tracker unit :=
  match ev with
  | EvAccept tid conn => accept_conn tid conn
  | EvPacket tid pkt =>
      r <- gets tk_receivers ;;
      match r !! tid with
      | None => ret tt
      | Some conn =>
          go <- receiver_dispatch tid conn pkt ;;
          if go : bool then ret tt else receiver_end tid conn
      end
  | EvEnd tid =>
      r <- gets tk_receivers ;;
      match r !! tid with None => ret tt | Some conn => receiver_end tid conn end
  | EvRun k now =>
      l <- gets tk_tasks ;;
      match l !! k with
      | None => ret tt
      | Some t =>
          modify (λ s, set_threads (tk_receivers s) (take k l ++ drop (S k) l) s) ;;;
          run_task now t
      end
  end.

(** ** Specification *)

(** What a packet adds to an open connection. *)
Definition deliver (pkt : ttop_packet) (conn : Z) (m : gmap Z out_conn) : gmap Z out_conn :=
  alter (λ o, OutConn (oc_sent o ++ frame (ttop_bytes pkt)) []) conn m.

(** A broadcast: to every peer of the table but those of one connection. *)
Definition broadcast_to (pkt : ttop_packet) (exclusive_conn : Z) (l : list peer_entry) (m : gmap Z out_conn) :
    gmap Z out_conn :=
  fold_left (λ m pe, if pe_conn pe =? exclusive_conn then m else deliver pkt (pe_conn pe) m) l m.

(** Nothing that is sent fails or is cut. *)
Definition quiet (m : gmap Z out_conn) : Prop := ∀ c o, m !! c = Some o → oc_answers o = [].

Definition broadcast_of (entries : list trans_file_entry) : ttop_packet :=
  ttop_table_packet TRACKER_BROADCAST (TransTable (Z.of_nat (length entries)) entries).
(** [broadcast_update] of a table built from a list: an empty one is not sent. *)
Definition broadcast_list (entries : list trans_file_entry) (exclusive_conn : Z) (l : list peer_entry)
    (m : gmap Z out_conn) : gmap Z out_conn :=
  match entries with [] => m | _ => broadcast_to (broadcast_of entries) exclusive_conn l m end.

(** The announced version of a file among a peer's. *)
Definition find_name (name : list Z) (l : list trans_file_entry) : option trans_file_entry :=
  snd <$> list_find (λ te, te_name te = name) l.

(** What the tracker answers about file [e] to a peer that announced [l]. *)
Definition reply_for (l : list trans_file_entry) (e : file_entry) : option trans_file_entry :=
  match find_name (fe_name e) l with
  | None => Some (announce FILE_ADD e)
  | Some te =>
      if decide (te_timestamp te < fe_timestamp e ∨
                 (fe_timestamp e = te_timestamp te ∧ fe_owners e ≠ owners_of te))
      then Some (announce FILE_MODIFY e) else None
  end.

(** What the tracker tells the others when a peer announces [te]. *)
Definition news (te : trans_file_entry) (v : fview) : option trans_file_entry :=
  match v !! te_name te with
  | None => Some (set_op_type FILE_ADD te)
  | Some e => if fe_timestamp e <? te_timestamp te then Some (set_op_type FILE_MODIFY te) else None
  end.
Fixpoint news_all (l : list trans_file_entry) (v : fview) : list trans_file_entry :=
  match l with
  | [] => []
  | te :: l => option_list (news te v) ++ news_all l (learn te v)
  end.

(** What one entry of a file update does to the map of known files. *)
Definition apply_update (te : trans_file_entry) (v : fview) : fview :=
  match op_of (te_op_type te) with
  | Some FILE_ADD | Some FILE_MODIFY => learn te v
  | Some FILE_DELETE => delete (te_name te) v
  | Some FILE_NONE | None => v
  end.
Definition apply_updates (l : list trans_file_entry) (v : fview) : fview := fold_left (λ v te, apply_update te v) l v.

(** What the tracker tells the others of it.  A modification of a file it does
    not know is announced as an empty entry: the program exports the NULL it got
    from the lookup instead of the file it then added. *)
Definition update_news (te : trans_file_entry) (v : fview) : option trans_file_entry :=
  match op_of (te_op_type te) with
  | Some FILE_ADD => announce FILE_ADD <$> learn te v !! te_name te
  | Some FILE_DELETE => if v !! te_name te then Some te else None
  | Some FILE_MODIFY =>
      match v !! te_name te with
      | Some e => Some (announce FILE_MODIFY (merge te e))
      | None => Some (set_op_type FILE_ADD zero_entry)
      end
  | Some FILE_NONE | None => None
  end.
Fixpoint update_news_all (l : list trans_file_entry) (v : fview) : list trans_file_entry :=
  match l with
  | [] => []
  | te :: l => option_list (update_news te v) ++ update_news_all l (apply_update te v)
  end.

(** ** Lemmas: sending *)
Lemma send_safe buf len c :
  len ≤ Z.of_nat (length buf) → ∃ r c', send buf len c = Ok (r, c').
Proof.
  intros H. rw /send. rw (proj2 (Z.ltb_ge _ _)) //.
  destruct (oc_answers c) as [|a l]; [by eexists _, _|]. destruct (a <? 0); by eexists _, _.
Qed.

Lemma send_ttop_safe pkt c : ∃ r c', send_ttop_packet pkt c = Ok (r, c').
Proof.
  rw /send_ttop_packet /send_memory /send_segment.
  set (buf := mem_read _ _). assert (H : ttop_packet_len pkt ≤ Z.of_nat (length buf)).
  { rw /buf length_mem_read. lia. }
  destruct (send_safe start_buf 2 c) as (r1 & c1 & E1); [simpl; lia|].
  rw {1}/bind E1. destruct (r1 <? 0); [by eexists _, _|].
  destruct (send_safe buf (ttop_packet_len pkt) c1 H) as (r2 & c2 & E2).
  rw {1}/bind E2. destruct (r2 <? 0); [by eexists _, _|].
  destruct (send_safe end_buf 2 c2) as (r3 & c3 & E3); [simpl; lia|].
  rw /bind E3. destruct (r3 <? 0); by eexists _, _.
Qed.

(** The packets whose [data_len] is a length. *)
Definition proper (pkt : ttop_packet) : Prop := 0 ≤ ttop_data_len (ttop_hdr pkt).
Lemma proper_table_packet type t : proper (ttop_table_packet type t).
Proof. apply u16_range. Qed.
Lemma proper_accept ctr : proper (accept_packet ctr).
Proof. rw /proper /=. lia. Qed.

Lemma deliver_quiet pkt conn m : quiet m → quiet (deliver pkt conn m).
Proof.
  intros Hq c o. rw /deliver lookup_alter. case_decide; [|apply Hq]. subst.
  destruct (m !! c) as [o'|] eqn:E; [|done]. by intros [= <-].
Qed.

Lemma set_conns_id s : set_conns (tk_conns s) s = s.
Proof. by destruct s. Qed.

Lemma send_to_wp conn pkt s :
  proper pkt →
  wp (send_to conn pkt)
     (λ r s', ∃ m, s' = set_conns m s ∧
        (quiet (tk_conns s) → m = deliver pkt conn (tk_conns s) ∧ (0 ≤ r ↔ is_Some (tk_conns s !! conn)))) s.
Proof.
  intros Hp. rw /wp /send_to. destruct (tk_conns s !! conn) as [c|] eqn:E.
  - destruct (send_ttop_safe pkt c) as (r & c' & Hs). rw Hs.
    eexists. split; [done|]. intros Hq. specialize (Hq conn c E).
    rw send_ttop_packet_run // in Hs. injection Hs as <- <-. split.
    + rw /deliver alter_alt E //.
    + split; [by eexists|]. intros _. rw /ttop_packet_len. rw /proper in Hp. lia.
  - exists (tk_conns s). split; [by rw set_conns_id|]. intros _. split.
    + rw /deliver alter_alt E //.
    + split; [lia|]. by intros [? ?].
Qed.

Lemma wp_on_ft {A} (m : M fstate A) Q (s : tracker) :
  wp m (λ a t, Q a (set_ft t s)) (tk_ft s) → wp (on_table m) Q s.
Proof. exact (wp_on_table (St:=tracker) m Q s). Qed.
Lemma wp_on_ft_read {A} (m : M fstate A) Q (s : tracker) :
  wp m (λ a t, t = tk_ft s ∧ Q a s) (tk_ft s) → wp (on_table m) Q s.
Proof. exact (wp_on_table_read (St:=tracker) m Q s). Qed.

(** Reading the peer table does not change the process. *)
Lemma wp_on_peers_read {A} (m : M pstate A) Q (s : tracker) :
  wp m (λ a t, t = tk_pt s ∧ Q a s) (tk_pt s) → wp (on_peers m) Q s.
Proof.
  intros Hm. apply wp_zoom. eapply wp_mono; [exact Hm|]. intros a t [-> HQ]. by destruct s.
Qed.

Lemma wp_on_peers {A} (m : M pstate A) Q (s : tracker) :
  wp m (λ a t, Q a (set_pt t s)) (tk_pt s) → wp (on_peers m) Q s.
Proof. apply wp_zoom. Qed.

(** ** Lemmas: broadcasting *)
Lemma broadcast_one_wp pkt excl i e s :
  proper pkt → ps_heap (tk_pt s) !! i = Some e →
  wp (broadcast_one pkt excl i tt)
     (λ _ s', ∃ m, s' = set_conns m s ∧
        (quiet (tk_conns s) → quiet m ∧ m = broadcast_to pkt excl [e] (tk_conns s))) s.
Proof.
  intros Hp He. rw /broadcast_one. apply wp_bind, wp_on_peers_read. eapply wp_pe_deref; [done|].
  split; [done|]. rw /broadcast_to /=. destruct (pe_conn e =? excl); simpl.
  - apply wp_ret. exists (tk_conns s). split; [by rw set_conns_id|done].
  - apply wp_bind. eapply wp_mono; [by apply send_to_wp|]. intros r s' (m & -> & Hm). apply wp_ret.
    exists m. split; [done|]. intros Hq. destruct (Hm Hq) as [-> _]. split; [by apply deliver_quiet|done].
Qed.

Lemma broadcast_update_wp tft excl s :
  pwf (tk_pt s) →
  wp (broadcast_update tft excl)
     (λ _ s', ∃ m, s' = set_conns m s ∧
        (quiet (tk_conns s) → quiet m ∧
           m = if tft_n tft =? 0 then tk_conns s
               else broadcast_to (ttop_table_packet TRACKER_BROADCAST tft) excl (peers (tk_pt s)) (tk_conns s))) s.
Proof.
  intros Hwf. rw /broadcast_update. destruct (tft_n tft =? 0).
  { apply wp_ret. exists (tk_conns s). split; [by rw set_conns_id|done]. }
  apply wp_bind, wp_gets. set (pkt := ttop_table_packet _ _).
  assert (Hp : proper pkt) by apply proper_table_packet.
  eapply wp_mono; [apply (wp_for_each _ (λ done _ s', ∃ m, s' = set_conns m s ∧ (quiet (tk_conns s) → quiet m ∧
    m = broadcast_to pkt excl (omap (λ i, ps_heap (tk_pt s) !! i) done) (tk_conns s))) (ps_list (tk_pt s)) [])|].
  - exists (tk_conns s). split; [by rw set_conns_id|done].
  - intros pre i post [] s1 Heq (m & -> & Hm). simpl in Heq.
    destruct (pwf_lookup _ i Hwf) as [e He]; [rw Heq; set_solver|].
    eapply wp_mono; [by apply (broadcast_one_wp pkt excl i e)|]. intros [] s' (m' & -> & Hm').
    exists m'. split; [done|]. intros Hq. destruct (Hm Hq) as [Hqm ->].
    destruct (Hm' Hqm) as [Hqm' E]. split; [done|].
    rw omap_app. csimpl. rw He /broadcast_to fold_left_app. exact E.
  - intros [] s' (m & -> & Hm). exists m. split; [done|]. exact Hm.
Qed.

(** The broadcast of a table under construction. *)
Lemma broadcast_small_wp tft excl s :
  pwf (tk_pt s) → packed tft →
  wp (broadcast_update tft excl)
     (λ _ s', ∃ m, s' = set_conns m s ∧ (quiet (tk_conns s) → quiet m ∧
        m = broadcast_list (tft_entries tft) excl (peers (tk_pt s)) (tk_conns s))) s.
Proof.
  intros Hwf Hp. eapply wp_mono; [by apply broadcast_update_wp|]. intros _ s' (m & -> & Hm).
  exists m. split; [done|]. intros Hq. destruct (Hm Hq) as [? ->]. split; [done|].
  destruct tft as [n l]. rw /packed /= in Hp. rw /broadcast_list /broadcast_of /= Hp.
  destruct l as [|te l]; [done|]. rw (proj2 (Z.eqb_neq _ _)) //.
Qed.

Section deployment.
Context (F : gset (list Z)) (P : gset Z).
Context {D : Deployment F P}.

(** What is pending is about the deployment. *)
Definition task_ok (t : task) : Prop :=
  match t with
  | SyncTask _ tft | FileUpdateTask _ tft => known_table F P tft
  | _ => True
  end.

Record tk_ok (s : tracker) : Prop := {
  ok_ft : bounded F P (tk_ft s);
  ok_pt : pwf (tk_pt s);
  ok_tasks : ∀ t, t ∈ tk_tasks s → task_ok t
}.

(** ** Lemmas: synchronisation *)
Lemma trans_file_search_wp tft name s Q :
  known_table F P tft → Q (find_name name (tft_entries tft)) s → wp (trans_file_search tft name) Q s.
Proof.
  intros [[Hp Hn] _] HQ. rw /trans_file_search. rw Hp Nat2Z.id.
  assert (H : ∀ k i, (i + k = length (tft_entries tft))%nat →
    trans_file_search_from k i tft name s = Ok (find_name name (drop i (tft_entries tft)), s)).
  2: { rw /wp (H _ 0%nat) //. }
  induction k as [|k IH]; intros i Hk; [rw drop_ge //; lia|].
  destruct (lookup_lt_is_Some_2 (tft_entries tft) i ltac:(lia)) as [te Hte].
  rw (drop_S _ te i) //. cbn [trans_file_search_from]. rw {1}/bind.
  rw /tft_get /in_table (proj2 (Z.leb_le _ _)); [lia|]. rw (proj2 (Z.ltb_lt _ _)).
  { rw Hp in Hn. lia. }
  rw Nat2Z.id Hte /= /find_name /=. case_bool_decide as E.
  - by rw decide_True.
  - rw decide_False // IH; [lia|]. rw /find_name. by destruct (list_find _ _) as [[? ?]|].
Qed.

Lemma find_name_Some name l te : find_name name l = Some te → te ∈ l ∧ te_name te = name.
Proof.
  rw /find_name. destruct (list_find _ l) as [[k te']|] eqn:E; [|done]. intros [= <-].
  apply list_find_Some in E as (E & Hn & _). split; [by eapply list_elem_of_lookup_2|done].
Qed.

Lemma sync_reply_one_wp tft i e t s :
  tk_ok s → known_table F P tft → i ∈ listed (tk_ft s) → fs_heap (tk_ft s) !! i = Some e →
  small_table t → tft_n t < MAX_FILE_ENTRIES →
  wp (sync_reply_one tft i t)
     (λ t' s', s' = s ∧ small_table t' ∧
        tft_entries t' = tft_entries t ++ option_list (reply_for (tft_entries tft) e)) s.
Proof.
  intros Hs Htft Hi He Ht Hn. pose proof (ok_ft s Hs) as Hb.
  assert (Hpush : ∀ op, wp (push_file t (Some i) op)
     (λ t' s', s' = s ∧ small_table t' ∧ tft_entries t' = tft_entries t ++ [announce op e]) s).
  { intros op. by eapply (wp_push_file F P). }
  assert (Hkeep : wp (ret t)
     (λ t' s', s' = s ∧ small_table t' ∧ tft_entries t' = tft_entries t ++ []) s).
  { apply wp_ret. by rw app_nil_r. }
  rw /sync_reply_one /reply_for. apply wp_bind, wp_on_ft_read. eapply wp_fe_deref; [done|].
  split; [done|]. apply wp_bind, trans_file_search_wp; [done|].
  destruct (find_name _ _) as [te|] eqn:E; [|apply Hpush]. apply find_name_Some in E as [Hte _].
  pose proof (proj2 Htft te Hte) as (Hwte & _). rw Z.gtb_ltb.
  destruct (Z.ltb_spec (te_timestamp te) (fe_timestamp e)) as [Hlt|Hge]; cbn beta iota.
  { rw decide_True; [by left|]. apply Hpush. }
  destruct (Z.eqb_spec (fe_timestamp e) (te_timestamp te)) as [Heq|Hne]; cbn beta iota.
  2: { rw decide_False; [intuition lia|]. apply Hkeep. }
  apply wp_bind, wp_on_ft_read.
  rw {1}/wp (has_same_owners_run i e) //. split; [done|].
  case_bool_decide as Ho; simpl.
  - rw decide_False; [intuition lia|]. apply Hkeep.
  - rw decide_True; [by right|]. apply Hpush.
Qed.

Lemma sync_reply_wp tft s :
  tk_ok s → known_table F P tft →
  wp (sync_reply tft)
     (λ t s', s' = s ∧ small_table t ∧ tft_entries t = omap (reply_for (tft_entries tft)) (entries (tk_ft s))) s.
Proof.
  intros Hs Htft. pose proof (ok_ft s Hs) as Hb. pose proof (bd_wf _ _ _ Hb) as Hwf.
  pose proof (bounded_entries F P _ Hb) as Hmax. rw /sync_reply. apply wp_bind, wp_gets.
  eapply wp_mono; [apply (wp_for_each _ (λ pre t s', s' = s ∧ small_table t ∧
    tft_entries t = omap (reply_for (tft_entries tft)) (omap (λ i, fs_heap (tk_ft s) !! i) pre) ∧
    (length (tft_entries t) ≤ length pre)%nat) (listed (tk_ft s)) [])|].
  - split_and!; done.
  - intros pre i post t s1 Heq (-> & Ht & Hent & Hlen). simpl in Heq.
    assert (Hi : i ∈ listed (tk_ft s)) by (rw Heq; set_solver).
    destruct (wf_listed_live _ i Hwf Hi) as [e He].
    assert (Hlt : tft_n t < MAX_FILE_ENTRIES).
    { destruct Ht as [Hp _]. rw Hp. rw Heq length_app /= in Hmax. lia. }
    eapply wp_mono; [by eapply sync_reply_one_wp|]. intros t' s' (-> & Ht' & Hent').
    split_and!; [done|done| |].
    + rw Hent' Hent omap_app. csimpl. rw He omap_app /=. by destruct (reply_for _ e).
    + rw Hent' !length_app /=. destruct (reply_for _ e); simpl; lia.
  - intros t s' (-> & ? & ? & _). done.
Qed.

(** The state after operations on the file table: everything else is as it was. *)
Lemma tk_ok_set_ft s t : tk_ok s → bounded F P t → tk_ok (set_ft t s).
Proof. intros [_ Hp Ht] Hb. by split. Qed.
Lemma tk_ok_set_conns s m : tk_ok s → tk_ok (set_conns m s).
Proof. intros [Hf Hp Ht]. by split. Qed.
Lemma set_ft_id s : set_ft (tk_ft s) s = s.
Proof. by destruct s. Qed.

(** One entry of a peer's table: [Q] of the new table and of the entry added, if any. *)
Lemma sync_learn_one_wp te t s :
  bounded F P (tk_ft s) → known F P te → small_table t → tft_n t < MAX_FILE_ENTRIES →
  wp (sync_learn_one te t)
     (λ t' s', ∃ ft' o, s' = set_ft ft' s ∧ bounded F P ft' ∧ small_table t' ∧
        tft_entries t' = tft_entries t ++ option_list o ∧
        (no_oom (tk_ft s) → no_oom ft' ∧ view ft' = learn te (view (tk_ft s)) ∧ o = news te (view (tk_ft s)))) s.
Proof.
  intros Hb Hk Ht Hn. rw /sync_learn_one /news. apply wp_bind, wp_on_ft_read.
  eapply wp_mono; [by apply (table_find_wp F P)|]. intros [i|] ? [-> H]; (split; [done|]).
  - destruct H as (e & Hat & Hv). pose proof Hat as (_ & He & _). rw Hv.
    apply wp_bind, wp_on_ft_read. eapply wp_fe_deref; [done|]. split; [done|].
    destruct (fe_timestamp e <? te_timestamp te).
    + apply wp_bind, wp_on_ft. eapply wp_mono; [by apply (table_update_wp F P)|].
      intros r ft' (Hb' & Hoom). apply wp_push_entry; [done|done|]. intros Hs'.
      exists ft', (Some (set_op_type FILE_MODIFY te)). split_and!; try done.
      intros [? Hv']%Hoom. split_and!; [done|by apply Hv'|done].
    + apply wp_bind, wp_on_ft. eapply wp_mono; [by apply (table_update_wp F P)|].
      intros r ft' (Hb' & Hoom). apply wp_ret.
      exists ft', None. split_and!; try done; [by rw app_nil_r|].
      intros [? Hv']%Hoom. split_and!; [done|by apply Hv'|done].
  - rw H. apply wp_bind, wp_on_ft. eapply wp_mono; [by apply (table_add_wp F P)|].
    intros r ft' (Hb' & Hoom & _). apply wp_push_entry; [done|done|]. intros Hs'.
    exists ft', (Some (set_op_type FILE_ADD te)). split_and!; try done.
    by intros [? ?]%Hoom.
Qed.

Lemma news_all_app l te v :
  news_all (l ++ [te]) v = news_all l v ++ option_list (news te (learn_all l v)).
Proof.
  revert v. induction l as [|x l IH]; intros v; [by rw /= app_nil_r|].
  cbn [app news_all]. rw IH app_assoc //.
Qed.

Lemma learn_all_app l te v : learn_all (l ++ [te]) v = learn te (learn_all l v).
Proof. by rw /learn_all fold_left_app. Qed.

Lemma length_pushes (t t' : trans_file_table) o n :
  tft_entries t' = tft_entries t ++ option_list o → (length (tft_entries t) ≤ n)%nat →
  (length (tft_entries t') ≤ n + 1)%nat.
Proof. intros -> H. rw length_app. destruct o; simpl; lia. Qed.

(** There is room for one entry per entry of a received table. *)
Lemma room tft t pre (te : trans_file_entry) post :
  known_table F P tft → tft_entries tft = pre ++ te :: post → small_table t →
  (length (tft_entries t) ≤ length pre)%nat → tft_n t < MAX_FILE_ENTRIES.
Proof.
  intros [[Hp Hn] _] Heq [Hpt _] Hlen. rw Hpt. rw Hp Heq length_app /= in Hn. lia.
Qed.

Lemma sync_learn_wp tft s :
  bounded F P (tk_ft s) → known_table F P tft →
  wp (for_entries tft sync_learn_one zero_table)
     (λ t s', ∃ ft', s' = set_ft ft' s ∧ bounded F P ft' ∧ small_table t ∧
        (no_oom (tk_ft s) → no_oom ft' ∧ view ft' = learn_all (tft_entries tft) (view (tk_ft s)) ∧
           tft_entries t = news_all (tft_entries tft) (view (tk_ft s)))) s.
Proof.
  intros Hb Htft.
  eapply wp_mono; [apply (wp_for_entries F P _ (λ pre t s', ∃ ft', s' = set_ft ft' s ∧ bounded F P ft' ∧
    small_table t ∧ (length (tft_entries t) ≤ length pre)%nat ∧
    (no_oom (tk_ft s) → no_oom ft' ∧ view ft' = learn_all pre (view (tk_ft s)) ∧
       tft_entries t = news_all pre (view (tk_ft s))))); [done| |]|].
  - exists (tk_ft s). rw set_ft_id. split_and!; done.
  - intros pre te post t s1 Heq Hte (ft1 & -> & Hb1 & Ht & Hlen & Hoom1).
    eapply wp_mono; [apply sync_learn_one_wp; [done|done|done|by eapply room]|].
    intros t' s' (ft' & o & -> & Hb' & Ht' & Hent & Hoom). exists ft'. split_and!; try done.
    + rw length_app /=. by eapply length_pushes.
    + intros H. destruct (Hoom1 H) as (H1 & Hv1 & Hent1). destruct (Hoom H1) as (H' & Hv' & ->).
      rw learn_all_app news_all_app -Hv1 -Hent1 //.
  - intros t s' (ft' & -> & ? & ? & _ & ?). by exists ft'.
Qed.

Lemma wp_malloc s (Q : bool → tracker → Prop) :
  (∀ ok c, (tk_calloc s = [] → ok = true ∧ c = []) → Q ok (set_calloc c s)) → wp tk_malloc Q s.
Proof.
  intros HQ. rw /wp /tk_malloc. destruct (tk_calloc s) as [|ok c] eqn:E; [|by apply HQ].
  specialize (HQ true []). destruct s as [? ? ? ? ? ? c]. simpl in E. subst. by apply HQ.
Qed.

(** What no handler of a table changes. *)
Definition same_threads (s s' : tracker) : Prop :=
  tk_tasks s' = tk_tasks s ∧ tk_receivers s' = tk_receivers s ∧ tk_pt s' = tk_pt s ∧ tk_ctr s' = tk_ctr s.

(** Nothing fails: memory is available and every connection takes what is sent. *)
Definition calm (s : tracker) : Prop := no_oom (tk_ft s) ∧ tk_calloc s = [] ∧ quiet (tk_conns s).

(** The tables and the connections after a synchronisation. *)
Definition synced (conn : Z) (l : list trans_file_entry) (s s' : tracker) : Prop :=
  let reply := omap (reply_for l) (entries (tk_ft s)) in
  view (tk_ft s') = learn_all l (view (tk_ft s)) ∧
  tk_conns s' =
    broadcast_list (news_all l (view (tk_ft s))) conn (peers (tk_pt s))
      (deliver (ttop_table_packet TRACKER_SYNC (TransTable (Z.of_nat (length reply)) reply)) conn (tk_conns s)).

(** [if (p == NULL) { ...; goto out; }] *)
Lemma wp_malloc_or {A} (k : M tracker A) (a : A) s (Q : A → tracker → Prop) :
  (∀ c, (tk_calloc s = [] → c = []) → wp k Q (set_calloc c s)) →
  (∀ c, tk_calloc s ≠ [] → Q a (set_calloc c s)) →
  wp (ok <- tk_malloc ;; if negb ok then ret a else k) Q s.
Proof.
  intros Hk Ha. apply wp_bind, wp_malloc. intros [] c Hc; simpl; [apply Hk|apply wp_ret, Ha].
  - intros H. by apply Hc.
  - intros H. by destruct (Hc H).
Qed.

Lemma tk_ok_set_calloc s c : tk_ok s → tk_ok (set_calloc c s).
Proof. intros [Hf Hp Ht]. by split. Qed.

Lemma sync_task_wp conn tft s :
  tk_ok s → known_table F P tft →
  wp (sync_task conn tft)
     (λ r s', tk_ok s' ∧ same_threads s s' ∧
        (calm s → r = 0 ∧ calm s' ∧ synced conn (tft_entries tft) s s')) s.
Proof.
  intros Hs Htft.
  assert (Hfail : ∀ c s1, tk_calloc s1 ≠ [] → (tk_calloc s = [] → tk_calloc s1 = []) →
    s1 = set_calloc (tk_calloc s1) s →
    tk_ok (set_calloc c s1) ∧ same_threads s (set_calloc c s1) ∧
        (calm s → -1 = 0 ∧ calm (set_calloc c s1) ∧ synced conn (tft_entries tft) s (set_calloc c s1))).
  { intros c s1 Hne Himp ->. split; [by destruct Hs|]. split; [done|].
    intros (_ & Hc & _). by destruct Hne; apply Himp. }
  rw /sync_task. apply wp_malloc_or; [intros c1 H1|intros c Hc; apply Hfail; [done|done|by destruct s]].
  apply wp_malloc_or; [intros c2 H2|intros c Hc; apply Hfail; [done|exact H1|done]].
  apply wp_malloc_or; [intros c3 H3|intros c Hc; apply Hfail; [done|auto|done]].
  set (s0 := set_calloc c3 _). assert (Hs0 : tk_ok s0) by by repeat apply tk_ok_set_calloc.
  apply wp_bind. eapply wp_mono; [by apply sync_reply_wp|]. intros reply ? (-> & [Hp _] & Hent).
  apply wp_bind. eapply wp_mono; [apply send_to_wp, proper_table_packet|]. intros r1 s1 (m1 & -> & Hm1).
  apply wp_bind. eapply wp_mono; [apply sync_learn_wp; [apply (ok_ft _ Hs0)|done]|].
  intros broad s2 (ft' & -> & Hb' & [Hpb _] & Hoom).
  apply wp_bind. eapply wp_mono; [by apply broadcast_small_wp; [apply (ok_pt _ Hs0)|]|].
  intros [] s3 (m3 & -> & Hm3). apply wp_ret. cbn [tk_conns tk_pt set_ft set_conns set_calloc] in *.
  split; [split; [done|apply (ok_pt _ Hs0)|apply (ok_tasks _ Hs0)]|]. split; [done|].
  intros (Hoom0 & Hc & Hq). destruct (Hoom Hoom0) as (Hoom' & Hv & Hnews).
  assert (c3 = []) as -> by auto. destruct (Hm1 Hq) as [-> _].
  destruct Hm3 as [Hq' ->]; [by apply deliver_quiet|]. split; [done|]. split; [done|]. split; [done|].
  rw -Hent -Hnews. destruct reply as [n l]. rw /packed /= in Hp. by rw Hp.
Qed.

(** ** Lemmas: file updates *)
Lemma view_at s name i e : bounded F P s → entry_at s name i e → view s !! name = Some e.
Proof. intros Hb Hat. apply view_lookup; [apply (bd_wf _ _ _ Hb)|]. by exists i. Qed.

Lemma wp_push_at t i name e op s Q :
  small_table t → tft_n t < MAX_FILE_ENTRIES → bounded F P (tk_ft s) → entry_at (tk_ft s) name i e →
  (small_table (pushed t (announce op e)) → Q (pushed t (announce op e)) s) →
  wp (push_file t (Some i) op) Q s.
Proof. intros Ht Hn Hb (Hi & He & _). by eapply (wp_push_file F P). Qed.

Lemma file_update_one_wp te t s :
  bounded F P (tk_ft s) → known F P te → small_table t → tft_n t < MAX_FILE_ENTRIES →
  wp (file_update_one te t)
     (λ t' s', ∃ ft' o, s' = set_ft ft' s ∧ bounded F P ft' ∧ small_table t' ∧
        tft_entries t' = tft_entries t ++ option_list o ∧
        (no_oom (tk_ft s) → no_oom ft' ∧ view ft' = apply_update te (view (tk_ft s)) ∧
           o = update_news te (view (tk_ft s)))) s.
Proof.
  intros Hb Hk Ht Hn. rw /file_update_one /apply_update /update_news.
  assert (Hnone : wp (ret t) (λ t' s', ∃ ft' o, s' = set_ft ft' s ∧ bounded F P ft' ∧ small_table t' ∧
        tft_entries t' = tft_entries t ++ option_list o ∧
        (no_oom (tk_ft s) → no_oom ft' ∧ view ft' = view (tk_ft s) ∧ o = None)) s).
  { apply wp_ret. exists (tk_ft s), None. rw set_ft_id app_nil_r. by split_and!. }
  destruct (op_of (te_op_type te)) as [[]|]; [exact Hnone| | | |exact Hnone].
  - apply wp_bind, wp_on_ft. eapply wp_mono; [by apply (table_add_wp F P)|].
    intros [i|] ft' (Hb' & Hoom & H).
    + destruct H as (e & Hat & _). eapply wp_push_at; [done|done|exact Hb'|exact Hat|].
      intros Hs'. exists ft', (Some (announce FILE_ADD e)). split_and!; try done.
      intros [? Hv]%Hoom. split_and!; [done..|]. by rw -Hv (view_at _ _ _ _ Hb' Hat).
    + destruct H as [Hno Hv]. apply wp_ret. exists ft', None. rw app_nil_r. by split_and!.
  - apply wp_bind, wp_on_ft. eapply wp_mono; [by apply (table_delete_wp F P)|].
    intros r ft' (Hb' & Hoom & Hv & ->). destruct (view (tk_ft s) !! te_name te) as [e|]; simpl.
    + apply wp_push_entry; [done|done|]. intros Hs'. exists ft', (Some te). split_and!; try done; auto.
    + apply wp_ret. exists ft', None. rw app_nil_r. split_and!; try done; auto.
  - apply wp_bind, wp_on_ft_read. eapply wp_mono; [by apply (table_find_wp F P)|].
    intros [i|] ? [-> H]; (split; [done|]).
    + destruct H as (e & Hat & Hv). apply wp_bind, wp_bind, wp_on_ft.
      eapply wp_mono; [by eapply (entry_update_wp F P)|]. intros r ft' (Hb' & Hoom & e' & Hat').
      apply wp_ret. eapply wp_push_at; [done|done|exact Hb'|exact Hat'|].
      intros Hs'. exists ft', (Some (announce FILE_MODIFY e')). split_and!; try done.
      intros [? Hv']%Hoom. split_and!; [done..|]. rw Hv.
      pose proof (view_at _ _ _ _ Hb' Hat') as E. rw Hv' /learn Hv lookup_insert_eq in E. by injection E as ->.
    + rw H. apply wp_bind, wp_bind, wp_on_ft. eapply wp_mono; [by apply (table_add_wp F P)|].
      intros r ft' (Hb' & Hoom & _). apply wp_ret, wp_push_null; [done|done|].
      intros Hs'. exists ft', (Some (set_op_type FILE_ADD zero_entry)). split_and!; try done.
      by intros [? ?]%Hoom.
Qed.

Lemma update_news_all_app l te v :
  update_news_all (l ++ [te]) v = update_news_all l v ++ option_list (update_news te (apply_updates l v)).
Proof.
  revert v. induction l as [|x l IH]; intros v; [by rw /= app_nil_r|].
  cbn [app update_news_all]. rw IH app_assoc //.
Qed.

Lemma file_update_loop_wp tft s :
  bounded F P (tk_ft s) → known_table F P tft →
  wp (for_entries tft file_update_one zero_table)
     (λ t s', ∃ ft', s' = set_ft ft' s ∧ bounded F P ft' ∧ small_table t ∧
        (no_oom (tk_ft s) → no_oom ft' ∧ view ft' = apply_updates (tft_entries tft) (view (tk_ft s)) ∧
           tft_entries t = update_news_all (tft_entries tft) (view (tk_ft s)))) s.
Proof.
  intros Hb Htft.
  eapply wp_mono; [apply (wp_for_entries F P _ (λ pre t s', ∃ ft', s' = set_ft ft' s ∧ bounded F P ft' ∧
    small_table t ∧ (length (tft_entries t) ≤ length pre)%nat ∧
    (no_oom (tk_ft s) → no_oom ft' ∧ view ft' = apply_updates pre (view (tk_ft s)) ∧
       tft_entries t = update_news_all pre (view (tk_ft s))))); [done| |]|].
  - exists (tk_ft s). rw set_ft_id. split_and!; done.
  - intros pre te post t s1 Heq Hte (ft1 & -> & Hb1 & Ht & Hlen & Hoom1).
    eapply wp_mono; [apply file_update_one_wp; [done|done|done|by eapply room]|].
    intros t' s' (ft' & o & -> & Hb' & Ht' & Hent & Hoom). exists ft'. split_and!; try done.
    + rw length_app /=. by eapply length_pushes.
    + intros H. destruct (Hoom1 H) as (H1 & Hv1 & Hent1). destruct (Hoom H1) as (H' & Hv' & ->).
      rw /apply_updates fold_left_app. fold (apply_updates pre (view (tk_ft s))).
      rw update_news_all_app -Hv1 -Hent1 //.
  - intros t s' (ft' & -> & ? & ? & _ & ?). by exists ft'.
Qed.

Definition updated_by (conn : Z) (l : list trans_file_entry) (s s' : tracker) : Prop :=
  view (tk_ft s') = apply_updates l (view (tk_ft s)) ∧
  tk_conns s' = broadcast_list (update_news_all l (view (tk_ft s))) conn (peers (tk_pt s)) (tk_conns s).

Lemma file_update_task_wp conn tft s :
  tk_ok s → known_table F P tft →
  wp (peer_file_update_task conn tft)
     (λ r s', tk_ok s' ∧ same_threads s s' ∧ r = 0 ∧
        (calm s → calm s' ∧ updated_by conn (tft_entries tft) s s')) s.
Proof.
  intros Hs Htft. rw /peer_file_update_task. apply wp_bind.
  eapply wp_mono; [apply file_update_loop_wp; [apply (ok_ft _ Hs)|done]|].
  intros new s1 (ft' & -> & Hb' & [Hp _] & Hoom). apply wp_bind.
  eapply (wp_mono _ (λ _ s', ∃ m, s' = set_conns m (set_ft ft' s) ∧ (quiet (tk_conns s) → quiet m ∧
        m = broadcast_list (tft_entries new) conn (peers (tk_pt s)) (tk_conns s)))).
  { destruct (Z.ltb_spec 0 (tft_n new)) as [Hpos|Hzero].
    - exact (broadcast_small_wp new conn (set_ft ft' s) (ok_pt _ Hs) Hp).
    - apply wp_ret. exists (tk_conns s). split; [done|]. intros Hq. split; [done|].
      rw Hp in Hzero. by destruct (tft_entries new). }
  intros [] s2 (m & -> & Hm). apply wp_ret. cbn [tk_conns tk_pt set_ft set_conns] in *.
  split; [split; [done|apply (ok_pt _ Hs)|apply (ok_tasks _ Hs)]|]. split; [done|]. split; [done|].
  intros (Hoom0 & Hc & Hq). destruct (Hoom Hoom0) as (Hoom' & Hv & Hnews). destruct (Hm Hq) as [Hq' ->].
  split; [done|]. split; [done|]. by rw -Hnews.
Qed.

(** ** Lemmas: the end of a connection *)
Definition departed (peer_ip conn : Z) (s s' : tracker) : Prop :=
  view (tk_ft s') = omap (drop_owner peer_ip) (view (tk_ft s)) ∧
  peers (tk_pt s') = remove_conn conn (peers (tk_pt s)) ∧
  tk_conns s' = delete conn
    (broadcast_list (announce FILE_MODIFY <$> entries (tk_ft s')) (-1) (peers (tk_pt s')) (tk_conns s)).

(** The address of the peer of a connection; 0xffffffff when there is none. *)
Definition ip_of_conn (conn : Z) (l : list peer_entry) : Z :=
  u32 (match list_find (λ e, pe_conn e = conn) l with
       | Some (_, e) => i32 (ip (pe_peerid e)) | None => -1 end).

Lemma wp_on_pt {A} (m : M pstate A) Q (s : tracker) :
  wp m (λ a t, Q a (set_pt t s)) (tk_pt s) → wp (on_peers m) Q s.
Proof. apply wp_zoom. Qed.

Lemma export_table_wp s :
  bounded F P s →
  wp trans_table_fill_from
     (λ t s', s' = s ∧ small_table t ∧ tft_entries t = export <$> entries s) s.
Proof.
  intros Hb. pose proof (bounded_entries F P _ Hb) as Hmax.
  eapply wp_mono; [apply trans_table_fill_from_wp; [apply (bd_wf _ _ _ Hb)|done|]|].
  - intros e (i & Hi & He)%elem_of_entries. by eapply (bounded_few F P).
  - intros t s' (-> & Hp & Ht). split_and!; [done| |done]. split; [done|].
    rw Hp Ht length_fmap length_entries; [apply (bd_wf _ _ _ Hb)|].
    rw /MAX_FILE_ENTRIES in Hmax *. lia.
Qed.

Lemma cleanup_wp conn s :
  tk_ok s →
  wp (receiver_task_cleanup conn)
     (λ _ s', tk_ok s' ∧ tk_tasks s' = tk_tasks s ∧ tk_receivers s' = tk_receivers s ∧ tk_ctr s' = tk_ctr s ∧
        (calm s → calm s' ∧ departed (ip_of_conn conn (peers (tk_pt s))) conn s s')) s.
Proof.
  intros Hs. rw /receiver_task_cleanup. apply wp_bind, wp_on_pt.
  eapply wp_mono; [apply peer_table_delete_wp, (ok_pt _ Hs)|]. intros r pt' (Hpt' & Hpeers & ->).
  fold (ip_of_conn conn (peers (tk_pt s))). set (ip0 := ip_of_conn _ _).
  apply wp_bind, wp_on_ft. eapply wp_mono; [apply (table_drop_wp F P), (ok_ft _ Hs)|].
  intros [] ft' (Hb' & Hoom & Hv). cbn [tk_ft set_pt] in *.
  apply wp_bind, wp_malloc. intros ok c Hc. cbn [tk_calloc set_ft set_pt] in Hc.
  destruct ok; cbn [negb].
  2: { apply wp_ret. split; [split; [done|done|apply (ok_tasks _ Hs)]|]. split_and!; [done..|].
       intros (_ & H & _). by destruct (Hc H). }
  apply wp_bind, wp_on_ft_read. eapply wp_mono; [by apply export_table_wp|].
  intros t ? (-> & [Hp Hn] & Ht). split; [done|]. apply wp_bind.
  eapply wp_mono; [apply broadcast_small_wp; [done|]|].
  { rw /packed /= length_fmap. exact Hp. }
  intros [] s2 (m & -> & Hm). apply wp_modify. cbn [tk_conns tk_pt set_ft set_pt set_conns set_calloc] in *.
  split; [split; [done|done|apply (ok_tasks _ Hs)]|]. split_and!; [done..|].
  intros (H1 & H2 & Hq). destruct (Hm Hq) as [Hq' Hm']. destruct (Hc H2) as [_ ->].
  split; [split_and!; [by apply Hoom|done|]|].
  - intros k o H. cbn [tk_conns set_conns] in H. apply lookup_delete_Some in H as [_ H]. by eapply Hq'.
  - split_and!; [done|done|]. cbn [tk_conns set_conns set_calloc set_ft]. rw Hm'. do 2 f_equal.
    rw /all_modified /= Ht -list_fmap_compose //.
Qed.

(** ** Lemmas: the life of a peer *)
Lemma register_wp now conn peer tid s :
  tk_ok s →
  wp (peer_register_handler_task now conn peer tid)
     (λ r s', tk_ok s' ∧ tk_ft s' = tk_ft s ∧ tk_receivers s' = tk_receivers s ∧ tk_calloc s' = tk_calloc s ∧
        ((r = 0 ∧ peers (tk_pt s') = PeerEntry conn now peer tid :: peers (tk_pt s) ∧
          tk_tasks s' = tk_tasks s ++ [CheckAliveTask (ip peer) tid 0]) ∨
         (r = -1 ∧ peers (tk_pt s') = peers (tk_pt s) ∧ tk_tasks s' = tk_tasks s)) ∧
        (quiet (tk_conns s) → tk_conns s' = deliver (accept_packet (tk_ctr s)) conn (tk_conns s) ∧
           (ps_calloc (tk_pt s) = [] → is_Some (tk_conns s !! conn) → r = 0))) s.
Proof.
  intros Hs. rw /peer_register_handler_task. apply wp_bind, wp_gets, wp_bind.
  eapply wp_mono; [apply send_to_wp, proper_accept|]. intros r s1 (m & -> & Hm).
  destruct (Z.ltb_spec r 0) as [Hr|Hr].
  { apply wp_ret. split; [by apply tk_ok_set_conns|]. split_and!; [done..|by right|].
    intros Hq. destruct (Hm Hq) as [-> Hiff]. split; [done|]. intros _ H%Hiff. lia. }
  apply wp_bind, wp_on_pt. eapply wp_mono; [apply peer_entry_alloc_wp, (ok_pt _ Hs)|].
  intros [i|] pt1 (Hpt1 & Hl1 & Hp1 & H); cbn [tk_pt set_conns] in *.
  2: { apply wp_ret. split; [split; [apply (ok_ft _ Hs)|done|apply (ok_tasks _ Hs)]|].
       split_and!; [done..|by right|]. intros Hq. destruct (Hm Hq) as [-> _]. split; [done|].
       destruct H as [c Hc]. rw Hc. done. }
  destruct H as [Hi He]. apply wp_bind, wp_on_pt. eapply wp_pe_deref; [exact He|].
  apply wp_bind, wp_on_pt. eapply wp_mono; [by eapply pe_store_wp|]. intros [] pt2 (Hpt2 & Hl2 & Hh2).
  apply wp_bind, wp_on_pt. eapply wp_mono.
  { apply (peer_table_add_wp i (PeerEntry conn now peer tid)); [done|by rw Hl2 Hl1|].
    cbn [tk_pt set_pt]. rw Hh2 lookup_insert_eq //. }
  intros _ pt3 (_ & Hpt3 & Hp3). apply wp_bind, wp_modify, wp_ret.
  split; [split; [apply (ok_ft _ Hs)|done|]|].
  { intros t. cbn [tk_tasks set_threads set_pt set_conns].
    intros [Ht| ->%list_elem_of_singleton]%elem_of_app; [by apply (ok_tasks _ Hs)|done]. }
  split_and!; [done..| |].
  - left. split_and!; [done| |done]. rw Hp3 -Hp1. f_equal.
    rw /peers Hl2 Hh2 omap_insert_fresh //. by rw Hl1.
  - intros Hq. destruct (Hm Hq) as [-> _]. done.
Qed.

Lemma peers_store (pt pt' : pstate) i e e' :
  pwf pt → ps_heap pt !! i = Some e → ps_list pt' = ps_list pt → ps_heap pt' = <[i := e']> (ps_heap pt) →
  pe_conn e' = pe_conn e → pe_peerid e' = pe_peerid e →
  (λ p, (pe_conn p, pe_peerid p)) <$> peers pt' = (λ p, (pe_conn p, pe_peerid p)) <$> peers pt.
Proof.
  intros _ He Hl Hh Hc Hi. rw /peers Hl Hh. generalize (ps_list pt).
  induction l as [|j l IH]; [done|]. csimpl. rw lookup_insert. case_decide as Hj.
  - subst j. rw He. csimpl. rw IH Hc Hi //.
  - destruct (ps_heap pt !! j); csimpl; [by rw IH|exact IH].
Qed.

Lemma life_update_wp ip0 s :
  tk_ok s →
  wp (peer_life_update_task ip0)
     (λ r s', r = -1 ∧ tk_ok s' ∧ ∃ pt', s' = set_pt pt' s ∧
        (λ p, (pe_conn p, pe_peerid p)) <$> peers pt' = (λ p, (pe_conn p, pe_peerid p)) <$> peers (tk_pt s)) s.
Proof.
  intros Hs. rw /peer_life_update_task. apply wp_bind, wp_on_peers_read.
  eapply wp_mono; [apply peer_table_find_wp, (ok_pt _ Hs)|]. intros r ? [-> H]. split; [done|].
  destruct (list_find _ _) as [[k e]|].
  - destruct H as (i & -> & _ & He). apply wp_bind. rw /touch. apply wp_bind, wp_gets.
    apply wp_bind, wp_on_peers_read. eapply wp_pe_deref; [exact He|]. split; [done|].
    apply wp_on_pt. eapply wp_mono; [eapply pe_store_wp; [apply (ok_pt _ Hs)|exact He]|].
    intros [] pt' (Hpt' & Hl & Hh). apply wp_ret. split; [done|].
    split; [split; [apply (ok_ft _ Hs)|done|apply (ok_tasks _ Hs)]|].
    exists pt'. split; [done|]. by eapply (peers_store (tk_pt s) pt' i e); [apply (ok_pt _ Hs)|..].
  - subst r. apply wp_ret. split; [done|]. split; [done|]. exists (tk_pt s). by destruct s.
Qed.

Lemma cancel_ok tid s : tk_ok s → wp (pthread_cancel tid) (λ _ s', tk_ok s') s.
Proof.
  intros Hs. apply wp_modify. destruct (tk_receivers s !! tid) as [conn|]; [|done].
  split; [apply (ok_ft _ Hs)|apply (ok_pt _ Hs)|].
  intros t [Ht| ->%list_elem_of_singleton]%elem_of_app; [by apply (ok_tasks _ Hs)|done].
Qed.

Lemma spawn_ok t s : tk_ok s → task_ok t → wp (spawn t) (λ _ s', tk_ok s') s.
Proof.
  intros Hs Ht. apply wp_modify. split; [apply (ok_ft _ Hs)|apply (ok_pt _ Hs)|].
  intros t' [H| ->%list_elem_of_singleton]%elem_of_app; [by apply (ok_tasks _ Hs)|done].
Qed.

Lemma check_alive_ok ip0 tid last s :
  tk_ok s → wp (peer_check_alive_task ip0 tid last) (λ _ s', tk_ok s') s.
Proof.
  intros Hs. rw /peer_check_alive_task. apply wp_bind, wp_on_peers_read.
  eapply wp_mono; [apply peer_table_find_wp, (ok_pt _ Hs)|]. intros r ? [-> H]. split; [done|].
  destruct (list_find _ _) as [[k e]|]; [|subst; by apply cancel_ok].
  destruct H as (i & -> & _ & He). apply wp_bind, wp_on_peers_read. eapply wp_pe_deref; [exact He|].
  split; [done|]. destruct (pe_timestamp e =? last); [by apply cancel_ok|by apply spawn_ok].
Qed.

(** ** Lemmas: the steps of the process *)
Definition packet_ok (pkt : ptot_packet) : Prop :=
  match ptot_of (ptot_type (ptot_hdr pkt)) with
  | Some PEER_SYNC | Some PEER_FILE_UPDATE => known_table F P (ptot_table zero_table pkt)
  | _ => True
  end.

Lemma dispatch_ok tid conn pkt s :
  tk_ok s → packet_ok pkt → wp (receiver_dispatch tid conn pkt) (λ _ s', tk_ok s') s.
Proof.
  intros Hs. rw /receiver_dispatch /packet_ok.
  assert (Hspawn : ∀ t s, tk_ok s → task_ok t → wp (spawn t ;;; ret true) (λ _ s', tk_ok s') s).
  { intros t s0 Hs0 Ht. apply wp_bind. eapply wp_mono; [by apply spawn_ok|]. done. }
  destruct (ptot_of _) as [[]|]; intros Hp; [| | | |done].
  - apply wp_malloc_or; [|by intros c _; apply tk_ok_set_calloc]. intros c _.
    by apply Hspawn; [apply tk_ok_set_calloc|].
  - by apply Hspawn.
  - apply wp_malloc_or; [|by intros c _; apply tk_ok_set_calloc]. intros c _.
    apply wp_malloc_or; [|by intros c' _; do 2 apply tk_ok_set_calloc]. intros c' _.
    by apply Hspawn; [do 2 apply tk_ok_set_calloc|].
  - apply wp_malloc_or; [|by intros c _; apply tk_ok_set_calloc]. intros c _.
    apply wp_malloc_or; [|by intros c' _; do 2 apply tk_ok_set_calloc]. intros c' _.
    by apply Hspawn; [do 2 apply tk_ok_set_calloc|].
Qed.

Lemma receiver_end_ok tid conn s : tk_ok s → wp (receiver_end tid conn) (λ _ s', tk_ok s') s.
Proof.
  intros Hs. apply wp_bind, wp_modify. eapply wp_mono; [apply cleanup_wp|by intros [] s' (? & _)].
  by destruct Hs.
Qed.

Lemma run_task_ok now t s : tk_ok s → task_ok t → wp (run_task now t) (λ _ s', tk_ok s') s.
Proof.
  intros Hs Ht. destruct t as [conn peer tid|ip0|conn tft|conn tft|ip0 tid last|tid conn];
    cbn [run_task task_ok] in *.
  - apply wp_bind. eapply wp_mono; [by apply register_wp|]. by intros r s' (? & _).
  - apply wp_bind. eapply wp_mono; [by apply life_update_wp|]. by intros r s' (_ & ? & _).
  - apply wp_bind. eapply wp_mono; [by apply sync_task_wp|]. by intros r s' (? & _).
  - apply wp_bind. eapply wp_mono; [by apply file_update_task_wp|]. by intros r s' (? & _).
  - by apply check_alive_ok.
  - eapply wp_mono; [by apply cleanup_wp|]. by intros r s' (? & _).
Qed.

Definition event_ok (ev : event) : Prop :=
  match ev with EvPacket _ pkt => packet_ok pkt | _ => True end.

Lemma handle_ok ev s : tk_ok s → event_ok ev → wp (handle ev) (λ _ s', tk_ok s') s.
Proof.
  intros Hs Hev. destruct ev as [tid conn|tid pkt|tid|k now]; cbn [handle event_ok] in *.
  - apply wp_modify. by destruct Hs.
  - apply wp_bind, wp_gets. destruct (tk_receivers s !! tid) as [conn|]; [|by apply wp_ret].
    apply wp_bind. eapply wp_mono; [by apply dispatch_ok|]. intros [] s' Hs'; [by apply wp_ret|].
    by apply receiver_end_ok.
  - apply wp_bind, wp_gets. destruct (tk_receivers s !! tid) as [conn|]; [|by apply wp_ret].
    by apply receiver_end_ok.
  - apply wp_bind, wp_gets. destruct (tk_tasks s !! k) as [t|] eqn:E; [|by apply wp_ret].
    apply wp_bind, wp_modify. apply run_task_ok; [|eapply (ok_tasks _ Hs), list_elem_of_lookup_2, E].
    destruct Hs as [Hf Hp Ht]. split; [done|done|]. intros t' Ht'. apply Ht.
    cbn [tk_tasks set_threads] in Ht'. apply elem_of_app in Ht' as [H|H].
    + eapply elem_of_sublist; [exact H|apply sublist_take].
    + eapply elem_of_sublist; [exact H|apply sublist_drop].
Qed.

(** A step of the process, whatever happens next in the deployment. *)
Inductive tk_step : tracker → tracker → Prop :=
  | tk_step_event ev s s' : event_ok ev → handle ev s = Ok (tt, s') → tk_step s s'.

Lemma tk_step_ok s s' : tk_ok s → tk_step s s' → tk_ok s'.
Proof.
  intros Hs Hst. revert Hs. destruct Hst as [ev s0 s1 Hev Hh]. intros Hs.
  pose proof (handle_ok ev s0 Hs Hev) as H. by rw /wp Hh in H.
Qed.

Lemma tk_reach_ok s s' : tk_ok s → rtc tk_step s s' → tk_ok s'.
Proof. intros Hs H. revert Hs. induction H as [|s1 s2 s3 H12 _ IH]; [done|]. intros Hs. by apply IH, (tk_step_ok s1). Qed.

Lemma file_table_init_ok s :
  fs_heap s = ∅ → wp file_table_init (λ _ s', bounded F P s' ∧ view s' = ∅ ∧ fs_calloc s' = fs_calloc s) s.
Proof.
  intros Hh. apply wp_modify.
  destruct s as [h nx n ht c]. cbn [fs_heap] in Hh. subst h.
  pose proof (fresh_wf c) as Hwf. pose proof (listed_fresh c) as Hl. rw /fresh in Hwf Hl.
  revert Hwf Hl. rw /set_ht. cbn [fs_heap fs_next fs_calloc fs_n fs_ht]. generalize (replicate (Z.to_nat HASH_SIZE) (A:=list fid) []).
  intros ht0 Hwf Hl. assert (Hv : view (FState ∅ nx 0 ht0 c) = ∅).
  { rw /view /entries. change (listed (FState ∅ nx 0 ht0 c)) with (listed (FState ∅ 0 0 ht0 c)). by rw Hl. }
  split; [|done]. split; [|by rw Hv]. destruct Hwf as [H1 H2 H3 H4 H5 H6].
  split; [done..| |done]. intros i [e He]. by rw lookup_empty in He.
Qed.
End deployment.

(** ** Lemmas: who receives a broadcast *)
Lemma broadcast_to_lookup pkt excl l m c :
  NoDup (pe_conn <$> l) →
  broadcast_to pkt excl l m !! c =
    if decide (c ∈ pe_conn <$> l ∧ c ≠ excl)
    then (λ o, OutConn (oc_sent o ++ frame (ttop_bytes pkt)) []) <$> m !! c else m !! c.
Proof.
  revert m. induction l as [|e l IH]; intros m Hnd; [case_decide; set_solver|].
  csimpl in Hnd. apply NoDup_cons in Hnd as [He Hnd].
  change (broadcast_to pkt excl (e :: l) m) with
    (broadcast_to pkt excl l (if pe_conn e =? excl then m else deliver pkt (pe_conn e) m)).
  rw IH //. csimpl. destruct (Z.eqb_spec (pe_conn e) excl) as [Hex|Hex].
  - repeat case_decide; set_solver.
  - rw /deliver lookup_alter. destruct (decide (pe_conn e = c)) as [Hc|Hc].
    + subst c. rw decide_False; [tauto|]. rw decide_True; [split; [by left|done]|done].
    + repeat case_decide; set_solver.
Qed.

(** ** Lemmas: packets as bytes *)
Lemma recv_positive pkt0 input r pkt rest s tid conn :
  recv_ptot_packet pkt0 input = Ok (r, pkt, rest) → 0 < r →
  receiver_turn tid conn pkt0 input s =
    (go <- receiver_dispatch tid conn pkt ;;
     if go : bool then ret (Some (pkt, rest)) else receiver_end tid conn ;;; ret None) s.
Proof.
  intros Hr Hpos. rw /receiver_turn Hr (proj2 (Z.leb_gt _ _)) //.
Qed.

(** ** Properties *)

(** The process before [server_start]: zeroed static memory. *)
Definition static_tracker (c1 c2 c3 : list bool) : tracker :=
  Tracker (FState ∅ 0 0 [] c1) (PState ∅ 0 0 [] c2) (ControlInfo 0 0) ∅ ∅ [] c3.

Lemma server_start_wp F P `{!Deployment F P} ctr c1 c2 c3 :
  wp (server_start ctr) (λ _ s0, tk_ok F P s0 ∧ ∃ ft' pt',
    s0 = Tracker ft' pt' ctr ∅ ∅ [] c3 ∧ view ft' = ∅ ∧ fs_calloc ft' = c1 ∧ peers pt' = []) (static_tracker c1 c2 c3).
Proof.
  rw /wp /server_start. fold (wp (on_table file_table_init ;;; on_peers peer_table_init)
      (λ _ s0, tk_ok F P s0 ∧ ∃ ft' pt', s0 = Tracker ft' pt' ctr ∅ ∅ [] c3 ∧ view ft' = ∅ ∧ fs_calloc ft' = c1 ∧ peers pt' = [])
      (Tracker (FState ∅ 0 0 [] c1) (PState ∅ 0 0 [] c2) ctr ∅ ∅ [] c3)).
  apply wp_bind, wp_on_ft. eapply wp_mono; [by apply (file_table_init_ok F P)|].
  intros [] ft' (Hb & Hv & Hc). apply wp_on_pt, peer_table_init_pwf. intros pt' Hpt Hp.
  split; [|by exists ft', pt']. split; [exact Hb|exact Hpt|]. intros t Ht. by apply elem_of_nil in Ht.
Qed.


(** C7. A synchronisation, with memory and connections available: the peer is sent
    exactly the files it lacks (as FILE_ADD), has an older version of, or lists
    with other owners (as FILE_MODIFY), with the tracker's own version of each; the
    tracker's map then has every file of the peer merged in; every other peer is
    told of the files that were unknown or newer; the result is 0. *)
Theorem sync_task_correct F P `{!Deployment F P} conn tft s :
  tk_ok F P s → known_table F P tft → calm s →
  wp (sync_task conn tft)
     (λ r s', r = 0 ∧ tk_ok F P s' ∧ calm s' ∧ synced conn (tft_entries tft) s s' ∧
        ∀ te, te ∈ tft_entries tft → ∃ e, view (tk_ft s') !! te_name te = Some e ∧ te_timestamp te ≤ fe_timestamp e) s.
Proof.
  intros Hs Ht Hc. eapply wp_mono; [by apply (sync_task_wp F P)|].
  intros r s' (Hs' & _ & H). destruct (H Hc) as (-> & Hc' & Hsy). split_and!; [done..|].
  intros te Hte. rw (proj1 Hsy). clear -Hte.
  assert (Hmono : ∀ l v n e, v !! n = Some e → ∃ e', learn_all l v !! n = Some e' ∧ fe_timestamp e ≤ fe_timestamp e').
  { induction l as [|x l IH]; intros v n e He; [by exists e; split; [|lia]|].
    change (learn_all (x :: l) v) with (learn_all l (learn x v)).
    destruct (decide (te_name x = n)) as [<-|Hn].
    - destruct (IH (learn x v) (te_name x) (merge x e)) as (e' & He' & Hle).
      { by rw /learn lookup_insert_eq He. }
      exists e'. split; [done|]. rw merge_timestamp in Hle. lia.
    - apply IH. by rw /learn lookup_insert_ne. }
  revert Hte. generalize (view (tk_ft s)). induction (tft_entries tft) as [|x l IH]; intros v Hte; [set_solver|].
  change (learn_all (x :: l) v) with (learn_all l (learn x v)).
  apply elem_of_cons in Hte as [->|Hte]; [|by apply IH].
  destruct (v !! te_name x) as [e|] eqn:E.
  - destruct (Hmono l (learn x v) (te_name x) (merge x e)) as (e' & He' & Hle).
    { by rw /learn lookup_insert_eq E. }
    exists e'. split; [done|]. rw merge_timestamp in Hle. lia.
  - destruct (Hmono l (learn x v) (te_name x) (new_entry x)) as (e' & He' & Hle).
    { by rw /learn lookup_insert_eq E. }
    exists e'. split; [done|exact Hle].
Qed.


(** A modification of a file the tracker does not know enters its map, but what
    the other peers are told is an entry with an empty name and no owner. *)
Theorem unknown_modification_announced_empty F P `{!Deployment F P} conn te s :
  tk_ok F P s → known F P te → calm s →
  op_of (te_op_type te) = Some FILE_MODIFY → view (tk_ft s) !! te_name te = None →
  wp (peer_file_update_task conn (TransTable 1 [te]))
     (λ r s', view (tk_ft s') = <[te_name te := new_entry te]> (view (tk_ft s)) ∧
        tk_conns s' = broadcast_to (broadcast_of [set_op_type FILE_ADD zero_entry]) conn
                        (peers (tk_pt s)) (tk_conns s)) s.
Proof.
  intros Hs Hte Hc Hop Hnone. eapply wp_mono; [apply (file_update_task_wp F P)|].
  - done.
  - split; [by split|]. by intros ? ->%list_elem_of_singleton.
  - intros r s' (_ & _ & _ & H). destruct (H Hc) as (_ & Hv & Hm). split.
    + rw Hv /apply_updates /= /apply_update Hop /learn Hnone //.
    + rw Hm /= /update_news Hop Hnone //.
Qed.

(** C21. When a connection ends, its peer leaves the table of peers and the owners of
    every file, files nobody else has disappear, every remaining peer is sent the
    whole table as modifications, and the connection is closed; a connection whose
    peer never registered drops the owner 255.255.255.255, that is nobody. *)
Theorem cleanup_correct F P `{!Deployment F P} conn s :
  tk_ok F P s → calm s → (∀ e, e ∈ peers (tk_pt s) → is_u32 (ip (pe_peerid e))) →
  wp (receiver_task_cleanup conn)
     (λ _ s', tk_ok F P s' ∧ calm s' ∧
        let peer_ip := match list_find (λ e, pe_conn e = conn) (peers (tk_pt s)) with
                       | Some (_, e) => ip (pe_peerid e) | None => 2 ^ 32 - 1 end in
        departed peer_ip conn s s' ∧ tk_conns s' !! conn = None ∧
        ∀ name e, view (tk_ft s') !! name = Some e → peer_ip ∉ ip <$> fe_owners e) s.
Proof.
  intros Hs Hc Hip. eapply wp_mono; [by apply (cleanup_wp F P)|].
  intros [] s' (Hs' & _ & _ & _ & H). destruct (H Hc) as (Hc' & Hd). split; [done|]. split; [done|].
  intros peer_ip. assert (E : ip_of_conn conn (peers (tk_pt s)) = peer_ip).
  { rw /ip_of_conn /peer_ip. destruct (list_find _ _) as [[k e]|] eqn:E; [|done].
    rw u32_i32 u32_id //. apply Hip. apply list_find_Some in E as (E & _). by eapply list_elem_of_lookup_2. }
  rw E in Hd. split; [done|]. destruct Hd as (Hv & _ & Hm). split; [by rw Hm lookup_delete_eq|].
  intros name e. rw Hv lookup_omap. destruct (view (tk_ft s) !! name) as [e0|]; [|done]. simpl.
  rw /drop_owner. destruct (filter _ (fe_owners e0)) as [|p l] eqn:Ef; [done|]. intros [= <-].
  cbn [set_owners fe_owners]. rw -Ef. by intros (q & -> & [Hq _]%list_elem_of_filter)%list_elem_of_fmap.
Qed.

(** A broadcast reaches every connected peer but the one it is about, each exactly
    once, and nobody else: for a table of peers with one entry per connection. *)
Theorem broadcast_reaches_the_others tft excl s c :
  pwf (tk_pt s) → quiet (tk_conns s) → NoDup (pe_conn <$> peers (tk_pt s)) → tft_n tft ≠ 0 →
  wp (broadcast_update tft excl)
     (λ _ s', tk_conns s' !! c =
        if decide (c ∈ pe_conn <$> peers (tk_pt s) ∧ c ≠ excl)
        then (λ o, OutConn (oc_sent o ++ frame (ttop_bytes (ttop_table_packet TRACKER_BROADCAST tft))) [])
               <$> tk_conns s !! c
        else tk_conns s !! c) s.
Proof.
  intros Hwf Hq Hnd Hn. eapply wp_mono; [by apply broadcast_update_wp|].
  intros [] s' (m & -> & Hm). destruct (Hm Hq) as [_ ->]. cbn [tk_conns set_conns].
  rw (proj2 (Z.eqb_neq _ _)) //. by apply broadcast_to_lookup.
Qed.

(** A registration: the peer is sent the control information, becomes the first
    entry of the table with its connection, address and port, and a liveness check
    of it is started; when its connection takes the packet and memory is there. *)
Theorem register_correct F P `{!Deployment F P} now conn peer tid s :
  tk_ok F P s → quiet (tk_conns s) → ps_calloc (tk_pt s) = [] → is_Some (tk_conns s !! conn) →
  wp (peer_register_handler_task now conn peer tid)
     (λ r s', r = 0 ∧ tk_ok F P s' ∧
        peers (tk_pt s') = PeerEntry conn now peer tid :: peers (tk_pt s) ∧
        tk_tasks s' = tk_tasks s ++ [CheckAliveTask (ip peer) tid 0] ∧
        tk_conns s' = deliver (accept_packet (tk_ctr s)) conn (tk_conns s) ∧ tk_ft s' = tk_ft s) s.
Proof.
  intros Hs Hq Hc Ho. eapply wp_mono; [by apply (register_wp F P)|].
  intros r s' (Hs' & Hft & _ & _ & Hcase & Hd). destruct (Hd Hq) as [Hd' Hr].
  destruct Hcase as [(-> & Hp & Ht)|(-> & _)]; [by split_and!|]. by specialize (Hr Hc Ho).
Qed.

(** From the peer's table to the tracker's thread: the bytes a client sends for a
    synchronisation make the receiver of its connection start exactly one thread,
    [sync_task], on the client's table (its last port clipped), and leave the
    bytes that follow unread. *)
Theorem sync_request_received my_ip t c later pkt0 tid conn s :
  is_u32 my_ip → table_storable t → tft_n t ≤ MAX_SENT_ENTRIES → clean (ptot_bytes (table_request my_ip PEER_SYNC t)) →
  oc_answers c = [] → oc_sent c = [] → tk_calloc s = [] →
  ∃ r c' pkt, (pkt <- ptot_table_packet my_ip PEER_SYNC t ;; send_ptot_packet pkt) c = Ok (r, c') ∧
    receiver_turn tid conn pkt0 (oc_sent c' ++ later) s =
      Ok (Some (pkt, later), set_threads (tk_receivers s) (tk_tasks s ++ [SyncTask conn (clip t)]) s).
Proof.
  intros Hip Hs Hn Hc Hans Hsent Hm.
  destruct (request_delivered my_ip PEER_SYNC t c later pkt0) as (c' & r & pkt & Hsend & Hr & Hpos & Ht & _ & _ & Htab);
    [done..|].
  eexists _, c', pkt. split.
  - rw /bind ptot_table_packet_run; [apply Hs|rw /MAX_SENT_ENTRIES in Hn; rw /MAX_FILE_ENTRIES; lia|].
    rw (proj2 (Z.leb_le _ _)) //.
  - rw (recv_positive _ _ _ _ _ _ _ _ Hr Hpos) {1}/bind /receiver_dispatch Ht.
    rw /bind /tk_malloc Hm. cbn [negb]. rw Hm. cbn [negb]. by rw Htab.
Qed.

(** ** Witnesses *)
Definition the_files : gset (list Z) := {[ [49; 47; 97]; [49; 47; 98] ]}.
Definition the_machines : gset Z := {[ ip owner1; ip owner2 ]}.

Lemma sample_deployment : Deployment the_files the_machines.
Proof. split; apply Z.leb_le || apply Nat.leb_le; vm_compute; reflexivity. Qed.
#[local] Existing Instance sample_deployment.

(** The sample table, two connected peers on connections 5 and 6. *)
Definition sample_tracker : tracker :=
  Tracker sample two_peers (ControlInfo 1000 4096) {[5 := OutConn [] []; 6 := OutConn [] []]} {[1 := 5; 2 := 6]} [] [].

(** A file with the given name, version and operation, from the second machine. *)
Definition said (name : list Z) (ts op : Z) : trans_file_entry :=
  TransEntry name ts op 0 1 (owner2 :: replicate 15 (PeerId 0 0)).

Lemma said_known name ts op : name ∈ the_files → known the_files the_machines (said name ts op).
Proof.
  intros Hn. split; [by split|]. split; [done|]. intros p ->%list_elem_of_singleton.
  rw /the_machines. set_solver.
Qed.

Lemma sample_table_known ts op :
  known_table the_files the_machines (TransTable 1 [said [49; 47; 98] ts op]).
Proof.
  split; [by split|]. intros te ->%list_elem_of_singleton. apply said_known. rw /the_files. set_solver.
Qed.

Lemma sample_tracker_ok : tk_ok the_files the_machines sample_tracker.
Proof.
  split; [split|apply two_peers_wf|intros t Ht; by apply elem_of_nil in Ht].
  - apply sample_wf.
  - assert (E : view sample = {[ [49; 47; 97] := FileEntry [49; 47; 97] 5 0 [owner1] ]}) by (vm_compute; reflexivity).
    intros name e. cbn [tk_ft sample_tracker]. rw E. intros [<- <-]%lookup_singleton_Some.
    split; [rw /the_files; set_solver|]. intros p ->%list_elem_of_singleton. rw /the_machines. set_solver.
Qed.

Lemma sample_quiet : quiet (tk_conns sample_tracker).
Proof.
  intros c o. cbn [tk_conns sample_tracker]. rw !lookup_insert lookup_empty.
  repeat case_decide; intros [=]; by subst.
Qed.

Lemma sample_calm : calm sample_tracker.
Proof. split; [vm_compute; reflexivity|]. split; [reflexivity|apply sample_quiet]. Qed.


Lemma sync_task_correct_witness :
  wp (sync_task 5 (TransTable 1 [said [49; 47; 98] 9 0]))
     (λ r s', r = 0 ∧ tk_ok the_files the_machines s' ∧ calm s' ∧
        synced 5 [said [49; 47; 98] 9 0] sample_tracker s' ∧
        ∀ te, te ∈ [said [49; 47; 98] 9 0] →
          ∃ e, view (tk_ft s') !! te_name te = Some e ∧ te_timestamp te ≤ fe_timestamp e) sample_tracker.
Proof.
  apply (sync_task_correct the_files the_machines 5 (TransTable 1 [said [49; 47; 98] 9 0]) sample_tracker
    sample_tracker_ok (sample_table_known 9 0) sample_calm).
Defined.


Lemma unknown_modification_announced_empty_witness :
  wp (peer_file_update_task 5 (TransTable 1 [said [49; 47; 98] 9 3]))
     (λ r s', view (tk_ft s') = <[ [49; 47; 98] := new_entry (said [49; 47; 98] 9 3)]> (view sample) ∧
        tk_conns s' = broadcast_to (broadcast_of [set_op_type FILE_ADD zero_entry]) 5
                        (peers two_peers) (tk_conns sample_tracker)) sample_tracker.
Proof.
  apply (unknown_modification_announced_empty the_files the_machines 5 (said [49; 47; 98] 9 3) sample_tracker).
  - exact sample_tracker_ok.
  - apply said_known. rw /the_files. set_solver.
  - exact sample_calm.
  - reflexivity.
  - vm_compute. reflexivity.
Defined.

Lemma cleanup_correct_witness :
  wp (receiver_task_cleanup 5)
     (λ _ s', tk_conns s' !! 5 = None ∧ departed 7 5 sample_tracker s') sample_tracker.
Proof.
  eapply wp_mono; [apply (cleanup_correct the_files the_machines 5 sample_tracker sample_tracker_ok sample_calm)|].
  - intros e. rw /peers /= !elem_of_cons elem_of_nil. intros [->|[->|[]]]; rw /is_u32 /=; lia.
  - intros [] s' (_ & _ & Hd & Hc & _). split; [exact Hc|exact Hd].
Defined.

Lemma broadcast_reaches_the_others_witness :
  wp (broadcast_update (TransTable 1 [said [49; 47; 98] 9 1]) 5)
     (λ _ s', tk_conns s' !! 6 = Some (OutConn
        (frame (ttop_bytes (ttop_table_packet TRACKER_BROADCAST (TransTable 1 [said [49; 47; 98] 9 1])))) [])) sample_tracker.
Proof.
  eapply wp_mono; [apply (broadcast_reaches_the_others (TransTable 1 [said [49; 47; 98] 9 1]) 5 sample_tracker 6)|].
  - apply two_peers_wf.
  - apply sample_quiet.
  - apply NoDup_cons. split; [set_solver|]. apply NoDup_cons. split; [set_solver|constructor].
  - discriminate.
  - intros [] s' ->. case_decide as H; [reflexivity|]. destruct H. split; [exact (list_elem_of_here (A:=Z) 6 [5])|done].
Defined.

Lemma register_correct_witness :
  wp (peer_register_handler_task 77 6 (PeerId 9 4192) 2)
     (λ r s', r = 0 ∧ peers (tk_pt s') = PeerEntry 6 77 (PeerId 9 4192) 2 :: peers two_peers) sample_tracker.
Proof.
  eapply wp_mono; [apply (register_correct the_files the_machines 77 6 (PeerId 9 4192) 2 sample_tracker
    sample_tracker_ok sample_quiet)|].
  - reflexivity.
  - by eexists.
  - intros r s' (Hr & _ & Hp & _). split; [exact Hr|exact Hp].
Defined.

Lemma sync_request_received_witness :
  ∃ r c' pkt,
    (pkt <- ptot_table_packet 9 PEER_SYNC (TransTable 1 [wire_entry]) ;; send_ptot_packet pkt) (OutConn [] []) = Ok (r, c') ∧
    receiver_turn 2 6 (ptot_packet_init 0 PEER_SYNC) (oc_sent c' ++ [1]) sample_tracker =
      Ok (Some (pkt, [1]), set_threads (tk_receivers sample_tracker)
            [SyncTask 6 (clip (TransTable 1 [wire_entry]))] sample_tracker).
Proof.
  apply (sync_request_received 9 (TransTable 1 [wire_entry]) (OutConn [] []) [1] (ptot_packet_init 0 PEER_SYNC) 2 6 sample_tracker).
  - rw /is_u32. lia.
  - split; [done|]. repeat constructor; apply wire_entry_storable.
  - done.
  - vm_compute. reflexivity.
  - reflexivity.
  - reflexivity.
  - reflexivity.
Defined.
