(* ===== verification/Client.v ===== *)
(** * Client: how a peer follows the tracker, [client/start.c]

    The client keeps its own table of files.  It announces it when it starts
    ([sync_files]), follows the tracker's reply ([file_table_sync]) and its
    broadcasts ([broadcast_entry_handler]), starts a download thread for every
    file it misses, and announces itself as an owner when one ends
    ([notify_tracker_add_me]).  What happens to the files on disk is the list of
    calls of [file_delete] and of downloads started, in order. *)
From S2P Require Import Prelude Hash TransTable FileTable Replica Segment Wire Packet.

(** ** State *)
Record client := Client {
  cl_ft : fstate;                       (** ft *)
  cl_ip : Z;                            (** my_ip *)
  cl_ctr : ttop_control_info;           (** ctr_info *)
  cl_conn : out_conn;                   (** what was written to targ.conn *)
  cl_downloads : list (option fid);     (** arguments of the download threads started *)
  cl_deleted : list trans_file_entry;   (** arguments of file_delete *)
  cl_calloc : list bool                 (** answers of the handlers' own callocs; then all succeed *)
}.

Definition cl_set_ft (t : fstate) (s : client) : client :=
  Client t (cl_ip s) (cl_ctr s) (cl_conn s) (cl_downloads s) (cl_deleted s) (cl_calloc s).
Definition cl_set_conn (c : out_conn) (s : client) : client :=
  Client (cl_ft s) (cl_ip s) (cl_ctr s) c (cl_downloads s) (cl_deleted s) (cl_calloc s).
Definition cl_set_files (d : list (option fid)) (r : list trans_file_entry) (s : client) : client :=
  Client (cl_ft s) (cl_ip s) (cl_ctr s) (cl_conn s) d r (cl_calloc s).

#[export] Instance client_table : HasTable client := { get_table := cl_ft; put_table := cl_set_ft }.
#[export] Instance client_table_laws : HasTableLaws client.
Proof. split; [done|done|]. by intros []. Qed.

(** [pthread_create(&new_tid, NULL, ptop_download_task, fe)] *)
Definition start_download (fe : option fid) : M client unit :=
  modify (λ s, cl_set_files (cl_downloads s ++ [fe]) (cl_deleted s) s).

(** [file_delete(te)], as far as the table is concerned: the file goes from the disk. *)
Definition file_delete (te : trans_file_entry) : M client unit :=
  modify (λ s, cl_set_files (cl_downloads s) (cl_deleted s ++ [te]) s).

Definition cl_malloc : M client bool :=
  λ s, match cl_calloc s with
       | [] => Ok (true, s)
       | ok :: rest => Ok (ok, Client (cl_ft s) (cl_ip s) (cl_ctr s) (cl_conn s) (cl_downloads s) (cl_deleted s) rest)
       end.

(** [send_ptot_packet(targ.conn, pkt)] *)
Definition send_to_tracker (pkt : ptot_packet) : M client Z := zoom cl_conn cl_set_conn (send_ptot_packet pkt).

(** ** Following the tracker *)

(** Remove the first owner with the client's own address. *)
Fixpoint remove_first (ip0 : Z) (l : list peer_id) : list peer_id :=
  match l with
  | [] => []
  | p :: l => if ip p =? ip0 then l else p :: remove_first ip0 l
  end.

Definition peer_id_list_remove_myself (fe : option fid) : M client unit :=
  my_ip <- gets cl_ip ;;
  e <- on_table (deref fe) ;;
  on_table (store fe (set_owners e (remove_first my_ip (fe_owners e)))).

(** What an announcement does to a file that is in the table:
    [peer_id_list_replace; peer_id_list_remove_myself; if (newer) ...] *)
Definition follow (fe : option fid) (te : trans_file_entry) : M client unit :=
  on_table (peer_id_list_replace fe (Some te)) ;;;
  peer_id_list_remove_myself fe ;;;
  e <- on_table (deref fe) ;;
  if te_timestamp te >? fe_timestamp e then
    on_table (file_entry_update_timestamp fe (te_timestamp te)) ;;;
    start_download fe
  else ret tt.

(** The body of the loop of [file_table_sync]. *)
Definition file_table_sync_one (te : trans_file_entry) (_ : unit) : M client unit :=
  fe <- on_table (file_table_find te) ;;
  match fe with
  | None => fe <- on_table (file_table_add (Some te)) ;; start_download fe
  | Some _ => follow fe te
  end.
Definition file_table_sync (tft : trans_file_table) : M client unit := for_entries tft file_table_sync_one tt.

Definition broadcast_entry_handler (te : trans_file_entry) : M client unit :=
  match op_of (te_op_type te) with
  | Some FILE_ADD =>
      fe <- on_table (file_table_find te) ;;
      match fe with
      | Some _ => follow fe te
      | None => fe <- on_table (file_table_add (Some te)) ;; start_download fe
      end
  | Some FILE_DELETE =>
      on_table (file_table_delete (Some te)) ;;;
      file_delete te
  | Some FILE_MODIFY =>
      fe <- on_table (file_table_find te) ;;
      match fe with
      | None => fe <- on_table (file_table_add (Some te)) ;; start_download fe
      | Some _ => follow fe te
      end
  | Some FILE_NONE | None => ret tt
  end.

(** Never started: [ttop_receiver_task] goes over the entries itself. *)
Definition broadcast_handler_task (tft : trans_file_table) : M client unit :=
  for_entries tft (λ te _, broadcast_entry_handler te) tt.

(** What [ttop_receiver_task] does with a packet. *)
Definition ttop_dispatch (pkt : ttop_packet) : M client unit :=
  match ttop_of (ttop_type (ttop_hdr pkt)) with
  | Some TRACKER_BROADCAST =>
      ok <- cl_malloc ;;
      if negb ok then ret tt else
      for_entries (ttop_table zero_table pkt) (λ te _, broadcast_entry_handler te) tt
  | Some TRACKER_ACCEPT | Some TRACKER_SYNC | Some TRACKER_CLOSE | None => ret tt
  end.

(** A turn of the loop of [ttop_receiver_task]; [None]: the thread ended. *)
Definition ttop_receiver_turn (pkt : ttop_packet) (input : list Z) : M client (option (ttop_packet * list Z)) :=
  match recv_ttop_packet pkt input with
  | Fault e => fail e
  | Ok (r, pkt, rest) => if r <=? 0 then ret None else ttop_dispatch pkt ;;; ret (Some (pkt, rest))
  end.

(** ** Talking to the tracker *)
Definition register_to_tracker (pkt0 : ttop_packet) (input : list Z) : M client (Z * list Z) :=
  my_ip <- gets cl_ip ;;
  r <- send_to_tracker (ptot_packet_init my_ip PEER_REGISTER) ;;
  if r <? 0 then ret (r, input) else
  match recv_ttop_packet pkt0 input with
  | Fault e => fail e
  | Ok (r, pkt, rest) =>
      if r <? 0 then ret (r, rest) else
      match ttop_of (ttop_type (ttop_hdr pkt)) with
      | Some TRACKER_ACCEPT =>
          (* memcpy of data_len bytes over the 8 bytes of ctr_info *)
          if ttop_data_len (ttop_hdr pkt) <=? 8 then
            modify (λ s, Client (cl_ft s) (cl_ip s)
              (dec (mem_read (Z.to_nat (ttop_data_len (ttop_hdr pkt))) (ttop_data pkt) ++
                    drop (Z.to_nat (ttop_data_len (ttop_hdr pkt))) (enc (cl_ctr s))))
              (cl_conn s) (cl_downloads s) (cl_deleted s) (cl_calloc s)) ;;;
            ret (0, rest)
          else fail OutOfBounds
      | _ => ret (-1, rest)
      end
  end.

(** The part of [sync_files] after the local files are in the table: send it, ... *)
Definition sync_request : M client (trans_file_table * Z) :=
  tft <- on_table trans_table_fill_from ;;
  my_ip <- gets cl_ip ;;
  pkt <- ptot_table_packet my_ip PEER_SYNC tft ;;
  r <- send_to_tracker pkt ;;
  ret (tft, r).

(** ... wait for the reply, follow it.  The reply is copied over the table that was sent. *)
Definition sync_with_tracker (pkt0 : ttop_packet) (input : list Z) : M client (Z * list Z) :=
  x <- sync_request ;;
  let '(tft, r) := x in
  if r <? 0 then ret (r, input) else
  match recv_ttop_packet pkt0 input with
  | Fault e => fail e
  | Ok (r, pkt, rest) =>
      if r <? 0 then ret (r, rest) else
      match ttop_of (ttop_type (ttop_hdr pkt)) with
      | Some TRACKER_SYNC => file_table_sync (ttop_table tft pkt) ;;; ret (0, rest)
      | _ => ret (-1, rest)
      end
  end.

Definition notify_tracker_add_me (fe : option fid) : M client unit :=
  ok <- cl_malloc ;; if negb ok then ret tt else
  ok <- cl_malloc ;; if negb ok then ret tt else
  e <- on_table (deref fe) ;;
  my_ip <- gets cl_ip ;;
  let te := TransEntry (fe_name e) (fe_timestamp e) (op_code FILE_MODIFY) (fe_type e) 0 zero_owners in
  te <- some_or_oob (push_owner (PeerId my_ip P2P_PORT) te) ;;
  tft <- push_entry zero_table te ;;
  pkt <- ptot_table_packet my_ip PEER_FILE_UPDATE tft ;;
  send_to_tracker pkt ;;;
  ret tt.

(** [ptop_download_task], given what [file_monitor_block], [monitor_get_sys_name]
    and [file_monitor_mkdir] or [do_download] answer. *)
Definition ptop_download_task (target sys_name : bool) (result : Z) (fe : option fid) : M client Z :=
  on_table (deref fe) ;;;
  if negb target then ret (-1) else
  if negb sys_name then ret (-1) else
  (if result =? 0 then notify_tracker_add_me fe else ret tt) ;;;
  ret result.

(** [keep_alive_task]: its packet, and a turn of its loop ([false]: it ends). *)
Definition keep_alive_packet (my_ip now : Z) : M client ptot_packet :=
  ptot_packet_fill (ptot_packet_init my_ip PEER_KEEP_ALIVE) (le 8 now) 8.
Definition keep_alive_turn (pkt : ptot_packet) : M client bool :=
  r <- send_to_tracker pkt ;; ret (negb (r <? 0)).

(** ** Ports for uploads: [p2p_ports] *)
Definition MAX_P2P_PORT : Z := 1000.
Definition BASE_P2P_PORT : Z := 5100.

(** [p2p_ports] is the state: 0 free, 1 taken. *)
Fixpoint get_free_from (i : nat) (l : list Z) : option (nat * list Z) :=
  match l with
  | [] => None
  | x :: l => if x =? 0 then Some (i, 1 :: l)
              else match get_free_from (S i) l with Some (j, l) => Some (j, x :: l) | None => None end
  end.
(** The result is an [int16_t]. *)
Definition get_free_p2p_port : M (list Z) Z :=
  λ ports, match get_free_from 0 (take (Z.to_nat MAX_P2P_PORT) ports) with
           | Some (i, l) => Ok (i16 (Z.of_nat i + BASE_P2P_PORT), l ++ drop (Z.to_nat MAX_P2P_PORT) ports)
           | None => Ok (-1, ports)
           end.
(** The argument is a [uint16_t]; the index is not checked. *)
Definition put_p2p_port (port : Z) : M (list Z) unit :=
  λ ports, let i := port - BASE_P2P_PORT in
           if decide (0 ≤ i < MAX_P2P_PORT) then Ok (tt, <[Z.to_nat i := 0]> ports) else Fault OutOfBounds.

(** ** Specification *)

(** What the client knows of a file after an announcement. *)
Definition followed (my_ip : Z) (te : trans_file_entry) (e : file_entry) : file_entry :=
  FileEntry (fe_name e) (Z.max (fe_timestamp e) (te_timestamp te)) (fe_type e)
    (filter (λ p, ip p ≠ my_ip) (add_owners [] (owners_of te))).
Definition adopt (my_ip : Z) (te : trans_file_entry) (v : fview) : fview :=
  <[te_name te := match v !! te_name te with Some e => followed my_ip te e | None => new_entry te end]> v.
Definition adopt_all (my_ip : Z) (l : list trans_file_entry) (v : fview) : fview :=
  fold_left (λ v te, adopt my_ip te v) l v.

(** Is the file to be downloaded? *)
Definition outdated (te : trans_file_entry) (v : fview) : bool :=
  match v !! te_name te with Some e => fe_timestamp e <? te_timestamp te | None => true end.

(** What a broadcast entry does. *)
Definition client_apply (my_ip : Z) (te : trans_file_entry) (v : fview) : fview :=
  match op_of (te_op_type te) with
  | Some FILE_ADD | Some FILE_MODIFY => adopt my_ip te v
  | Some FILE_DELETE => delete (te_name te) v
  | Some FILE_NONE | None => v
  end.

(** ** Lemmas: entries *)
Lemma remove_first_filter ip0 l : owners_ok l → remove_first ip0 l = filter (λ p, ip p ≠ ip0) l.
Proof.
  rw /owners_ok. induction l as [|p l IH]; intros Hnd; [done|]. csimpl in Hnd.
  apply NoDup_cons in Hnd as [Hp Hnd]. simpl. destruct (Z.eqb_spec (ip p) ip0) as [E|E].
  - rw filter_cons_False; [tauto|]. subst ip0. symmetry. clear IH Hnd.
    induction l as [|q l IH]; [done|]. csimpl in Hp. apply not_elem_of_cons in Hp as [Hpq Hp].
    rw filter_cons_True; [congruence|]. by rw IH.
  - rw filter_cons_True // IH //.
Qed.

Lemma filter_owners_ok ip0 l : owners_ok l → owners_ok (filter (λ p, ip p ≠ ip0) l).
Proof. intros H. eapply sublist_NoDup; [exact H|]. apply fmap_sublist, sublist_filter. Qed.

Lemma written_written s i e1 e2 c1 c2 : written (written s i e1 c1) i e2 c2 = written s i e2 c2.
Proof. by rw /written /with_calloc /set_heap /= insert_insert_eq. Qed.

Lemma store_wp i e e' s Q :
  fs_heap s !! i = Some e → Q tt (written s i e' (fs_calloc s)) → wp (store (Some i) e') Q s.
Proof. intros He HQ. eapply wp_store; [done|]. by destruct s. Qed.

Lemma peer_id_list_replace_wp i e te s :
  fs_heap s !! i = Some e → te_wf te →
  wp (peer_id_list_replace (Some i) (Some te))
     (λ _ s', ∃ m c, s' = written s i (set_owners e (add_owners [] (take m (owners_of te)))) c ∧
        (no_oom s → c = [] ∧ add_owners [] (take m (owners_of te)) = add_owners [] (owners_of te))) s.
Proof.
  intros He Hte. rw /peer_id_list_replace. apply wp_bind. eapply wp_fe_deref; [done|].
  apply wp_bind. eapply wp_mono; [by apply __peer_id_list_add_wp|].
  intros r s' (m & c & -> & -> & Hoom). eapply store_wp; [done|]. exists m, c. split; [done|].
  intros [-> E]%Hoom. by split.
Qed.

Lemma wp_on_cl {A} (m : M fstate A) Q (s : client) :
  wp m (λ a t, Q a (cl_set_ft t s)) (cl_ft s) → wp (on_table m) Q s.
Proof. exact (wp_on_table (St:=client) m Q s). Qed.
Lemma wp_on_cl_read {A} (m : M fstate A) Q (s : client) :
  wp m (λ a t, t = cl_ft s ∧ Q a s) (cl_ft s) → wp (on_table m) Q s.
Proof. exact (wp_on_table_read (St:=client) m Q s). Qed.

Section deployment.
Context (F : gset (list Z)) (P : gset Z).
Context {D : Deployment F P}.

(** The entry of a file after its owners were replaced. *)
Lemma replaced_known te e m my_ip ts :
  known F P te → fe_name e = te_name te →
  known_entry F P (FileEntry (fe_name e) ts (fe_type e)
    (filter (λ p, ip p ≠ my_ip) (add_owners [] (take m (owners_of te))))).
Proof.
  intros (_ & Hn & Ho) E. split; [by rw /= E|]. cbn [fe_owners]. intros p [_ Hp]%list_elem_of_filter.
  assert (Hx : ip p ∈ ip <$> add_owners [] (take m (owners_of te))) by (apply list_elem_of_fmap; eauto).
  apply add_owners_ips in Hx as [[]%elem_of_nil|(q & -> & Hq)%list_elem_of_fmap].
  apply Ho. eapply elem_of_sublist; [exact Hq|apply sublist_take].
Qed.

(** The state after the table changed, downloads were started and files deleted. *)
Definition moved (s : client) (ft' : fstate) (d : list (option fid)) (r : list trans_file_entry) : client :=
  cl_set_files (cl_downloads s ++ d) (cl_deleted s ++ r) (cl_set_ft ft' s).

Lemma moved_moved s f1 f2 d1 d2 r1 r2 : moved (moved s f1 d1 r1) f2 d2 r2 = moved s f2 (d1 ++ d2) (r1 ++ r2).
Proof. by rw /moved /cl_set_files /= -!app_assoc. Qed.
Lemma moved_id s : moved s (cl_ft s) [] [] = s.
Proof. rw /moved !app_nil_r. by destruct s. Qed.
Lemma moved_ft s ft' : cl_set_ft ft' s = moved s ft' [] [].
Proof. rw /moved !app_nil_r. by destruct s. Qed.

Lemma follow_wp te i e s :
  bounded F P (cl_ft s) → known F P te → entry_at (cl_ft s) (te_name te) i e →
  wp (follow (Some i) te)
     (λ _ s', ∃ ft', s' = moved s ft' (if fe_timestamp e <? te_timestamp te then [Some i] else []) [] ∧
        bounded F P ft' ∧ (∃ e', entry_at ft' (te_name te) i e') ∧
        (no_oom (cl_ft s) → no_oom ft' ∧
           view ft' = <[te_name te := followed (cl_ip s) te e]> (view (cl_ft s)))) s.
Proof.
  intros Hb Hk Hat. pose proof Hat as (_ & He & Hne). pose proof Hk as (Hte & _).
  rw /follow. apply wp_bind, wp_on_cl. eapply wp_mono; [by apply peer_id_list_replace_wp|].
  intros [] ft1 (m & c & -> & Hoom). set (ow := add_owners [] (take m (owners_of te))) in *.
  assert (Hok : owners_ok ow) by apply add_owners_ok, owners_ok_nil.
  apply wp_bind. rw /peer_id_list_remove_myself. apply wp_bind, wp_gets, wp_bind, wp_on_cl_read.
  eapply wp_fe_deref; [apply lookup_insert_eq|]. split; [done|].
  apply wp_on_cl. eapply store_wp; [apply lookup_insert_eq|].
  cbn [cl_ft cl_set_ft cl_ip fe_owners set_owners fs_calloc written with_calloc].
  rw -/(written _ _ _ c) written_written remove_first_filter //.
  set (l := filter _ ow). assert (Hokl : owners_ok l) by by apply filter_owners_ok.
  apply wp_bind, wp_on_cl_read. eapply wp_fe_deref; [apply lookup_insert_eq|]. split; [done|].
  cbn [fe_timestamp set_owners]. rw Z.gtb_ltb.
  assert (Hwr : ∀ ts, let e' := FileEntry (fe_name e) ts (fe_type e) l in
    bounded F P (written (cl_ft s) i e' c) ∧ view (written (cl_ft s) i e' c) = <[te_name te := e']> (view (cl_ft s)) ∧
    entry_at (written (cl_ft s) i e' c) (te_name te) i e').
  { intros ts e'. eapply (bounded_written F P); [done|done|done|done|]. by apply replaced_known. }
  destruct (Z.ltb_spec (fe_timestamp e) (te_timestamp te)) as [Hlt|Hge].
  - apply wp_bind, wp_on_cl. rw /file_entry_update_timestamp. apply wp_bind.
    eapply wp_fe_deref; [apply lookup_insert_eq|]. eapply store_wp; [apply lookup_insert_eq|].
    cbn [cl_ft cl_set_ft fs_calloc written with_calloc]. rw -/(written _ _ _ c) written_written.
    apply wp_modify. destruct (Hwr (te_timestamp te)) as (Hb' & Hv & Hat').
    eexists. split; [by rw /moved app_nil_r|]. split; [exact Hb'|]. split; [by eexists|].
    intros [-> E]%Hoom. split; [done|]. rw Hv /followed /l E. do 2 f_equal. lia.
  - apply wp_ret. destruct (Hwr (fe_timestamp e)) as (Hb' & Hv & Hat').
    exists (written (cl_ft s) i (FileEntry (fe_name e) (fe_timestamp e) (fe_type e) l) c).
    split; [by rw -moved_ft|]. split; [exact Hb'|]. split; [by eexists|].
    intros [-> E]%Hoom. split; [done|]. rw Hv /followed /l E. do 2 f_equal. lia.
Qed.

(** A file the client may not know. *)
Definition learn_or_follow (te : trans_file_entry) : M client unit :=
  fe <- on_table (file_table_find te) ;;
  match fe with
  | None => fe <- on_table (file_table_add (Some te)) ;; start_download fe
  | Some _ => follow fe te
  end.

Lemma learn_or_follow_wp te s :
  bounded F P (cl_ft s) → known F P te →
  wp (learn_or_follow te)
     (λ _ s', ∃ ft' d, s' = moved s ft' d [] ∧ bounded F P ft' ∧
        (no_oom (cl_ft s) → no_oom ft' ∧ view ft' = adopt (cl_ip s) te (view (cl_ft s)) ∧
           if outdated te (view (cl_ft s)) then ∃ i e, d = [Some i] ∧ entry_at ft' (te_name te) i e else d = [])) s.
Proof.
  intros Hb Hk. rw /learn_or_follow /adopt /outdated. apply wp_bind, wp_on_cl_read.
  eapply wp_mono; [by apply (table_find_wp F P)|]. intros [i|] ? [-> H]; (split; [done|]).
  - destruct H as (e & Hat & ->). eapply wp_mono; [by apply follow_wp|].
    intros [] s' (ft' & -> & Hb' & (e' & Hat') & Hoom). eexists ft', _. split; [done|]. split; [done|].
    intros [? Hv]%Hoom. split_and!; [done..|]. destruct (fe_timestamp e <? te_timestamp te); [|done].
    by exists i, e'.
  - rw H. apply wp_bind, wp_on_cl. eapply wp_mono; [by apply (table_add_wp F P)|].
    intros r ft' (Hb' & Hoom & Hr). apply wp_modify. exists ft', [r]. split; [by rw /moved app_nil_r|]. split; [done|].
    intros Ho. destruct (Hoom Ho) as [? Hv]. split; [done|]. split; [by rw Hv /learn H|].
    destruct r as [i|]; [|by destruct Hr]. destruct Hr as (e & Hat & _). by exists i, e.
Qed.

Lemma started_some (b : bool) d ft' te :
  (if b then ∃ i e, d = [Some i] ∧ entry_at ft' (te_name te) i e else d = []) →
  Forall is_Some d ∧ length d = if b then 1%nat else 0%nat.
Proof.
  destruct b; simpl; [|by intros ->]. intros (i & e & -> & _). split; [|done]. by repeat constructor.
Qed.

(** The files of a list that are to be downloaded, as the list is processed. *)
Fixpoint missing (my_ip : Z) (l : list trans_file_entry) (v : fview) : list trans_file_entry :=
  match l with
  | [] => []
  | te :: l => (if outdated te v then [te] else []) ++ missing my_ip l (adopt my_ip te v)
  end.

Lemma missing_app my_ip l te v :
  missing my_ip (l ++ [te]) v =
    missing my_ip l v ++ (if outdated te (adopt_all my_ip l v) then [te] else []).
Proof.
  revert v. induction l as [|x l IH]; intros v; cbn [app missing]; [by rw app_nil_r|].
  rw IH app_assoc //.
Qed.

Lemma file_table_sync_wp tft s :
  bounded F P (cl_ft s) → known_table F P tft →
  wp (file_table_sync tft)
     (λ _ s', ∃ ft' d, s' = moved s ft' d [] ∧ bounded F P ft' ∧
        (no_oom (cl_ft s) → no_oom ft' ∧
           view ft' = adopt_all (cl_ip s) (tft_entries tft) (view (cl_ft s)) ∧
           Forall is_Some d ∧ length d = length (missing (cl_ip s) (tft_entries tft) (view (cl_ft s))))) s.
Proof.
  intros Hb Htft.
  apply (wp_for_entries F P _ (λ pre _ s', ∃ ft' d, s' = moved s ft' d [] ∧ bounded F P ft' ∧
    (no_oom (cl_ft s) → no_oom ft' ∧ view ft' = adopt_all (cl_ip s) pre (view (cl_ft s)) ∧
       Forall is_Some d ∧ length d = length (missing (cl_ip s) pre (view (cl_ft s)))))); [done| |].
  - exists (cl_ft s), []. rw moved_id. split_and!; done.
  - intros pre te post [] s1 Heq Hte (ft1 & d1 & -> & Hb1 & Hoom1).
    eapply wp_mono; [by apply (learn_or_follow_wp te (moved s ft1 d1 []))|].
    intros [] s' (ft' & d & -> & Hb' & Hoom). exists ft', (d1 ++ d). rw moved_moved.
    split; [done|]. split; [done|]. intros H. destruct (Hoom1 H) as (H1 & Hv1 & Hs1 & Hlen1).
    cbn [cl_ft moved cl_set_files cl_set_ft cl_ip] in Hoom. destruct (Hoom H1) as (H' & Hv' & Hd).
    rw Hv1 in Hv' Hd. split_and!; [done|by rw Hv' /adopt_all fold_left_app| |].
    + apply Forall_app. split; [done|]. by destruct (started_some _ _ _ _ Hd).
    + rw missing_app !length_app Hlen1. f_equal. destruct (started_some _ _ _ _ Hd) as [_ ->].
      by destruct (outdated te (adopt_all (cl_ip s) pre (view (cl_ft s)))).
Qed.

(** What happens on disk, and to the table, when the tracker broadcasts [l]. *)
Definition client_apply_all (my_ip : Z) (l : list trans_file_entry) (v : fview) : fview :=
  fold_left (λ v te, client_apply my_ip te v) l v.
Definition is_delete (te : trans_file_entry) : Prop := op_of (te_op_type te) = Some FILE_DELETE.
#[export] Instance is_delete_dec te : Decision (is_delete te).
Proof. rw /is_delete. destruct (op_of _) as [[]|]; (by left) || (by right). Defined.

Lemma broadcast_entry_handler_wp te s :
  bounded F P (cl_ft s) → known F P te →
  wp (broadcast_entry_handler te)
     (λ _ s', ∃ ft' d, s' = moved s ft' d (if decide (is_delete te) then [te] else []) ∧ bounded F P ft' ∧
        (no_oom (cl_ft s) → no_oom ft' ∧ view ft' = client_apply (cl_ip s) te (view (cl_ft s)) ∧ Forall is_Some d)) s.
Proof.
  intros Hb Hk. rw /client_apply.
  assert (Hlearn : wp (learn_or_follow te)
     (λ _ s', ∃ ft' d, s' = moved s ft' d [] ∧ bounded F P ft' ∧
        (no_oom (cl_ft s) → no_oom ft' ∧ view ft' = adopt (cl_ip s) te (view (cl_ft s)) ∧ Forall is_Some d)) s).
  { eapply wp_mono; [by apply learn_or_follow_wp|]. intros [] s' (ft' & d & -> & Hb' & Hoom).
    exists ft', d. split; [done|]. split; [done|]. intros (? & ? & Hd)%Hoom. split_and!; [done..|].
    by destruct (started_some _ _ _ _ Hd). }
  assert (Hskip : wp (ret tt)
     (λ _ s', ∃ ft' d, s' = moved s ft' d [] ∧ bounded F P ft' ∧
        (no_oom (cl_ft s) → no_oom ft' ∧ view ft' = view (cl_ft s) ∧ Forall is_Some d)) s).
  { apply wp_ret. exists (cl_ft s), []. rw moved_id. by split_and!. }
  rw /broadcast_entry_handler /is_delete. case_decide as Hdel.
  - rw Hdel. apply wp_bind, wp_on_cl. eapply wp_mono; [by apply (table_delete_wp F P)|].
    intros r ft' (Hb' & Hoom & Hv & _). apply wp_modify. exists ft', [].
    split; [by rw /moved app_nil_r|]. split; [done|]. intros Ho. split_and!; [by apply Hoom|done|done].
  - destruct (op_of (te_op_type te)) as [[]|]; [exact Hskip|exact Hlearn|done|exact Hlearn|exact Hskip].
Qed.

Lemma dispatch_is_handler pkt s :
  ttop_of (ttop_type (ttop_hdr pkt)) = Some TRACKER_BROADCAST → cl_calloc s = [] →
  ttop_dispatch pkt s = broadcast_handler_task (ttop_table zero_table pkt) s.
Proof. intros E Hc. by rw /ttop_dispatch E /bind /cl_malloc Hc. Qed.

Lemma broadcast_wp tft s :
  bounded F P (cl_ft s) → known_table F P tft →
  wp (for_entries tft (λ te _, broadcast_entry_handler te) tt)
     (λ _ s', ∃ ft' d, s' = moved s ft' d (filter is_delete (tft_entries tft)) ∧ bounded F P ft' ∧
        (no_oom (cl_ft s) → no_oom ft' ∧
           view ft' = client_apply_all (cl_ip s) (tft_entries tft) (view (cl_ft s)) ∧ Forall is_Some d)) s.
Proof.
  intros Hb Htft.
  apply (wp_for_entries F P _ (λ pre _ s', ∃ ft' d, s' = moved s ft' d (filter is_delete pre) ∧ bounded F P ft' ∧
    (no_oom (cl_ft s) → no_oom ft' ∧ view ft' = client_apply_all (cl_ip s) pre (view (cl_ft s)) ∧
       Forall is_Some d))); [done| |].
  - exists (cl_ft s), []. rw moved_id. split_and!; done.
  - intros pre te post [] s1 Heq Hte (ft1 & d1 & -> & Hb1 & Hoom1).
    eapply wp_mono; [by apply (broadcast_entry_handler_wp te (moved s ft1 d1 _))|].
    intros [] s' (ft' & d & -> & Hb' & Hoom). exists ft', (d1 ++ d). rw moved_moved filter_app.
    split; [by f_equal|].
    split; [done|]. intros H. destruct (Hoom1 H) as (H1 & Hv1 & Hs1).
    cbn [cl_ft moved cl_set_files cl_set_ft cl_ip] in Hoom. destruct (Hoom H1) as (H' & Hv' & Hd).
    rw Hv1 in Hv'. split_and!; [done|by rw Hv' /client_apply_all fold_left_app|].
    by apply Forall_app.
Qed.
End deployment.

(** ** Lemmas: ports *)
Lemma get_free_from_spec i l :
  match get_free_from i l with
  | None => ∀ x, x ∈ l → x ≠ 0
  | Some (j, l') => ∃ k, j = (i + k)%nat ∧ l !! k = Some 0 ∧ l' = <[k := 1]> l ∧
                      ∀ k' x, (k' < k)%nat → l !! k' = Some x → x ≠ 0
  end.
Proof.
  revert i. induction l as [|x l IH]; intros i; cbn [get_free_from]; [set_solver|].
  destruct (Z.eqb_spec x 0) as [->|Hx].
  { exists 0%nat. split_and!; [lia|done|done|lia]. }
  specialize (IH (S i)). destruct (get_free_from (S i) l) as [[j l']|].
  - destruct IH as (k & -> & Hk & -> & Hmin). exists (S k). split_and!; [lia|done|done|].
    intros [|k'] y Hk' Hy; [by simplify_eq/=|]. apply (Hmin k'); [lia|done].
  - intros y [->|Hy]%elem_of_cons; auto.
Qed.

Lemma get_free_p2p_port_run ports :
  length ports = Z.to_nat MAX_P2P_PORT →
  get_free_p2p_port ports =
    match get_free_from 0 ports with
    | Some (i, l) => Ok (Z.of_nat i + BASE_P2P_PORT, l)
    | None => Ok (-1, ports)
    end.
Proof.
  intros Hlen. rw /get_free_p2p_port take_ge; [by rw Hlen|]. rw drop_ge; [by rw Hlen|].
  pose proof (get_free_from_spec 0 ports) as H. destruct (get_free_from 0 ports) as [[i l]|]; [|done].
  destruct H as (k & -> & Hk & -> & _). apply lookup_lt_Some in Hk. rw app_nil_r. do 2 f_equal.
  rw /i16 /BASE_P2P_PORT Z.mod_small; rw /MAX_P2P_PORT in Hlen; lia.
Qed.

(** ** Lemmas: announcing oneself *)

(** The entry [notify_tracker_add_me] sends about a file. *)
Definition owned_by_me (my_ip : Z) (e : file_entry) : trans_file_entry :=
  TransEntry (fe_name e) (fe_timestamp e) (op_code FILE_MODIFY) (fe_type e) 1
    (PeerId my_ip P2P_PORT :: replicate 15 (PeerId 0 0)).

(** [notify_tracker_add_me] on a live file. *)
Lemma notify_wp fe e s :
  fs_heap (cl_ft s) !! fe = Some e → cl_calloc s = [] → oc_answers (cl_conn s) = [] →
  wp (notify_tracker_add_me (Some fe))
     (λ _ s', s' = cl_set_conn (OutConn (oc_sent (cl_conn s) ++
          frame (ptot_bytes (table_request (cl_ip s) PEER_FILE_UPDATE (TransTable 1 [owned_by_me (cl_ip s) e])))) []) s) s.
Proof.
  intros He Hm Hc. rw /notify_tracker_add_me.
  apply wp_bind. rw {1}/wp {1}/cl_malloc Hm. cbn [negb]. apply wp_bind. rw {1}/wp {1}/cl_malloc Hm. cbn [negb].
  apply wp_bind, wp_on_cl_read. eapply wp_fe_deref; [exact He|]. split; [done|]. apply wp_bind, wp_gets.
  set (te := owned_by_me (cl_ip s) e).
  assert (Epush : push_owner (PeerId (cl_ip s) P2P_PORT)
    (TransEntry (fe_name e) (fe_timestamp e) (op_code FILE_MODIFY) (fe_type e) 0 zero_owners) = Some te) by done.
  rw Epush. apply wp_bind, wp_ret. apply wp_bind.
  assert (Et : tft_push zero_table te = Some (TransTable 1 [te])) by done.
  rw /push_entry Et. apply wp_ret, wp_bind.
  rw {1}/wp ptot_table_packet_run; [done|done|].
  change (tft_n (TransTable 1 [te]) <=? MAX_SENT_ENTRIES) with true. cbv iota beta.
  apply wp_bind, wp_zoom. rw {1}/wp send_ptot_packet_run //.
Qed.

(** ** Properties *)

(** A broadcast, entry by entry and in order: additions and modifications of files
    the client does not know enter its table and are downloaded; for known files
    the owners become the announced ones without the client itself, and a newer
    version is recorded and downloaded; deletions leave the table and the disk;
    anything else is ignored.  No download is started on a NULL file. *)
Theorem broadcast_followed F P `{!Deployment F P} pkt s :
  bounded F P (cl_ft s) → known_table F P (ttop_table zero_table pkt) → no_oom (cl_ft s) → cl_calloc s = [] →
  ttop_of (ttop_type (ttop_hdr pkt)) = Some TRACKER_BROADCAST →
  wp (ttop_dispatch pkt)
     (λ _ s', bounded F P (cl_ft s') ∧ no_oom (cl_ft s') ∧
        view (cl_ft s') = client_apply_all (cl_ip s) (tft_entries (ttop_table zero_table pkt)) (view (cl_ft s)) ∧
        cl_deleted s' = cl_deleted s ++ filter is_delete (tft_entries (ttop_table zero_table pkt)) ∧
        ∃ d, cl_downloads s' = cl_downloads s ++ d ∧ Forall is_Some d) s.
Proof.
  intros Hb Ht Hoom Hc Htype. rw /ttop_dispatch Htype. apply wp_bind. rw {1}/wp /cl_malloc Hc. cbn [negb].
  eapply wp_mono; [by apply (broadcast_wp F P)|]. intros [] s' (ft' & d & -> & Hb' & H).
  destruct (H Hoom) as (? & ? & ?). split_and!; [done..|]. by exists d.
Qed.

(** [file_table_sync] makes the client follow the tracker's reply: the files of the
    reply are adopted, in order, and one download is started for each of them that was
    unknown or older at its turn. *)
Theorem file_table_sync_correct F P `{!Deployment F P} tft s :
  bounded F P (cl_ft s) → known_table F P tft → no_oom (cl_ft s) →
  wp (file_table_sync tft)
     (λ _ s', bounded F P (cl_ft s') ∧
        view (cl_ft s') = adopt_all (cl_ip s) (tft_entries tft) (view (cl_ft s)) ∧
        cl_deleted s' = cl_deleted s ∧
        ∃ d, cl_downloads s' = cl_downloads s ++ d ∧ Forall is_Some d ∧
          length d = length (missing (cl_ip s) (tft_entries tft) (view (cl_ft s)))) s.
Proof.
  intros Hb Ht Hoom. eapply wp_mono; [by apply (file_table_sync_wp F P)|].
  intros [] s' (ft' & d & -> & Hb' & H). destruct (H Hoom) as (_ & Hv & Hd & Hlen).
  split_and!; [done|done|by rw /= app_nil_r|]. by exists d.
Qed.

(** When a download ends well the tracker is told, in one packet, that this machine
    owns that version of the file: the bytes sent are the file-update request of a
    table with that single entry; when it ends badly nothing is sent. *)
Theorem download_announced fe e target sys_name result s :
  fs_heap (cl_ft s) !! fe = Some e → cl_calloc s = [] → oc_answers (cl_conn s) = [] →
  wp (ptop_download_task target sys_name result (Some fe))
     (λ r s', cl_ft s' = cl_ft s ∧
        (r = if target && sys_name then result else -1) ∧
        oc_sent (cl_conn s') = oc_sent (cl_conn s) ++
          (if target && sys_name && (result =? 0) then
             frame (ptot_bytes (table_request (cl_ip s) PEER_FILE_UPDATE (TransTable 1 [owned_by_me (cl_ip s) e])))
           else [])) s.
Proof.
  intros He Hm Hc. rw /ptop_download_task. apply wp_bind, wp_on_cl_read.
  eapply wp_fe_deref; [exact He|]. split; [done|].
  destruct target; [|apply wp_ret; by rw app_nil_r]. destruct sys_name; [|apply wp_ret; by rw app_nil_r].
  cbn [negb andb]. destruct (result =? 0); [|apply wp_bind, wp_ret, wp_ret; by rw app_nil_r].
  apply wp_bind. eapply wp_mono; [by apply notify_wp|]. intros ? s' ->. by apply wp_ret.
Qed.

(** Upload ports: [get_free_p2p_port] takes the lowest free port from 5100 on, and no
    other changes; with all 1000 taken it returns -1, which its caller stores in a
    [uint16_t]; [put_p2p_port] of a port that was handed out frees exactly it; put on
    the 65535 of the exhausted case writes far outside the array. *)
Theorem p2p_ports_correct ports :
  length ports = Z.to_nat MAX_P2P_PORT →
  wp get_free_p2p_port
     (λ port ports',
        (port = -1 ∧ ports' = ports ∧ (∀ x, x ∈ ports → x ≠ 0) ∧ put_p2p_port (u16 port) ports' = Fault OutOfBounds) ∨
        (∃ k, port = Z.of_nat k + BASE_P2P_PORT ∧ u16 port = port ∧ ports !! k = Some 0 ∧ ports' = <[k := 1]> ports ∧
           (∀ k' x, (k' < k)%nat → ports !! k' = Some x → x ≠ 0) ∧
           put_p2p_port (u16 port) ports' = Ok (tt, ports))) ports.
Proof.
  intros Hlen. rw /wp get_free_p2p_port_run //. pose proof (get_free_from_spec 0 ports) as H.
  destruct (get_free_from 0 ports) as [[i l]|]; [right|by left].
  destruct H as (k & -> & Hk & -> & Hmin). pose proof (lookup_lt_Some _ _ _ Hk) as Hlt. rw Hlen in Hlt.
  exists k. assert (Hu : u16 (Z.of_nat k + BASE_P2P_PORT) = Z.of_nat k + BASE_P2P_PORT).
  { apply u16_id. rw /is_u16 /BASE_P2P_PORT. rw /MAX_P2P_PORT in Hlt. lia. }
  split_and!; [done|done|done|done|done|]. simpl Nat.add. rw Hu /put_p2p_port.
  replace (Z.of_nat k + BASE_P2P_PORT - BASE_P2P_PORT) with (Z.of_nat k) by lia.
  rw decide_True; [lia|]. rw Nat2Z.id list_insert_insert_eq list_insert_id //.
Qed.

(** ** Witnesses *)
Definition client_files : gset (list Z) := {[ [49; 47; 97]; [49; 47; 98]; [97; 47; 98] ]}.
Definition client_machines : gset Z := {[ ip owner1; ip owner2; 9 ]}.
Lemma client_deployment : Deployment client_files client_machines.
Proof. split; apply Z.leb_le || apply Nat.leb_le; vm_compute; reflexivity. Qed.
#[local] Existing Instance client_deployment.

(** The client on the second machine, with the sample table. *)
Definition sample_client : client := Client sample (ip owner2) (ControlInfo 0 0) (OutConn [] []) [] [] [].

Lemma sample_client_ok : bounded client_files client_machines sample.
Proof.
  split; [apply sample_wf|].
  assert (E : view sample = {[ [49; 47; 97] := FileEntry [49; 47; 97] 5 0 [owner1] ]}) by (vm_compute; reflexivity).
  intros name e. rw E. intros [<- <-]%lookup_singleton_Some.
  split; [rw /client_files; set_solver|]. intros p ->%list_elem_of_singleton. rw /client_machines. set_solver.
Qed.

Lemma wire_table_known : known_table client_files client_machines (TransTable 1 [wire_entry]).
Proof.
  split; [by split|]. intros te ->%list_elem_of_singleton. split; [by split|].
  split; [rw /client_files; set_solver|]. intros p ->%list_elem_of_singleton. rw /client_machines. set_solver.
Qed.

Lemma wire_table_loads : ttop_table zero_table (ttop_table_packet TRACKER_BROADCAST (TransTable 1 [wire_entry])) = TransTable 1 [wire_entry].
Proof. vm_compute. reflexivity. Qed.

Lemma broadcast_followed_witness :
  wp (ttop_dispatch (ttop_table_packet TRACKER_BROADCAST (TransTable 1 [wire_entry])))
     (λ _ s', view (cl_ft s') = client_apply_all (ip owner2) [wire_entry] (view sample)) sample_client.
Proof.
  eapply wp_mono; [apply (broadcast_followed client_files client_machines
    (ttop_table_packet TRACKER_BROADCAST (TransTable 1 [wire_entry])) sample_client sample_client_ok)|].
  - rw wire_table_loads. exact wire_table_known.
  - vm_compute. reflexivity.
  - reflexivity.
  - reflexivity.
  - intros [] s' (_ & _ & H & _). rw wire_table_loads in H. exact H.
Defined.

Lemma file_table_sync_correct_witness :
  wp (file_table_sync (TransTable 1 [wire_entry]))
     (λ _ s', ∃ d, cl_downloads s' = d ∧ length d = 1%nat) sample_client.
Proof.
  eapply wp_mono; [apply (file_table_sync_correct client_files client_machines (TransTable 1 [wire_entry])
    sample_client sample_client_ok wire_table_known)|].
  - vm_compute. reflexivity.
  - intros [] s' (_ & _ & _ & d & Hd & _ & Hlen). exists d. split; [exact Hd|]. rw Hlen. vm_compute. reflexivity.
Defined.

Lemma download_announced_witness :
  wp (ptop_download_task true true 0 (Some 0%nat))
     (λ r s', r = 0 ∧ oc_sent (cl_conn s') =
        frame (ptot_bytes (table_request (ip owner2) PEER_FILE_UPDATE
          (TransTable 1 [owned_by_me (ip owner2) (FileEntry [49; 47; 97] 5 0 [owner1])])))) sample_client.
Proof.
  eapply wp_mono; [apply (download_announced 0%nat (FileEntry [49; 47; 97] 5 0 [owner1]) true true 0 sample_client)|].
  - vm_compute. reflexivity.
  - reflexivity.
  - reflexivity.
  - intros r s' (_ & Hr & Hs). split; [exact Hr|exact Hs].
Defined.

Lemma p2p_ports_correct_witness :
  wp get_free_p2p_port
     (λ port ports', port = 5100 ∨ port = -1 ∨ 0 < port) (replicate (Z.to_nat MAX_P2P_PORT) 0).
Proof.
  eapply wp_mono; [apply (p2p_ports_correct (replicate (Z.to_nat MAX_P2P_PORT) 0)); reflexivity|].
  intros port ports' [(-> & _)|(k & -> & _)]; [by right; left|]. right. right. rw /BASE_P2P_PORT. lia.
Defined.
