(* ===== verification/Sync.v ===== *)
(** * Sync: a client and the tracker, synchronised

    The end-to-end contract of the synchronisation protocol: the table a client
    exports ([sync_files]), the tracker's [sync_task] on it, and the client's
    [file_table_sync] of the reply leave both with the same files at the same
    versions. *)
From S2P Require Import Prelude Hash TransTable FileTable Replica Segment Wire Packet PeerTable Tracker Client.

(** ** Specification *)

(** The version of every file. *)
Definition versions (v : fview) : gmap (list Z) Z := fe_timestamp <$> v.

(** The reply of the tracker, as a table. *)
Definition reply_table (l : list trans_file_entry) (s : fstate) : trans_file_table :=
  let reply := omap (reply_for l) (entries s) in TransTable (Z.of_nat (length reply)) reply.

(** ** Lemmas *)

(** A keyed fold over a list of distinct names, looked up. *)
Lemma fold_keyed_lookup (f : trans_file_entry → option file_entry → file_entry) (l : list trans_file_entry) (v : fview) n :
  NoDup (te_name <$> l) →
  fold_left (λ v te, <[te_name te := f te (v !! te_name te)]> v) l v !! n =
    match find_name n l with Some te => Some (f te (v !! n)) | None => v !! n end.
Proof.
  revert v. induction l as [|te l IH]; intros v Hnd; [done|]. csimpl in Hnd.
  apply NoDup_cons in Hnd as [Hte Hnd]. cbn [fold_left]. rw IH //. rw /find_name. cbn [list_find].
  case_decide as Hn.
  - subst n. cbn [fmap option_fmap option_map snd].
    replace (list_find (λ te0, te_name te0 = te_name te) l) with (@None (nat * trans_file_entry)).
    { simpl. by rw lookup_insert_eq. }
    symmetry. apply list_find_None, Forall_forall. intros x Hx E. apply Hte. rw -E.
    apply list_elem_of_fmap. by exists x.
  - rw lookup_insert_ne //. by destruct (list_find _ l) as [[k x]|].
Qed.

Lemma learn_all_lookup (l : list trans_file_entry) v n :
  NoDup (te_name <$> l) →
  learn_all l v !! n =
    match find_name n l with
    | Some te => Some (match v !! n with Some e => merge te e | None => new_entry te end)
    | None => v !! n end.
Proof.
  apply (fold_keyed_lookup (λ te o, match o with Some e => merge te e | None => new_entry te end)).
Qed.

Lemma adopt_all_lookup my_ip (l : list trans_file_entry) v n :
  NoDup (te_name <$> l) →
  adopt_all my_ip l v !! n =
    match find_name n l with
    | Some te => Some (match v !! n with Some e => followed my_ip te e | None => new_entry te end)
    | None => v !! n end.
Proof.
  apply (fold_keyed_lookup (λ te o, match o with Some e => followed my_ip te e | None => new_entry te end)).
Qed.

(** Looking a name up in a list that maps the entries of a table. *)
Lemma find_name_entries (f : file_entry → option trans_file_entry) s n :
  wf s → (∀ e te, f e = Some te → te_name te = fe_name e) →
  find_name n (omap f (entries s)) = view s !! n ≫= f.
Proof.
  intros Hwf Hf. rw /view. pose proof (entries_names_nodup s Hwf) as Hnd. revert Hnd.
  generalize (entries s). intros l. induction l as [|e l IH]; intros Hnd; [done|].
  csimpl in Hnd. apply NoDup_cons in Hnd as [He Hnd]. specialize (IH Hnd). csimpl.
  destruct (decide (fe_name e = n)) as [<-|Hn].
  - rw lookup_insert_eq /=. destruct (f e) as [te|] eqn:E.
    + rw /find_name. cbn [list_find]. rw decide_True //. by apply Hf.
    + rw IH. replace (list_to_map ((λ e0, (fe_name e0, e0)) <$> l) !! fe_name e) with (@None file_entry); [done|].
      symmetry. apply not_elem_of_list_to_map. rw -list_fmap_compose. exact He.
  - rw lookup_insert_ne // -IH. destruct (f e) as [te|] eqn:E; [|done].
    rw /find_name. cbn [list_find]. rw decide_False; [by rw (Hf e te E)|].
    by destruct (list_find _ _) as [[k x]|].
Qed.

Lemma omap_names_nodup (f : file_entry → option trans_file_entry) (l : list file_entry) :
  (∀ e te, f e = Some te → te_name te = fe_name e) → NoDup (fe_name <$> l) → NoDup (te_name <$> omap f l).
Proof.
  intros Hf. induction l as [|e l IH]; intros Hnd; [constructor|]. csimpl in Hnd.
  apply NoDup_cons in Hnd as [He Hnd]. csimpl. destruct (f e) as [te|] eqn:E; [|by apply IH].
  csimpl. apply NoDup_cons. split; [|by apply IH]. rw (Hf e te E).
  intros (x & Hx & (e' & He' & Hfe)%list_elem_of_omap)%list_elem_of_fmap. apply He.
  apply list_elem_of_fmap. exists e'. split; [|done]. by rw Hx (Hf e' x Hfe).
Qed.

Lemma reply_for_name l e te : reply_for l e = Some te → te_name te = fe_name e.
Proof. rw /reply_for. intros H. by repeat case_match; simplify_eq/=. Qed.

Lemma export_omap (l : list file_entry) : export <$> l = omap (λ e, Some (export e)) l.
Proof. induction l as [|e l IH]; [done|]. csimpl. by rw IH. Qed.

(** The heart of the matter, on the maps of both sides. *)
Lemma versions_agree my_ip (st sc : fstate) :
  wf st → wf sc →
  let l := export <$> entries sc in
  versions (learn_all l (view st)) =
    versions (adopt_all my_ip (omap (reply_for l) (entries st)) (view sc)).
Proof.
  intros Ht Hc l. apply map_eq. intros n. rw /versions !lookup_fmap.
  assert (Hl : find_name n l = export <$> view sc !! n).
  { rw /l export_omap find_name_entries; [done|by intros e te [= <-]|]. by destruct (view sc !! n). }
  rw learn_all_lookup.
  { rw /l export_omap. apply omap_names_nodup; [by intros e te [= <-]|by apply entries_names_nodup]. }
  rw adopt_all_lookup.
  { apply omap_names_nodup; [apply reply_for_name|by apply entries_names_nodup]. }
  rw find_name_entries //; [apply reply_for_name|]. rw Hl.
  destruct (view st !! n) as [et|] eqn:Et; simpl.
  2: { destruct (view sc !! n) as [ec|]; done. }
  assert (Hn : fe_name et = n) by (apply view_lookup in Et as (i & _ & _ & ?); done).
  rw /reply_for Hn Hl. destruct (view sc !! n) as [ec|]; simpl; [|done].
  rw merge_timestamp. cbn [te_timestamp export].
  case_decide as Hd; simpl; f_equal.
  - destruct Hd as [Hd|[Hd _]]; lia.
  - destruct (Z.lt_trichotomy (fe_timestamp ec) (fe_timestamp et)) as [Hlt|[Heq|Hgt]]; [|lia|lia].
    destruct Hd. by left.
Qed.

Section deployment.
Context (F : gset (list Z)) (P : gset Z).
Context {D : Deployment F P}.

Lemma exported_known s t :
  bounded F P s → small_table t → tft_entries t = export <$> entries s → known_table F P t.
Proof.
  intros Hb Hs Ht. split; [done|]. rw Ht. intros te (e & -> & (i & Hi & He)%elem_of_entries)%list_elem_of_fmap.
  apply (known_set_op F P FILE_NONE (export e)). apply (announce_known F P FILE_NONE).
  - eapply (bounded_at F P s (fe_name e) i); [done|done].
  - by eapply (bounded_few F P).
Qed.

Lemma reply_known l s :
  bounded F P s → known_table F P (reply_table l s).
Proof.
  intros Hb. pose proof (bounded_entries F P _ Hb) as Hmax. pose proof (bd_wf _ _ _ Hb) as Hwf.
  split; [split; [done|]|].
  - rw /reply_table. cbn [tft_n]. rw -length_entries // in Hmax.
    assert (length (omap (reply_for l) (entries s)) ≤ length (entries s))%nat.
    { generalize (entries s). induction l0 as [|e k IH]; [done|]. csimpl. destruct (reply_for l e); simpl; lia. }
    rw /MAX_FILE_ENTRIES in Hmax *. lia.
  - rw /reply_table. cbn [tft_entries]. intros te (e & (i & Hi & He)%elem_of_entries & Hr)%list_elem_of_omap.
    assert (∃ op, te = announce op e) as [op ->].
    { rw /reply_for in Hr. repeat case_match; simplify_eq; by eexists. }
    apply (announce_known F P); [by eapply (bounded_at F P s (fe_name e) i)|by eapply (bounded_few F P)].
Qed.

(** What the tracker answers and what it knows afterwards. *)
Lemma sync_task_reply conn o tft st :
  tk_ok F P st → calm st → known_table F P tft → tk_conns st !! conn = Some o →
  wp (sync_task conn tft)
     (λ r st', r = 0 ∧ view (tk_ft st') = learn_all (tft_entries tft) (view (tk_ft st)) ∧
        oc_sent <$> tk_conns st' !! conn =
          Some (oc_sent o ++ frame (ttop_bytes (ttop_table_packet TRACKER_SYNC (reply_table (tft_entries tft) (tk_ft st)))))) st.
Proof.
  intros Hst Hcalm Hknown Hconn. eapply wp_mono; [by apply (sync_task_wp F P)|]. intros r st' (_ & _ & H).
  destruct (H Hcalm) as (-> & _ & Hv & Hm). split; [done|]. split; [done|].
  set (reply := reply_table (tft_entries tft) (tk_ft st)).
  rw Hm -/(reply_table (tft_entries tft) (tk_ft st)) -/reply. clear -Hconn.
  set (l := news_all _ _). rw /broadcast_list.
  assert (E : deliver (ttop_table_packet TRACKER_SYNC reply) conn (tk_conns st) !! conn =
    Some (OutConn (oc_sent o ++ frame (ttop_bytes (ttop_table_packet TRACKER_SYNC reply))) [])).
  { rw /deliver lookup_alter_eq Hconn //. }
  revert E. generalize (deliver (ttop_table_packet TRACKER_SYNC reply) conn (tk_conns st)). intros m E.
  destruct l as [|te l]; [by rw E|]. set (pkt := broadcast_of _).
  enough (broadcast_to pkt conn (peers (tk_pt st)) m !! conn = m !! conn) as -> by by rw E.
  generalize (peers (tk_pt st)) m. induction l0 as [|e k IH]; intros m0; [done|].
  change (broadcast_to pkt conn (e :: k) m0) with
    (broadcast_to pkt conn k (if pe_conn e =? conn then m0 else deliver pkt (pe_conn e) m0)).
  rw IH. destruct (Z.eqb_spec (pe_conn e) conn); [done|]. by rw /deliver lookup_alter_ne.
Qed.

(** ** Property *)

(** Synchronisation: when a client exports its table, the tracker runs [sync_task] on
    it, and the client runs [file_table_sync] on the reply the tracker sent it,
    then both know the same files with the same versions, each the newer of the
    two, whatever both knew before; and the client has started a download of
    exactly as many files as the reply brought it a new version of. *)
Theorem sync_agreement conn o st cl :
  tk_ok F P st → calm st → bounded F P (cl_ft cl) → no_oom (cl_ft cl) → tk_conns st !! conn = Some o →
  wp trans_table_fill_from
     (λ tft _, wp (sync_task conn tft)
        (λ r st', r = 0 ∧
           let reply := reply_table (tft_entries tft) (tk_ft st) in
           oc_sent <$> tk_conns st' !! conn =
             Some (oc_sent o ++ frame (ttop_bytes (ttop_table_packet TRACKER_SYNC reply))) ∧
           wp (file_table_sync reply)
              (λ _ cl', versions (view (cl_ft cl')) = versions (view (tk_ft st')) ∧
                 ∃ d, cl_downloads cl' = cl_downloads cl ++ d ∧
                   length d = length (missing (cl_ip cl) (tft_entries reply) (view (cl_ft cl)))) cl) st) (cl_ft cl).
Proof.
  intros Hst Hcalm Hb Hoom Hconn. eapply wp_mono; [by apply (export_table_wp F P)|].
  intros tft ? (-> & Hsmall & Hent).
  assert (Hknown : known_table F P tft) by by eapply exported_known.
  eapply wp_mono; [by apply sync_task_reply|]. intros r st' (-> & Hv & Hm). split; [done|]. intros reply. split; [done|].
  eapply wp_mono; [apply (file_table_sync_wp F P); [done|apply reply_known, (ok_ft _ _ _ Hst)]|].
  intros [] cl' (ft' & d & -> & _ & Hd). destruct (Hd Hoom) as (_ & Hv' & _ & Hlen).
  split; [|by exists d]. cbn [cl_ft moved cl_set_files cl_set_ft].
  rw Hv' Hv /reply /reply_table. cbn [tft_entries]. rw Hent. symmetry. apply versions_agree; [apply (bd_wf _ _ _ (ok_ft _ _ _ Hst))|apply (bd_wf _ _ _ Hb)].
Qed.
End deployment.

(** ** Witness: a client that knows nothing joins a tracker that has a file *)
Definition the_deployment : Deployment the_files the_machines := Tracker.sample_deployment.
Definition new_client : client := Client (fresh []) (ip owner2) (ControlInfo 0 0) (OutConn [] []) [] [] [].

Lemma fresh_bounded F P : bounded F P (fresh []).
Proof. split; [apply fresh_wf|]. intros name e. by rw fresh_view. Qed.

Lemma sync_agreement_witness :
  wp trans_table_fill_from
     (λ tft _, wp (sync_task 5 tft)
        (λ r st', r = 0 ∧
           wp (file_table_sync (reply_table (tft_entries tft) sample))
              (λ _ cl', versions (view (cl_ft cl')) = versions (view (tk_ft st'))) new_client) sample_tracker) (fresh []).
Proof.
  pose proof the_deployment as D.
  eapply wp_mono; [apply (sync_agreement the_files the_machines 5 (OutConn [] []) sample_tracker new_client
    sample_tracker_ok sample_calm (fresh_bounded _ _) eq_refl eq_refl)|].
  intros tft s H. eapply wp_mono; [exact H|]. intros r st' (Hr & _ & H'). split; [exact Hr|].
  eapply wp_mono; [exact H'|]. intros [] cl' [Hv _]. exact Hv.
Defined.
