(* ===== verification/Download.v ===== *)
(** * Download: fetching the pieces of a file from its owners, [client/download.c]

    A download splits the file into pieces and starts a thread per owner; each
    thread takes the next free piece, asks its owner for it, writes it to the
    local file and takes the next.  The threads share the table of pieces and the
    file; a state has the phase of every thread and a step is one thread passing
    from one critical section to the next, so every interleaving is a run.  Also
    here: the loops [my_read] and [my_write], and how an owner serves a piece
    ([do_upload] of [client/start.c]). *)
From S2P Require Import Prelude TransTable Wire Packet.

(** ** Reading and writing all of a buffer

    [answers] are the results of the next calls of [read] (or [write]); the
    function gives no result while it waits for one. *)
Fixpoint transfer (answers : list Z) (try_n n left len : Z) : option Z :=
  if n <? len then
    match answers with
    | [] => None
    | ret :: answers =>
        if ret <? 0 then Some n
        else if (ret =? 0) && (try_n =? 0) then Some n
        else transfer answers (if ret =? 0 then try_n - 1 else try_n) (n + ret) (left - ret) len
    end
  else Some n.
Definition my_read (answers : list Z) (len : Z) : option Z := transfer answers 10 0 len len.
Definition my_write (answers : list Z) (len : Z) : option Z := transfer answers 0 0 len len.

(** ** Pieces *)
Inductive piece_status : Set := PIECE_AVAILABLE | PIECE_DOWNLOADNG | PIECE_FINISHED.
#[export] Instance piece_status_eq_dec : EqDecision piece_status.
Proof. solve_decision. Defined.

(** [obj.file_len = get_file_len_from(...)]: the low 32 bits of the size, as an [int]. *)
Definition file_len_of (st_size : Z) : Z := i32 (u32 st_size).

(** [(obj.file_len + piece_len - 1) / piece_len], in [int]; C division truncates. *)
Definition file_pieces (file_len piece_len : Z) : Z := Z.quot (file_len + piece_len - 1) piece_len.

(** The request for a piece. *)
Definition piece_request (file_len piece_len : Z) (piece_id : Z) : p2p_piece_request :=
  let pieces := file_pieces file_len piece_len in
  PieceRequest (u32 piece_id)
    (u32 (if piece_id =? pieces - 1 then file_len - piece_len * (pieces - 1) else piece_len)).

Fixpoint get_new_piece_from (i : nat) (flags : list piece_status) : option (nat * list piece_status) :=
  match flags with
  | [] => None
  | f :: flags =>
      if decide (f = PIECE_AVAILABLE) then Some (i, PIECE_DOWNLOADNG :: flags)
      else match get_new_piece_from (S i) flags with
           | Some (j, flags) => Some (j, f :: flags) | None => None end
  end.
(** [None] is -1. *)
Definition get_new_piece (flags : list piece_status) : option (nat * list piece_status) := get_new_piece_from 0 flags.
Definition mark_piece_finished (i : nat) (flags : list piece_status) : list piece_status := <[i := PIECE_FINISHED]> flags.
Definition mark_piece_failed (i : nat) (flags : list piece_status) : list piece_status := <[i := PIECE_AVAILABLE]> flags.

(** ** Serving a piece: the body of the loop of [do_upload]

    The buffer has [piece_len] bytes; [None]: the connection is closed because the
    file is shorter than what was asked for. *)
Definition serve_piece (file : list Z) (piece_len : Z) (req : p2p_piece_request) : res (option (list Z)) :=
  let offset := u32 (req_piece_id req * piece_len) in
  let len := i32 (req_len req) in
  let data := take (Z.to_nat len) (drop (Z.to_nat offset) file) in
  if piece_len <? Z.of_nat (length data) then Fault OutOfBounds
  else if Z.of_nat (length data) =? req_len req then Ok (Some data) else Ok None.

(** ** The local file: [lseek] and [write] *)
Definition write_at (off : nat) (data file : list Z) : list Z :=
  take off (file ++ replicate (off - length file) 0) ++ data ++ drop (off + length data) file.

(** ** The threads *)
Inductive phase : Set :=
  | Starting (mine : bool)      (** created; [mine]: its owner is this machine *)
  | Want                        (** about to call [get_new_piece] *)
  | Holding (i : nat)           (** has a piece to fetch *)
  | Wrote (i : nat)             (** has written the piece, not yet marked it *)
  | Skipped                     (** ended with 0: its owner is this machine *)
  | Ended (status : Z).         (** ended *)

Record dstate := DState {
  d_flags : list piece_status;
  d_file : list Z;
  d_threads : list phase
}.

Definition at_phase (s : dstate) (t : nat) (p : phase) (flags : list piece_status) (file : list Z) : dstate :=
  DState flags file (<[t := p]> (d_threads s)).

(** [piece_download_task], between one shared access and the next.  [content] is
    the file of the owner it talks to; [short] says whether the local disk may
    take less than it is given (the code does not look at what [my_write]
    returns). *)
Inductive dstep (short : bool) (content : list Z) (piece_len : Z) (s : dstate) : dstate → Prop :=
  | ds_mine t : d_threads s !! t = Some (Starting true) →
      dstep short content piece_len s (at_phase s t Skipped (d_flags s) (d_file s))
  | ds_no_connection t : d_threads s !! t = Some (Starting false) →
      dstep short content piece_len s (at_phase s t (Ended (-1)) (d_flags s) (d_file s))
  | ds_connected t : d_threads s !! t = Some (Starting false) →
      dstep short content piece_len s (at_phase s t Want (d_flags s) (d_file s))
  | ds_take t i flags : d_threads s !! t = Some Want → get_new_piece (d_flags s) = Some (i, flags) →
      dstep short content piece_len s (at_phase s t (Holding i) flags (d_file s))
  | ds_nothing_left t : d_threads s !! t = Some Want → get_new_piece (d_flags s) = None →
      dstep short content piece_len s (at_phase s t (Ended 0) (d_flags s) (d_file s))
  | ds_failed t i : d_threads s !! t = Some (Holding i) →
      dstep short content piece_len s (at_phase s t (Ended (-1)) (mark_piece_failed i (d_flags s)) (d_file s))
  | ds_fetched t i data n : d_threads s !! t = Some (Holding i) →
      serve_piece content piece_len (piece_request (Z.of_nat (length content)) piece_len (Z.of_nat i)) = Ok (Some data) →
      (n ≤ length data)%nat → (short = false → n = length data) →
      dstep short content piece_len s
        (at_phase s t (Wrote i) (d_flags s) (write_at (i * Z.to_nat piece_len) (take n data) (d_file s)))
  | ds_marked t i : d_threads s !! t = Some (Wrote i) →
      dstep short content piece_len s (at_phase s t Want (mark_piece_finished i (d_flags s)) (d_file s)).

(** [do_download] once the pieces are known: a thread per owner. *)
Definition download_start (content : list Z) (piece_len : Z) (mine : list bool) : dstate :=
  DState (replicate (Z.to_nat (file_pieces (Z.of_nat (length content)) piece_len)) PIECE_AVAILABLE) []
    (Starting <$> mine).

(** Every thread has ended. *)
Definition ended (p : phase) : bool := match p with Skipped | Ended _ => true | _ => false end.
Definition finished (s : dstate) : Prop := Forall (λ p, ended p = true) (d_threads s).

(** Joining: [ret = (int * )status && ret], from -1. *)
Definition status_of (p : phase) : Z := match p with Ended st => st | _ => 0 end.
Definition join_one (ret status : Z) : Z := if negb (status =? 0) && negb (ret =? 0) then 1 else 0.
Definition download_result (s : dstate) : Z := fold_left join_one (status_of <$> d_threads s) (-1).

(** The threads that are created: as many as there is memory for. *)
Fixpoint assign_tasks (my_ip : Z) (callocs : list bool) (owners : list peer_id) : list phase :=
  match owners with
  | [] => []
  | o :: owners => if hd true callocs then Starting (ip o =? my_ip) :: assign_tasks my_ip (tl callocs) owners else []
  end.
(** [do_download] after the local file was opened, up to the threads; [file_len] is what
    [get_file_len_from] says, [callocs] the next answers of [calloc] (then all
    succeed), which has no memory for a negative number of flags.  [piece_len] is not 0. *)
Definition begin_download (my_ip : Z) (owners : list peer_id) (file_len piece_len : Z) (callocs : list bool) : option dstate :=
  match owners with
  | [] => None
  | _ :: _ =>
      let pieces := file_pieces file_len piece_len in
      if (pieces <? 0) || negb (hd true callocs) then None else
      if negb (hd true (tl callocs)) then None else
      Some (DState (replicate (Z.to_nat pieces) PIECE_AVAILABLE) [] (assign_tasks my_ip (tl (tl callocs)) owners))
  end.
(** [do_download]: whether the file can be opened, the result, and what was ([old]) and
    is in the file, which [O_TRUNC] empties first. *)
Inductive do_download (short : bool) (content : list Z) (piece_len my_ip : Z) (owners : list peer_id) (file_len : Z)
    (callocs : list bool) (old : list Z) : bool → Z → list Z → Prop :=
  | dd_not_opened : do_download short content piece_len my_ip owners file_len callocs old false (-1) old
  | dd_not_begun : begin_download my_ip owners file_len piece_len callocs = None →
      do_download short content piece_len my_ip owners file_len callocs old true (-1) []
  | dd_joined s s' : begin_download my_ip owners file_len piece_len callocs = Some s →
      rtc (dstep short content piece_len) s s' → finished s' →
      do_download short content piece_len my_ip owners file_len callocs old true (download_result s') (d_file s').

(** ** Specification *)

(** Answers a kernel gives: at most what is left to transfer. *)
Fixpoint honest (answers : list Z) (left : Z) : Prop :=
  match answers with
  | [] => True
  | a :: answers => a ≤ left ∧ honest answers (left - Z.max a 0)
  end.

(** What joining threads with these results gives. *)
Definition verdict (l : list Z) : Z := match l with [] => -1 | _ => if decide (0 ∈ l) then 0 else 1 end.

(** The [i]-th piece of a file. *)
Definition piece (content : list Z) (piece_len : Z) (i : nat) : list Z :=
  slice (i * Z.to_nat piece_len) (Z.to_nat piece_len) content.

(** The piece a thread is busy with. *)
Definition busy_with (p : phase) : option nat := match p with Holding i | Wrote i => Some i | _ => None end.

(** The bytes of piece [i] are in the file. *)
Definition stored (content : list Z) (piece_len : Z) (file : list Z) (i : nat) : Prop :=
  ∀ j, (i * Z.to_nat piece_len ≤ j < S i * Z.to_nat piece_len)%nat → (j < length content)%nat → file !! j = content !! j.

(** A bound on the steps still to come. *)
Definition phase_weight (p : phase) : nat :=
  match p with Starting _ => 3 | Want => 2 | Holding _ => 4 | Wrote _ => 3 | Skipped | Ended _ => 0 end.
Definition flag_weight (f : piece_status) : nat := (if decide (f = PIECE_AVAILABLE) then 3 else 0)%nat.
Definition steps_left (s : dstate) : nat :=
  sum_list_with flag_weight (d_flags s) + sum_list_with phase_weight (d_threads s).


(** ** Lemmas: transfers *)
Lemma transfer_spec answers try_n n left len :
  0 ≤ try_n → 0 ≤ left → n + left = len → honest answers left →
  match transfer answers try_n n left len with
  | Some r => n ≤ r ≤ len
  | None => Z.of_nat (length answers) ≤ left + try_n
  end.
Proof.
  revert try_n n left. induction answers as [|a answers IH]; intros try_n n left Ht Hl Hn Hh; cbn [transfer].
  - destruct (Z.ltb_spec n len); simpl; lia.
  - destruct Hh as [Ha Hh]. destruct (Z.ltb_spec n len); [|lia].
    destruct (Z.ltb_spec a 0); [lia|]. rw Z.max_l in Hh; [lia|].
    destruct (Z.eqb_spec a 0) as [->|Hne]; simpl.
    + destruct (Z.eqb_spec try_n 0); [lia|]. pose proof (IH (try_n - 1) (n + 0) (left - 0) ltac:(lia) ltac:(lia) ltac:(lia) Hh) as H'.
      destruct (transfer answers _ _ _ _) as [r|]; simpl length; lia.
    + pose proof (IH try_n (n + a) (left - a) ltac:(lia) ltac:(lia) ltac:(lia) Hh) as H'.
      destruct (transfer answers _ _ _ _) as [r|]; simpl length; lia.
Qed.

(** ** Lemmas: pieces *)
Lemma get_new_piece_from_spec k flags :
  match get_new_piece_from k flags with
  | Some (j, flags') => ∃ i, j = (k + i)%nat ∧ flags !! i = Some PIECE_AVAILABLE ∧
      flags' = <[i := PIECE_DOWNLOADNG]> flags ∧ ∀ i', (i' < i)%nat → flags !! i' ≠ Some PIECE_AVAILABLE
  | None => ∀ i, flags !! i ≠ Some PIECE_AVAILABLE
  end.
Proof.
  revert k. induction flags as [|f flags IH]; intros k; cbn [get_new_piece_from]; [done|].
  case_decide as Hf.
  - subst. exists 0%nat. split_and!; [lia|done|done|lia].
  - specialize (IH (S k)). destruct (get_new_piece_from (S k) flags) as [[j flags']|].
    + destruct IH as (i & -> & Hi & -> & Hmin). exists (S i). split_and!; [lia|done|done|].
      intros [|i'] Hi'; simpl; [congruence|]. apply Hmin. lia.
    + intros [|i]; simpl; [congruence|]. apply IH.
Qed.

Lemma get_new_piece_spec flags :
  match get_new_piece flags with
  | Some (i, flags') => flags !! i = Some PIECE_AVAILABLE ∧ flags' = <[i := PIECE_DOWNLOADNG]> flags ∧
      ∀ i', (i' < i)%nat → flags !! i' ≠ Some PIECE_AVAILABLE
  | None => ∀ i, flags !! i ≠ Some PIECE_AVAILABLE
  end.
Proof.
  pose proof (get_new_piece_from_spec 0 flags) as H. rw /get_new_piece.
  destruct (get_new_piece_from 0 flags) as [[j flags']|]; [|done]. by destruct H as (i & -> & ?).
Qed.

Lemma length_write_at off data file :
  length (write_at off data file) = Nat.max (off + length data) (length file).
Proof. rw /write_at !length_app length_take length_app length_replicate length_drop. lia. Qed.

Lemma lookup_write_at off data file j :
  write_at off data file !! j =
    if decide (off ≤ j < off + length data)%nat then data !! (j - off)%nat
    else if decide (j < off)%nat then (file ++ replicate (off - length file) 0) !! j
    else file !! j.
Proof.
  rw /write_at. assert (Hl : length (take off (file ++ replicate (off - length file) 0)) = off).
  { rw length_take length_app length_replicate. lia. }
  destruct (decide (j < off)%nat) as [Hj|Hj].
  - rw decide_False; [lia|]. rw lookup_app_l ?Hl // lookup_take_lt //.
  - rw lookup_app_r Hl; [lia|]. case_decide.
    + rw lookup_app_l //. lia.
    + rw lookup_app_r; [lia|]. rw lookup_drop. f_equal. lia.
Qed.

Lemma length_piece content pl i :
  length (piece content pl i) = (Z.to_nat pl `min` (length content - i * Z.to_nat pl))%nat.
Proof. by rw /piece /slice length_take length_drop. Qed.

Lemma lookup_piece content pl i j :
  (j < Z.to_nat pl)%nat → piece content pl i !! j = content !! (i * Z.to_nat pl + j)%nat.
Proof. intros Hj. by rw /piece /slice lookup_take_lt // lookup_drop. Qed.

Lemma sum_insert {A} (f : A → nat) (l : list A) i x y :
  l !! i = Some x → (sum_list_with f (<[i := y]> l) + f x = sum_list_with f l + f y)%nat.
Proof.
  revert i. induction l as [|z l IH]; intros [|i] Hi; simplify_eq/=; [lia|]. specialize (IH i Hi). lia.
Qed.

Section download.
Context (content : list Z) (pl : Z).
Notation N := (Z.of_nat (length content)).

(** Piece lengths and files the program can handle in an [int]. *)
Record sizes_ok : Prop := {
  so_pl : 0 < pl;
  so_len : N + pl ≤ 2 ^ 31
}.
Context (Hok : sizes_ok).

Lemma pieces_spec :
  let k := file_pieces N pl in
  0 ≤ k ∧ N ≤ k * pl ∧ (k - 1) * pl < N + (if decide (k = 0) then 1 else 0) ∧ (k = 0 → N = 0).
Proof using Hok.
  destruct Hok as [Hpl Hlen]. rw /file_pieces Z.quot_div_nonneg; [lia|lia|].
  pose proof (Z.div_mod (N + pl - 1) pl ltac:(lia)) as E. pose proof (Z.mod_pos_bound (N + pl - 1) pl Hpl) as B.
  pose proof (Z.div_pos (N + pl - 1) pl ltac:(lia) Hpl) as H0.
  set (k := (N + pl - 1) `div` pl) in *. simpl. split; [done|]. case_decide; nia.
Qed.

Lemma request_len i :
  Z.of_nat i < file_pieces N pl →
  req_piece_id (piece_request N pl (Z.of_nat i)) = Z.of_nat i ∧
  req_len (piece_request N pl (Z.of_nat i)) = Z.of_nat (length (piece content pl i)) ∧
  Z.of_nat i * pl < N ∧ Z.of_nat (length (piece content pl i)) ≤ pl.
Proof using Hok.
  intros Hi. pose proof pieces_spec as (H0 & H1 & H2 & _). destruct Hok as [Hpl Hlen].
  set (k := file_pieces N pl) in *. rw decide_False in H2; [lia|].
  assert (Hlt : Z.of_nat i * pl < N) by nia.
  assert (Hid : u32 (Z.of_nat i) = Z.of_nat i) by (apply u32_id; rw /is_u32; nia).
  rw /piece_request length_piece -/k Hid. cbn [req_piece_id req_len]. split; [done|].
  assert (Hmin : Z.of_nat (Z.to_nat pl `min` (length content - i * Z.to_nat pl)) = Z.min pl (N - Z.of_nat i * pl)).
  { rw Nat2Z.inj_min Z2Nat.id; [lia|]. f_equal. rw Nat2Z.inj_sub; [nia|]. rw Nat2Z.inj_mul Z2Nat.id //. lia. }
  rw Hmin. split; [|lia]. destruct (Z.eqb_spec (Z.of_nat i) (k - 1)) as [E|E].
  - rw u32_id; [rw /is_u32; nia|]. nia.
  - rw u32_id; [rw /is_u32; nia|]. nia.
Qed.

Lemma serve_piece_run i :
  Z.of_nat i < file_pieces N pl →
  serve_piece content pl (piece_request N pl (Z.of_nat i)) = Ok (Some (piece content pl i)).
Proof using Hok.
  intros Hi. destruct (request_len i Hi) as (E1 & E2 & Hlt & Hle). destruct Hok as [Hpl Hlen].
  rw /serve_piece E1 E2. rw u32_id; [rw /is_u32; lia|]. rw i32_id; [lia|]. rw Nat2Z.id.
  assert (Hoff : Z.to_nat (Z.of_nat i * pl) = (i * Z.to_nat pl)%nat) by (rw Z2Nat.inj_mul; [lia|lia|]; by rw Nat2Z.id).
  rw Hoff. assert (Hdata : take (length (piece content pl i)) (drop (i * Z.to_nat pl) content) = piece content pl i).
  { rw {2}/piece /slice length_piece. destruct (Nat.min_spec (Z.to_nat pl) (length content - i * Z.to_nat pl)) as [[? ->]|[? ->]]; [done|].
    rw take_ge; [rw length_drop; lia|]. rw take_ge //. rw length_drop. lia. }
  rw Hdata (proj2 (Z.ltb_ge _ _)) // Z.eqb_refl //.
Qed.

(** ** Lemmas: the file *)
Lemma stored_write i j file :
  Z.of_nat i < file_pieces N pl → i ≠ j → stored content pl file j →
  stored content pl (write_at (i * Z.to_nat pl) (piece content pl i) file) j.
Proof using Hok.
  intros Hi Hij Hj k Hk Hlen. destruct (request_len i Hi) as (_ & _ & _ & Hle). destruct Hok as [Hpl _].
  specialize (Hj k Hk Hlen). assert (Hfile : (k < length file)%nat).
  { apply lookup_lt_is_Some. rw Hj. by apply lookup_lt_is_Some. }
  assert (Hle' : (length (piece content pl i) ≤ Z.to_nat pl)%nat) by lia.
  rw lookup_write_at decide_False.
  { intros [H1 H2]. apply Hij. destruct (Nat.lt_trichotomy i j) as [|[|]]; [nia|done|nia]. }
  case_decide; [by rw lookup_app_l|done].
Qed.

Lemma stored_written i file :
  Z.of_nat i < file_pieces N pl →
  stored content pl (write_at (i * Z.to_nat pl) (piece content pl i) file) i.
Proof using Hok.
  intros Hi k Hk Hlen. destruct (request_len i Hi) as (_ & _ & _ & Hle).
  pose proof (length_piece content pl i) as Hp.
  rw lookup_write_at decide_True; [split; [lia|rw Hp; nia]|].
  rw lookup_piece; [nia|]. f_equal. nia.
Qed.

Lemma length_written i file :
  Z.of_nat i < file_pieces N pl → (length file ≤ length content)%nat →
  (length (write_at (i * Z.to_nat pl) (piece content pl i) file) ≤ length content)%nat.
Proof using Hok.
  intros Hi Hf. destruct (request_len i Hi) as (_ & _ & Hlt & _). destruct Hok as [Hpl _].
  rw length_write_at length_piece.
  assert ((i * Z.to_nat pl < length content)%nat).
  { apply Nat2Z.inj_lt. rw Nat2Z.inj_mul Z2Nat.id //. lia. }
  lia.
Qed.

(** ** The invariant of a download *)
Record dinv (s : dstate) : Prop := {
  di_len : Z.of_nat (length (d_flags s)) = file_pieces N pl;
  di_busy : ∀ t p i, d_threads s !! t = Some p → busy_with p = Some i → d_flags s !! i = Some PIECE_DOWNLOADNG;
  di_excl : ∀ t t' p p' i, d_threads s !! t = Some p → d_threads s !! t' = Some p' →
      busy_with p = Some i → busy_with p' = Some i → t = t';
  di_owned : ∀ i, d_flags s !! i = Some PIECE_DOWNLOADNG →
      ∃ t p, d_threads s !! t = Some p ∧ busy_with p = Some i;
  di_stored : ∀ i, d_flags s !! i = Some PIECE_FINISHED → stored content pl (d_file s) i;
  di_wrote : ∀ t i, d_threads s !! t = Some (Wrote i) → stored content pl (d_file s) i;
  di_size : (length (d_file s) ≤ length content)%nat;
  di_none_left : ∀ t, d_threads s !! t = Some (Ended 0) → (∀ t', d_threads s !! t' ≠ Some (Ended (-1))) →
      ∀ i, d_flags s !! i ≠ Some PIECE_AVAILABLE
}.

Lemma dinv_start mine : dinv (download_start content pl mine).
Proof using Hok.
  pose proof pieces_spec as (H0 & _). split; cbn [d_flags d_file d_threads download_start].
  - rw length_replicate. lia.
  - intros t p i (mi & -> & _)%list_lookup_fmap_Some. done.
  - intros t t' p p' i (mi & -> & _)%list_lookup_fmap_Some. done.
  - by intros i [H _]%lookup_replicate.
  - by intros i [H _]%lookup_replicate.
  - by intros t i (mi & H & _)%list_lookup_fmap_Some.
  - simpl. lia.
  - by intros t (mi & H & _)%list_lookup_fmap_Some.
Qed.

(** A thread that holds no piece goes to another such phase. *)
Lemma dinv_phase s t p p' :
  dinv s → d_threads s !! t = Some p → busy_with p = None → busy_with p' = None → ended p = false →
  (p' = Ended 0 → ∀ i, d_flags s !! i ≠ Some PIECE_AVAILABLE) →
  dinv (at_phase s t p' (d_flags s) (d_file s)).
Proof.
  intros Hs Ht Hp Hp' He Hleft. pose proof (lookup_lt_Some _ _ _ Ht) as Hlt.
  assert (Hl : ∀ u q, <[t := p']> (d_threads s) !! u = Some q → (u = t ∧ q = p') ∨ (u ≠ t ∧ d_threads s !! u = Some q)).
  { intros u q. rw list_lookup_insert. case_decide as H; intros E.
    - destruct H as [-> _]. left. split; [done|congruence].
    - right. split; [|done]. intros ->. by apply H. }
  destruct Hs as [H1 H2 H3 H4 H5 H6 H7 H8]. split; cbn [d_flags d_file d_threads at_phase]; [done|..|done|].
  - intros u q i [[-> ->]|[_ Hu]]%Hl Hb; [congruence|by eapply H2].
  - intros u u' q q' i [[-> ->]|[_ Hu]]%Hl [[-> ->]|[_ Hu']]%Hl Hb Hb'; try congruence. by eapply H3.
  - intros i (u & q & Hu & Hq)%H4. exists u, q. split; [|done].
    rw list_lookup_insert_ne //. intros ->. congruence.
  - done.
  - intros u i [[-> E]|[_ Hu]]%Hl; [subst p'; done|by eapply H6].
  - intros u [[-> E]|[_ Hu]]%Hl Hno; [by apply Hleft|]. apply (H8 u Hu).
    intros u' Hu'. apply (Hno u'). rw list_lookup_insert_ne //. intros ->.
    rw Ht in Hu'. injection Hu' as ->. done.
Qed.

(** The threads after one of them moved. *)
Lemma threads_insert (s : dstate) t p u q :
  d_threads s !! t = Some p →
  ∀ p', <[t := p']> (d_threads s) !! u = Some q → (u = t ∧ q = p') ∨ (u ≠ t ∧ d_threads s !! u = Some q).
Proof.
  intros Ht p'. rw list_lookup_insert. case_decide as H; intros E.
  - destruct H as [-> _]. left. split; [done|congruence].
  - right. split; [|done]. intros ->. apply H. split; [done|]. by eapply lookup_lt_Some.
Qed.

Lemma flags_lt s i f : dinv s → d_flags s !! i = Some f → Z.of_nat i < file_pieces N pl.
Proof. intros Hs Hi. rw -(di_len s Hs). apply lookup_lt_Some in Hi. lia. Qed.

Lemma dinv_take s t i :
  dinv s → d_threads s !! t = Some Want → d_flags s !! i = Some PIECE_AVAILABLE →
  dinv (at_phase s t (Holding i) (<[i := PIECE_DOWNLOADNG]> (d_flags s)) (d_file s)).
Proof.
  intros Hs Ht Hi. pose proof (lookup_lt_Some _ _ _ Ht) as Hlt. pose proof (lookup_lt_Some _ _ _ Hi) as Hil.
  pose proof (λ u q, threads_insert s t Want u q Ht (Holding i)) as Hl.
  destruct Hs as [H1 H2 H3 H4 H5 H6 H7 H8].
  assert (Hfree : ∀ u q, d_threads s !! u = Some q → busy_with q ≠ Some i).
  { intros u q Hu Hb. specialize (H2 _ _ _ Hu Hb). congruence. }
  split; cbn [d_flags d_file d_threads at_phase]; [by rw length_insert|..|done|].
  - intros u q j [[-> ->]|[_ Hu]]%Hl Hb.
    + injection Hb as <-. by apply list_lookup_insert_eq.
    + rw list_lookup_insert_ne; [intros ->; by eapply Hfree|]. by eapply H2.
  - intros u u' q q' j [[-> ->]|[_ Hu]]%Hl [[-> ->]|[_ Hu']]%Hl Hb Hb'; [done| | |by eapply H3].
    + injection Hb as <-. by destruct (Hfree _ _ Hu').
    + injection Hb' as <-. by destruct (Hfree _ _ Hu).
  - intros j. rw list_lookup_insert. case_decide as Hj.
    + destruct Hj as [<- _]. intros _. exists t, (Holding i). split; [by apply list_lookup_insert_eq|done].
    + intros (u & q & Hu & Hq)%H4. exists u, q. split; [|done]. rw list_lookup_insert_ne //. intros ->. by rw Ht in Hu; injection Hu as <-.
  - intros j. rw list_lookup_insert. case_decide; [done|]. apply H5.
  - intros u j [[-> E]|[_ Hu]]%Hl; [done|by eapply H6].
  - intros u [[-> E]|[_ Hu]]%Hl Hno; [done|]. intros j Hj.
    rw list_lookup_insert in Hj. case_decide; [done|]. revert j Hj H. intros j Hj _. revert Hj. apply (H8 u Hu).
    intros u' Hu'. apply (Hno u'). rw list_lookup_insert_ne //. intros ->. congruence.
Qed.

(** A thread lets its piece go: its flag becomes [f], its phase [p'] holds nothing. *)
Lemma dinv_release s t p i f p' :
  dinv s → d_threads s !! t = Some p → busy_with p = Some i → busy_with p' = None → p' ≠ Ended 0 →
  (f = PIECE_FINISHED ∧ stored content pl (d_file s) i) ∨ (f = PIECE_AVAILABLE ∧ p' = Ended (-1)) →
  dinv (at_phase s t p' (<[i := f]> (d_flags s)) (d_file s)).
Proof.
  intros Hs Ht Hp Hp' Hne Hf. pose proof (lookup_lt_Some _ _ _ Ht) as Hlt.
  pose proof (λ u q, threads_insert s t p u q Ht p') as Hl.
  destruct Hs as [H1 H2 H3 H4 H5 H6 H7 H8]. pose proof (lookup_lt_Some _ _ _ (H2 _ _ _ Ht Hp)) as Hil.
  split; cbn [d_flags d_file d_threads at_phase]; [by rw length_insert|..|done|].
  - intros u q j [[-> ->]|[Hut Hu]]%Hl Hb; [congruence|].
    rw list_lookup_insert_ne; [intros ->; by apply Hut, (H3 _ _ _ _ _ Hu Ht Hb Hp)|]. by eapply H2.
  - intros u u' q q' j [[-> ->]|[_ Hu]]%Hl [[-> ->]|[_ Hu']]%Hl Hb Hb'; try congruence. by eapply H3.
  - intros j. rw list_lookup_insert. case_decide as Hj.
    + intros [= ->]. destruct Hf as [[? _]|[? _]]; done.
    + intros (u & q & Hu & Hq)%H4. exists u, q. split; [|done]. rw list_lookup_insert_ne //.
      intros ->. apply Hj. split; [|done]. congruence.
  - intros j. rw list_lookup_insert. case_decide as Hj; [|by apply H5].
    destruct Hj as [<- _]. intros [= ->]. by destruct Hf as [[_ ?]|[? _]].
  - intros u j [[-> E]|[_ Hu]]%Hl; [subst; done|by eapply H6].
  - intros u [[-> E]|[_ Hu]]%Hl Hno; [done|]. intros j Hj. rw list_lookup_insert in Hj. case_decide as Hij.
    + destruct Hf as [[-> _]|[-> ->]]; [done|]. apply (Hno t). by apply list_lookup_insert_eq.
    + revert Hj. apply (H8 u Hu). intros u' Hu'. apply (Hno u'). rw list_lookup_insert_ne //.
      intros ->. rw Ht in Hu'. injection Hu' as ->. done.
Qed.

Lemma dinv_write s t i :
  dinv s → d_threads s !! t = Some (Holding i) →
  dinv (at_phase s t (Wrote i) (d_flags s) (write_at (i * Z.to_nat pl) (piece content pl i) (d_file s))).
Proof using Hok.
  intros Hs Ht. pose proof (lookup_lt_Some _ _ _ Ht) as Hlt.
  pose proof (λ u q, threads_insert s t (Holding i) u q Ht (Wrote i)) as Hl.
  assert (Hi : Z.of_nat i < file_pieces N pl).
  { eapply flags_lt; [done|]. by eapply (di_busy s Hs). }
  destruct Hs as [H1 H2 H3 H4 H5 H6 H7 H8].
  split; cbn [d_flags d_file d_threads at_phase]; [done|..].
  - intros u q j [[-> ->]|[_ Hu]]%Hl Hb; [|by eapply H2]. by eapply (H2 t (Holding i)).
  - intros u u' q q' j [[-> ->]|[_ Hu]]%Hl [[-> ->]|[_ Hu']]%Hl Hb Hb'; [done| | |by eapply H3].
    + by eapply (H3 t u' (Holding i) q').
    + by eapply (H3 u t q (Holding i)).
  - intros j (u & q & Hu & Hq)%H4. destruct (decide (u = t)) as [->|Hut].
    + exists t, (Wrote i). split; [by apply list_lookup_insert_eq|]. rw Ht in Hu. by injection Hu as <-.
    + exists u, q. split; [|done]. by rw list_lookup_insert_ne.
  - intros j Hj. apply stored_write; [done| |by apply H5]. intros <-.
    specialize (H2 t (Holding i) i Ht eq_refl). congruence.
  - intros u j [[-> [= ->]]|[Hut Hu]]%Hl; [by apply stored_written|].
    apply stored_write; [done| |by eapply H6]. intros <-. by apply Hut, (H3 u t (Wrote i) (Holding i) i).
  - by apply length_written.
  - intros u [[-> E]|[_ Hu]]%Hl Hno; [done|]. apply (H8 u Hu). intros u' Hu'. apply (Hno u').
    rw list_lookup_insert_ne //. intros ->. congruence.
Qed.

Lemma dinv_step s s' : dinv s → dstep false content pl s s' → dinv s'.
Proof using Hok.
  intros Hs Hstep. destruct Hstep as [t Ht|t Ht|t Ht|t i flags Ht Hn|t Ht Hn|t i Ht|t i data n Ht Hd Hn Hfull|t i Ht].
  - by apply (dinv_phase s t (Starting true)).
  - by apply (dinv_phase s t (Starting false)).
  - by apply (dinv_phase s t (Starting false)).
  - pose proof (get_new_piece_spec (d_flags s)) as H. rw Hn in H. destruct H as (Hi & -> & _). by apply dinv_take.
  - apply (dinv_phase s t Want); try done. intros _.
    pose proof (get_new_piece_spec (d_flags s)) as H. by rw Hn in H.
  - apply (dinv_release s t (Holding i)); try done. by right.
  - assert (Hi : Z.of_nat i < file_pieces N pl).
    { eapply flags_lt; [done|]. by eapply (di_busy s Hs). }
    rw serve_piece_run // in Hd. injection Hd as <-. rw (Hfull eq_refl) firstn_all. by apply dinv_write.
  - apply (dinv_release s t (Wrote i)); try done. left. split; [done|]. by eapply (di_wrote s Hs).
Qed.

Lemma dinv_run s0 s : dinv s0 → rtc (dstep false content pl) s0 s → dinv s.
Proof using Hok.
  intros H0 H. revert H0. induction H as [|s1 s2 s3 H12 _ IH]; [done|]. intros H1. by eapply IH, dinv_step.
Qed.

(** ** Lemmas: the end of a download *)
Lemma dinv_complete s t :
  dinv s → finished s → d_threads s !! t = Some (Ended 0) → (∀ t', d_threads s !! t' ≠ Some (Ended (-1))) →
  d_file s = content.
Proof using Hok.
  intros Hs Hfin Ht Hno. pose proof pieces_spec as (_ & Hcover & _). pose proof Hok as [Hpl _].
  apply list_eq. intros j. destruct (decide (j < length content)%nat) as [Hj|Hj].
  2: { rw !lookup_ge_None_2 //; [|lia]. pose proof (di_size s Hs). lia. }
  pose proof (Nat.div_mod j (Z.to_nat pl) ltac:(lia)) as E. set (i := (j / Z.to_nat pl)%nat) in *.
  pose proof (Nat.mod_upper_bound j (Z.to_nat pl) ltac:(lia)) as B.
  assert (Hi : (i < length (d_flags s))%nat).
  { apply Nat2Z.inj_lt. rw (di_len s Hs). nia. }
  destruct (lookup_lt_is_Some_2 _ _ Hi) as [f Hf].
  apply (di_stored s Hs i); [|nia|done]. destruct f; [|exfalso|done].
  - by destruct (di_none_left s Hs t Ht Hno i).
  - destruct (di_owned s Hs i Hf) as (u & p & Hu & Hb). rw /finished Forall_lookup in Hfin.
    specialize (Hfin u p Hu). by destruct p.
Qed.

Lemma steps_decrease s s' : dinv s → dstep false content pl s s' → (steps_left s' < steps_left s)%nat.
Proof.
  intros Hs Hstep.
  assert (flag_weight PIECE_AVAILABLE = 3 ∧ flag_weight PIECE_DOWNLOADNG = 0 ∧ flag_weight PIECE_FINISHED = 0)%nat
    as (F1 & F2 & F3) by done.
  rw /steps_left. destruct Hstep as [t Ht|t Ht|t Ht|t i flags Ht Hn|t Ht Hn|t i Ht|t i data n Ht Hd Hn Hfull|t i Ht];
    cbn [d_flags d_threads at_phase].
  - pose proof (sum_insert phase_weight (d_threads s) t _ Skipped Ht) as E. simpl in E. lia.
  - pose proof (sum_insert phase_weight (d_threads s) t _ (Ended (-1)) Ht) as E. simpl in E. lia.
  - pose proof (sum_insert phase_weight (d_threads s) t _ Want Ht) as E. simpl in E. lia.
  - pose proof (get_new_piece_spec (d_flags s)) as H. rw Hn in H. destruct H as (Hi & -> & _).
    pose proof (sum_insert phase_weight (d_threads s) t _ (Holding i) Ht) as E. simpl in E.
    pose proof (sum_insert flag_weight (d_flags s) i _ PIECE_DOWNLOADNG Hi) as E'. lia.
  - pose proof (sum_insert phase_weight (d_threads s) t _ (Ended 0) Ht) as E. simpl in E. lia.
  - pose proof (sum_insert phase_weight (d_threads s) t _ (Ended (-1)) Ht) as E. simpl in E.
    pose proof (di_busy s Hs t _ i Ht eq_refl) as Hi.
    pose proof (sum_insert flag_weight (d_flags s) i _ PIECE_AVAILABLE Hi) as E'. rw /mark_piece_failed. lia.
  - pose proof (sum_insert phase_weight (d_threads s) t _ (Wrote i) Ht) as E. simpl in E. lia.
  - pose proof (sum_insert phase_weight (d_threads s) t _ Want Ht) as E. simpl in E.
    pose proof (di_busy s Hs t _ i Ht eq_refl) as Hi.
    pose proof (sum_insert flag_weight (d_flags s) i _ PIECE_FINISHED Hi) as E'. rw /mark_piece_finished. lia.
Qed.

Lemma progress s : dinv s → ¬ finished s → ∃ s', dstep false content pl s s'.
Proof using Hok.
  intros Hs Hfin. apply not_Forall_Exists in Hfin; [|intros p; apply _].
  apply Exists_exists in Hfin as (p & [t Ht]%list_elem_of_lookup & Hp).
  destruct p as [[]| |i|i| |st]; try (by exfalso; apply Hp); [by eexists; eapply ds_mine|by eexists; eapply ds_connected| | |].
  - destruct (get_new_piece (d_flags s)) as [[i flags]|] eqn:E; eexists; [by eapply ds_take|by eapply ds_nothing_left].
  - eexists. eapply ds_fetched; [done| |done|done]. apply serve_piece_run. eapply flags_lt; [done|].
    by eapply (di_busy s Hs).
  - eexists. by eapply ds_marked.
Qed.
End download.

Lemma join_zero l ret : (0 ∈ l ∨ ret = 0) → fold_left join_one l ret = 0.
Proof.
  revert ret. induction l as [|x l IH]; intros ret H; [destruct H as [H|H]; [by apply elem_of_nil in H|done]|].
  simpl. apply IH. destruct H as [[<-|H]%elem_of_cons| ->]; [right; done|by left|right].
  rw /join_one. by rw andb_false_r.
Qed.

Lemma join_one_or ret l : ret ≠ 0 → 0 ∉ l → l ≠ [] → fold_left join_one l ret = 1.
Proof.
  intros Hr. revert ret Hr. induction l as [|x l IH]; intros ret Hr H0 Hl; [done|]. apply not_elem_of_cons in H0 as [Hx H0].
  simpl. assert (E : join_one ret x = 1).
  { rw /join_one. by destruct (Z.eqb_spec x 0), (Z.eqb_spec ret 0). }
  rw E. destruct l; [done|]. by apply IH.
Qed.

Lemma assign_all my_ip owners : assign_tasks my_ip [] owners = Starting <$> ((λ o, ip o =? my_ip) <$> owners).
Proof. induction owners as [|o l IH]; [done|]. csimpl. by rw IH. Qed.

(** Phases of a thread that will not fetch anything. *)
Definition idle (none : bool) (p : phase) : Prop :=
  match p with
  | Starting true | Skipped => True
  | Starting false | Want | Ended _ => none = true
  | Holding _ | Wrote _ => False
  end.

(** Without pieces, or without another owner, nothing is written. *)
Lemma idle_step none short content pl s s' :
  (none = true → d_flags s = []) → Forall (idle none) (d_threads s) → dstep short content pl s s' →
  d_flags s' = d_flags s ∧ d_file s' = d_file s ∧ length (d_threads s') = length (d_threads s) ∧ Forall (idle none) (d_threads s').
Proof.
  intros Hnone Hidle Hstep.
  assert (Hat : ∀ t p, d_threads s !! t = Some p → idle none p) by (intros t p Ht; by eapply (Forall_lookup_1 _ _ _ _ Hidle)).
  inversion Hstep as [t Ht|t Ht|t Ht|t i flags Ht Hp|t Ht Hp|t i Ht|t i data n Ht|t i Ht]; subst; specialize (Hat t _ Ht); simpl in Hat;
    try done; try (split_and!; [done|done|by rw length_insert|by apply Forall_insert]).
  by rw Hnone // in Hp.
Qed.

Lemma idle_run none short content pl s s' :
  (none = true → d_flags s = []) → Forall (idle none) (d_threads s) → rtc (dstep short content pl) s s' →
  d_file s' = d_file s ∧ length (d_threads s') = length (d_threads s) ∧ Forall (idle none) (d_threads s').
Proof.
  intros Hnone Hidle Hr. revert Hnone Hidle. induction Hr as [|s1 s2 s3 H12 _ IH]; intros Hnone Hidle; [done|].
  destruct (idle_step none _ _ _ _ _ Hnone Hidle H12) as (Eflags & Efile & El & Hi').
  destruct IH as (Efile' & El' & H3); [by rw Eflags|done|]. split; [congruence|]. split; [congruence|done].
Qed.

Lemma assign_idle my_ip callocs owners : Forall (idle true) (assign_tasks my_ip callocs owners).
Proof.
  revert callocs. induction owners as [|o l IH]; intros callocs; simpl; [constructor|]. destruct (hd true callocs); [|constructor].
  constructor; [|apply IH]. by destruct (ip o =? my_ip).
Qed.
Lemma own_idle my_ip owners :
  Forall (λ o, ip o = my_ip) owners → Forall (idle false) (Starting <$> ((λ o, ip o =? my_ip) <$> owners)).
Proof. intros H. apply Forall_fmap, Forall_fmap. eapply Forall_impl; [exact H|]. intros o E. cbn. by rw E Z.eqb_refl. Qed.

Lemma joined_result s : download_result s = verdict (status_of <$> d_threads s).
Proof.
  rw /download_result /verdict. destruct (d_threads s) as [|p ps]; [done|]. case_decide.
  - apply join_zero. by left.
  - by apply join_one_or.
Qed.

Lemma complete_run content pl mine s t :
  sizes_ok content pl → rtc (dstep false content pl) (download_start content pl mine) s →
  finished s → d_threads s !! t = Some (Ended 0) → (∀ t', d_threads s !! t' ≠ Some (Ended (-1))) →
  d_file s = content ∧ download_result s = 0.
Proof.
  intros Hok Hr Hfin Ht Hno.
  assert (Hs : dinv content pl s) by (eapply dinv_run; [done|by apply dinv_start|done]).
  split; [by eapply dinv_complete|]. apply join_zero. left. apply list_elem_of_fmap.
  exists (Ended 0). split; [done|]. by eapply list_elem_of_lookup_2.
Qed.

(** ** Properties *)

(** C14. In every interleaving of the download threads: no two threads ever work on the
    same piece, a piece is marked as being downloaded exactly while a thread works
    on it, and a piece marked finished has its right bytes in the file, whatever
    the others write meanwhile. *)
Theorem pieces_exclusive content pl mine s :
  sizes_ok content pl → rtc (dstep false content pl) (download_start content pl mine) s →
  (∀ t t' p p' i, d_threads s !! t = Some p → d_threads s !! t' = Some p' →
     busy_with p = Some i → busy_with p' = Some i → t = t') ∧
  (∀ i, d_flags s !! i = Some PIECE_DOWNLOADNG ↔
     ∃ t p, d_threads s !! t = Some p ∧ busy_with p = Some i) ∧
  (∀ i, d_flags s !! i = Some PIECE_FINISHED → stored content pl (d_file s) i).
Proof.
  intros Hok Hr. assert (Hs : dinv content pl s) by (eapply dinv_run; [done|by apply dinv_start|done]).
  split; [apply (di_excl _ _ s Hs)|]. split; [|apply (di_stored _ _ s Hs)].
  intros i. split; [apply (di_owned _ _ s Hs)|]. intros (t & p & Ht & Hb). by eapply (di_busy _ _ s Hs).
Qed.

(** C13. A download whose threads have all ended, one of them because no piece was left
    and none with an error, has the owner's file, byte for byte, and reports
    success. *)
Theorem download_complete content pl mine s t :
  sizes_ok content pl → rtc (dstep false content pl) (download_start content pl mine) s →
  finished s → d_threads s !! t = Some (Ended 0) → (∀ t', d_threads s !! t' ≠ Some (Ended (-1))) →
  d_file s = content ∧ download_result s = 0.
Proof.
  apply complete_run.
Qed.


(** A download reports success as soon as one thread ends with 0: with two owners
    of a one-piece file, the second thread finds nothing left while the first is
    fetching, the first fails, and [do_download] returns 0 on an empty file. *)
Theorem failed_download_reported_ok content pl :
  file_pieces (Z.of_nat (length content)) pl = 1 →
  ∃ s, rtc (dstep false content pl) (download_start content pl [false; false]) s ∧
    finished s ∧ download_result s = 0 ∧ d_file s = [] ∧ d_flags s = [PIECE_AVAILABLE].
Proof.
  intros Hk.
  exists (DState [PIECE_AVAILABLE] [] [Ended (-1); Ended 0]). split_and!; try done; [|by repeat constructor].
  rw /download_start Hk. change (replicate (Z.to_nat 1) PIECE_AVAILABLE) with [PIECE_AVAILABLE].
  apply (rtc_l _ _ (DState [PIECE_AVAILABLE] [] [Want; Starting false])).
  { by apply (ds_connected _ _ _ (DState [PIECE_AVAILABLE] [] [Starting false; Starting false]) 0%nat). }
  apply (rtc_l _ _ (DState [PIECE_AVAILABLE] [] [Want; Want])).
  { by apply (ds_connected _ _ _ (DState [PIECE_AVAILABLE] [] [Want; Starting false]) 1%nat). }
  apply (rtc_l _ _ (DState [PIECE_DOWNLOADNG] [] [Holding 0; Want])).
  { by apply (ds_take _ _ _ (DState [PIECE_AVAILABLE] [] [Want; Want]) 0%nat 0%nat [PIECE_DOWNLOADNG]). }
  apply (rtc_l _ _ (DState [PIECE_DOWNLOADNG] [] [Holding 0; Ended 0])).
  { by apply (ds_nothing_left _ _ _ (DState [PIECE_DOWNLOADNG] [] [Holding 0; Want]) 1%nat). }
  apply rtc_once. by apply (ds_failed _ _ _ (DState [PIECE_DOWNLOADNG] [] [Holding 0; Ended 0]) 0%nat 0%nat).
Qed.

(** The result of writing a piece is not looked at: on a disk that takes only part
    of it, a download of a one-piece file ends with its only piece marked
    finished and success reported, and any prefix of the content in the file. *)
Theorem short_write_marked_finished content pl n :
  sizes_ok content pl → file_pieces (Z.of_nat (length content)) pl = 1 → (n ≤ length content)%nat →
  ∃ s, rtc (dstep true content pl) (download_start content pl [false]) s ∧
    finished s ∧ download_result s = 0 ∧ d_flags s = [PIECE_FINISHED] ∧ d_file s = take n content.
Proof.
  intros Hok Hk Hn. pose proof (pieces_spec content pl Hok) as (_ & Hcover & _). pose proof Hok as [Hpl _].
  exists (DState [PIECE_FINISHED] (take n content) [Ended 0]). split_and!; try done; [|by repeat constructor].
  rw /download_start Hk. change (replicate (Z.to_nat 1) PIECE_AVAILABLE) with [PIECE_AVAILABLE].
  apply (rtc_l _ _ (DState [PIECE_AVAILABLE] [] [Want])); [by apply (ds_connected _ _ _ (DState [PIECE_AVAILABLE] [] [Starting false]) 0%nat)|].
  apply (rtc_l _ _ (DState [PIECE_DOWNLOADNG] [] [Holding 0])).
  { by apply (ds_take _ _ _ (DState [PIECE_AVAILABLE] [] [Want]) 0%nat 0%nat [PIECE_DOWNLOADNG]). }
  apply (rtc_l _ _ (DState [PIECE_DOWNLOADNG] (take n content) [Wrote 0])).
  { assert (Hp : piece content pl 0 = content).
    { rw /piece /slice Nat.mul_0_l drop_0 take_ge //. rw Hk in Hcover. lia. }
    assert (Hf : take n content = write_at (0 * Z.to_nat pl) (take n content) []).
    { by rw /write_at Nat.mul_0_l /= drop_nil app_nil_r. }
    rw Hf. apply (ds_fetched _ _ _ (DState [PIECE_DOWNLOADNG] [] [Holding 0]) 0%nat 0%nat content n); [done| |done|done].
    pose proof (serve_piece_run content pl Hok 0) as E. rw Hp Hk in E. by apply E. }
  apply (rtc_l _ _ (DState [PIECE_FINISHED] (take n content) [Want])).
  { by apply (ds_marked _ _ _ (DState [PIECE_DOWNLOADNG] (take n content) [Wrote 0]) 0%nat 0%nat). }
  apply rtc_once. by apply (ds_nothing_left _ _ _ (DState [PIECE_FINISHED] (take n content) [Want]) 0%nat).
Qed.

(** The pieces a downloader asks for are exactly what an owner serves: for every
    piece of the file [do_upload] answers with its bytes, all of the requested
    length and at most [piece_len]; and the pieces put together are the file. *)
Theorem pieces_served content pl :
  sizes_ok content pl →
  (∀ i, Z.of_nat i < file_pieces (Z.of_nat (length content)) pl →
     let req := piece_request (Z.of_nat (length content)) pl (Z.of_nat i) in
     serve_piece content pl req = Ok (Some (piece content pl i)) ∧
     req_len req = Z.of_nat (length (piece content pl i)) ∧ req_len req ≤ pl) ∧
  concat (piece content pl <$> seq 0 (Z.to_nat (file_pieces (Z.of_nat (length content)) pl))) = content.
Proof.
  intros Hok. split.
  - intros i Hi req. split; [by apply serve_piece_run|]. destruct (request_len content pl Hok i Hi) as (_ & E & _ & H).
    rw /req E. done.
  - pose proof (pieces_spec content pl Hok) as (_ & Hcover & _). pose proof Hok as [Hpl _].
    set (k := Z.to_nat _). assert (Hk : (length content ≤ k * Z.to_nat pl)%nat) by nia.
    assert (H : ∀ m, concat (piece content pl <$> seq 0 m) = take (m * Z.to_nat pl) content).
    2: { rw H take_ge //. }
    clear. induction m as [|m IH]; [done|]. rw seq_S fmap_app concat_app IH. csimpl. rw app_nil_r /piece /slice.
    rw take_take_drop. f_equal. lia.
Qed.


(** An owner does not check the length it is asked for: a request longer than
    [piece_len], for a part of the file that is that long, is read past the end of
    the piece buffer. *)
Theorem serve_piece_overflow file pl id len :
  0 ≤ id * pl < 2 ^ 32 → 0 < pl < len → len < 2 ^ 31 → id * pl + len ≤ Z.of_nat (length file) →
  serve_piece file pl (PieceRequest id len) = Fault OutOfBounds.
Proof.
  intros Hid Hpl Hlen Hfile. rw /serve_piece. cbn [req_piece_id req_len].
  rw u32_id //. rw i32_id; [lia|]. rw length_take length_drop (proj2 (Z.ltb_lt _ _)) //. lia.
Qed.

(** [my_read] and [my_write] end: the number transferred is at most [len], and after
    [len + 10] (respectively [len]) answers of the kernel, no more than what was
    left each, a result is returned. *)
Theorem transfers_terminate answers len :
  0 ≤ len → honest answers len →
  (match my_read answers len with
   | Some r => 0 ≤ r ≤ len | None => Z.of_nat (length answers) ≤ len + 10 end) ∧
  (match my_write answers len with
   | Some r => 0 ≤ r ≤ len | None => Z.of_nat (length answers) ≤ len end).
Proof.
  intros Hlen Hh. split.
  - apply (transfer_spec answers 10 0 len len); [lia|lia|lia|done].
  - pose proof (transfer_spec answers 0 0 len len) as H. rw Z.add_0_r in H. apply H; [lia|lia|lia|done].
Qed.

(** ** Witnesses *)
Definition five : list Z := [1; 2; 3; 4; 5].
Lemma five_sizes : sizes_ok five 2.
Proof. by split. Qed.

Lemma pieces_exclusive_witness :
  let s := DState [PIECE_DOWNLOADNG; PIECE_AVAILABLE; PIECE_AVAILABLE] [] [Holding 0] in
  rtc (dstep false five 2) (download_start five 2 [false]) s ∧
  (∀ i, d_flags s !! i = Some PIECE_FINISHED → stored five 2 (d_file s) i).
Proof.
  intros s. assert (Hr : rtc (dstep false five 2) (download_start five 2 [false]) s).
  { eapply rtc_l; [by apply (ds_connected _ _ _ (download_start five 2 [false]) 0%nat)|]. apply rtc_once.
    by apply (ds_take _ _ _ (DState [PIECE_AVAILABLE; PIECE_AVAILABLE; PIECE_AVAILABLE] [] [Want]) 0%nat 0%nat
                [PIECE_DOWNLOADNG; PIECE_AVAILABLE; PIECE_AVAILABLE]). }
  split; [exact Hr|]. apply (pieces_exclusive five 2 [false] s five_sizes Hr).
Defined.

Lemma one_piece_run :
  rtc (dstep false [7] 4) (download_start [7] 4 [false]) (DState [PIECE_FINISHED] [7] [Ended 0]).
Proof.
  apply (rtc_l _ _ (DState [PIECE_AVAILABLE] [] [Want])); [by apply (ds_connected _ _ _ (DState [PIECE_AVAILABLE] [] [Starting false]) 0%nat)|].
  apply (rtc_l _ _ (DState [PIECE_DOWNLOADNG] [] [Holding 0])).
  { by apply (ds_take _ _ _ (DState [PIECE_AVAILABLE] [] [Want]) 0%nat 0%nat [PIECE_DOWNLOADNG]). }
  apply (rtc_l _ _ (DState [PIECE_DOWNLOADNG] [7] [Wrote 0])).
  { by apply (ds_fetched _ _ _ (DState [PIECE_DOWNLOADNG] [] [Holding 0]) 0%nat 0%nat [7] 1). }
  apply (rtc_l _ _ (DState [PIECE_FINISHED] [7] [Want])).
  { by apply (ds_marked _ _ _ (DState [PIECE_DOWNLOADNG] [7] [Wrote 0]) 0%nat 0%nat). }
  apply rtc_once. by apply (ds_nothing_left _ _ _ (DState [PIECE_FINISHED] [7] [Want]) 0%nat).
Qed.

Lemma one_sizes : sizes_ok [7] 4.
Proof. by split. Qed.

Lemma download_complete_witness :
  d_file (DState [PIECE_FINISHED] [7] [Ended 0]) = [7] ∧ download_result (DState [PIECE_FINISHED] [7] [Ended 0]) = 0.
Proof.
  apply (download_complete [7] 4 [false] (DState [PIECE_FINISHED] [7] [Ended 0]) 0 one_sizes one_piece_run).
  - by repeat constructor.
  - reflexivity.
  - intros [|t']; done.
Defined.


Lemma failed_download_reported_ok_witness :
  ∃ s, rtc (dstep false [7] 4) (download_start [7] 4 [false; false]) s ∧ finished s ∧ download_result s = 0 ∧
    d_file s = [] ∧ d_flags s = [PIECE_AVAILABLE].
Proof. apply (failed_download_reported_ok [7] 4). reflexivity. Defined.

Lemma short_write_marked_finished_witness :
  ∃ s, rtc (dstep true [7; 8] 4) (download_start [7; 8] 4 [false]) s ∧ finished s ∧ download_result s = 0 ∧
    d_flags s = [PIECE_FINISHED] ∧ d_file s = [7].
Proof. apply (short_write_marked_finished [7; 8] 4 1); [by split|reflexivity|simpl; lia]. Defined.


Lemma pieces_served_witness :
  serve_piece five 2 (piece_request 5 2 2) = Ok (Some [5]).
Proof. apply (proj1 (proj1 (pieces_served five 2 five_sizes) 2%nat eq_refl)). Defined.

Lemma serve_piece_overflow_witness : serve_piece five 2 (PieceRequest 0 5) = Fault OutOfBounds.
Proof. apply (serve_piece_overflow five 2 0 5); simpl; lia. Defined.

Lemma transfers_terminate_witness :
  match my_read [2; 0; 3] 5 with Some r => 0 ≤ r ≤ 5 | None => 3 ≤ 5 + 10 end.
Proof. apply (transfers_terminate [2; 0; 3] 5); simpl; lia. Defined.
