(* ===== verification/Monitor.v ===== *)
(** * Monitor: the table of watched directories, [client/file_monitor.c]

    The client watches every shared directory with inotify.  Each watched
    directory is a [struct monitor_target] with its name on this machine
    ([sys_name]) and the name all machines know it by ([logic_name]), reachable
    from a list and from the array [targets] indexed by watch descriptor.  This
    file models the table, the translation of names, and the blocking of a
    directory's events while the client itself writes to it.  The kernel's
    side, inotify and [mkdir], is an interface: [Kernel] and what its
    documentation promises, [KernelLaws]. *)
From S2P Require Import Prelude TransTable.

(** ** The kernel *)

(** The system calls: paths are byte strings; the results of [inotify_add_watch]
    and [mkdir] are [int]s. *)
Class Kernel (K : Type) := {
  inotify_add_watch : list Z → Z → K → Z * K;
  inotify_rm_watch : Z → K → K;
  mkdir : list Z → K → Z * K;
  rm_r : list Z → K → K
}.

(** inotify(7): the events a descriptor is watched for, and the descriptor a
    directory is watched with.  Watching again a directory that is watched
    returns its descriptor and replaces its mask; a new watch gets a descriptor
    that is not in use. *)
Class KernelLaws (K : Type) `{Kernel K} := {
  mask_at : K → Z → option Z;
  wd_at : K → list Z → option Z;
  add_watch_fails p m k : (inotify_add_watch p m k).1 < 0 → (inotify_add_watch p m k).2 = k;
  add_watch_mask p m k w : 0 ≤ (inotify_add_watch p m k).1 →
    mask_at (inotify_add_watch p m k).2 w =
      if decide (w = (inotify_add_watch p m k).1) then Some m else mask_at k w;
  add_watch_wd p m k q : 0 ≤ (inotify_add_watch p m k).1 →
    wd_at (inotify_add_watch p m k).2 q =
      if decide (q = p) then Some (inotify_add_watch p m k).1 else wd_at k q;
  add_watch_same p m k w : 0 ≤ (inotify_add_watch p m k).1 → wd_at k p = Some w → (inotify_add_watch p m k).1 = w;
  add_watch_new p m k : 0 ≤ (inotify_add_watch p m k).1 → wd_at k p = None →
    mask_at k (inotify_add_watch p m k).1 = None;
  wd_in_use k p w : wd_at k p = Some w → is_Some (mask_at k w);
  rm_watch_mask v k w : mask_at (inotify_rm_watch v k) w = if decide (w = v) then None else mask_at k w;
  rm_watch_wd v k q : wd_at (inotify_rm_watch v k) q =
    if decide (wd_at k q = Some v) then None else wd_at k q;
  mkdir_watches p k w q : mask_at (mkdir p k).2 w = mask_at k w ∧ wd_at (mkdir p k).2 q = wd_at k q
}.

(** ** Masks and sizes: [<sys/inotify.h>] and [file_monitor.h] *)
Definition IN_MODIFY : Z := 0x2.
Definition IN_ATTRIB : Z := 0x4.
Definition IN_MOVED_FROM : Z := 0x40.
Definition IN_MOVED_TO : Z := 0x80.
Definition IN_CREATE : Z := 0x100.
Definition IN_DELETE : Z := 0x200.
Definition IN_DELETE_SELF : Z := 0x400.
Definition IN_MOVE_SELF : Z := 0x800.
Definition IN_ISDIR : Z := 0x40000000.
Definition mask_or (l : list Z) : Z := fold_right Z.lor 0 l.
Definition DEFAULT_WATCH_MASK : Z :=
  mask_or [IN_CREATE; IN_DELETE; IN_DELETE_SELF; IN_MODIFY; IN_MOVE_SELF; IN_MOVED_FROM; IN_MOVED_TO].
Definition BLOCK_ALL_MASK : Z := mask_or [IN_DELETE_SELF; IN_MOVE_SELF].
Definition WD_HASH_SIZE : Z := 128.

(** ** State *)
Record monitor_target := Target {
  tg_wd : Z;                 (** int *)
  tg_sys : list Z;           (** sys_name *)
  tg_logic : list Z          (** logic_name *)
}.
Notation tid := nat.         (* the address of a target *)

Record mstate (K : Type) := MState {
  ms_heap : gmap tid monitor_target;
  ms_next : tid;                           (** addresses from here on were never used *)
  ms_n : Z;                                (** m_table.n *)
  ms_up : bool;                            (** m_table.head is initialised *)
  ms_list : list tid;                      (** the list from m_table.head *)
  ms_targets : list (option tid);          (** m_table.targets *)
  ms_kernel : K;
  ms_calloc : list bool                    (** answers of the next calls of calloc; then all succeed *)
}.
Arguments MState {_} _ _ _ _ _ _ _ _.
Arguments ms_heap {_} _.
Arguments ms_next {_} _.
Arguments ms_n {_} _.
Arguments ms_up {_} _.
Arguments ms_list {_} _.
Arguments ms_targets {_} _.
Arguments ms_kernel {_} _.
Arguments ms_calloc {_} _.

(** ** Names: byte strings *)
Definition SLASH : Z := 47.

(** [index(name + from, '/')] and [rindex(name, '/')], as offsets into [name]. *)
Fixpoint index_at (k : nat) (l : list Z) : option nat :=
  match l with [] => None | c :: l => if c =? SLASH then Some k else index_at (S k) l end.
Definition index (name : list Z) (from : nat) : option nat := index_at from (drop from name).
Fixpoint rindex_at (k : nat) (l : list Z) : option nat :=
  match l with
  | [] => None
  | c :: l => match rindex_at (S k) l with Some j => Some j | None => if c =? SLASH then Some k else None end
  end.
Definition rindex (name : list Z) : option nat := rindex_at 0 name.

(** A string written into an array of [MAX_NAME_LEN] bytes. *)
Definition into_name {S} (s : list Z) : M S (list Z) :=
  if decide (length s < MAX_NAME_LEN)%nat then ret s else fail OutOfBounds.
(** [sprintf(buf, "%s/%s", dir, file)] *)
Definition sprintf_path {S} (dir file : list Z) : M S (list Z) := into_name (dir ++ SLASH :: file).

Section monitor.
Context `{Kernel K}.
Notation St := (mstate K).

Definition ms_set_kernel (k : K) (s : St) : St :=
  MState (ms_heap s) (ms_next s) (ms_n s) (ms_up s) (ms_list s) (ms_targets s) k (ms_calloc s).
Definition ms_set_heap (h : gmap tid monitor_target) (s : St) : St :=
  MState h (ms_next s) (ms_n s) (ms_up s) (ms_list s) (ms_targets s) (ms_kernel s) (ms_calloc s).

Definition ms_malloc : M St bool :=
  λ s, match ms_calloc s with
       | [] => Ok (true, s)
       | ok :: rest => Ok (ok, MState (ms_heap s) (ms_next s) (ms_n s) (ms_up s) (ms_list s) (ms_targets s) (ms_kernel s) rest)
       end.
Definition add_watch (path : list Z) (mask : Z) : M St Z :=
  λ s, let '(r, k) := inotify_add_watch path mask (ms_kernel s) in Ok (r, ms_set_kernel k s).
Definition rm_watch (wd : Z) : M St unit := modify (λ s, ms_set_kernel (inotify_rm_watch wd (ms_kernel s)) s).
Definition sys_mkdir (path : list Z) : M St Z :=
  λ s, let '(r, k) := mkdir path (ms_kernel s) in Ok (r, ms_set_kernel k s).

Definition tg_deref (p : option tid) : M St monitor_target :=
  λ s, match p with
       | None => Fault NullDeref
       | Some i => match ms_heap s !! i with Some t => Ok (t, s) | None => Fault UseAfterFree end
       end.

(** [m_table.targets[wd]], read and written *)
Definition read_target (wd : Z) : M St (option tid) :=
  λ s, if decide (0 ≤ wd < WD_HASH_SIZE) then Ok (default None (ms_targets s !! Z.to_nat wd), s) else Fault OutOfBounds.
Definition write_target (wd : Z) (p : option tid) : M St unit :=
  λ s, if decide (0 ≤ wd < WD_HASH_SIZE) then
         Ok (tt, MState (ms_heap s) (ms_next s) (ms_n s) (ms_up s) (ms_list s) (<[Z.to_nat wd := p]> (ms_targets s))
                   (ms_kernel s) (ms_calloc s))
       else Fault OutOfBounds.

(** ** The table of targets *)
Definition __unwatch_and_free_target (target : option tid) : M St unit :=
  match target with
  | None => ret tt
  | Some i =>
      t <- tg_deref target ;;
      write_target (tg_wd t) None ;;;
      rm_watch (tg_wd t) ;;;
      modify (λ s, MState (delete i (ms_heap s)) (ms_next s) (ms_n s) (ms_up s) (filter (λ j, j ≠ i) (ms_list s))
                     (ms_targets s) (ms_kernel s) (ms_calloc s))
  end.
(** The head of the list; a zeroed head has NULL pointers. *)
Definition head_list : M St (list tid) :=
  λ s, if ms_up s then Ok (ms_list s, s) else Fault NullDeref.

(** [bzero(table, sizeof *table)] at the end. *)
Definition unwatch_and_free_targets : M St unit :=
  l <- head_list ;;
  for_each l (λ i _, __unwatch_and_free_target (Some i)) tt ;;;
  modify (λ s, MState (ms_heap s) (ms_next s) 0 false [] (replicate (Z.to_nat WD_HASH_SIZE) None) (ms_kernel s) (ms_calloc s)).

Definition watch_target_add (sys_name logic_name : list Z) : M St (option tid) :=
  wd <- add_watch sys_name DEFAULT_WATCH_MASK ;;
  if wd <? 0 then ret None else
  old <- read_target wd ;;
  match old with
  | Some i => ret (Some i)
  | None =>
      ok <- ms_malloc ;;
      if negb ok then ret None else
      sys_name <- into_name sys_name ;;
      logic_name <- into_name logic_name ;;
      i <- gets ms_next ;;
      write_target wd (Some i) ;;;
      head_list ;;;
      modify (λ s, MState (<[i := Target wd sys_name logic_name]> (ms_heap s)) (S i) (ms_n s + 1) (ms_up s) (ms_list s ++ [i])
                     (ms_targets s) (ms_kernel s) (ms_calloc s)) ;;;
      ret (Some i)
  end.

(** The loops over the list that compare [logic_name]: the first that matches. *)
Fixpoint find_logic (l : list tid) (logic_name : list Z) : M St (option tid) :=
  match l with
  | [] => ret None
  | i :: l =>
      t <- tg_deref (Some i) ;;
      if bool_decide (tg_logic t = logic_name) then ret (Some i) else find_logic l logic_name
  end.
Definition get_dir_target (dir : list Z) : M St (option tid) := l <- head_list ;; find_logic l dir.

(** [*file = '\0'] writes through the result of [rindex]. *)
Definition get_file_target (logic_name : list Z) : M St (option tid) :=
  match rindex logic_name with
  | None => fail NullDeref
  | Some file => get_dir_target (take file logic_name)
  end.

(** ** Blocking events *)
Definition set_mask (t : option tid) (mask : Z) : M St unit :=
  match t with
  | None => ret tt
  | Some i =>
      e <- tg_deref t ;;
      wd <- add_watch (tg_sys e) mask ;;
      modify (λ s, ms_set_heap (<[i := Target wd (tg_sys e) (tg_logic e)]> (ms_heap s)) s)
  end.
Definition __file_monitor_block (t : option tid) : M St unit := set_mask t BLOCK_ALL_MASK.
Definition __file_monitor_unblock (t : option tid) : M St unit := set_mask t DEFAULT_WATCH_MASK.
Definition file_monitor_unblock (t : option tid) : M St unit := set_mask t DEFAULT_WATCH_MASK.

(** The first loop of [file_monitor_block]: the last prefix that is watched. *)
Fixpoint watched_prefix (fuel : nat) (name : list Z) (first_i last_i : nat) (t : option tid) : M St (option tid) :=
  match fuel with
  | O => ret t
  | S fuel =>
      if decide (first_i = last_i) then ret t else
      found <- get_dir_target (take first_i name) ;;
      let t := match found with Some i => Some i | None => t end in
      match index name (S first_i) with
      | None => fail NullDeref
      | Some first_i => watched_prefix fuel name first_i last_i t
      end
  end.

(** The second loop: make and watch the missing directories; [p] and [first_i] as in the code. *)
Fixpoint make_dirs (fuel : nat) (name : list Z) (p : nat) (first_i : option nat) (t : option tid) : M St (option tid) :=
  match fuel, first_i with
  | O, _ | _, None => ret t
  | S fuel, Some i =>
      e <- tg_deref t ;;
      sys_dir <- sprintf_path (tg_sys e) (slice p (i - p) name) ;;
      logic_dir <- sprintf_path (tg_logic e) (slice p (i - p) name) ;;
      __file_monitor_block t ;;;
      sys_mkdir sys_dir ;;;
      __file_monitor_unblock t ;;;
      t <- watch_target_add sys_dir logic_dir ;;
      make_dirs fuel name (S i) (index name (S i)) t
  end.

(** The target's mutex is taken before its events are blocked: [&t->mutex] of a
    NULL [t] is a fault. *)
Definition lock_and_block (t : option tid) : M St (option tid) :=
  tg_deref t ;;; __file_monitor_block t ;;; ret t.

Definition file_monitor_block (logic_name : list Z) (del : bool) : M St (option tid) :=
  match index logic_name 0, rindex logic_name with
  | Some first_i, Some last_i =>
      t <- get_file_target logic_name ;;
      if del || bool_decide (is_Some t) then lock_and_block t else
      t <- watched_prefix (length logic_name) logic_name first_i last_i None ;;
      match t with
      | None => ret None
      | Some _ =>
          e <- tg_deref t ;;
          let p := S (length (tg_logic e)) in
          t <- make_dirs (length logic_name) logic_name p (index logic_name p) t ;;
          lock_and_block t
      end
  | _, _ => ret None
  end.

(** ** Names on this machine *)
Definition get_sys_name (logic_name : list Z) : M St (option (list Z)) :=
  ok <- ms_malloc ;;
  if negb ok then ret None else
  target <- get_file_target logic_name ;;
  match target with
  | None => ret None
  | Some _ =>
      t <- tg_deref target ;;
      name <- into_name (tg_sys t ++ drop (default 0%nat (rindex logic_name)) logic_name) ;;
      ret (Some name)
  end.

Definition monitor_get_sys_name (logic_name : list Z) (target : option tid) : M St (option (list Z)) :=
  ok <- ms_malloc ;;
  if negb ok then ret None else
  t <- tg_deref target ;;
  match rindex logic_name with
  | None => fail NullDeref
  | Some file => name <- into_name (tg_sys t ++ drop file logic_name) ;; ret (Some name)
  end.

Definition file_monitor_mkdir (sys_name logic_name : list Z) : M St Z :=
  r <- sys_mkdir sys_name ;;
  if negb (r =? 0) then ret r else
  t <- watch_target_add sys_name logic_name ;;
  ret (match t with None => -1 | Some _ => r end).

(** [None]: the code returns [ret] without having assigned it. *)
Definition file_monitor_rmdir (sys_name logic_name : list Z) : M St (option Z) :=
  modify (λ s, ms_set_kernel (rm_r sys_name (ms_kernel s)) s) ;;;
  target <- get_dir_target logic_name ;;
  match target with
  | None => ret (Some (-1))
  | Some _ => __unwatch_and_free_target target ;;; ret None
  end.

(** ** Specification *)

(** The table and the kernel agree: every target is in the list, in the array at
    its descriptor, and watched with it; and the kernel watches nothing else. *)
Context {L : KernelLaws K}.
Record mt_ok (s : St) : Prop := {
  mo_up : ms_up s = true;
  mo_nodup : NoDup (ms_list s);
  mo_live : ∀ i, is_Some (ms_heap s !! i) ↔ i ∈ ms_list s;
  mo_fresh : ∀ i, i ∈ ms_list s → (i < ms_next s)%nat;
  mo_len : Z.of_nat (length (ms_targets s)) = WD_HASH_SIZE;
  mo_slot : ∀ i t, ms_heap s !! i = Some t →
      0 ≤ tg_wd t < WD_HASH_SIZE ∧ ms_targets s !! Z.to_nat (tg_wd t) = Some (Some i);
  mo_back : ∀ w i, ms_targets s !! w = Some (Some i) → ∃ t, ms_heap s !! i = Some t ∧ Z.to_nat (tg_wd t) = w;
  mo_kernel : ∀ i t, ms_heap s !! i = Some t → wd_at (ms_kernel s) (tg_sys t) = Some (tg_wd t);
  mo_only : ∀ p w, wd_at (ms_kernel s) p = Some w → ∃ i t, ms_heap s !! i = Some t ∧ tg_sys t = p
}.

(** The kernel accepts the next [n] watches, with descriptors that fit the array. *)
Fixpoint accepts (n : nat) (k : K) : Prop :=
  match n with
  | O => True
  | S n => (∀ p m, 0 ≤ (inotify_add_watch p m k).1 < WD_HASH_SIZE ∧ accepts n (inotify_add_watch p m k).2) ∧
           (∀ p, accepts n (mkdir p k).2)
  end.

(** The table with the kernel in another state, and with one more target. *)
Definition rekernel (k : K) (s : St) : St := ms_set_kernel k s.
Definition target_added (s : St) (t : monitor_target) (k : K) : St :=
  MState (<[ms_next s := t]> (ms_heap s)) (S (ms_next s)) (ms_n s + 1) true (ms_list s ++ [ms_next s])
    (<[Z.to_nat (tg_wd t) := Some (ms_next s)]> (ms_targets s)) k (ms_calloc s).

(** Names without a slash, and paths made of them. *)
Definition plain (c : list Z) : Prop := SLASH ∉ c.
Definition path (dir : list Z) (comps : list (list Z)) : list Z := dir ++ concat ((λ c, SLASH :: c) <$> comps).

(** ** Lemmas: names *)
Lemma rindex_at_plain k c : plain c → rindex_at k c = None.
Proof.
  revert k. induction c as [|x c IH]; intros k Hc; [done|]. apply not_elem_of_cons in Hc as [Hx Hc].
  cbn [rindex_at]. rw IH //. destruct (Z.eqb_spec x SLASH); [congruence|done].
Qed.
Lemma rindex_at_split k d f : plain f → rindex_at k (d ++ SLASH :: f) = Some (k + length d)%nat.
Proof.
  revert k. induction d as [|x d IH]; intros k Hf; cbn [app rindex_at].
  - rw rindex_at_plain //= Nat.add_0_r //.
  - rw IH //. f_equal. simpl. lia.
Qed.
Lemma rindex_split d f : plain f → rindex (d ++ SLASH :: f) = Some (length d).
Proof. intros Hf. by rw /rindex rindex_at_split. Qed.

Lemma index_at_plain k c l : plain c → index_at k (c ++ SLASH :: l) = Some (k + length c)%nat.
Proof.
  revert k. induction c as [|x c IH]; intros k Hc; cbn [app index_at]; [by rw Nat.add_0_r|].
  apply not_elem_of_cons in Hc as [Hx Hc]. destruct (Z.eqb_spec x SLASH); [congruence|].
  rw IH //. f_equal. simpl. lia.
Qed.
Lemma index_at_None k c : plain c → index_at k c = None.
Proof.
  revert k. induction c as [|x c IH]; intros k Hc; [done|]. apply not_elem_of_cons in Hc as [Hx Hc].
  cbn [index_at]. destruct (Z.eqb_spec x SLASH); [congruence|]. by apply IH.
Qed.

Lemma wp_into_name {T} (n : list Z) (s : T) (Q : list Z → T → Prop) :
  (length n < MAX_NAME_LEN)%nat → Q n s → wp (into_name n) Q s.
Proof. intros Hn HQ. rw /into_name decide_True //. Qed.

(** ** Lemmas: the table *)
Lemma wp_tg_deref i t s (Q : monitor_target → St → Prop) : ms_heap s !! i = Some t → Q t s → wp (tg_deref (Some i)) Q s.
Proof. rw /wp /tg_deref. by intros ->. Qed.

Lemma find_logic_wp l name s :
  (∀ i, i ∈ l → is_Some (ms_heap s !! i)) →
  wp (find_logic l name) (λ r s', s' = s ∧
    match r with
    | Some i => ∃ t, i ∈ l ∧ ms_heap s !! i = Some t ∧ tg_logic t = name
    | None => ∀ i t, i ∈ l → ms_heap s !! i = Some t → tg_logic t ≠ name
    end) s.
Proof.
  induction l as [|i l IH]; intros Hl; cbn [find_logic].
  { apply wp_ret. split; [done|]. by intros i t []%elem_of_nil. }
  destruct (Hl i ltac:(by left)) as [t Ht]. apply wp_bind. eapply wp_tg_deref; [done|].
  case_bool_decide as Hn.
  - apply wp_ret. split; [done|]. exists t. split_and!; [by left|done|done].
  - eapply wp_mono; [apply IH; intros j Hj; apply Hl; by right|]. intros [j|] s' [-> Hr]; (split; [done|]).
    + destruct Hr as (t' & Hj & ?). exists t'. split; [by right|done].
    + intros j t' [->|Hj]%elem_of_cons Hj'; [congruence|by eapply Hr].
Qed.

Lemma get_dir_target_wp name s :
  mt_ok s →
  wp (get_dir_target name) (λ r s', s' = s ∧
    match r with
    | Some i => ∃ t, ms_heap s !! i = Some t ∧ tg_logic t = name
    | None => ∀ i t, ms_heap s !! i = Some t → tg_logic t ≠ name
    end) s.
Proof.
  intros Hs. rw /get_dir_target. apply wp_bind. rw /wp /head_list (mo_up s Hs) -/(wp _ _ s).
  eapply wp_mono; [apply find_logic_wp; intros i; apply (mo_live s Hs)|].
  intros [i|] s' [-> Hr]; (split; [done|]); [destruct Hr as (t & _ & ?); by exists t|].
  intros i t Ht. eapply Hr, Ht. by apply (mo_live s Hs).
Qed.

(** Two targets with the same descriptor are the same. *)
Lemma mt_wd_inj s i j t t' :
  mt_ok s → ms_heap s !! i = Some t → ms_heap s !! j = Some t' → tg_wd t = tg_wd t' → i = j.
Proof.
  intros Hs Hi Hj E. destruct (mo_slot s Hs _ _ Hi) as [_ H1]. destruct (mo_slot s Hs _ _ Hj) as [_ H2].
  rw E in H1. congruence.
Qed.
Lemma mt_sys_inj s i j t t' :
  mt_ok s → ms_heap s !! i = Some t → ms_heap s !! j = Some t' → tg_sys t = tg_sys t' → i = j.
Proof.
  intros Hs Hi Hj E. eapply mt_wd_inj; [done..|]. pose proof (mo_kernel s Hs _ _ Hi) as H1.
  pose proof (mo_kernel s Hs _ _ Hj) as H2. rw E in H1. congruence.
Qed.

(** Watching again a directory of the table changes its mask and nothing else. *)
Lemma rewatch s i t m :
  mt_ok s → ms_heap s !! i = Some t → 0 ≤ (inotify_add_watch (tg_sys t) m (ms_kernel s)).1 →
  let k := (inotify_add_watch (tg_sys t) m (ms_kernel s)).2 in
  (inotify_add_watch (tg_sys t) m (ms_kernel s)).1 = tg_wd t ∧ mt_ok (ms_set_kernel k s) ∧
  (∀ w, mask_at k w = if decide (w = tg_wd t) then Some m else mask_at (ms_kernel s) w).
Proof.
  intros Hs Ht Hwd k. pose proof (mo_kernel s Hs _ _ Ht) as Hk.
  pose proof (add_watch_same _ m _ _ Hwd Hk) as E.
  assert (Hq : ∀ q, wd_at k q = wd_at (ms_kernel s) q).
  { intros q. rw /k add_watch_wd // E. case_decide as Hq; [by subst q|done]. }
  split; [done|]. split; [|intros w; rw /k add_watch_mask // E //].
  destruct Hs as [H1 H2 H3 H4 H5 H6 H7 H8 H9]. split; cbn; try done.
  - intros j t' Hj. rw Hq. by eapply H8.
  - intros p w. rw Hq. apply H9.
Qed.

Lemma set_mask_run s i t m :
  mt_ok s → ms_heap s !! i = Some t → 0 ≤ (inotify_add_watch (tg_sys t) m (ms_kernel s)).1 →
  set_mask (Some i) m s = Ok (tt, ms_set_kernel (inotify_add_watch (tg_sys t) m (ms_kernel s)).2 s).
Proof.
  intros Hs Ht Hwd. destruct (rewatch s i t m Hs Ht Hwd) as (E & _ & _).
  rw /set_mask /bind /tg_deref Ht /add_watch.
  destruct (inotify_add_watch _ _ _) as [wd k]. simpl in *. subst wd. rw /modify.
  do 2 f_equal. rw /ms_set_heap /ms_set_kernel. cbn. f_equal. apply insert_id. rw Ht. by destruct t.
Qed.

(** A directory the table does not have gets a new target. *)
Lemma added_ok s sys logic :
  let wd := (inotify_add_watch sys DEFAULT_WATCH_MASK (ms_kernel s)).1 in
  let k := (inotify_add_watch sys DEFAULT_WATCH_MASK (ms_kernel s)).2 in
  mt_ok s → (∀ i t, ms_heap s !! i = Some t → tg_sys t ≠ sys) → 0 ≤ wd < WD_HASH_SIZE →
  mt_ok (target_added s (Target wd sys logic) k) ∧ (∀ i t, ms_heap s !! i = Some t → tg_wd t ≠ wd).
Proof.
  intros wd k Hs Hnew Hwd.
  assert (Hnone : wd_at (ms_kernel s) sys = None).
  { destruct (wd_at (ms_kernel s) sys) as [w|] eqn:E; [|done].
    destruct (mo_only s Hs _ _ E) as (i & t & Hi & Hsys). by destruct (Hnew i t). }
  assert (Hfree : ∀ i t, ms_heap s !! i = Some t → tg_wd t ≠ wd).
  { intros i t Hi E. pose proof (add_watch_new sys DEFAULT_WATCH_MASK (ms_kernel s) (proj1 Hwd) Hnone) as Hm.
    pose proof (wd_in_use _ _ _ (mo_kernel s Hs _ _ Hi)) as [m Hm']. rw E in Hm'. fold wd in Hm. congruence. }
  split; [|done]. pose proof Hs as [H1 H2 H3 H4 H5 H6 H7 H8 H9].
  assert (Hni : ms_next s ∉ ms_list s) by (intros Hi; pose proof (H4 _ Hi); lia).
  assert (Hnh : ms_heap s !! ms_next s = None).
  { destruct (ms_heap s !! ms_next s) as [t|] eqn:E; [|done]. destruct Hni. apply H3. by eexists. }
  assert (Hlen : (Z.to_nat wd < length (ms_targets s))%nat) by lia.
  split; cbn [ms_up ms_list ms_heap ms_next ms_targets ms_kernel target_added tg_wd]; [done|..].
  - apply NoDup_app. split_and!; [done| |apply NoDup_singleton]. intros x Hx ->%list_elem_of_singleton. done.
  - intros i. rw elem_of_app list_elem_of_singleton lookup_insert. case_decide as E.
    + subst i. split; [by right|by eexists].
    + rw H3. split; [by left|]. intros [?|?]; [done|congruence].
  - intros i [Hi| ->%list_elem_of_singleton]%elem_of_app; [apply H4 in Hi; lia|lia].
  - by rw length_insert.
  - intros i t. rw lookup_insert. case_decide as E.
    + subst i. intros [= <-]. split; [done|]. by apply list_lookup_insert_eq.
    + intros Hi. destruct (H6 _ _ Hi) as [Hw Ht]. split; [done|].
      rw list_lookup_insert_ne //. pose proof (Hfree _ _ Hi). lia.
  - intros w i. rw list_lookup_insert. case_decide as E.
    + destruct E as [<- _]. intros [= <-]. eexists. split; [apply lookup_insert_eq|done].
    + intros Hw. destruct (H7 _ _ Hw) as (t & Ht & <-). exists t. split; [|done]. rw lookup_insert_ne //. congruence.
  - intros i t. rw /k add_watch_wd; [apply Hwd|]. rw lookup_insert. case_decide as E.
    + intros [= <-]. cbn [tg_sys tg_wd]. by rw decide_True.
    + intros Hi. rw decide_False; [by eapply Hnew|]. by eapply H8.
  - intros p w. rw /k add_watch_wd; [apply Hwd|]. case_decide as E.
    + intros _. exists (ms_next s), (Target wd sys logic). split; [apply lookup_insert_eq|done].
    + intros (i & t & Hi & Hsys)%H9. exists i, t. split; [|done]. rw lookup_insert_ne //. congruence.
Qed.

Lemma watch_target_add_wp s sys logic :
  let wd := (inotify_add_watch sys DEFAULT_WATCH_MASK (ms_kernel s)).1 in
  let k := (inotify_add_watch sys DEFAULT_WATCH_MASK (ms_kernel s)).2 in
  mt_ok s → 0 ≤ wd < WD_HASH_SIZE →
  (length sys < MAX_NAME_LEN)%nat → (length logic < MAX_NAME_LEN)%nat → ms_calloc s = [] →
  watch_target_add sys logic s =
    match default None (ms_targets s !! Z.to_nat wd) with
    | Some i => Ok (Some i, ms_set_kernel k s)
    | None => Ok (Some (ms_next s), target_added s (Target wd sys logic) k)
    end.
Proof.
  intros wd k Hs Hwd Hsys Hlogic Hc.
  rw /watch_target_add {1}/bind /add_watch. rw (surjective_pairing (inotify_add_watch _ _ _)) -/wd -/k.
  cbn beta iota. rw (proj2 (Z.ltb_ge _ _)); [lia|]. rw {1}/bind /read_target decide_True //.
  cbn [ms_targets ms_set_kernel]. destruct (default None _) as [i|]; [done|].
  rw {1}/bind /ms_malloc. cbn [ms_calloc ms_set_kernel]. rw Hc. cbn [negb].
  assert (E1 : @into_name St sys = ret sys) by by rw /into_name decide_True.
  assert (E2 : @into_name St logic = ret logic) by by rw /into_name decide_True.
  rw E1 E2 /bind /ret /gets /write_target decide_True //. rw /head_list. cbn. by rw (mo_up s Hs).
Qed.

(** A target whose directory is watched is found, another one is made. *)
Lemma watch_target_add_new s sys logic :
  let wd := (inotify_add_watch sys DEFAULT_WATCH_MASK (ms_kernel s)).1 in
  let k := (inotify_add_watch sys DEFAULT_WATCH_MASK (ms_kernel s)).2 in
  mt_ok s → (∀ i t, ms_heap s !! i = Some t → tg_sys t ≠ sys) → 0 ≤ wd < WD_HASH_SIZE →
  (length sys < MAX_NAME_LEN)%nat → (length logic < MAX_NAME_LEN)%nat → ms_calloc s = [] →
  watch_target_add sys logic s = Ok (Some (ms_next s), target_added s (Target wd sys logic) k).
Proof.
  intros wd k Hs Hnew Hwd Hsys Hlogic Hc. rw watch_target_add_wp // -/wd -/k.
  destruct (added_ok s sys logic Hs Hnew Hwd) as [_ Hfree].
  destruct (ms_targets s !! Z.to_nat wd) as [[i|]|] eqn:E; [|done|done]. exfalso.
  destruct (mo_back s Hs _ _ E) as (t & Hi & Ew). pose proof (Hfree _ _ Hi). pose proof (mo_slot s Hs _ _ Hi). lia.
Qed.
Lemma watch_target_add_known s i t logic :
  let wd := (inotify_add_watch (tg_sys t) DEFAULT_WATCH_MASK (ms_kernel s)).1 in
  let k := (inotify_add_watch (tg_sys t) DEFAULT_WATCH_MASK (ms_kernel s)).2 in
  mt_ok s → ms_heap s !! i = Some t → 0 ≤ wd →
  watch_target_add (tg_sys t) logic s = Ok (Some i, ms_set_kernel k s).
Proof.
  intros wd k Hs Hi Hwd. destruct (rewatch s i t DEFAULT_WATCH_MASK Hs Hi Hwd) as (E & _).
  destruct (mo_slot s Hs _ _ Hi) as [Hr Hslot].
  rw /watch_target_add {1}/bind /add_watch. rw (surjective_pairing (inotify_add_watch _ _ _)) -/wd -/k.
  cbn beta iota. rw (proj2 (Z.ltb_ge _ _)) //. fold wd in E. rw {1}/bind /read_target decide_True; [by rw E|].
  cbn [ms_targets ms_set_kernel]. by rw E Hslot.
Qed.

(** The table after a target was dropped. *)
Definition target_dropped (s : St) (i : tid) (t : monitor_target) : St :=
  MState (delete i (ms_heap s)) (ms_next s) (ms_n s) (ms_up s) (filter (λ j, j ≠ i) (ms_list s))
    (<[Z.to_nat (tg_wd t) := None]> (ms_targets s)) (inotify_rm_watch (tg_wd t) (ms_kernel s)) (ms_calloc s).

Lemma unwatch_run s i t :
  mt_ok s → ms_heap s !! i = Some t →
  __unwatch_and_free_target (Some i) s = Ok (tt, target_dropped s i t) ∧ mt_ok (target_dropped s i t).
Proof.
  intros Hs Hi. destruct (mo_slot s Hs _ _ Hi) as [Hr Hslot]. split.
  { rw /__unwatch_and_free_target {1}/bind /tg_deref Hi {1}/bind /write_target decide_True //. }
  pose proof (λ j t', mt_wd_inj s i j t t' Hs Hi) as Hinj. pose proof (λ j t', mt_sys_inj s i j t t' Hs Hi) as Hinj'.
  pose proof Hs as [H1 H2 H3 H4 H5 H6 H7 H8 H9].
  assert (Hother : ∀ j t', delete i (ms_heap s) !! j = Some t' →
            ms_heap s !! j = Some t' ∧ j ≠ i ∧ tg_wd t' ≠ tg_wd t).
  { intros j t' [Hj Ht']%lookup_delete_Some. split_and!; [done|done|]. intros E. by apply Hj, (Hinj j t'). }
  split; cbn [ms_up ms_list ms_heap ms_next ms_targets ms_kernel target_dropped]; [done|by apply NoDup_filter|..].
  - intros j. rw list_elem_of_filter -H3. rw lookup_delete_is_Some. naive_solver.
  - intros j [_ Hj]%list_elem_of_filter. by apply H4.
  - by rw length_insert.
  - intros j t' (Hj & Hne & Hw)%Hother. destruct (H6 _ _ Hj) as [Hr' Hs']. split; [done|].
    rw list_lookup_insert_ne //. lia.
  - intros w j. rw list_lookup_insert. case_decide as E; [done|]. intros Hw.
    destruct (H7 _ _ Hw) as (t' & Ht' & <-). exists t'. split; [|done]. rw lookup_delete_ne //.
    intros <-. apply E. replace t' with t by congruence. split; [done|]. lia.
  - intros j t' (Hj & Hne & Hw)%Hother. rw rm_watch_wd (H8 _ _ Hj) decide_False //. congruence.
  - intros p w. rw rm_watch_wd. case_decide as E; [done|]. intros Hp.
    destruct (H9 _ _ Hp) as (j & t' & Hj & <-). exists j, t'. split; [|done]. rw lookup_delete_ne //.
    intros <-. apply E. replace t' with t by congruence. by apply H8 with i.
Qed.

(** ** Lemmas: prefixes of a name *)
Lemma path_cons dir c l : path dir (c :: l) = path (dir ++ SLASH :: c) l.
Proof. by rw /path fmap_cons /= -app_assoc. Qed.
Lemma path_nil dir : path dir [] = dir.
Proof. by rw /path app_nil_r. Qed.
Lemma path_snoc dir l c : path dir (l ++ [c]) = path dir l ++ SLASH :: c.
Proof. by rw /path fmap_app concat_app /= app_nil_r -!app_assoc. Qed.
Lemma drop_slash d l : drop (S (length d)) (d ++ SLASH :: l) = l.
Proof. rw (cons_middle SLASH) app_assoc. apply drop_app_length'. rw length_app /=. lia. Qed.
Lemma length_path_take dir m l : (0 < m ≤ length l)%nat → (length dir < length (path dir (take m l)))%nat.
Proof. intros Hm. destruct m as [|m], l as [|c l]; simpl in Hm; try lia. rw /path length_app /=. lia. Qed.

Lemma index_at_spec k l :
  match index_at k l with
  | Some i => ∃ j, i = (k + j)%nat ∧ l !! j = Some SLASH ∧ ∀ j', (j' < j)%nat → l !! j' ≠ Some SLASH
  | None => ∀ j, l !! j ≠ Some SLASH
  end.
Proof.
  revert k. induction l as [|c l IH]; intros k; cbn [index_at]; [done|].
  destruct (Z.eqb_spec c SLASH) as [->|Hc].
  - exists 0%nat. split_and!; [lia|done|lia].
  - specialize (IH (S k)). destruct (index_at (S k) l) as [i|].
    + destruct IH as (j & -> & Hj & Hmin). exists (S j). split_and!; [lia|done|].
      intros [|j'] Hj'; simpl; [congruence|]. apply Hmin. lia.
    + intros [|j]; simpl; [congruence|apply IH].
Qed.
Lemma index_spec name from :
  match index name from with
  | Some i => (from ≤ i)%nat ∧ name !! i = Some SLASH ∧ ∀ j, (from ≤ j < i)%nat → name !! j ≠ Some SLASH
  | None => ∀ j, (from ≤ j)%nat → name !! j ≠ Some SLASH
  end.
Proof.
  pose proof (index_at_spec from (drop from name)) as Hs. rw /index.
  destruct (index_at from _) as [i|].
  - destruct Hs as (j & -> & Hj & Hmin). rw lookup_drop in Hj. split_and!; [lia|done|].
    intros j' Hj'. specialize (Hmin (j' - from)%nat ltac:(lia)). rw lookup_drop in Hmin.
    by replace (from + (j' - from))%nat with j' in Hmin by lia.
  - intros j Hj. specialize (Hs (j - from)%nat). rw lookup_drop in Hs.
    by replace (from + (j - from))%nat with j in Hs by lia.
Qed.

(** What the first loop of [file_monitor_block] finds from the slash at [first_i]. *)
Lemma watched_prefix_wp fuel name first_i last_i t0 s :
  mt_ok s → name !! first_i = Some SLASH → name !! last_i = Some SLASH → (first_i ≤ last_i)%nat → (last_i - first_i < fuel)%nat →
  wp (watched_prefix fuel name first_i last_i t0) (λ r s', s' = s ∧
    ((∃ i t j, r = Some i ∧ ms_heap s !! i = Some t ∧ tg_logic t = take j name ∧ (first_i ≤ j < last_i)%nat ∧ name !! j = Some SLASH ∧
        ∀ j' i' t', (j < j' < last_i)%nat → name !! j' = Some SLASH → ms_heap s !! i' = Some t' → tg_logic t' ≠ take j' name) ∨
     r = t0 ∧ ∀ j' i' t', (first_i < j' < last_i)%nat ∨ (j' = first_i ∧ first_i ≠ last_i) → name !! j' = Some SLASH →
        ms_heap s !! i' = Some t' → tg_logic t' ≠ take j' name)) s.
Proof.
  intros Hs Hfirst Hlast. revert first_i Hfirst t0. induction fuel as [|fuel IH]; intros first_i Hfirst t0 Hle Hf; [lia|].
  cbn [watched_prefix]. case_decide as E.
  { apply wp_ret. split; [done|]. right. split; [done|]. intros j' i' t' Hj'. lia. }
  apply wp_bind. eapply wp_mono; [by apply get_dir_target_wp|]. intros found s' [-> Hfound].
  pose proof (index_spec name (S first_i)) as Hix. destruct (index name (S first_i)) as [i1|].
  2: { by destruct (Hix last_i ltac:(lia)). }
  destruct Hix as (H1 & Hs1 & Hmin).
  assert (Hi1 : (i1 ≤ last_i)%nat) by (apply Nat.nlt_ge; intros Hlt; by apply (Hmin last_i); [lia|]).
  eapply wp_mono; [apply IH; [done|lia|lia]|]. intros r s' [-> Hr]. split; [done|].
  assert (Hgap : ∀ j', (first_i < j' < last_i)%nat → name !! j' = Some SLASH → (i1 ≤ j')%nat).
  { intros j' Hj' Hn. apply Nat.nlt_ge. intros Hlt. by apply (Hmin j'); [lia|]. }
  destruct Hr as [(i & t & j & ? & ? & ? & Hj & ? & ?)|[-> Hr]].
  - left. exists i, t, j. split_and!; [done..|lia|lia|done|done].
  - assert (Hno : ∀ j' i' t', (first_i < j' < last_i)%nat → name !! j' = Some SLASH →
              ms_heap s !! i' = Some t' → tg_logic t' ≠ take j' name).
    { intros j' i' t' Hj' Hn. apply (Hr j' i' t'); [|done]. specialize (Hgap j' Hj' Hn). lia. }
    destruct found as [i|].
    + destruct Hfound as (t & Hi & Ht). left. exists i, t, first_i. split_and!; [done..|lia|lia|done|done].
    + right. split; [done|]. intros j' i' t' [Hj'|[-> _]] Hn Hi'; [by eapply Hno|by eapply Hfound].
Qed.

(** ** Lemmas: blocking *)
Lemma get_file_target_wp d f s :
  mt_ok s → plain f →
  wp (get_file_target (d ++ SLASH :: f)) (λ r s', s' = s ∧
    match r with
    | Some i => ∃ t, ms_heap s !! i = Some t ∧ tg_logic t = d
    | None => ∀ i t, ms_heap s !! i = Some t → tg_logic t ≠ d
    end) s.
Proof.
  intros Hs Hf. rw /get_file_target rindex_split //. rw take_app_length. by apply get_dir_target_wp.
Qed.

Lemma lock_and_block_run s i t :
  mt_ok s → ms_heap s !! i = Some t → 0 ≤ (inotify_add_watch (tg_sys t) BLOCK_ALL_MASK (ms_kernel s)).1 →
  lock_and_block (Some i) s =
    Ok (Some i, ms_set_kernel (inotify_add_watch (tg_sys t) BLOCK_ALL_MASK (ms_kernel s)).2 s).
Proof.
  intros Hs Hi Hwd. rw /lock_and_block /__file_monitor_block {1}/bind {1}/tg_deref Hi.
  rw {1}/bind (set_mask_run s i t) //.
Qed.

Lemma index_some d f : ∃ i, index (d ++ SLASH :: f) 0 = Some i ∧ (i ≤ length d)%nat ∧ (d ++ SLASH :: f) !! i = Some SLASH.
Proof.
  pose proof (index_spec (d ++ SLASH :: f) 0) as Hix.
  assert (Hl : (d ++ SLASH :: f) !! length d = Some SLASH) by by apply list_lookup_middle.
  destruct (index (d ++ SLASH :: f) 0) as [i|]; [|by destruct (Hix (length d) ltac:(lia))].
  destruct Hix as (_ & Hs & Hmin). exists i. split; [done|]. split; [|done]. apply Nat.nlt_ge. intros Hlt.
  by apply (Hmin (length d)); [lia|].
Qed.

Lemma mkdir_ok s p : mt_ok s → mt_ok (ms_set_kernel (mkdir p (ms_kernel s)).2 s).
Proof.
  intros [H1 H2 H3 H4 H5 H6 H7 H8 H9]. split; cbn; try done.
  - intros i t Hi. rw (proj2 (mkdir_watches p (ms_kernel s) 0 (tg_sys t))). by apply H8 with i.
  - intros q w. rw (proj2 (mkdir_watches p (ms_kernel s) 0 q)). apply H9.
Qed.

(** One missing directory: block, [mkdir], unblock, watch. *)
Definition make_dir (t : monitor_target) (sys_dir : list Z) (k : K) : K :=
  let k := (inotify_add_watch (tg_sys t) BLOCK_ALL_MASK k).2 in
  let k := (mkdir sys_dir k).2 in
  (inotify_add_watch (tg_sys t) DEFAULT_WATCH_MASK k).2.

Lemma make_dir_run s i t sys_dir logic_dir n :
  mt_ok s → ms_heap s !! i = Some t → accepts (4 + n) (ms_kernel s) → ms_calloc s = [] →
  (length sys_dir < MAX_NAME_LEN)%nat → (length logic_dir < MAX_NAME_LEN)%nat →
  (∀ j t', ms_heap s !! j = Some t' → tg_sys t' ≠ sys_dir) →
  ∃ k wd, mt_ok (target_added s (Target wd sys_dir logic_dir) k) ∧ accepts n k ∧
    (__file_monitor_block (Some i) ;;; sys_mkdir sys_dir ;;; __file_monitor_unblock (Some i) ;;;
     watch_target_add sys_dir logic_dir) s =
      Ok (Some (ms_next s), target_added s (Target wd sys_dir logic_dir) k).
Proof.
  intros Hs Hi [Ha _] Hc Hl1 Hl2 Hnew.
  destruct (Ha (tg_sys t) BLOCK_ALL_MASK) as [[Hb _] [_ Hm]]. clear Ha.
  destruct (rewatch s i t BLOCK_ALL_MASK Hs Hi Hb) as (_ & Hs1 & _). specialize (Hm sys_dir).
  set (k1 := (inotify_add_watch (tg_sys t) BLOCK_ALL_MASK (ms_kernel s)).2) in *.
  pose proof (mkdir_ok (ms_set_kernel k1 s) sys_dir Hs1) as Hs2. cbn [ms_kernel ms_set_kernel] in Hs2.
  set (k2 := (mkdir sys_dir k1).2) in *. destruct Hm as [Hm _].
  destruct (Hm (tg_sys t) DEFAULT_WATCH_MASK) as [[Hu _] [Hw _]]. clear Hm.
  destruct (rewatch (ms_set_kernel k2 s) i t DEFAULT_WATCH_MASK Hs2 Hi Hu) as (_ & Hs3 & _).
  cbn [ms_kernel ms_set_kernel] in Hs3. set (k3 := (inotify_add_watch (tg_sys t) DEFAULT_WATCH_MASK k2).2) in *.
  destruct (Hw sys_dir DEFAULT_WATCH_MASK) as [Hr Hn]. clear Hw.
  destruct (added_ok (ms_set_kernel k3 s) sys_dir logic_dir Hs3 Hnew Hr) as [Hs4 _].
  exists (inotify_add_watch sys_dir DEFAULT_WATCH_MASK k3).2, (inotify_add_watch sys_dir DEFAULT_WATCH_MASK k3).1.
  split; [exact Hs4|]. split; [done|].
  rw {1}/bind /__file_monitor_block (set_mask_run s i t) // -/k1.
  rw {1}/bind /sys_mkdir. cbn [ms_kernel ms_set_kernel]. rw (surjective_pairing (mkdir sys_dir k1)) -/k2.
  rw {1}/bind /__file_monitor_unblock (set_mask_run (ms_set_kernel k2 s) i t) //.
  rw -/(ms_set_kernel k3 s). by apply (watch_target_add_new (ms_set_kernel k3 s)).
Qed.

(** The next component of a path, as the second loop of [file_monitor_block] finds it. *)
Lemma next_component d c comps f :
  plain c →
  let name := path d ((c :: comps) ++ [f]) in let p := S (length d) in
  index name p = Some (p + length c)%nat ∧ slice p (p + length c - p) name = c.
Proof.
  intros Hc name p.
  assert (Hsuf : ∃ rest, concat ((λ c, SLASH :: c) <$> comps ++ [f]) = SLASH :: rest)
    by (destruct comps; eexists; reflexivity).
  destruct Hsuf as [rest Hrest]. assert (Hdrop : drop p name = c ++ SLASH :: rest).
  { rw /name /path /= Hrest. apply drop_slash. }
  rw /index /slice Hdrop. split; [by apply index_at_plain|].
  replace (p + length c - p)%nat with (length c) by lia. by rw take_app_length.
Qed.

(** The second loop of [file_monitor_block]. *)
(** A turn of the loop that makes the missing directories. *)
Lemma make_dirs_turn fuel name p ix c i t s j s1 :
  ms_heap s !! i = Some t → slice p (ix - p) name = c →
  (length (tg_sys t ++ SLASH :: c) < MAX_NAME_LEN)%nat → (length (tg_logic t ++ SLASH :: c) < MAX_NAME_LEN)%nat →
  (__file_monitor_block (Some i) ;;; sys_mkdir (tg_sys t ++ SLASH :: c) ;;; __file_monitor_unblock (Some i) ;;;
   watch_target_add (tg_sys t ++ SLASH :: c) (tg_logic t ++ SLASH :: c)) s = Ok (Some j, s1) →
  make_dirs (S fuel) name p (Some ix) (Some i) s = make_dirs fuel name (S ix) (index name (S ix)) (Some j) s1.
Proof.
  intros Hi Hsl Hl1 Hl2 Hrun. cbn [make_dirs]. rw {1}/bind /tg_deref Hi Hsl.
  assert (E : ∀ d : list Z, (length (d ++ SLASH :: c) < MAX_NAME_LEN)%nat → @sprintf_path St d c = ret (d ++ SLASH :: c)).
  { intros d Hd. rw /sprintf_path /into_name decide_True //. }
  rw !E // {1}/bind {1}/ret {1}/bind {1}/ret. revert Hrun. rw /bind.
  destruct (__file_monitor_block (Some i) s) as [[[] sa]|]; [|done].
  destruct (sys_mkdir _ sa) as [[rr sb]|]; [|done].
  destruct (__file_monitor_unblock (Some i) sb) as [[[] sc]|]; [|done].
  intros E'. by rewrite (E' : watch_target_add _ _ sc = _).
Qed.

Lemma make_dirs_run comps f : ∀ fuel s i t n,
  mt_ok s → ms_heap s !! i = Some t → Forall plain (comps ++ [f]) → (length comps < fuel)%nat →
  accepts (4 * length comps + n) (ms_kernel s) → ms_calloc s = [] →
  (length (path (tg_sys t) comps) < MAX_NAME_LEN)%nat → (length (path (tg_logic t) comps) < MAX_NAME_LEN)%nat →
  (∀ m j t', (0 < m ≤ length comps)%nat → ms_heap s !! j = Some t' → tg_sys t' ≠ path (tg_sys t) (take m comps)) →
  let name := path (tg_logic t) (comps ++ [f]) in
  ∃ j t' s', make_dirs fuel name (S (length (tg_logic t))) (index name (S (length (tg_logic t)))) (Some i) s = Ok (Some j, s') ∧
    mt_ok s' ∧ ms_calloc s' = [] ∧ accepts n (ms_kernel s') ∧ ms_heap s ⊆ ms_heap s' ∧
    ms_heap s' !! j = Some t' ∧ tg_sys t' = path (tg_sys t) comps ∧ tg_logic t' = path (tg_logic t) comps ∧
    ∀ m, (m ≤ length comps)%nat → ∃ i' u, ms_heap s' !! i' = Some u ∧
      tg_sys u = path (tg_sys t) (take m comps) ∧ tg_logic u = path (tg_logic t) (take m comps).
Proof.
  induction comps as [|c comps IH]; intros fuel s i t n Hs Hi Hp Hf Ha Hc Hl1 Hl2 Hnew name.
  { destruct fuel as [|fuel]; [simpl in Hf; lia|]. exists i, t, s.
    assert (E : index name (S (length (tg_logic t))) = None).
    { rw /index /name /path /= app_nil_r drop_slash. apply index_at_None. by apply Forall_cons in Hp as [? _]. }
    rw E !path_nil. split_and!; try done. intros m Hm. exists i, t. destruct m; [|simpl in Hm; lia].
    rw take_0 !path_nil. done. }
  apply Forall_cons in Hp as [Hc0 Hp]. destruct fuel as [|fuel]; [simpl in Hf; lia|]. simpl in Hf.
  destruct (next_component (tg_logic t) c comps f Hc0) as [Hix Hsl].
  set (p := S (length (tg_logic t))) in *. rw -/name in Hix Hsl.
  rw !path_cons in Hl1 Hl2.
  assert (Hshort : ∀ d : list Z, (length (path d comps) < MAX_NAME_LEN)%nat → (length d < MAX_NAME_LEN)%nat).
  { intros d. rw /path length_app. lia. }
  destruct (make_dir_run s i t (tg_sys t ++ SLASH :: c) (tg_logic t ++ SLASH :: c) (4 * length comps + n))
    as (k & wd & Hs' & Ha' & Hrun); [done|done| |done|by apply Hshort|by apply Hshort| |].
  { replace (4 + (4 * length comps + n))%nat with (4 * length (c :: comps) + n)%nat by (simpl; lia). exact Ha. }
  { intros j t' Hj. specialize (Hnew 1%nat j t' ltac:(simpl; lia) Hj). by rw /= path_cons take_0 path_nil in Hnew. }
  set (t1 := Target wd (tg_sys t ++ SLASH :: c) (tg_logic t ++ SLASH :: c)) in *.
  set (s1 := target_added s t1 k) in *.
  assert (Hsub : ms_heap s ⊆ ms_heap s1).
  { apply insert_subseteq. destruct (ms_heap s !! ms_next s) as [t'|] eqn:E; [|done].
    pose proof (mo_fresh s Hs (ms_next s)) as Hfr. rw -(mo_live s Hs) in Hfr. specialize (Hfr ltac:(by eexists)). lia. }
  destruct (IH fuel s1 (ms_next s) t1 n) as (j & t' & s' & Hrun' & R1 & R2 & R3 & R4 & R5 & R6 & R7 & R8).
  - done.
  - apply lookup_insert_eq.
  - done.
  - lia.
  - exact Ha'.
  - exact Hc.
  - exact Hl1.
  - exact Hl2.
  - intros m j t' Hm. cbn [ms_heap s1 target_added]. rw lookup_insert. case_decide as E.
    + intros [= <-] E'. pose proof (length_path_take (tg_sys t1) m comps ltac:(lia)) as Hlt. rw -E' in Hlt. lia.
    + intros Hj. specialize (Hnew (S m) j t' ltac:(simpl; lia) Hj). by rw /= path_cons in Hnew.
  - exists j, t', s'. rw !path_cons. split_and!; try done; [|by etrans|].
    + rw Hix (make_dirs_turn fuel name p (p + length c) c i t s (ms_next s) s1) //; [by apply Hshort..|].
      replace (S (p + length c)) with (S (length (tg_logic t1))) by (rw /p /t1 /= length_app /=; lia).
      rw -Hrun' /name /= path_cons //.
    + intros [|m] Hm; simpl in Hm.
      * exists i, t. rw take_0 !path_nil. split; [|done]. by eapply lookup_weaken, R4; eapply lookup_weaken.
      * destruct (R8 m ltac:(lia)) as (i' & u & Hu & Hu1 & Hu2). exists i', u. rw /= !path_cons. done.
Qed.
Lemma length_concat_slash (comps : list (list Z)) :
  (length comps ≤ length (concat ((λ c, SLASH :: c) <$> comps)))%nat.
Proof. induction comps as [|c l IH]; [done|]. rw fmap_cons /= length_app. lia. Qed.

(** The slashes of a path below a directory end its first components. *)
Lemma path_slash d comps f j :
  Forall plain (comps ++ [f]) → (length d ≤ j)%nat → path d (comps ++ [f]) !! j = Some SLASH →
  ∃ m, (m ≤ length comps)%nat ∧ take j (path d (comps ++ [f])) = path d (take m comps).
Proof.
  revert d. induction comps as [|c comps IH]; intros d Hp Hj Hs.
  - apply Forall_cons in Hp as [Hf _]. exists 0%nat. split; [done|]. rw take_0 path_nil.
    rw /path /= app_nil_r in Hs *. destruct (decide (j = length d)) as [->|Hne]; [by rw take_app_length|].
    exfalso. rw lookup_app_r in Hs; [lia|]. replace (j - length d)%nat with (S (j - length d - 1)) in Hs by lia.
    apply Hf. by eapply list_elem_of_lookup_2.
  - apply Forall_cons in Hp as [Hc Hp]. destruct (decide (j = length d)) as [->|Hne].
    { exists 0%nat. split; [lia|]. rw take_0 path_nil. rw /path /=. by rw take_app_length. }
    destruct (decide (length (d ++ SLASH :: c) ≤ j)%nat) as [Hge|Hlt].
    + rw /= path_cons in Hs *. destruct (IH _ Hp Hge Hs) as (m & Hm & E). exists (S m). split; [simpl; lia|].
      by rw E /= path_cons.
    + exfalso. rw length_app /= in Hlt. rw /path /= lookup_app_r in Hs; [lia|].
      replace (j - length d)%nat with (S (j - length d - 1)) in Hs by lia. simpl in Hs.
      rw lookup_app_l in Hs; [lia|]. apply Hc. by eapply list_elem_of_lookup_2.
Qed.

(** What the first loop of [file_monitor_block] ends with, when [t] is watched and no
    directory between [t] and the file is. *)
Lemma prefix_is_target s i t comps f first_i r :
  let name := path (tg_logic t) (comps ++ [f]) in
  let d := path (tg_logic t) comps in
  mt_ok s → ms_heap s !! i = Some t → comps ≠ [] → Forall plain (comps ++ [f]) → index name 0 = Some first_i →
  (∀ j t', ms_heap s !! j = Some t' → tg_logic t' = tg_logic t → j = i) →
  (∀ m j t', (0 < m ≤ length comps)%nat → ms_heap s !! j = Some t' →
     tg_logic t' ≠ path (tg_logic t) (take m comps) ∧ tg_sys t' ≠ path (tg_sys t) (take m comps)) →
  ((∃ i t j, r = Some i ∧ ms_heap s !! i = Some t ∧ tg_logic t = take j name ∧ (first_i ≤ j < length d)%nat ∧ name !! j = Some SLASH ∧
      ∀ j' i' t', (j < j' < length d)%nat → name !! j' = Some SLASH → ms_heap s !! i' = Some t' → tg_logic t' ≠ take j' name) ∨
   r = None ∧ ∀ j' i' t', (first_i < j' < length d)%nat ∨ (j' = first_i ∧ first_i ≠ length d) → name !! j' = Some SLASH →
      ms_heap s !! i' = Some t' → tg_logic t' ≠ take j' name) →
  r = Some i.
Proof.
  intros name d Hs Hi Hne Hp Hix Huniq Hnew Hw.
  set (n := length (tg_logic t)). assert (Hnd : (n < length d)%nat).
  { pose proof (length_path_take (tg_logic t) (length comps) comps) as Hlt. rw firstn_all in Hlt.
    apply Hlt. destruct comps; [done|simpl; lia]. }
  assert (Hn : name !! n = Some SLASH ∧ take n name = tg_logic t).
  { rw /name /path. split; [|apply take_app_length]. rw lookup_app_r // Nat.sub_diag. by destruct comps. }
  destruct Hn as [Hn Ht]. pose proof (index_spec name 0) as Hsp. rw Hix in Hsp. destruct Hsp as (_ & _ & Hmin).
  assert (Hfn : (first_i ≤ n)%nat) by (apply Nat.nlt_ge; intros Hlt; by apply (Hmin n); [lia|]).
  destruct Hw as [(i' & t' & j & -> & Hi' & Ht' & Hj & Hsl & Hmax)|[-> Hno]].
  - f_equal. apply (Huniq i' t' Hi'). destruct (Nat.lt_trichotomy j n) as [Hlt|[->|Hgt]].
    + by destruct (Hmax n i t ltac:(lia) Hn Hi).
    + by rw Ht' Ht.
    + exfalso. destruct (path_slash (tg_logic t) comps f j Hp ltac:(lia) Hsl) as (m & Hm & E). fold name in E.
      destruct m as [|m].
      { rw take_0 path_nil in E. assert (El : length (take j name) = n) by by rw E.
        rw length_take in El. assert (length d < length name)%nat by (rw /name /d path_snoc length_app /=; lia). lia. }
      destruct (Hnew (S m) i' t' ltac:(lia) Hi') as [[] _]. by rw Ht' E.
  - by destruct (Hno n i t ltac:(lia) Hn Hi).
Qed.
End monitor.

(** ** Properties *)

(** Watching a directory.  When the kernel refuses, nothing changes and NULL is
    returned.  A descriptor that does not fit the array [targets] is used as its
    index all the same.  A directory that is in the table is found, under the
    name it was entered with; another one is entered at its descriptor, in the
    array and at the end of the list; in both cases the table and the kernel
    still agree. *)
Theorem watch_target_add_correct {K} `{KernelLaws K} (s : mstate K) sys logic :
  mt_ok s →
  let wd := (inotify_add_watch sys DEFAULT_WATCH_MASK (ms_kernel s)).1 in
  let k := (inotify_add_watch sys DEFAULT_WATCH_MASK (ms_kernel s)).2 in
  (wd < 0 → watch_target_add sys logic s = Ok (None, s)) ∧
  (WD_HASH_SIZE ≤ wd → watch_target_add sys logic s = Fault OutOfBounds) ∧
  (0 ≤ wd < WD_HASH_SIZE → (length sys < MAX_NAME_LEN)%nat → (length logic < MAX_NAME_LEN)%nat → ms_calloc s = [] →
   wp (watch_target_add sys logic) (λ r s', mt_ok s' ∧
     ((∃ i t, r = Some i ∧ ms_heap s !! i = Some t ∧ tg_sys t = sys ∧ s' = ms_set_kernel k s) ∨
      r = Some (ms_next s) ∧ s' = target_added s (Target wd sys logic) k ∧
      ∀ i t, ms_heap s !! i = Some t → tg_sys t ≠ sys ∧ tg_wd t ≠ wd)) s).
Proof.
  intros Hs wd k.
  split_and!.
  - intros Hwd. rw /watch_target_add {1}/bind /add_watch (surjective_pairing (inotify_add_watch _ _ _)) -/wd.
    cbn beta iota. rw (proj2 (Z.ltb_lt _ _)) // add_watch_fails //. by destruct s.
  - intros Hwd. rw /WD_HASH_SIZE in Hwd.
    rw /watch_target_add {1}/bind /add_watch (surjective_pairing (inotify_add_watch _ _ _)) -/wd.
    cbn beta iota. rw (proj2 (Z.ltb_ge _ _)); [lia|]. rw {1}/bind /read_target decide_False //. rw /WD_HASH_SIZE. lia.
  - intros Hwd H1 H2 Hc. destruct (decide (Exists (λ i, tg_sys <$> ms_heap s !! i = Some sys) (ms_list s))) as [Hin|Hout];
      rw Exists_exists in Hin || rw Exists_exists in Hout.
    + destruct Hin as (i & _ & Hi). destruct (ms_heap s !! i) as [t|] eqn:E; [|done]. injection Hi as <-.
      rw /wp (watch_target_add_known s i t) //; [apply Hwd|]. split; [by eapply rewatch; [| |apply Hwd]|].
      left. by exists i, t.
    + assert (Hnew : ∀ i t, ms_heap s !! i = Some t → tg_sys t ≠ sys).
      { intros i t Hi <-. apply Hout. exists i. rw -(mo_live s Hs) Hi. split; [by eexists|done]. }
      rw /wp (watch_target_add_new s sys logic) //. destruct (added_ok s sys logic Hs Hnew Hwd) as [? Hfree].
      split; [done|]. right. split; [done|]. split; [done|]. intros i t Hi. split; [by eapply Hnew|by eapply Hfree].
Qed.

(** The directory of a file is watched: what blocking it does. *)
Lemma block_watched {K} `{KernelLaws K} (s : mstate K) d f :
  mt_ok s → plain f → accepts 1 (ms_kernel s) → (∃ i t, ms_heap s !! i = Some t ∧ tg_logic t = d) →
  ∃ i t, ms_heap s !! i = Some t ∧ tg_logic t = d ∧ ∀ del,
    file_monitor_block (d ++ SLASH :: f) del s =
      Ok (Some i, ms_set_kernel (inotify_add_watch (tg_sys t) BLOCK_ALL_MASK (ms_kernel s)).2 s).
Proof.
  intros Hs Hf [Ha _] (i & t & Hi & Ht). destruct (index_some d f) as (i1 & Hi1 & _).
  assert (Hr : rindex (d ++ SLASH :: f) = Some (length d)) by by apply rindex_split.
  pose proof (get_file_target_wp d f s Hs Hf) as Hg. apply wp_run in Hg as (r & s0 & Hg & -> & Hr0).
  destruct r as [j|]; [|by destruct (Hr0 i t)]. destruct Hr0 as (u & Hj & Hu). exists j, u. split_and!; [done..|].
  intros del. destruct (Ha (tg_sys u) BLOCK_ALL_MASK) as [[Hb _] _].
  rw /file_monitor_block Hi1 Hr {1}/bind Hg (bool_decide_eq_true_2 _) //. rw orb_true_r. by apply lock_and_block_run.
Qed.

(** Not watched, and to be blocked for a deletion. *)
Lemma block_unwatched {K} `{KernelLaws K} (s : mstate K) d f :
  mt_ok s → plain f → (∀ i t, ms_heap s !! i = Some t → tg_logic t ≠ d) →
  file_monitor_block (d ++ SLASH :: f) true s = Fault NullDeref.
Proof.
  intros Hs Hf Hno. destruct (index_some d f) as (i1 & Hi1 & _).
  pose proof (get_file_target_wp d f s Hs Hf) as Hg. apply wp_run in Hg as (r & s0 & Hg & -> & Hr0).
  destruct r as [j|]; [destruct Hr0 as (u & Hj & Hu); by destruct (Hno j u)|].
  by rw /file_monitor_block Hi1 rindex_split // {1}/bind Hg.
Qed.

(** What [monitor_get_sys_name] makes of the target of a file. *)
Lemma sys_name_of_target {K} `{KernelLaws K} (s : mstate K) d f i t :
  ms_calloc s = [] → plain f → ms_heap s !! i = Some t →
  monitor_get_sys_name (d ++ SLASH :: f) (Some i) s =
    if decide (length (tg_sys t ++ SLASH :: f) < MAX_NAME_LEN)%nat then Ok (Some (tg_sys t ++ SLASH :: f), s) else Fault OutOfBounds.
Proof.
  intros Hc Hf Hi. rw /monitor_get_sys_name {1}/bind /ms_malloc Hc. cbn [negb].
  rw {1}/bind /tg_deref Hi rindex_split // {1}/bind drop_app_length /into_name. by case_decide.
Qed.

(** Blocking the directory of a file.  If it is watched, with or without [del], its
    target is returned, the kernel reports only its deletion and its move from then
    on, other directories are not affected, and unblocking it restores the full
    mask; the table does not change.  If it is not watched, a deletion locks the
    mutex of a NULL target, and a creation under no watched directory returns
    NULL and changes nothing. *)
Theorem file_monitor_block_correct {K} `{KernelLaws K} (s : mstate K) d f :
  mt_ok s → plain f → accepts 2 (ms_kernel s) →
  ((∃ i t, ms_heap s !! i = Some t ∧ tg_logic t = d) →
   ∃ i t, ms_heap s !! i = Some t ∧ tg_logic t = d ∧ ∀ del,
     wp (file_monitor_block (d ++ SLASH :: f) del) (λ r s', r = Some i ∧ mt_ok s' ∧ s' = ms_set_kernel (ms_kernel s') s ∧
       (∀ w, mask_at (ms_kernel s') w = if decide (w = tg_wd t) then Some BLOCK_ALL_MASK else mask_at (ms_kernel s) w) ∧
       wp (file_monitor_unblock (Some i)) (λ _ s'', mt_ok s'' ∧ s'' = ms_set_kernel (ms_kernel s'') s ∧
         ∀ w, mask_at (ms_kernel s'') w = if decide (w = tg_wd t) then Some DEFAULT_WATCH_MASK else mask_at (ms_kernel s) w) s') s) ∧
  ((∀ i t, ms_heap s !! i = Some t → tg_logic t ≠ d) →
   file_monitor_block (d ++ SLASH :: f) true s = Fault NullDeref ∧
   ((∀ i t, ms_heap s !! i = Some t → ¬ tg_logic t `prefix_of` d) →
    file_monitor_block (d ++ SLASH :: f) false s = Ok (None, s))) ∧
  Z.land BLOCK_ALL_MASK (mask_or [IN_CREATE; IN_DELETE; IN_MODIFY; IN_MOVED_FROM; IN_MOVED_TO]) = 0.
Proof.
  intros Hs Hf Hacc. pose proof Hacc as [Ha _]. destruct (index_some d f) as (i1 & Hi1 & Hle & Hsl1).
  assert (Hr : rindex (d ++ SLASH :: f) = Some (length d)) by by apply rindex_split.
  split_and!; [| |by vm_compute].
  - intros Hex. destruct (block_watched s d f Hs Hf) as (j & u & Hj & Hu & E); [|done|].
    { split; [intros p m; by split; [apply Ha|]|done]. }
    exists j, u. split_and!; [done..|]. intros del.
    destruct (Ha (tg_sys u) BLOCK_ALL_MASK) as [[Hb _] [Ha' _]].
    destruct (Ha' (tg_sys u) DEFAULT_WATCH_MASK) as [[Hb' _] _].
    destruct (rewatch s j u BLOCK_ALL_MASK Hs Hj Hb) as (_ & Hs1 & Hm1).
    set (k1 := (inotify_add_watch (tg_sys u) BLOCK_ALL_MASK (ms_kernel s)).2) in *.
    destruct (rewatch (ms_set_kernel k1 s) j u DEFAULT_WATCH_MASK Hs1 Hj Hb') as (_ & Hs2 & Hm2).
    rw /wp E. split_and!; [done..|]. rw /file_monitor_unblock (set_mask_run (ms_set_kernel k1 s) j u) //.
    split_and!; [exact Hs2|done|]. intros w. rw Hm2. case_decide as Ew; [done|]. cbn [ms_kernel ms_set_kernel].
    rw Hm1 decide_False //.
  - intros Hno. pose proof (get_file_target_wp d f s Hs Hf) as Hg. apply wp_run in Hg as (r & s0 & Hg & -> & Hr0).
    destruct r as [j|]; [destruct Hr0 as (u & Hj & Hu); by destruct (Hno j u)|].
    assert (E : ∀ del, file_monitor_block (d ++ SLASH :: f) del s =
              (if del then lock_and_block None else
                 t <- watched_prefix (length (d ++ SLASH :: f)) (d ++ SLASH :: f) i1 (length d) None ;;
                 match t with None => ret None | Some _ => e <- tg_deref t ;;
                   let p := S (length (tg_logic e)) in
                   t <- make_dirs (length (d ++ SLASH :: f)) (d ++ SLASH :: f) p (index (d ++ SLASH :: f) p) t ;;
                   lock_and_block t end) s).
    { intros del. rw /file_monitor_block Hi1 Hr {1}/bind Hg (bool_decide_eq_false_2 _); [by intros [? ?]|]. by rw orb_false_r. }
    split; [by apply block_unwatched|]. intros Hpre. rw E.
    assert (Hw : wp (watched_prefix (length (d ++ SLASH :: f)) (d ++ SLASH :: f) i1 (length d) None) (λ r s', s' = s ∧ r = None) s).
    { eapply wp_mono; [apply watched_prefix_wp; [done|done|by apply list_lookup_middle|done|rw length_app /=; lia]|].
      intros r s' [-> [(i & t & j & -> & Hi & Ht & Hj & _ & _)|[-> _]]]; [|done]. exfalso. apply (Hpre i t Hi).
      rw Ht take_app_le; [lia|]. apply prefix_take. }
    apply wp_run in Hw as (r & s' & Hw & -> & ->). by rw {1}/bind Hw.
Qed.

(** Blocking the directory of a new file under directories that do not exist yet:
    each missing directory is made while its parent is blocked and then watched,
    its names on this machine and for the others extending those of the last
    watched directory by the same components; the target of the file's own
    directory is returned, blocked, and gives the file its name on this machine. *)
Theorem block_creates_directories {K} `{KernelLaws K} (s : mstate K) i t comps f :
  mt_ok s → ms_calloc s = [] → ms_heap s !! i = Some t → comps ≠ [] → Forall plain (comps ++ [f]) →
  accepts (4 * length comps + 1) (ms_kernel s) →
  (length (path (tg_sys t) (comps ++ [f])) < MAX_NAME_LEN)%nat →
  (length (path (tg_logic t) comps) < MAX_NAME_LEN)%nat →
  (∀ j t', ms_heap s !! j = Some t' → tg_logic t' = tg_logic t → j = i) →
  (∀ m j t', (0 < m ≤ length comps)%nat → ms_heap s !! j = Some t' →
     tg_logic t' ≠ path (tg_logic t) (take m comps) ∧ tg_sys t' ≠ path (tg_sys t) (take m comps)) →
  let name := path (tg_logic t) (comps ++ [f]) in
  wp (file_monitor_block name false) (λ r s', mt_ok s' ∧
    ∃ j t', r = Some j ∧ ms_heap s' !! j = Some t' ∧
      tg_logic t' = path (tg_logic t) comps ∧ tg_sys t' = path (tg_sys t) comps ∧
      mask_at (ms_kernel s') (tg_wd t') = Some BLOCK_ALL_MASK ∧
      monitor_get_sys_name name (Some j) s' = Ok (Some (path (tg_sys t) (comps ++ [f])), s') ∧
      ∀ m, (m ≤ length comps)%nat → ∃ i' u, ms_heap s' !! i' = Some u ∧
        tg_sys u = path (tg_sys t) (take m comps) ∧ tg_logic u = path (tg_logic t) (take m comps)) s.
Proof.
  intros Hs Hc Hi Hne Hp Ha Hl1 Hl2 Huniq Hnew name. set (d := path (tg_logic t) comps).
  assert (Hn : name = d ++ SLASH :: f) by apply path_snoc.
  assert (Hf : plain f) by (rw Forall_app in Hp; destruct Hp as [_ Hp]; by apply Forall_cons in Hp as [? _]).
  destruct (index_some d f) as (i1 & Hi1 & Hle & Hsl1). rw -Hn in Hi1 Hsl1.
  assert (Hr : rindex name = Some (length d)) by (rw Hn; by apply rindex_split).
  (* the file's directory is not watched *)
  pose proof (get_file_target_wp d f s Hs Hf) as Hg. rw -Hn in Hg. apply wp_run in Hg as (r & s0 & Hg & -> & Hr0).
  destruct r as [j|].
  { destruct Hr0 as (u & Hj & Hu). destruct (Hnew (length comps) j u) as [[] _]; [|done|].
    - destruct comps; [done|simpl; lia].
    - by rw Hu firstn_all. }
  (* the last watched directory above it is [t] *)
  assert (Hlast : name !! length d = Some SLASH) by (rw Hn; by apply list_lookup_middle).
  assert (Hw : wp (watched_prefix (length name) name i1 (length d) None) (λ r s', s' = s ∧ r = Some i) s).
  { eapply wp_mono; [apply watched_prefix_wp; [done..|rw Hn length_app /=; lia]|]. intros r s' [-> Hw]. split; [done|].
    by apply (prefix_is_target s i t comps f i1 r). }
  apply wp_run in Hw as (r & s' & Hw & -> & ->).
  destruct (make_dirs_run comps f (length name) s i t 1) as (j & t' & s1 & Hrun & R1 & R2 & R3 & _ & R5 & R6 & R7 & R8); try done.
  { rw /name /path length_app fmap_app concat_app length_app /=. pose proof (length_concat_slash comps). lia. }
  { rw path_snoc length_app in Hl1. lia. }
  { intros m j t' Hm Hj. by apply (Hnew m j t'). }
  destruct R3 as [R3 _]. destruct (R3 (tg_sys t') BLOCK_ALL_MASK) as [[Hb _] _].
  destruct (rewatch s1 j t' BLOCK_ALL_MASK R1 R5 Hb) as (_ & Hs2 & Hm2).
  set (k2 := (inotify_add_watch (tg_sys t') BLOCK_ALL_MASK (ms_kernel s1)).2) in *.
  assert (E : file_monitor_block name false s = Ok (Some j, ms_set_kernel k2 s1)).
  { rw /file_monitor_block Hi1 Hr {1}/bind Hg (bool_decide_eq_false_2 _) //=.
    rw {1}/bind Hw {1}/bind /tg_deref Hi. rw {1}/bind Hrun. by apply lock_and_block_run. }
  rw /wp E. split; [exact Hs2|]. exists j, t'. split_and!; [done..| | |done].
  - cbn [ms_kernel ms_set_kernel]. rw Hm2 decide_True //.
  - rw /monitor_get_sys_name {1}/bind /ms_malloc. cbn [ms_calloc ms_set_kernel]. rw R2. cbn [negb].
    rw {1}/bind /tg_deref. cbn [ms_heap ms_set_kernel]. rw R5 Hr Hn drop_app_length R6 -path_snoc.
    by rw {1}/bind /into_name decide_True.
Qed.

(** The name of a file on this machine is the name of its watched directory there,
    then the file's; for a directory that is not watched there is none; a name that
    is too long is written past the buffer; and a name without a slash, which a
    peer may send, is a write through NULL. *)
Theorem get_sys_name_correct {K} `{KernelLaws K} (s : mstate K) d f name :
  mt_ok s → ms_calloc s = [] → plain f → plain name →
  ((∃ i t, ms_heap s !! i = Some t ∧ tg_logic t = d) →
   ∃ i t, ms_heap s !! i = Some t ∧ tg_logic t = d ∧
     let sys := tg_sys t ++ SLASH :: f in
     let r := if decide (length sys < MAX_NAME_LEN)%nat then Ok (Some sys, s) else Fault OutOfBounds in
     get_sys_name (d ++ SLASH :: f) s = r ∧ monitor_get_sys_name (d ++ SLASH :: f) (Some i) s = r) ∧
  ((∀ i t, ms_heap s !! i = Some t → tg_logic t ≠ d) → get_sys_name (d ++ SLASH :: f) s = Ok (None, s)) ∧
  get_sys_name name s = Fault NullDeref.
Proof.
  intros Hs Hc Hf Hn. assert (Hr : rindex (d ++ SLASH :: f) = Some (length d)) by by apply rindex_split.
  pose proof (get_file_target_wp d f s Hs Hf) as Hg. apply wp_run in Hg as (r & s0 & Hg & -> & Hr0).
  assert (Hm : ∀ A (k : bool → M (mstate K) A), (b <- ms_malloc ;; k b) s = k true s).
  { intros A k. by rw /bind /ms_malloc Hc. }
  split_and!.
  - intros (i & t & Hi & Ht). destruct r as [j|]; [|by destruct (Hr0 i t)].
    destruct Hr0 as (u & Hj & Hu). exists j, u. split_and!; [done..|]. intros sys res.
    assert (Hd : tg_deref (Some j) s = Ok (u, s)) by by rw /tg_deref Hj.
    split; [rw /get_sys_name Hm|by apply sys_name_of_target]. cbn [negb].
    rw {1}/bind Hg {1}/bind Hd {1}/bind Hr. cbn [default]. rw drop_app_length -/sys /into_name /res. by case_decide.
  - intros Hno. destruct r as [j|]; [destruct Hr0 as (u & Hj & Hu); by destruct (Hno j u)|].
    rw /get_sys_name Hm. cbn [negb]. by rw {1}/bind Hg.
  - rw /get_sys_name Hm. cbn [negb]. rw {1}/bind /get_file_target /rindex rindex_at_plain //.
Qed.

(** Dropping a target removes it from the heap, the list and the array, and ends
    the watch of its directory and of no other; the count [n] stays, and dropping
    the target again is a use after free. *)
Theorem unwatch_correct {K} `{KernelLaws K} (s : mstate K) i t :
  mt_ok s → ms_heap s !! i = Some t →
  wp (__unwatch_and_free_target (Some i)) (λ _ s', mt_ok s' ∧ ms_heap s' = delete i (ms_heap s) ∧
    ms_list s' = filter (λ j, j ≠ i) (ms_list s) ∧ ms_n s' = ms_n s ∧
    (∀ w, mask_at (ms_kernel s') w = if decide (w = tg_wd t) then None else mask_at (ms_kernel s) w) ∧
    __unwatch_and_free_target (Some i) s' = Fault UseAfterFree) s.
Proof.
  intros Hs Hi. destruct (unwatch_run s i t Hs Hi) as [E Hs']. rw /wp E. split_and!; try done.
  - intros w. apply rm_watch_mask.
  - by rw /__unwatch_and_free_target {1}/bind /tg_deref /= lookup_delete_eq.
Qed.

(** The end of the watch frees every target and leaves the array empty. *)
Theorem unwatch_all_correct {K} `{KernelLaws K} (s : mstate K) :
  mt_ok s →
  wp unwatch_and_free_targets (λ _ s', ms_heap s' = ∅ ∧ ms_list s' = [] ∧
    ms_targets s' = replicate (Z.to_nat WD_HASH_SIZE) None ∧
    (∀ i t, ms_heap s !! i = Some t → mask_at (ms_kernel s') (tg_wd t) = None) ∧
    (∀ name, get_dir_target name s' = Fault NullDeref)) s.
Proof.
  intros Hs. rw /unwatch_and_free_targets. apply wp_bind. rw /wp /head_list (mo_up s Hs) -/(wp _ _ s).
  apply wp_bind. eapply wp_mono.
  { apply (wp_for_each _ (λ pre _ s', mt_ok s' ∧ (∀ i, ms_heap s' !! i = if decide (i ∈ pre) then None else ms_heap s !! i) ∧
      ∀ i t, i ∈ pre → ms_heap s !! i = Some t → mask_at (ms_kernel s') (tg_wd t) = None) (ms_list s) []).
    - split; [done|]. split; [done|]. by intros i t []%elem_of_nil.
    - intros pre i post [] s' Heq (Hs' & Hh & Hm). simpl in Heq.
      assert (Hi : i ∈ ms_list s) by (rw Heq; set_solver). apply (mo_live s Hs) in Hi as [t Ht].
      assert (Hip : i ∉ pre).
      { pose proof (mo_nodup s Hs) as Hnd. rw Heq in Hnd. apply NoDup_app in Hnd as (_ & Hd & _). intros Hp. apply (Hd i Hp). by left. }
      assert (Ht' : ms_heap s' !! i = Some t) by by rw Hh decide_False.
      destruct (unwatch_run s' i t Hs' Ht') as [E Hs1]. rw /wp E. split_and!; [done|..].
      + intros j. cbn [ms_heap target_dropped]. rw lookup_delete Hh. repeat case_decide; set_solver.
      + intros j u Hj Hu. cbn [ms_kernel target_dropped]. rw rm_watch_mask. case_decide as E'; [done|].
        apply elem_of_app in Hj as [Hj| ->%list_elem_of_singleton]; [by apply (Hm j)|]. congruence. }
  intros [] s' (Hs' & Hh & Hm). apply wp_modify. cbn. split_and!; try done.
  - apply map_eq. intros i. rw Hh lookup_empty. case_decide as Hi; [done|].
    destruct (ms_heap s !! i) as [t|] eqn:E; [|done]. destruct Hi. apply (mo_live s Hs). by eexists.
  - intros i t Hi. apply (Hm i); [|done]. apply (mo_live s Hs). by eexists.
Qed.

(** The result of watching a directory again is stored without being looked at:
    when the kernel refuses, the target's descriptor is -1, and dropping the target
    writes before the start of the array. *)
Theorem failed_block_corrupts {K} `{Kernel K} (s : mstate K) i t :
  ms_heap s !! i = Some t → (inotify_add_watch (tg_sys t) BLOCK_ALL_MASK (ms_kernel s)).1 < 0 →
  wp (__file_monitor_block (Some i)) (λ _ s', __unwatch_and_free_target (Some i) s' = Fault OutOfBounds) s.
Proof.
  intros Hi Hwd. rw /__file_monitor_block /set_mask /wp /bind /tg_deref Hi /add_watch.
  rw (surjective_pairing (inotify_add_watch _ _ _)). cbn [modify].
  rw /__unwatch_and_free_target /bind /tg_deref. cbn [ms_heap ms_set_heap ms_set_kernel].
  rw lookup_insert_eq /write_target decide_False //. cbn [tg_wd]. lia.
Qed.

(** ** A kernel

    The interface can be met: descriptors are handed out in the order in which
    paths are watched for the first time; [mk_masks] has the paths that are
    watched. *)
Record model_kernel := MKernel { mk_order : list (list Z); mk_masks : gmap (list Z) Z }.

Definition first_index (o : list (list Z)) (p : list Z) : option nat := fst <$> list_find (p =.) o.
Definition mk_add_watch (p : list Z) (m : Z) (k : model_kernel) : Z * model_kernel :=
  match first_index (mk_order k) p with
  | Some i => (Z.of_nat i + 1, MKernel (mk_order k) (<[p := m]> (mk_masks k)))
  | None => (Z.of_nat (length (mk_order k)) + 1, MKernel (mk_order k ++ [p]) (<[p := m]> (mk_masks k)))
  end.
(** The path of a descriptor. *)
Definition mk_path (k : model_kernel) (w : Z) : option (list Z) :=
  if decide (1 ≤ w) then
    p ← mk_order k !! Z.to_nat (w - 1); if decide (first_index (mk_order k) p = Some (Z.to_nat (w - 1))) then Some p else None
  else None.
Definition mk_rm_watch (w : Z) (k : model_kernel) : model_kernel :=
  match mk_path k w with Some p => MKernel (mk_order k) (delete p (mk_masks k)) | None => k end.
Definition mk_wd_at (k : model_kernel) (p : list Z) : option Z :=
  i ← first_index (mk_order k) p; _ ← mk_masks k !! p; Some (Z.of_nat i + 1).

#[export] Instance model_kernel_ops : Kernel model_kernel := {
  inotify_add_watch := mk_add_watch; inotify_rm_watch := mk_rm_watch;
  mkdir _ k := (0, k); rm_r _ k := k
}.

Lemma first_index_Some o p i : first_index o p = Some i → o !! i = Some p.
Proof.
  rw /first_index. destruct (list_find _ o) as [[j q]|] eqn:E; [|done]. intros [= <-].
  apply list_find_Some in E as (H1 & <- & _). done.
Qed.
Lemma first_index_None o p : first_index o p = None ↔ p ∉ o.
Proof.
  rw /first_index fmap_None list_find_None Forall_forall. split.
  - intros H Hp. by apply (H p).
  - intros H q Hq <-. done.
Qed.
Lemma first_index_app o p q i : first_index o p = Some i → first_index (o ++ [q]) p = Some i.
Proof.
  rw /first_index. intros H. apply fmap_Some in H as ([j x] & H & ->). by rw (list_find_app_l _ _ _ _ _ H).
Qed.
Lemma first_index_new o p : p ∉ o → first_index (o ++ [p]) p = Some (length o).
Proof.
  intros Hp. rw /first_index list_find_app_r.
  - apply first_index_None in Hp. rw /first_index in Hp. by apply fmap_None in Hp.
  - simpl. rw decide_True //= Nat.add_0_r //.
Qed.
Lemma first_index_app_other o p q : q ≠ p → first_index (o ++ [p]) q = first_index o q.
Proof.
  intros Hne. destruct (first_index o q) as [i|] eqn:E; [by apply first_index_app|].
  apply first_index_None. apply first_index_None in E. set_solver.
Qed.

Lemma mk_path_wd k w p : mk_path k w = Some p ↔ 1 ≤ w ∧ first_index (mk_order k) p = Some (Z.to_nat (w - 1)).
Proof.
  rw /mk_path. case_decide as Hw; [|naive_solver]. split.
  - intros H. apply bind_Some in H as (q & Hq & H). case_decide; [|done]. injection H as ->. done.
  - intros [_ H]. pose proof (first_index_Some _ _ _ H) as E. rw E /= decide_True //.
Qed.
Lemma mk_path_inj k w w' p : mk_path k w = Some p → mk_path k w' = Some p → w = w'.
Proof. rw !mk_path_wd. intros [? H1] [? H2]. rw H1 in H2. injection H2. lia. Qed.

(** The kernel after a path was added: the descriptors of other paths stay. *)
Lemma mk_add_path p m k w q :
  q ≠ p → mk_path (mk_add_watch p m k).2 w = Some q ↔ mk_path k w = Some q.
Proof.
  intros Hne. rw /mk_add_watch. destruct (first_index (mk_order k) p) as [i|] eqn:E; [done|].
  rw !mk_path_wd /= first_index_app_other //.
Qed.
Lemma mk_add_self p m k w : mk_path (mk_add_watch p m k).2 w = Some p ↔ w = (mk_add_watch p m k).1.
Proof.
  rw mk_path_wd /mk_add_watch. destruct (first_index (mk_order k) p) as [i|] eqn:E; simpl.
  - rw E. split; [intros [? [= ->]]; lia|intros ->]. split; [lia|]. f_equal. lia.
  - apply first_index_None in E. rw first_index_new //. split; [intros [? [= H]]; lia|intros ->].
    split; [lia|]. f_equal. lia.
Qed.
Lemma mk_masks_add p m k : mk_masks (mk_add_watch p m k).2 = <[p := m]> (mk_masks k).
Proof. rw /mk_add_watch. by destruct (first_index _ _). Qed.
Lemma mk_wd_path k p w : mk_wd_at k p = Some w ↔ mk_path k w = Some p ∧ is_Some (mk_masks k !! p).
Proof.
  rw /mk_wd_at mk_path_wd. destruct (first_index (mk_order k) p) as [i|]; simpl; [|naive_solver].
  destruct (mk_masks k !! p) as [m|]; simpl; [|by split; [|intros [_ [? ?]]]].
  split.
  - intros [= <-]. split; [|done]. split; [lia|]. f_equal. lia.
  - intros [[? [= ->]] _]. f_equal. lia.
Qed.
Lemma mk_add_wd p m k q :
  mk_wd_at (mk_add_watch p m k).2 q = if decide (q = p) then Some (mk_add_watch p m k).1 else mk_wd_at k q.
Proof.
  case_decide as E.
  - subst q. apply mk_wd_path. split; [by apply mk_add_self|]. rw mk_masks_add lookup_insert_eq //.
  - apply option_eq. intros w. rw !mk_wd_path mk_masks_add lookup_insert_ne //. by rw mk_add_path.
Qed.

Definition mk_mask_at (k : model_kernel) (w : Z) : option Z := p ← mk_path k w; mk_masks k !! p.

Lemma mk_add_mask p m k w :
  mk_mask_at (mk_add_watch p m k).2 w = if decide (w = (mk_add_watch p m k).1) then Some m else mk_mask_at k w.
Proof.
  rw /mk_mask_at mk_masks_add. case_decide as E.
  - apply mk_add_self with (m := m) in E. rw E /= lookup_insert_eq //.
  - apply option_eq. intros m'. rw !bind_Some. split.
    + intros (q & Hq & Hm). destruct (decide (q = p)) as [->|Hne]; [by apply mk_add_self in Hq|].
      exists q. apply mk_add_path in Hq; [|done]. rw lookup_insert_ne // in Hm.
    + intros (q & Hq & Hm). assert (Hne : q ≠ p).
      { intros ->. apply E. apply mk_path_wd in Hq as [? Hq]. rw /mk_add_watch Hq /=. lia. }
      exists q. split; [by apply mk_add_path|]. by rw lookup_insert_ne.
Qed.

#[export] Instance model_kernel_laws : KernelLaws model_kernel.
Proof.
  refine {| mask_at := mk_mask_at; wd_at := mk_wd_at |}.
  - intros p m k. simpl. rw /mk_add_watch. destruct (first_index _ _); simpl; lia.
  - intros p m k w _. apply mk_add_mask.
  - intros p m k q _. apply mk_add_wd.
  - intros p m k w _ [H _]%mk_wd_path. apply mk_path_wd in H as [? H]. rw /= /mk_add_watch H /=. lia.
  - intros p m k _ Hp. rw /mk_mask_at. simpl. destruct (mk_path k (mk_add_watch p m k).1) as [q|] eqn:E; [|done].
    simpl. destruct (mk_masks k !! q) as [m'|] eqn:Em; [|done]. exfalso.
    destruct (decide (q = p)) as [->|Hne].
    + assert (H : mk_wd_at k p = Some (mk_add_watch p m k).1) by (apply mk_wd_path; split; [done|by eexists]). congruence.
    + apply (mk_add_path p m) in E; [|done]. pose proof (proj2 (mk_add_self p m k _) eq_refl). congruence.
  - intros k p w [H [m Hm]]%mk_wd_path. rw /mk_mask_at H /= Hm. by eexists.
  - intros v k w. rw /mk_mask_at /= /mk_rm_watch. destruct (mk_path k v) as [p|] eqn:E.
    + rw /mk_path /= -/(mk_path k w). destruct (mk_path k w) as [q|] eqn:Eq; simpl; [|by case_decide].
      case_decide as Ew; [subst; simplify_eq; by rw lookup_delete_eq|].
      rw lookup_delete_ne //. intros <-. by apply Ew, (mk_path_inj k w v p).
    + case_decide; [by subst; rw E|done].
  - intros v k q. simpl. rw /mk_rm_watch. apply option_eq. intros w. case_decide as E.
    + split; [|done]. apply mk_wd_path in E as [E _]. rw E. intros [_ Hw]%mk_wd_path. simpl in Hw.
      rw lookup_delete_eq in Hw. by destruct Hw.
    + destruct (mk_path k v) as [p|] eqn:Ep; [|done]. rw !mk_wd_path /mk_path /= -/(mk_path k w).
      split; intros [Hw Hm]; (split; [done|]).
      * by apply lookup_delete_is_Some in Hm as [_ ?].
      * apply lookup_delete_is_Some. split; [|done]. intros <-. apply E, mk_wd_path. split; [|done].
        by rw (mk_path_inj k v w p).
  - done.
Defined.

Lemma mk_accepts n k : Z.of_nat (length (mk_order k)) + Z.of_nat n < WD_HASH_SIZE → accepts n k.
Proof.
  revert k. induction n as [|n IH]; intros k Hk; [done|]. split; [|intros p; apply IH; simpl; lia].
  intros p m. simpl. rw /mk_add_watch. destruct (first_index (mk_order k) p) as [i|] eqn:E; simpl.
  - apply first_index_Some, lookup_lt_Some in E. split; [lia|]. apply IH. simpl. lia.
  - split; [lia|]. apply IH. rw /= length_app /=. lia.
Qed.

(** ** Witnesses *)

(** The monitor after it started, and with one directory: "/s", known as "1". *)
Definition fresh_monitor {K} (k : K) : mstate K :=
  MState ∅ 0 0 true [] (replicate (Z.to_nat WD_HASH_SIZE) None) k [].
Definition root_sys : list Z := [47; 115].
Definition root_logic : list Z := [49].
Definition root_target : monitor_target := Target 1 root_sys root_logic.
Definition one_watched : mstate model_kernel :=
  target_added (fresh_monitor (MKernel [] ∅)) root_target (MKernel [root_sys] {[root_sys := DEFAULT_WATCH_MASK]}).

Lemma fresh_monitor_ok : mt_ok (fresh_monitor (MKernel [] ∅)).
Proof.
  split; cbn [ms_up ms_list ms_heap ms_next ms_targets ms_kernel fresh_monitor]; try done.
  - constructor.
  - intros i. split; [intros [? H]; by rw lookup_empty in H|by intros []%elem_of_nil].
  - by intros i []%elem_of_nil.
  - intros w i [? _]%lookup_replicate. done.
Qed.
Lemma one_watched_ok : mt_ok one_watched.
Proof.
  apply (added_ok (fresh_monitor (MKernel [] ∅)) root_sys root_logic fresh_monitor_ok); [|done].
  intros i t H. by rw lookup_empty in H.
Qed.
Lemma one_watched_at : ms_heap one_watched !! 0%nat = Some root_target.
Proof. done. Qed.
Lemma one_watched_only i t : ms_heap one_watched !! i = Some t → i = 0%nat ∧ t = root_target.
Proof. cbn. rw lookup_insert. case_decide; [by intros [= <-]|by rw lookup_empty]. Qed.

Lemma watch_target_add_correct_witness :
  wp (watch_target_add [47; 115; 47; 97] [49; 47; 97]) (λ r s', mt_ok s' ∧
     ((∃ i t, r = Some i ∧ ms_heap one_watched !! i = Some t ∧ tg_sys t = [47; 115; 47; 97] ∧
         s' = ms_set_kernel (mk_add_watch [47; 115; 47; 97] DEFAULT_WATCH_MASK (ms_kernel one_watched)).2 one_watched) ∨
      r = Some 1%nat ∧ s' = target_added one_watched (Target 2 [47; 115; 47; 97] [49; 47; 97])
        (mk_add_watch [47; 115; 47; 97] DEFAULT_WATCH_MASK (ms_kernel one_watched)).2 ∧
      ∀ i t, ms_heap one_watched !! i = Some t → tg_sys t ≠ [47; 115; 47; 97] ∧ tg_wd t ≠ 2)) one_watched.
Proof.
  apply (proj2 (proj2 (watch_target_add_correct one_watched [47; 115; 47; 97] [49; 47; 97] one_watched_ok)));
    [by vm_compute|simpl; rw /MAX_NAME_LEN; lia|simpl; rw /MAX_NAME_LEN; lia|reflexivity].
Defined.

Lemma file_monitor_block_correct_witness :
  file_monitor_block [50; 47; 120] true one_watched = Fault NullDeref.
Proof.
  apply (proj1 (proj1 (proj2 (file_monitor_block_correct one_watched [50] [120] one_watched_ok
    ltac:(intros [=]%list_elem_of_singleton) ltac:(by apply mk_accepts)))
    ltac:(by intros i t [-> ->]%one_watched_only))).
Defined.

Lemma block_creates_directories_witness :
  wp (file_monitor_block [49; 47; 97; 47; 120] false) (λ r s', mt_ok s' ∧
    ∃ j t', r = Some j ∧ ms_heap s' !! j = Some t' ∧ tg_logic t' = [49; 47; 97] ∧ tg_sys t' = [47; 115; 47; 97] ∧
      mask_at (ms_kernel s') (tg_wd t') = Some BLOCK_ALL_MASK ∧
      monitor_get_sys_name [49; 47; 97; 47; 120] (Some j) s' = Ok (Some [47; 115; 47; 97; 47; 120], s') ∧
      ∀ m, (m ≤ 1)%nat → ∃ i' u, ms_heap s' !! i' = Some u ∧
        tg_sys u = path root_sys (take m [[97]]) ∧ tg_logic u = path root_logic (take m [[97]])) one_watched.
Proof.
  apply (block_creates_directories one_watched 0%nat root_target [[97]] [120]).
  - apply one_watched_ok.
  - reflexivity.
  - apply one_watched_at.
  - discriminate.
  - repeat constructor; intros [=]%list_elem_of_singleton.
  - by apply mk_accepts.
  - cbn. rw /MAX_NAME_LEN. lia.
  - cbn. rw /MAX_NAME_LEN. lia.
  - by intros j t' [-> _]%one_watched_only _.
  - intros [|[|m]] j t' Hm [-> ->]%one_watched_only; simpl in Hm; [lia|by split|lia].
Defined.

Lemma get_sys_name_correct_witness :
  get_sys_name [120] one_watched = Fault NullDeref.
Proof.
  apply (get_sys_name_correct one_watched root_logic [120] [120] one_watched_ok eq_refl);
    intros [=]%list_elem_of_singleton.
Defined.

Lemma unwatch_correct_witness :
  wp (__unwatch_and_free_target (Some 0%nat)) (λ _ s', mt_ok s' ∧ ms_heap s' = delete 0%nat (ms_heap one_watched) ∧
    ms_list s' = [] ∧ ms_n s' = 1 ∧
    (∀ w, mask_at (ms_kernel s') w = if decide (w = 1) then None else mask_at (ms_kernel one_watched) w) ∧
    __unwatch_and_free_target (Some 0%nat) s' = Fault UseAfterFree) one_watched.
Proof. apply (unwatch_correct one_watched 0%nat root_target one_watched_ok one_watched_at). Defined.

Lemma unwatch_all_correct_witness :
  wp unwatch_and_free_targets (λ _ s', ms_heap s' = ∅ ∧ ms_list s' = [] ∧
    ms_targets s' = replicate 128 None ∧
    (∀ i t, ms_heap one_watched !! i = Some t → mask_at (ms_kernel s') (tg_wd t) = None) ∧
    (∀ name, get_dir_target name s' = Fault NullDeref)) one_watched.
Proof. apply (unwatch_all_correct one_watched one_watched_ok). Defined.

(** A kernel that refuses every watch. *)
Definition refusing_kernel : Kernel unit :=
  {| inotify_add_watch _ _ k := (-1, k); inotify_rm_watch _ k := k; mkdir _ k := (-1, k); rm_r _ k := k |}.
Lemma failed_block_corrupts_witness :
  let s := target_added (fresh_monitor tt) root_target tt in
  wp (@__file_monitor_block unit refusing_kernel (Some 0%nat))
     (λ _ s', @__unwatch_and_free_target unit refusing_kernel (Some 0%nat) s' = Fault OutOfBounds) s.
Proof. apply (@failed_block_corrupts unit refusing_kernel _ 0%nat root_target); reflexivity. Defined.
