(* ===== verification/Scan.v ===== *)
(** * Scan: reading the shared directories at start, [client/file_monitor.c]

    When the client starts it watches every directory below the shared ones
    ([watch_target_add_dir]) and enters every file below them in its table
    ([get_file_table]).  A directory is what [readdir] and [stat] answer: a list
    of entries, in their order, "." and ".." among them.  Names on this machine
    extend the shared directory's; names for the others extend its number. *)
From S2P Require Import Prelude Hash TransTable FileTable Replica Monitor.

(** ** Directories

    A [dirent]: one of "." and "..", a file with the answer of [stat] on it (its
    modification time), or a directory with what [opendir] and [readdir] give. *)
Inductive dirent : Type :=
  | EDots (up : bool)
  | EFile (name : list Z) (st_mtime : option Z)
  | EDir (name : list Z) (st_mtime : option Z) (contents : option (list dirent)).
Notation directory := (option (list dirent)).

(** The loop [while ((d = readdir(root)) != NULL)]; the body gives [None] where
    the function returns -1 at once. *)
Definition read_dir {S} (body : dirent → Z → M S (option Z)) : list dirent → Z → M S Z :=
  fix loop l r :=
    match l with
    | [] => ret r
    | d :: l => x <- body d r ;; match x with None => ret (-1) | Some r => loop l r end
    end.
Definition open_dir {S} (body : dirent → Z → M S (option Z)) (dir : directory) : M S Z :=
  match dir with None => ret (-1) | Some l => read_dir body l 0 end.

(** [f() || ret] *)
Definition c_or (a b : Z) : Z := if negb (a =? 0) || negb (b =? 0) then 1 else 0.
Definition c_and (a b : Z) : Z := if negb (a =? 0) && negb (b =? 0) then 1 else 0.

(** ** The table of local files *)

(** [add_me_to_peer_id_list(&fe->owner_head)]; its result is not looked at. *)
Definition add_me_to_peer_id_list (my_ip : Z) (fe : option fid) : M fstate unit :=
  p <- calloc ;;
  if negb p then ret tt else
  e <- deref fe ;;
  store fe (set_owners e (PeerId my_ip P2P_PORT :: fe_owners e)).

(** [get_file_timestamp(fe, name)]: nothing when [stat] fails; the [time_t] becomes a [uint64_t]. *)
Definition get_file_timestamp (fe : option fid) (st_mtime : option Z) : M fstate unit :=
  match st_mtime with
  | None => ret tt
  | Some t => e <- deref fe ;; store fe (set_timestamp e (u64 t))
  end.

Definition set_name (name : list Z) (e : file_entry) : file_entry :=
  FileEntry name (fe_timestamp e) (fe_type e) (fe_owners e).
Definition set_type (type : file_type) (e : file_entry) : file_entry :=
  FileEntry (fe_name e) (fe_timestamp e) (file_type_code type) (fe_owners e).

(** The part of the body for an entry that is not "." or "..": its names. *)
Definition enter_file (my_ip : Z) (sys_name logic_name : list Z) (fe : option fid) (name : list Z) (st_mtime : option Z) :
    M fstate (list Z * list Z) :=
  new_logic <- sprintf_path logic_name name ;;
  e <- deref fe ;;
  store fe (set_name new_logic e) ;;;
  new_sys <- sprintf_path sys_name name ;;
  get_file_timestamp fe st_mtime ;;;
  add_me_to_peer_id_list my_ip fe ;;;
  file_entry_add fe ;;;
  ret (new_sys, new_logic).

(** The body of the loop of [get_file_table_r]. *)
Fixpoint get_file_entry (my_ip : Z) (sys_name logic_name : list Z) (d : dirent) (r : Z) : M fstate (option Z) :=
  fe <- file_entry_alloc ;;
  match fe with
  | None => ret None
  | Some _ =>
      match d with
      | EDots _ => e <- deref fe ;; store fe (set_type DIRECTORY e) ;;; ret (Some r)
      | EFile name mtime =>
          enter_file my_ip sys_name logic_name fe name mtime ;;;
          e <- deref fe ;; store fe (set_type REGULAR e) ;;;
          ret (Some r)
      | EDir name mtime contents =>
          names <- enter_file my_ip sys_name logic_name fe name mtime ;;
          e <- deref fe ;; store fe (set_type DIRECTORY e) ;;;
          x <- open_dir (get_file_entry my_ip (fst names) (snd names)) contents ;;
          ret (Some (c_or x r))
      end
  end.
Definition get_file_table_r (my_ip : Z) (dir : directory) (sys_name logic_name : list Z) : M fstate Z :=
  open_dir (get_file_entry my_ip sys_name logic_name) dir.

(** [sprintf(buf, "%d", n)] for [n] ≥ 0: an [int] has at most ten digits. *)
Fixpoint decimal_from (fuel : nat) (n : Z) : list Z :=
  match fuel with
  | O => []
  | S fuel => if n <? 10 then [48 + n] else decimal_from fuel (n / 10) ++ [48 + n mod 10]
  end.
Definition decimal (n : Z) : list Z := decimal_from 10 n.

(** [get_file_table(ft, target, n)] from the [i]-th target on: names and contents of the shared directories. *)
Fixpoint get_file_table_from (my_ip : Z) (i : Z) (targets : list (list Z * directory)) : M fstate Z :=
  match targets with
  | [] => ret 0
  | (sys_name, dir) :: targets =>
      r <- get_file_table_r my_ip dir sys_name (decimal (i + 1)) ;;
      if r <? 0 then ret (-1) else get_file_table_from my_ip (i + 1) targets
  end.
Definition get_file_table (my_ip : Z) (targets : list (list Z * directory)) : M fstate Z :=
  get_file_table_from my_ip 0 targets.

(** ** Watching the shared directories *)
Section watch.
Context `{Kernel K}.

Fixpoint watch_entry (dir local_dir : list Z) (d : dirent) (r : Z) : M (mstate K) (option Z) :=
  match d with
  | EFile _ _ => ret (Some r)
  | EDots up =>
      sprintf_path dir (if up then [46; 46] else [46]) ;;;
      sprintf_path local_dir (if up then [46; 46] else [46]) ;;;
      ret (Some r)
  | EDir name _ contents =>
      new_dir <- sprintf_path dir name ;;
      new_local_dir <- sprintf_path local_dir name ;;
      watch_target_add new_dir new_local_dir ;;;
      x <- open_dir (watch_entry new_dir new_local_dir) contents ;;
      ret (Some (c_or x r))
  end.
Definition watch_target_add_dir (contents : directory) (dir local_dir : list Z) : M (mstate K) Z :=
  watch_target_add dir local_dir ;;;
  open_dir (watch_entry dir local_dir) contents.

(** The start of [file_monitor_task], from the [i]-th shared directory on: the
    thread goes on when the result is 0. *)
Fixpoint watch_targets (i r : Z) (targets : list (list Z * directory)) : M (mstate K) Z :=
  match targets with
  | [] => ret r
  | (sys_name, dir) :: targets =>
      x <- watch_target_add_dir dir sys_name (decimal (i + 1)) ;;
      watch_targets (i + 1) (c_and x r) targets
  end.
End watch.

(** ** Specification: the files below a directory *)

(** Their paths from [rel], with what [stat] said and their types, a directory before its contents. *)
Fixpoint flatten (rel : list Z) (d : dirent) : list (list Z * option Z * file_type) :=
  match d with
  | EDots _ => []
  | EFile name mtime => [(rel ++ SLASH :: name, mtime, REGULAR)]
  | EDir name mtime contents =>
      (rel ++ SLASH :: name, mtime, DIRECTORY) ::
      match contents with None => [] | Some l => concat (flatten (rel ++ SLASH :: name) <$> l) end
  end.
Definition flatten_dir (rel : list Z) (dir : directory) : list (list Z * option Z * file_type) :=
  match dir with None => [] | Some l => concat (flatten rel <$> l) end.
Definition path_of (x : list Z * option Z * file_type) : list Z := x.1.1.

(** The entry of a file in the table of machine [my_ip]. *)
Definition local_file (my_ip : Z) (x : list Z * option Z * file_type) : file_entry :=
  FileEntry (path_of x) (match x.1.2 with Some t => u64 t | None => 0 end) (file_type_code x.2) [PeerId my_ip P2P_PORT].

Definition name_of (d : dirent) : option (list Z) :=
  match d with EDots _ => None | EFile name _ | EDir name _ _ => Some name end.

(** What a file system promises: names in a directory are distinct and have no slash. *)
Fixpoint valid_dirent (d : dirent) : Prop :=
  match d with
  | EDots _ => True
  | EFile name _ => plain name
  | EDir name _ contents =>
      plain name ∧
      match contents with
      | None => True
      | Some l => NoDup (omap name_of l) ∧ foldr (λ d P, valid_dirent d ∧ P) True l
      end
  end.
Definition valid_dir (dir : directory) : Prop :=
  match dir with None => True | Some l => NoDup (omap name_of l) ∧ foldr (λ d P, valid_dirent d ∧ P) True l end.

Definition fits (paths : list (list Z * option Z * file_type)) : Prop :=
  Forall (λ x, (length (path_of x) < MAX_NAME_LEN)%nat) paths.

(** A table with more files. *)
Definition with_files (l : list file_entry) (v : fview) : fview := fold_left (λ v e, <[fe_name e := e]> v) l v.

(** ** Lemmas: trees *)
Lemma dirent_ind' (P : dirent → Prop) :
  (∀ up, P (EDots up)) → (∀ name mtime, P (EFile name mtime)) →
  (∀ name mtime, P (EDir name mtime None)) →
  (∀ name mtime l, Forall P l → P (EDir name mtime (Some l))) →
  ∀ d, P d.
Proof.
  intros H1 H2 H3 H4. fix IH 1. intros [up|name mtime|name mtime [l|]]; [apply H1|apply H2| |apply H3].
  apply H4. induction l as [|d l IHl]; constructor; [apply IH|exact IHl].
Qed.

Lemma valid_Forall l : foldr (λ d P, valid_dirent d ∧ P) True l ↔ Forall valid_dirent l.
Proof. induction l as [|d l IH]; simpl; [by split; constructor|]. by rw Forall_cons IH. Qed.

Lemma flatten_cons rel d l : flatten_dir rel (Some (d :: l)) = flatten rel d ++ flatten_dir rel (Some l).
Proof. done. Qed.

(** The paths of an entry start with its name. *)
Lemma flatten_name rel d x :
  x ∈ flatten rel d → ∃ name rest, name_of d = Some name ∧ path_of x = rel ++ SLASH :: name ++ rest ∧
    (rest = [] ∨ ∃ rest', rest = SLASH :: rest').
Proof.
  revert rel x. induction d as [up|name mtime|name mtime|name mtime l IH] using dirent_ind'; intros rel x.
  - by intros []%elem_of_nil.
  - intros ->%list_elem_of_singleton. exists name, []. rw app_nil_r. split_and!; [done|done|by left].
  - intros ->%list_elem_of_singleton. exists name, []. rw app_nil_r. split_and!; [done|done|by left].
  - intros [->|Hx]%elem_of_cons.
    { exists name, []. rw app_nil_r. split_and!; [done|done|by left]. }
    apply elem_of_concat in Hx as (i & l' & Hl & Hx). apply list_lookup_fmap_Some in Hl as (d & -> & Hd).
    rw Forall_lookup in IH. destruct (IH i d Hd _ x Hx) as (name' & rest & _ & -> & _).
    exists name, (SLASH :: name' ++ rest). split_and!; [done| |right; by eexists].
    by rw -app_assoc.
Qed.

(** Two names followed by nothing or by a slash, without a slash in them, agree when
    the strings do. *)
Lemma plain_prefix n n' r r' :
  plain n → plain n' → (r = [] ∨ ∃ t, r = SLASH :: t) → (r' = [] ∨ ∃ t, r' = SLASH :: t) →
  n ++ r = n' ++ r' → n = n'.
Proof.
  revert n'. induction n as [|c n IH]; intros [|c' n'] Hn Hn' Hr Hr' E; simpl in E; [done| | |].
  - apply not_elem_of_cons in Hn' as [Hc _]. destruct Hr as [->|[t ->]]; [done|]. congruence.
  - apply not_elem_of_cons in Hn as [Hc _]. destruct Hr' as [->|[t ->]]; [done|]. congruence.
  - injection E as -> E. f_equal. apply not_elem_of_cons in Hn as [_ Hn]. apply not_elem_of_cons in Hn' as [_ Hn']. by apply IH.
Qed.

Lemma valid_name d name : valid_dirent d → name_of d = Some name → plain name.
Proof. destruct d as [|n m|n m c]; simpl; [done|by intros ? [= <-]|by intros [? _] [= <-]]. Qed.

Lemma flatten_NoDup_list rel l :
  NoDup (omap name_of l) → Forall valid_dirent l →
  Forall (λ d, ∀ rel, valid_dirent d → NoDup (path_of <$> flatten rel d)) l →
  NoDup (path_of <$> concat (flatten rel <$> l)).
Proof.
  induction l as [|d l IH]; intros Hnd Hv Hd; [constructor|].
  apply Forall_cons in Hv as [Hvd Hv]. apply Forall_cons in Hd as [Hdd Hd].
  csimpl. rw fmap_app. apply NoDup_app. split_and!; [by apply Hdd| |].
  - intros p (x & -> & Hx)%list_elem_of_fmap (y & E & Hy)%list_elem_of_fmap.
    apply flatten_name in Hx as (n & r & Hn & Hp & Hr).
    apply elem_of_concat in Hy as (i & l' & Hl & Hy). apply list_lookup_fmap_Some in Hl as (d' & -> & Hd').
    apply flatten_name in Hy as (n' & r' & Hn' & Hp' & Hr').
    rw E Hp' in Hp. simplify_list_eq. assert (n' = n) as ->.
    { assert (Hpn : plain n) by by eapply (valid_name d).
      assert (Hpn' : plain n') by (rw Forall_lookup in Hv; by eapply valid_name, Hn'; eapply Hv).
      exact (plain_prefix n' n r' r Hpn' Hpn Hr' Hr Hp). }
    simpl in Hnd. rw Hn in Hnd. apply NoDup_cons in Hnd as [Hnd _]. apply Hnd.
    apply list_elem_of_omap. exists d'. split; [by eapply list_elem_of_lookup_2|done].
  - apply IH; [|done|done]. simpl in Hnd. destruct (name_of d); [|done]. by apply NoDup_cons in Hnd as [_ ?].
Qed.

Lemma flatten_NoDup rel d : valid_dirent d → NoDup (path_of <$> flatten rel d).
Proof.
  revert rel. induction d as [up|name mtime|name mtime|name mtime l IH] using dirent_ind'; intros rel Hv.
  - constructor.
  - apply NoDup_singleton.
  - apply NoDup_singleton.
  - destruct Hv as (Hp & Hnd & Hv%valid_Forall). csimpl. apply NoDup_cons. split.
    + intros (x & E & Hx)%list_elem_of_fmap. cbn [path_of fst] in E.
      apply elem_of_concat in Hx as (i & l' & Hl & Hx). apply list_lookup_fmap_Some in Hl as (d' & -> & Hd').
      apply flatten_name in Hx as (n' & r' & _ & Hx & _). rw /path_of in E, Hx. rw Hx in E.
      apply (f_equal length) in E. rw !length_app /= in E. lia.
    + by apply flatten_NoDup_list.
Qed.
Lemma flatten_dir_NoDup rel dir : valid_dir dir → NoDup (path_of <$> flatten_dir rel dir).
Proof.
  destruct dir as [l|]; [|constructor]. intros [Hnd Hv%valid_Forall]. apply flatten_NoDup_list; [done|done|].
  apply Forall_forall. intros d _ rel'. apply flatten_NoDup.
Qed.

(** ** Lemmas: entering files *)

(** The table after files were entered. *)
Record entered (l : list file_entry) (s s' : fstate) : Prop := {
  en_wf : wf s';
  en_oom : no_oom s';
  en_view : view s' = with_files l (view s);
  en_count : counted s → counted s'
}.

Lemma entered_app l l' s1 s2 s3 : entered l s1 s2 → entered l' s2 s3 → entered (l ++ l') s1 s3.
Proof.
  intros [? ? E1 ?] [? ? E2 ?]. split; [done|done| |tauto]. by rw E2 E1 /with_files fold_left_app.
Qed.

Lemma with_files_None l v name : name ∉ fe_name <$> l → v !! name = None → with_files l v !! name = None.
Proof.
  revert v. induction l as [|e l IH]; intros v Hn Hv; [done|]. csimpl in Hn. apply not_elem_of_cons in Hn as [Hne Hn].
  apply IH; [done|]. by rw lookup_insert_ne.
Qed.

(** The entry of "." or "..": allocated, never linked nor freed. *)
Definition leaked (s : fstate) : fstate :=
  FState (<[fs_next s := FileEntry [] 0 (file_type_code DIRECTORY) []]> (fs_heap s)) (S (fs_next s)) (fs_n s) (fs_ht s) (fs_calloc s).

Lemma leaked_entered s : wf s → no_oom s → entered [] s (leaked s).
Proof.
  intros Hwf Hoom. pose proof Hwf as [H1 H2 H3 H4 H5 H6].
  assert (Hnl : ∀ i, i ∈ listed s → i ≠ fs_next s) by (intros i Hi ->; by apply (next_not_listed s Hwf)).
  assert (Hl : ∀ i, i ∈ listed s → fs_heap (leaked s) !! i = fs_heap s !! i).
  { intros i Hi. cbn [leaked fs_heap]. rw lookup_insert_ne //. intros <-. by apply (Hnl _ Hi). }
  split; [|done| |done].
  - split; [done|done| | | |].
    + intros b l i Hb Hi. rw Hl; [apply elem_of_concat; eauto|]. by eapply H3.
    + intros i j e e' Hi Hj. rw !Hl //. by apply H4.
    + intros i. cbn [leaked fs_heap fs_next]. rw lookup_insert. case_decide as E; [intros _; lia|].
      intros Hi. apply H5 in Hi. lia.
    + intros i e. cbn [leaked fs_heap]. rw lookup_insert. case_decide as E; [|apply H6].
      intros [= <-]. constructor.
  - rw /with_files /=. rw /view. do 2 f_equal. rw /entries. change (listed (leaked s)) with (listed s).
    revert Hl. generalize (listed s). induction l as [|i l IH]; intros Hl; [done|]. csimpl.
    rw Hl; [by left|]. rw IH //. intros j Hj. apply Hl. by right.
Qed.

Lemma inserted_entered s e :
  wf s → view s !! fe_name e = None → owners_ok (fe_owners e) → entered [e] s (inserted s e []).
Proof.
  intros Hwf Hnone Hok. split; [by apply wf_inserted|done|by rw view_inserted|by apply counted_inserted].
Qed.

Lemma sprintf_path_run {S} (dir file : list Z) (s : S) :
  (length (dir ++ SLASH :: file) < MAX_NAME_LEN)%nat → sprintf_path dir file s = Ok (dir ++ SLASH :: file, s).
Proof. intros H. rw /sprintf_path /into_name decide_True //. Qed.

(** The steps for an entry with a name. *)
Lemma enter_run my_ip sys logic name mtime type s :
  no_oom s → (length (sys ++ SLASH :: name) < MAX_NAME_LEN)%nat → (length (logic ++ SLASH :: name) < MAX_NAME_LEN)%nat →
  ∃ s1 s2 e, file_entry_alloc s = Ok (Some (fs_next s), s1) ∧
    enter_file my_ip sys logic (Some (fs_next s)) name mtime s1 = Ok ((sys ++ SLASH :: name, logic ++ SLASH :: name), s2) ∧
    deref (Some (fs_next s)) s2 = Ok (e, s2) ∧
    store (Some (fs_next s)) (set_type type e) s2 =
      Ok (tt, inserted s (local_file my_ip (logic ++ SLASH :: name, mtime, type)) []).
Proof.
  destruct s as [h nx n ht c]. rw /no_oom. cbn [fs_calloc fs_next]. intros -> H1 H2.
  set (path := logic ++ SLASH :: name) in *. set (ts := match mtime with Some t => u64 t | None => 0 end).
  set (me := [PeerId my_ip P2P_PORT]).
  assert (Hd : ∀ h' nx n ht e, deref (Some nx) (FState (<[nx := e]> h') (S nx) n ht []) = Ok (e, FState (<[nx := e]> h') (S nx) n ht [])).
  { intros. rw /deref /= lookup_insert_eq //. }
  assert (Hst : ∀ nx n ht e e', store (Some nx) e' (FState (<[nx := e]> h) (S nx) n ht []) = Ok (tt, FState (<[nx := e']> h) (S nx) n ht [])).
  { intros. rw /store {1}/bind Hd /modify /set_heap /= insert_insert_eq //. }
  exists (FState (<[nx := FileEntry [] 0 0 []]> h) (S nx) n ht []).
  exists (FState (<[nx := FileEntry path ts 0 me]> h) (S nx) (n + 1)
            (<[Z.to_nat (bucket_of path) := nx :: default [] (ht !! Z.to_nat (bucket_of path))]> ht) []).
  exists (FileEntry path ts 0 me). split_and!; [done| |apply Hd|by rw Hst].
  rw /enter_file {1}/bind sprintf_path_run // -/path. rw {1}/bind Hd {1}/bind Hst {1}/bind sprintf_path_run //.
  rw {1}/bind. set (s1 := FState _ _ _ _ _).
  assert (Ht : get_file_timestamp (Some nx) mtime s1 = Ok (tt, FState (<[nx := FileEntry path ts 0 []]> h) (S nx) n ht [])).
  { rw /get_file_timestamp /ts. destruct mtime as [t|]; [|done]. by rw {1}/bind Hd Hst. }
  rw Ht {1}/bind. assert (Ha : ∀ A (k : bool → M fstate A) s, fs_calloc s = [] → (b <- calloc ;; k b) s = k true s).
  { intros A k s0 E. by rw /bind /calloc E. }
  rw /add_me_to_peer_id_list Ha //. cbn [negb]. rw {1}/bind Hd Hst. rw {1}/bind /file_entry_add {1}/bind Hd. done.
Qed.

Definition scan_ok (my_ip : Z) (d : dirent) : Prop :=
  ∀ sys logic r s, wf s → no_oom s → fits (flatten sys d) → fits (flatten logic d) →
  NoDup (path_of <$> flatten logic d) → (∀ x, x ∈ flatten logic d → view s !! path_of x = None) →
  wp (get_file_entry my_ip sys logic d r) (λ x s', entered (local_file my_ip <$> flatten logic d) s s' ∧
    match x with Some r' => 0 ≤ r → 0 ≤ r' | None => False end) s.

Lemma names_local my_ip (l : list (list Z * option Z * file_type)) : fe_name <$> (local_file my_ip <$> l) = path_of <$> l.
Proof. by rw -list_fmap_compose. Qed.

Lemma read_dir_ok my_ip l :
  Forall (scan_ok my_ip) l → ∀ sys logic r s, wf s → no_oom s → 0 ≤ r →
  fits (flatten_dir sys (Some l)) → fits (flatten_dir logic (Some l)) →
  NoDup (path_of <$> flatten_dir logic (Some l)) → (∀ x, x ∈ flatten_dir logic (Some l) → view s !! path_of x = None) →
  wp (read_dir (get_file_entry my_ip sys logic) l r) (λ r' s', 0 ≤ r' ∧
    entered (local_file my_ip <$> flatten_dir logic (Some l)) s s') s.
Proof.
  induction l as [|d l IH]; intros Hok sys logic r s Hwf Hoom Hr Hsys Hlogic Hnd Hnew; cbn [read_dir].
  { apply wp_ret. split; [done|]. by split. }
  apply Forall_cons in Hok as [Hd Hok]. rw flatten_cons in Hnd Hnew *.
  apply Forall_app in Hsys as [Hs1 Hs2]. apply Forall_app in Hlogic as [Hl1 Hl2].
  rw fmap_app in Hnd. apply NoDup_app in Hnd as (Hn1 & Hdis & Hn2).
  apply wp_bind. eapply wp_mono; [apply Hd; try done; intros x Hx; apply Hnew; set_solver|].
  intros [r'|] s1 [He Hr']; [|done]. eapply wp_mono.
  - apply (IH Hok); try done; [apply He|apply He|by apply Hr'|]. intros x Hx. rw (en_view _ _ _ He).
    apply with_files_None; [|apply Hnew; set_solver]. rw names_local. intros Hin. apply (Hdis _ Hin).
    by apply list_elem_of_fmap_2.
  - intros r2 s2 [? He2]. split; [done|]. rw fmap_app. by eapply entered_app.
Qed.

Lemma get_file_entry_ok my_ip d : scan_ok my_ip d.
Proof.
  assert (Hone : ∀ sys logic name mtime type s, wf s → no_oom s →
    fits [(sys ++ SLASH :: name, mtime, type)] → fits [(logic ++ SLASH :: name, mtime, type)] →
    view s !! (logic ++ SLASH :: name) = None →
    ∃ s1 s2 e s3, file_entry_alloc s = Ok (Some (fs_next s), s1) ∧
      enter_file my_ip sys logic (Some (fs_next s)) name mtime s1 = Ok ((sys ++ SLASH :: name, logic ++ SLASH :: name), s2) ∧
      deref (Some (fs_next s)) s2 = Ok (e, s2) ∧ store (Some (fs_next s)) (set_type type e) s2 = Ok (tt, s3) ∧
      entered [local_file my_ip (logic ++ SLASH :: name, mtime, type)] s s3).
  { intros sys logic name mtime type s Hwf Hoom [H1 _]%Forall_cons_1 [H2 _]%Forall_cons_1 Hnew.
    destruct (enter_run my_ip sys logic name mtime type s Hoom H1 H2) as (s1 & s2 & e & ? & ? & ? & ?).
    exists s1, s2, e. eexists. split_and!; [done..|]. apply inserted_entered; [done|done|]. apply NoDup_singleton. }
  induction d as [up|name mtime|name mtime|name mtime l IH] using dirent_ind';
    intros sys logic r s Hwf Hoom Hsys Hlogic Hnd Hnew; cbn [get_file_entry].
  - assert (E : file_entry_alloc s = Ok (Some (fs_next s), FState (<[fs_next s := FileEntry [] 0 0 []]> (fs_heap s))
              (S (fs_next s)) (fs_n s) (fs_ht s) [])) by (destruct s; rw /no_oom /= in Hoom; by rw Hoom).
    rw /wp {1}/bind E {1}/bind /deref. cbn [fs_heap]. rw lookup_insert_eq.
    rw {1}/bind /store {1}/bind /deref. cbn [fs_heap]. rw lookup_insert_eq. cbn. split; [|done].
    rw insert_insert_eq -Hoom -/(leaked s). by apply leaked_entered.
  - destruct (Hone sys logic name mtime REGULAR s) as (s1 & s2 & e & s3 & E1 & E2 & E3 & E4 & He); try done.
    { apply (Hnew (logic ++ SLASH :: name, mtime, REGULAR)). by left. }
    by rw /wp {1}/bind E1 {1}/bind E2 {1}/bind E3 {1}/bind E4.
  - destruct (Hone sys logic name mtime DIRECTORY s) as (s1 & s2 & e & s3 & E1 & E2 & E3 & E4 & He); try done.
    { apply (Hnew (logic ++ SLASH :: name, mtime, DIRECTORY)). by left. }
    rw /wp {1}/bind E1 {1}/bind E2 {1}/bind E3 {1}/bind E4. split; [done|]. rw /c_or. by case_match.
  - apply Forall_cons in Hsys as [Hs1 Hs2]. apply Forall_cons in Hlogic as [Hl1 Hl2]. csimpl in Hnd. apply NoDup_cons in Hnd as [Hn1 Hn2].
    destruct (Hone sys logic name mtime DIRECTORY s) as (s1 & s2 & e & s3 & E1 & E2 & E3 & E4 & He); try done.
    { apply Forall_cons_2; [done|constructor]. } { apply Forall_cons_2; [done|constructor]. }
    { apply (Hnew (logic ++ SLASH :: name, mtime, DIRECTORY)). by left. }
    rw /wp {1}/bind E1 {1}/bind E2 {1}/bind E3 {1}/bind E4 -/(wp _ _ s3). cbn [fst snd open_dir].
    apply wp_bind. eapply wp_mono.
    + apply (read_dir_ok my_ip l IH (sys ++ SLASH :: name) (logic ++ SLASH :: name) 0 s3); try done; [apply He|apply He|].
      intros x Hx. rw (en_view _ _ _ He). apply with_files_None; [|apply Hnew; by right].
      rw (names_local my_ip [_]). intros E%list_elem_of_singleton. apply Hn1, list_elem_of_fmap. by exists x.
    + intros r' s4 [Hr' He4]. apply wp_ret. split; [by eapply (entered_app [_])|]. rw /c_or. by case_match.
Qed.

(** ** Lemmas: the numbers of the shared directories *)
Definition undecimal (l : list Z) : Z := fold_left (λ a c, 10 * a + (c - 48)) l 0.

Lemma undecimal_decimal fuel n : 0 ≤ n < 10 ^ Z.of_nat fuel → (0 < fuel)%nat → undecimal (decimal_from fuel n) = n.
Proof.
  revert n. induction fuel as [|fuel IH]; intros n Hn Hf; [lia|]. cbn [decimal_from].
  destruct (Z.ltb_spec n 10); [unfold undecimal; cbn [fold_left]; lia|].
  assert (Hp : 10 ^ Z.of_nat (S fuel) = 10 * 10 ^ Z.of_nat fuel) by (rw Nat2Z.inj_succ Z.pow_succ_r; [lia|done]).
  destruct fuel as [|fuel]; [simpl in Hn; lia|]. pose proof (Z.div_mod n 10 ltac:(lia)) as Hd.
  pose proof (Z.mod_pos_bound n 10 ltac:(lia)) as Hm.
  unfold undecimal. rewrite fold_left_app. fold (undecimal (decimal_from (S fuel) (n / 10))). rw IH; [lia|lia|].
  cbn [fold_left]. lia.
Qed.
Lemma decimal_from_plain fuel n : 0 ≤ n → plain (decimal_from fuel n).
Proof.
  revert n. induction fuel as [|fuel IH]; intros n Hn; cbn [decimal_from]; [by intros []%elem_of_nil|].
  destruct (Z.ltb_spec n 10); [intros H'%list_elem_of_singleton; rw /SLASH in H'; lia|].
  intros [Hin|Hin%list_elem_of_singleton]%elem_of_app; [by apply (IH (n / 10)); [apply Z.div_pos; lia|]|].
  rw /SLASH in Hin. pose proof (Z.mod_pos_bound n 10). lia.
Qed.
Lemma decimal_inj m n : 0 ≤ m < 10 ^ 10 → 0 ≤ n < 10 ^ 10 → decimal m = decimal n → m = n.
Proof.
  intros Hm Hn E. rw -(undecimal_decimal 10 m Hm (Nat.lt_0_succ _)) -(undecimal_decimal 10 n Hn (Nat.lt_0_succ _)).
  by f_equal.
Qed.

(** The files below the shared directories, the first of them number [i + 1]. *)
Fixpoint shared_files (i : Z) (targets : list (list Z * directory)) : list (list Z * option Z * file_type) :=
  match targets with
  | [] => []
  | (_, dir) :: targets => flatten_dir (decimal (i + 1)) dir ++ shared_files (i + 1) targets
  end.

(** Shared directories whose contents are as a file system has them and whose paths fit the buffers. *)
Fixpoint targets_ok (i : Z) (targets : list (list Z * directory)) : Prop :=
  match targets with
  | [] => True
  | (sys_name, dir) :: targets =>
      valid_dir dir ∧ fits (flatten_dir sys_name dir) ∧ fits (flatten_dir (decimal (i + 1)) dir) ∧ targets_ok (i + 1) targets
  end.

Lemma flatten_dir_root rel dir x :
  x ∈ flatten_dir rel dir → ∃ rest, path_of x = rel ++ SLASH :: rest.
Proof.
  destruct dir as [l|]; [|by intros []%elem_of_nil]. intros (i & l' & Hl & Hx)%elem_of_concat.
  apply list_lookup_fmap_Some in Hl as (d & -> & _). apply flatten_name in Hx as (n & r & _ & -> & _). by eexists.
Qed.

Lemma shared_root i targets x :
  x ∈ shared_files i targets → ∃ j rest, i < j ≤ i + Z.of_nat (length targets) ∧ path_of x = decimal j ++ SLASH :: rest.
Proof.
  revert i. induction targets as [|[sys dir] targets IH]; intros i; cbn [shared_files]; [by intros []%elem_of_nil|].
  intros [Hx|Hx]%elem_of_app.
  - apply flatten_dir_root in Hx as [rest ->]. exists (i + 1), rest. split; [simpl; lia|done].
  - destruct (IH _ Hx) as (j & rest & ? & ->). exists j, rest. split; [simpl; lia|done].
Qed.

Lemma shared_NoDup i targets :
  0 ≤ i → i + Z.of_nat (length targets) < 10 ^ 10 → targets_ok i targets → NoDup (path_of <$> shared_files i targets).
Proof.
  revert i. induction targets as [|[sys dir] targets IH]; intros i Hi Hn; cbn [shared_files targets_ok length] in *; [constructor|].
  intros (Hv & _ & _ & Hok). rw fmap_app. apply NoDup_app. split_and!; [by apply flatten_dir_NoDup| |apply IH; [lia|lia|done]].
  intros p (x & -> & Hx)%list_elem_of_fmap (y & E & Hy)%list_elem_of_fmap.
  apply flatten_dir_root in Hx as [rest Hx]. apply shared_root in Hy as (j & rest' & Hj & Hy). rw Hx Hy in E.
  assert (E' : decimal (i + 1) = decimal j).
  { apply (plain_prefix _ _ (SLASH :: rest) (SLASH :: rest')); [apply decimal_from_plain; lia|apply decimal_from_plain; lia| | |done];
      right; by eexists. }
  apply decimal_inj in E'; lia.
Qed.

Lemma with_files_map my_ip l :
  NoDup (path_of <$> l) → with_files (local_file my_ip <$> l) ∅ = list_to_map ((λ x, (path_of x, local_file my_ip x)) <$> l).
Proof.
  induction l as [|x l IH] using rev_ind; intros Hnd; [done|].
  rw fmap_app in Hnd. apply NoDup_app in Hnd as (Hnd & Hd & _).
  rw !fmap_app /with_files fold_left_app -/(with_files (local_file my_ip <$> l) ∅) IH // list_to_map_app /=.
  rw -insert_union_r; [|by rw right_id_L].
  apply not_elem_of_list_to_map_1. rw -list_fmap_compose. intros Hin. apply (Hd (path_of x)); [exact Hin|by left].
Qed.

(** The table of a machine that has read its files. *)
Lemma local_view my_ip l s s' :
  NoDup (path_of <$> l) → entered (local_file my_ip <$> l) s s' → view s = ∅ →
  view s' = list_to_map ((λ x, (path_of x, local_file my_ip x)) <$> l) ∧
  ∀ F P, (∀ x, x ∈ l → path_of x ∈ F) → my_ip ∈ P → bounded F P s'.
Proof.
  intros Hnd [H1 _ H3 _] Hv.
  assert (Hview : view s' = list_to_map ((λ x, (path_of x, local_file my_ip x)) <$> l)) by by rw H3 Hv with_files_map.
  split; [done|]. intros F P HF HP. split; [done|]. intros name e. rw Hview. intros He%elem_of_list_to_map_2.
  apply list_elem_of_fmap in He as (x & [= -> ->] & Hx). split; [by apply HF|].
  intros p Hp%list_elem_of_singleton. by rw Hp.
Qed.

(** The part of [get_file_table] up to the first directory that cannot be opened. *)
Lemma get_file_table_run my_ip pre : ∀ i post s,
  0 ≤ i → i + Z.of_nat (length pre) < 10 ^ 10 → targets_ok i pre → wf s → no_oom s → Forall (λ t, is_Some t.2) pre →
  (∀ x, x ∈ shared_files i pre → view s !! path_of x = None) →
  match post with [] => True | (_, dir) :: _ => dir = None end →
  wp (get_file_table_from my_ip i (pre ++ post)) (λ r s', entered (local_file my_ip <$> shared_files i pre) s s' ∧
    r = match post with [] => 0 | _ => -1 end) s.
Proof.
  induction pre as [|[sys dir] pre IH]; intros i post s Hi Hn Hok Hwf Hoom Hre Hnew Hpost; cbn [shared_files app].
  { destruct post as [|[sys dir] post]; cbn [get_file_table_from]; [apply wp_ret; by split|]. subst dir. by apply wp_ret. }
  pose proof (shared_NoDup i ((sys, dir) :: pre) Hi Hn Hok) as Hnd. cbn [shared_files] in Hnd. rw fmap_app in Hnd.
  apply NoDup_app in Hnd as (_ & Hdis & _).
  destruct Hok as (Hv & H1 & H2 & Hok). apply Forall_cons in Hre as [[l Hl] Hre]. cbn in Hl. subst dir.
  cbn [get_file_table_from shared_files length] in *. apply wp_bind. eapply wp_mono.
  - apply (read_dir_ok my_ip l); try done.
    + apply Forall_forall. intros d _. apply get_file_entry_ok.
    + by apply flatten_dir_NoDup.
    + intros x Hx. apply Hnew. set_solver.
  - intros r s1 [Hr He]. rw (proj2 (Z.ltb_ge _ _)) //. eapply wp_mono.
    + apply (IH (i + 1) post s1); try done; [lia|lia|apply He|apply He|].
      intros x Hx. rw (en_view _ _ _ He). apply with_files_None; [|apply Hnew; set_solver].
      rw names_local. intros Hin. apply (Hdis _ Hin), list_elem_of_fmap. by exists x.
    + intros r' s2 [He2 ->]. split; [|done]. rw fmap_app. by eapply entered_app.
Qed.

(** ** Specification: the directories below a shared one *)

(** Their names on this machine and for the others. *)
Fixpoint subdirs (sys logic : list Z) (d : dirent) : list (list Z * list Z) :=
  match d with
  | EDots _ | EFile _ _ => []
  | EDir name _ contents =>
      (sys ++ SLASH :: name, logic ++ SLASH :: name) ::
      match contents with
      | None => []
      | Some l => concat (subdirs (sys ++ SLASH :: name) (logic ++ SLASH :: name) <$> l)
      end
  end.
Definition subdirs_dir (sys logic : list Z) (dir : directory) : list (list Z * list Z) :=
  match dir with None => [] | Some l => concat (subdirs sys logic <$> l) end.

(** Can it be read, with all the directories below it? *)
Fixpoint readable (d : dirent) : bool :=
  match d with
  | EDots _ | EFile _ _ => true
  | EDir _ _ contents => match contents with None => false | Some l => forallb readable l end
  end.
Definition readable_dir (dir : directory) : bool := match dir with None => false | Some l => forallb readable l end.

(** All the directories to watch, with those of the first shared directory under [i + 1]. *)
Fixpoint watch_names (i : Z) (targets : list (list Z * directory)) : list (list Z * list Z) :=
  match targets with
  | [] => []
  | (sys, dir) :: targets => ((sys, decimal (i + 1)) :: subdirs_dir sys (decimal (i + 1)) dir) ++ watch_names (i + 1) targets
  end.

Lemma c_or_0 a b : (c_or a b =? 0) = (a =? 0) && (b =? 0).
Proof. rw /c_or. by destruct (a =? 0), (b =? 0). Qed.
Lemma c_and_0 a b : (c_and a b =? 0) = (a =? 0) || (b =? 0).
Proof. rw /c_and. by destruct (a =? 0), (b =? 0). Qed.

(** The names of a directory leave room for "/..". *)
Definition roomy (p : list Z * list Z) : Prop :=
  (length p.1 + 3 < MAX_NAME_LEN)%nat ∧ (length p.2 + 3 < MAX_NAME_LEN)%nat.

Lemma subdirs_flatten sys logic d : (subdirs sys logic d).*1 `sublist_of` path_of <$> flatten sys d.
Proof.
  revert sys logic. induction d as [up|name mtime|name mtime|name mtime l IH] using dirent_ind'; intros sys logic.
  - constructor.
  - apply sublist_nil_l.
  - done.
  - csimpl. apply sublist_skip. induction l as [|d l IHl]; [done|]. apply Forall_cons in IH as [Hd IH].
    csimpl. rw !fmap_app. apply sublist_app; [apply Hd|by apply IHl].
Qed.
Lemma subdirs_dir_flatten sys logic dir : (subdirs_dir sys logic dir).*1 `sublist_of` path_of <$> flatten_dir sys dir.
Proof.
  destruct dir as [l|]; [|done]. induction l as [|d l IH]; [done|].
  rw /subdirs_dir /flatten_dir. csimpl. rw !fmap_app. apply sublist_app; [apply subdirs_flatten|exact IH].
Qed.

Section watch.
Context {K : Type} `{KernelLaws K}.

(** The monitor after the directories [l] were watched. *)
Record watched (n : nat) (l : list (list Z * list Z)) (s s' : mstate K) : Prop := {
  wt_ok : mt_ok s';
  wt_oom : ms_calloc s' = [];
  wt_more : accepts n (ms_kernel s');
  wt_kept : ms_heap s ⊆ ms_heap s';
  wt_new : ∀ p, p ∈ l → ∃ i t, ms_heap s' !! i = Some t ∧ tg_sys t = p.1 ∧ tg_logic t = p.2;
  wt_only : ∀ i t, ms_heap s' !! i = Some t → ms_heap s !! i = Some t ∨ (tg_sys t, tg_logic t) ∈ l
}.

Lemma watched_app n n' l l' s1 s2 s3 : watched n l s1 s2 → watched n' l' s2 s3 → watched n' (l ++ l') s1 s3.
Proof.
  intros [_ _ _ H1 H2 H3] [? ? ? H4 H5 H6]. split; [done|done|done|by etrans| |].
  - intros p [Hp|Hp]%elem_of_app; [|by apply H5]. destruct (H2 p Hp) as (i & t & Hi & ?).
    exists i, t. split; [by eapply lookup_weaken|done].
  - intros i t [Hi|Hi]%H6; [apply H3 in Hi as [?|?]; [by left|]|]; right; set_solver.
Qed.

(** No target of [s] has one of the names [l] on this machine. *)
Definition unwatched (l : list (list Z * list Z)) (s : mstate K) : Prop :=
  ∀ i t, ms_heap s !! i = Some t → tg_sys t ∉ l.*1.

Lemma watched_unwatched n l l' s s' :
  watched n l s s' → unwatched (l ++ l') s → NoDup (l ++ l').*1 → unwatched l' s'.
Proof.
  intros Hw Hu Hnd i t Hi Hin. rw fmap_app in Hnd. apply NoDup_app in Hnd as (_ & Hd & _).
  destruct (wt_only _ _ _ _ Hw i t Hi) as [Hi'|Hl].
  - apply (Hu i t Hi'). rw fmap_app. set_solver.
  - apply (Hd (tg_sys t)); [|done]. by apply (list_elem_of_fmap_2 fst) in Hl.
Qed.

Lemma watch_one n sys logic s :
  mt_ok s → ms_calloc s = [] → accepts (S n) (ms_kernel s) → roomy (sys, logic) → unwatched [(sys, logic)] s →
  wp (watch_target_add sys logic) (λ _ s', watched n [(sys, logic)] s s') s.
Proof.
  intros Hs Hc [Ha _] [H1 H2] Hu. cbn in H1, H2. destruct (Ha sys DEFAULT_WATCH_MASK) as [Hr Hn].
  assert (Hnew : ∀ i t, ms_heap s !! i = Some t → tg_sys t ≠ sys) by (intros i t Hi E; apply (Hu i t Hi); rw E; set_solver).
  rw /wp (watch_target_add_new s sys logic) //; [lia|lia|].
  destruct (added_ok s sys logic Hs Hnew Hr) as [Hs' _]. split; [done|done|done| | |].
  - apply insert_subseteq. destruct (ms_heap s !! ms_next s) as [t|] eqn:E; [|done].
    pose proof (mo_fresh s Hs (ms_next s)) as Hfr. rw -(mo_live s Hs) in Hfr. specialize (Hfr ltac:(by eexists)). lia.
  - intros p ->%list_elem_of_singleton. eexists _, _. split; [apply lookup_insert_eq|done].
  - intros i t. cbn [ms_heap target_added]. rw lookup_insert. case_decide; [intros [= <-]; right; by left|by left].
Qed.

Definition watch_ok (d : dirent) : Prop :=
  ∀ n sys logic r s, mt_ok s → ms_calloc s = [] → accepts (length (subdirs sys logic d) + n) (ms_kernel s) →
  roomy (sys, logic) → Forall roomy (subdirs sys logic d) → NoDup (subdirs sys logic d).*1 →
  unwatched (subdirs sys logic d) s →
  wp (watch_entry sys logic d r) (λ x s', (∃ r', x = Some r' ∧ (r' =? 0) = readable d && (r =? 0)) ∧ watched n (subdirs sys logic d) s s') s.

Lemma watched_nil n s : mt_ok s → ms_calloc s = [] → accepts n (ms_kernel s) → watched n [] s s.
Proof. intros. split; [done|done|done|done|by intros p []%elem_of_nil|by left]. Qed.

Lemma watch_list_ok l :
  Forall watch_ok l → ∀ n sys logic r s, mt_ok s → ms_calloc s = [] →
  accepts (length (subdirs_dir sys logic (Some l)) + n) (ms_kernel s) → roomy (sys, logic) →
  Forall roomy (subdirs_dir sys logic (Some l)) → NoDup (subdirs_dir sys logic (Some l)).*1 →
  unwatched (subdirs_dir sys logic (Some l)) s →
  wp (read_dir (watch_entry sys logic) l r) (λ r' s', (r' =? 0) = readable_dir (Some l) && (r =? 0) ∧ watched n (subdirs_dir sys logic (Some l)) s s') s.
Proof.
  induction l as [|d l IH]; intros Hok n sys logic r s Hs Hc Ha Hro Hf Hnd Hu; cbn [read_dir].
  { apply wp_ret. split; [done|by apply watched_nil]. }
  apply Forall_cons in Hok as [Hd Hok].
  change (subdirs_dir sys logic (Some (d :: l))) with (subdirs sys logic d ++ subdirs_dir sys logic (Some l)) in *.
  pose proof Hnd as Hnd'. rw fmap_app in Hnd'. apply NoDup_app in Hnd' as (Hn1 & _ & Hn2).
  apply Forall_app in Hf as [Hf1 Hf2]. rw length_app -Nat.add_assoc in Ha.
  apply wp_bind. eapply wp_mono.
  { apply Hd; [done..|]. intros i t Hi Hin. apply (Hu i t Hi). rw fmap_app. set_solver. }
  intros x s1 [(r' & -> & Hr) Hw]. eapply wp_mono.
  { apply (IH Hok); [apply Hw|apply Hw|apply Hw|done|done|done|]. by eapply watched_unwatched. }
  intros r2 s2 [Hr2 Hw2]. split; [rw Hr2 Hr /=; by destruct (forallb readable l), (readable d)|by eapply watched_app].
Qed.

Lemma watch_entry_ok d : watch_ok d.
Proof.
  induction d as [up|name mtime|name mtime|name mtime l IH] using dirent_ind';
    intros n sys logic r s Hs Hc Ha [Hr1 Hr2] Hf Hnd Hu; cbn [watch_entry] in *; cbn in Hr1, Hr2.
  - rw /wp {1}/bind sprintf_path_run; [rw length_app; destruct up; simpl; lia|].
    rw {1}/bind sprintf_path_run; [rw length_app; destruct up; simpl; lia|]. split; [by exists r|by apply watched_nil].
  - apply wp_ret. split; [by exists r|by apply watched_nil].
  - apply Forall_cons in Hf as [[Hf1 Hf2] _]. cbn in Hf1, Hf2.
    rw /wp {1}/bind sprintf_path_run; [lia|]. rw {1}/bind sprintf_path_run; [lia|]. rw -/(wp _ _ s).
    apply wp_bind. eapply wp_mono; [by apply (watch_one n)|]. intros ? s1 Hw.
    apply wp_bind, wp_ret, wp_ret. split; [|done]. by exists (c_or (-1) r).
  - change (subdirs sys logic (EDir name mtime (Some l))) with
      ((sys ++ SLASH :: name, logic ++ SLASH :: name) :: subdirs_dir (sys ++ SLASH :: name) (logic ++ SLASH :: name) (Some l)) in *.
    set (sys' := sys ++ SLASH :: name) in *. set (logic' := logic ++ SLASH :: name) in *.
    apply Forall_cons in Hf as [Hf Hf']. pose proof Hf as [Hf1 Hf2]. cbn in Hf1, Hf2.
    rw /wp {1}/bind sprintf_path_run; [rw -/sys'; lia|]. rw {1}/bind sprintf_path_run; [rw -/logic'; lia|].
    rw -/sys' -/logic' -/(wp _ _ s). apply wp_bind. eapply wp_mono.
    { apply (watch_one (length (subdirs_dir sys' logic' (Some l)) + n)); [done..|].
      intros i t Hi Hin. apply (Hu i t Hi). set_solver. }
    intros ? s1 Hw. apply wp_bind. eapply wp_mono.
    { apply (watch_list_ok l IH n sys' logic' 0 s1); [apply Hw|apply Hw|apply Hw|done|done| |].
      - rw fmap_cons in Hnd. by apply NoDup_cons in Hnd as [_ Hnd].
      - exact (watched_unwatched _ [(sys', logic')] _ _ _ Hw Hu Hnd). }
    intros r' s2 [Hr' Hw2]. apply wp_ret. split; [exists (c_or r' r); split; [done|by rw c_or_0 Hr' andb_true_r]|]. exact (watched_app _ _ [(sys', logic')] _ _ _ _ Hw Hw2).
Qed.

Lemma watch_dir_ok n dir sys logic s :
  let l := (sys, logic) :: subdirs_dir sys logic dir in
  mt_ok s → ms_calloc s = [] → Forall roomy l → NoDup l.*1 → accepts (length l + n) (ms_kernel s) → unwatched l s →
  wp (watch_target_add_dir dir sys logic) (λ r s', (r =? 0) = readable_dir dir ∧ watched n l s s') s.
Proof.
  intros l Hs Hc Hf Hnd Ha Hu. apply Forall_cons in Hf as [Hf Hf']. apply wp_bind. eapply wp_mono.
  { apply (watch_one (length (subdirs_dir sys logic dir) + n)); [done..|]. intros i t Hi Hin. apply (Hu i t Hi). set_solver. }
  intros ? s1 Hw. eapply (wp_mono _ (λ r s2, (r =? 0) = readable_dir dir ∧ watched n (subdirs_dir sys logic dir) s1 s2)).
  - destruct dir as [ents|]; cbn [open_dir].
    + eapply wp_mono.
      { apply (watch_list_ok ents); [apply Forall_forall; intros d _; apply watch_entry_ok|apply Hw|apply Hw|apply Hw|done|done| |].
        * rw fmap_cons in Hnd. by apply NoDup_cons in Hnd as [_ ?].
        * exact (watched_unwatched _ [(sys, logic)] _ _ _ Hw Hu Hnd). }
      intros r s2 [Hr Hw2]. split; [by rw Hr andb_true_r|exact Hw2].
    + apply wp_ret. split; [done|]. apply watched_nil; apply Hw.
  - intros r s2 [Hr Hw2]. split; [done|]. exact (watched_app _ _ [(sys, logic)] _ _ _ _ Hw Hw2).
Qed.

(** The thread goes on when one of the shared directories can be read. *)
Lemma watch_targets_ok n targets : ∀ i r s,
  mt_ok s → ms_calloc s = [] → Forall roomy (watch_names i targets) → NoDup (watch_names i targets).*1 →
  accepts (length (watch_names i targets) + n) (ms_kernel s) → unwatched (watch_names i targets) s →
  wp (watch_targets i r targets)
     (λ r' s', (r' =? 0) = existsb (λ t, readable_dir t.2) targets || (r =? 0) ∧ watched n (watch_names i targets) s s') s.
Proof.
  induction targets as [|[sys dir] targets IH]; intros i r s Hs Hc Hf Hnd Ha Hu; cbn [watch_targets watch_names] in *.
  { apply wp_ret. split; [done|by apply watched_nil]. }
  set (l := (sys, decimal (i + 1)) :: subdirs_dir sys (decimal (i + 1)) dir) in *.
  apply Forall_app in Hf as [Hf1 Hf2]. pose proof Hnd as Hnd'. rw fmap_app in Hnd'. apply NoDup_app in Hnd' as (Hn1 & _ & Hn2).
  rw length_app -Nat.add_assoc in Ha. apply wp_bind. eapply wp_mono.
  { apply (watch_dir_ok (length (watch_names (i + 1) targets) + n) dir sys (decimal (i + 1)) s); try done.
    intros j t Hj Hin. apply (Hu j t Hj). rw fmap_app. set_solver. }
  intros x s1 [Hx Hw]. eapply wp_mono.
  { apply IH; [apply Hw|apply Hw|done|done|apply Hw|]. exact (watched_unwatched _ l _ _ _ Hw Hu Hnd). }
  intros r' s2 [Hr Hw2]. split; [|exact (watched_app _ _ l _ _ _ _ Hw Hw2)].
  rw Hr c_and_0 Hx /=. destruct (readable_dir dir), (existsb _ targets), (r =? 0); done.
Qed.
End watch.

(** ** Properties *)

(** C22. The table of local files.  Read into an empty table, the shared directories
    give exactly one entry per file and directory below them: under the number of
    the shared directory and the path below it, with the modification time, 0 when
    [stat] fails, the type, and this machine as the owner; files are counted.  A
    shared directory that cannot be opened ends the reading with -1; one further
    below is only left out. *)
Theorem get_file_table_correct my_ip pre post s :
  wf s → no_oom s → view s = ∅ → targets_ok 0 pre → Z.of_nat (length pre) < 10 ^ 10 →
  Forall (λ t, is_Some t.2) pre → match post with [] => True | (_, dir) :: _ => dir = None end →
  let files := shared_files 0 pre in
  wp (get_file_table my_ip (pre ++ post)) (λ r s', wf s' ∧ no_oom s' ∧ (counted s → counted s') ∧
    r = match post with [] => 0 | _ => -1 end ∧
    view s' = list_to_map ((λ x, (path_of x, local_file my_ip x)) <$> files) ∧
    (∀ F P, (∀ x, x ∈ files → path_of x ∈ F) → my_ip ∈ P → bounded F P s')) s.
Proof.
  intros Hwf Hoom Hv Hok Hn Hre Hpost files. eapply wp_mono.
  { apply (get_file_table_run my_ip pre 0 post s); try done. intros x _. by rw Hv lookup_empty. }
  intros r s' [He ->]. pose proof He as [H1 H2 _ H4].
  destruct (local_view my_ip files s s') as [Hview Hb]; [by apply shared_NoDup|done..|]. by split_and!.
Qed.

(** Watching the shared directories.  Every directory below a shared one, and itself,
    is watched in the end, the names on this machine and for the others extended by
    the same path; nothing else is; the directories watched before are kept.  It
    takes one descriptor per directory. *)
Theorem watch_target_add_dir_correct {K} `{KernelLaws K} (s : mstate K) n dir sys logic :
  let l := (sys, logic) :: subdirs_dir sys logic dir in
  mt_ok s → ms_calloc s = [] → valid_dir dir → Forall roomy l → accepts (length l + n) (ms_kernel s) →
  (∀ i t, ms_heap s !! i = Some t → tg_sys t ∉ l.*1) →
  wp (watch_target_add_dir dir sys logic) (λ _ s', mt_ok s' ∧ accepts n (ms_kernel s') ∧
    ms_heap s ⊆ ms_heap s' ∧
    (∀ p, p ∈ l → ∃ i t, ms_heap s' !! i = Some t ∧ tg_sys t = p.1 ∧ tg_logic t = p.2) ∧
    (∀ i t, ms_heap s' !! i = Some t → ms_heap s !! i = Some t ∨ (tg_sys t, tg_logic t) ∈ l)) s.
Proof.
  intros l Hs Hc Hv Hf Ha Hu. apply Forall_cons in Hf as [Hf Hf'].
  assert (Hnd : NoDup l.*1).
  { apply NoDup_cons. split.
    - intros Hin. eapply elem_of_sublist in Hin; [|apply subdirs_dir_flatten].
      apply list_elem_of_fmap in Hin as (x & E & Hx). apply flatten_dir_root in Hx as [rest Hx]. rw Hx in E.
      apply (f_equal length) in E. rw length_app /= in E. lia.
    - eapply sublist_NoDup; [by apply (flatten_dir_NoDup sys)|apply subdirs_dir_flatten]. }
  eapply wp_mono; [by apply (watch_dir_ok n dir sys logic s); try done; apply Forall_cons|].
  intros r s2 [_ Hall]. split_and!; apply Hall.
Qed.

(** ** Witnesses *)

(** "." ; a file "a" ; a directory "d" with a file "b" that cannot be examined. *)
Definition sample_dir : list dirent :=
  [EDots false; EFile [97] (Some 7); EDir [100] (Some 8) (Some [EDots true; EFile [98] None])].
Lemma sample_dir_valid : valid_dir (Some sample_dir).
Proof.
  assert (Hp : ∀ c, c ≠ SLASH → plain [c]) by (intros c Hc ?%list_elem_of_singleton; congruence).
  split.
  - apply (bool_decide_unpack _). by vm_compute.
  - cbn. split_and!; try done; try (apply Hp; rw /SLASH; lia). apply NoDup_singleton.
Qed.

Lemma get_file_table_correct_witness :
  wp (get_file_table 9 [([115], Some sample_dir); ([116], None)]) (λ r s', wf s' ∧ no_oom s' ∧
    (counted (fresh []) → counted s') ∧ r = -1 ∧
    view s' = list_to_map ((λ x, (path_of x, local_file 9 x)) <$>
      [([49; 47; 97], Some 7, REGULAR); ([49; 47; 100], Some 8, DIRECTORY); ([49; 47; 100; 47; 98], None, REGULAR)]) ∧
    (∀ F P, (∀ x, x ∈ shared_files 0 [([115], Some sample_dir)] → path_of x ∈ F) → 9 ∈ P → bounded F P s')) (fresh []).
Proof.
  apply (get_file_table_correct 9 [([115], Some sample_dir)] [([116], None)] (fresh [])).
  - apply fresh_wf.
  - reflexivity.
  - apply fresh_view.
  - split_and!; [apply sample_dir_valid| | |done]; (rw /fits; apply (bool_decide_unpack _); by vm_compute).
  - by vm_compute.
  - apply Forall_cons_2; [by eexists|constructor].
  - reflexivity.
Defined.

Lemma watch_target_add_dir_correct_witness :
  wp (watch_target_add_dir (Some sample_dir) [115] [49]) (λ _ s', mt_ok s' ∧ accepts 5 (ms_kernel s') ∧
    ∅ ⊆ ms_heap s' ∧
    (∀ p, p ∈ [([115], [49]); ([115; 47; 100], [49; 47; 100])] →
       ∃ i t, ms_heap s' !! i = Some t ∧ tg_sys t = p.1 ∧ tg_logic t = p.2) ∧
    (∀ i t, ms_heap s' !! i = Some t → (∅ : gmap nat monitor_target) !! i = Some t ∨
       (tg_sys t, tg_logic t) ∈ [([115], [49]); ([115; 47; 100], [49; 47; 100])])) (fresh_monitor (MKernel [] ∅)).
Proof.
  apply (watch_target_add_dir_correct (fresh_monitor (MKernel [] ∅)) 5 (Some sample_dir) [115] [49]).
  - apply fresh_monitor_ok.
  - reflexivity.
  - apply sample_dir_valid.
  - repeat apply Forall_cons_2; try apply Forall_nil_2; split; cbn; rw /MAX_NAME_LEN; lia.
  - by apply mk_accepts.
  - intros i t Hi. by rw lookup_empty in Hi.
Defined.
