(* ===== verification/Events.v ===== *)
(** * Events: from the kernel's file events to announcements, [client/file_monitor.c]

    [file_monitor_task] reads a buffer of inotify events, turns each into an entry
    of a [trans_file_table] ([handle_event]), keeps the client's own table and the
    watched directories in step with it, and sends the table to the tracker.  The
    events are parsed from the bytes of the buffer, as the code does.  [observe] is
    the specification: what a sequence of events announces, given the names of the
    watched directories. *)
From S2P Require Import Prelude Hash TransTable FileTable Segment Wire Packet Replica Monitor.

(** ** Events in the buffer *)

(** [struct inotify_event]: [wd], [mask], [cookie] and [len] of 4 bytes each, then
    [name].  [ev_name] is the string found at [event->name], whatever [len] is;
    [None] when the buffer ends before its NUL. *)
Record inotify_event := Event {
  ev_wd : Z;                     (** int *)
  ev_mask : Z;                   (** uint32_t *)
  ev_len : Z;                    (** uint32_t *)
  ev_name : option (list Z)
}.
Definition EVENT_LEN : Z := 16.
Definition EVENT_BUF_LEN : Z := 1024 * (EVENT_LEN + 16).

Definition string_at (buf : list Z) (o : nat) : option (list Z) :=
  if bool_decide (0 ∈ drop o buf) then Some (c_string (drop o buf)) else None.
(** The event at [event_buf + offset]; [None] is past the buffer. *)
Definition event_at (buf : list Z) (offset : Z) : option inotify_event :=
  let o := Z.to_nat offset in
  if (0 <=? offset) && (offset + EVENT_LEN <=? Z.of_nat (length buf)) then
    Some (Event (i32 (get o 4 buf)) (get (o + 4) 4 buf) (get (o + 12) 4 buf) (string_at buf (o + 16)))
  else None.

(** "4913", the file vim makes to probe a directory. *)
Definition VIM_PROBE : list Z := [52; 57; 49; 51].
Definition tricky_string (sys_name : list Z) : bool :=
  match rindex sys_name with
  | None => false
  | Some index => bool_decide (drop (S index) sys_name = VIM_PROBE)
  end.

(** [mask & m] as a condition. *)
Definition bit (mask m : Z) : bool := negb (Z.land mask m =? 0).

(** Assignments to an entry *)
Definition set_te_name (name : list Z) (te : trans_file_entry) : trans_file_entry :=
  TransEntry name (te_timestamp te) (te_op_type te) (te_file_type te) (te_owner_n te) (te_owners te).
Definition set_te_type (type : file_type) (te : trans_file_entry) : trans_file_entry :=
  TransEntry (te_name te) (te_timestamp te) (te_op_type te) (file_type_code type) (te_owner_n te) (te_owners te).
Definition set_te_timestamp (t : Z) (te : trans_file_entry) : trans_file_entry :=
  TransEntry (te_name te) t (te_op_type te) (te_file_type te) (te_owner_n te) (te_owners te).

(** ** The monitor's thread: the table of targets, the client's file table, its
    address and its connection to the tracker. *)
Record mon (K : Type) := Mon {
  mn_targets : mstate K;         (** m_table *)
  mn_ft : fstate;                (** ft *)
  mn_ip : Z;                     (** my_ip *)
  mn_conn : out_conn             (** conn *)
}.
Arguments Mon {_} _ _ _ _.
Arguments mn_targets {_} _.
Arguments mn_ft {_} _.
Arguments mn_ip {_} _.
Arguments mn_conn {_} _.

#[export] Instance mon_has_table {K} : HasTable (mon K) :=
  {| get_table := mn_ft; put_table t s := Mon (mn_targets s) t (mn_ip s) (mn_conn s) |}.
#[export] Instance mon_table_laws {K} : HasTableLaws (mon K).
Proof. split; by intros; destruct s. Qed.

Section events.
Context `{Kernel K}.
Notation St := (mon K).

(** [stat] on a path: the modification time, or nothing when it fails. *)
Context (stat : list Z → option Z).

Definition on_targets {A} (m : M (mstate K) A) : M St A :=
  zoom mn_targets (λ t s, Mon t (mn_ft s) (mn_ip s) (mn_conn s)) m.
Definition on_conn {A} (m : M out_conn A) : M St A :=
  zoom mn_conn (λ c s, Mon (mn_targets s) (mn_ft s) (mn_ip s) c) m.

Definition get_trans_timestamp (te : trans_file_entry) (name : list Z) : Z * trans_file_entry :=
  match stat name with
  | None => (-1, te)
  | Some st_mtime => (0, set_te_timestamp (u64 st_mtime) te)
  end.

(** The watched directory was itself deleted or moved. *)
Definition target_gone (ev : inotify_event) (te : trans_file_entry) : M (mstate K) (Z * trans_file_entry) :=
  t <- read_target (ev_wd ev) ;;
  __unwatch_and_free_target t ;;;
  ret (0, set_te_type DIRECTORY (set_op_type FILE_DELETE te)).

(** The part of [handle_event] under the table's mutex. *)
Definition event_op (ev : inotify_event) (te : trans_file_entry) : M (mstate K) (Z * trans_file_entry) :=
  let mask := ev_mask ev in
  target <- read_target (ev_wd ev) ;;
  tg_deref target ;;;
  if bit mask IN_CREATE then ret (0, set_op_type FILE_ADD te)
  else if bit mask IN_DELETE then ret (0, set_op_type FILE_DELETE te)
  else if bit mask IN_DELETE_SELF then target_gone ev te
  else if bit mask IN_MODIFY then ret (0, set_op_type FILE_MODIFY te)
  else if bit mask IN_MOVE_SELF then target_gone ev te
  else if bit mask IN_MOVED_FROM then ret (0, set_op_type FILE_DELETE te)
  else if bit mask IN_MOVED_TO then ret (0, set_op_type FILE_ADD te)
  else if bit mask IN_ATTRIB then ret (0, set_op_type FILE_MODIFY te)
  else ret (-1, set_op_type FILE_NONE te).

(** The last [switch] of [handle_event]. *)
Definition apply_event (te : trans_file_entry) : M St unit :=
  match op_of (te_op_type te) with
  | Some FILE_ADD => on_table (file_table_add (Some te)) ;;; ret tt
  | Some FILE_MODIFY => on_table (file_table_update (Some te)) ;;; ret tt
  | Some FILE_DELETE => on_table (file_table_delete (Some te)) ;;; ret tt
  | Some FILE_NONE | None => ret tt
  end.

(** Its result, and the entry as it leaves it. *)
Definition handle_event (ev : inotify_event) (te : trans_file_entry) (sys_name : list Z) : M St (Z * trans_file_entry) :=
  if tricky_string sys_name then ret (0, te) else
  let te := set_te_type (if bit (ev_mask ev) IN_ISDIR then DIRECTORY else REGULAR) te in
  x <- on_targets (event_op ev te) ;;
  let '(r, te) := x in
  (if (te_op_type te =? op_code FILE_ADD) && (te_file_type te =? file_type_code DIRECTORY) then
     on_targets (watch_target_add sys_name (te_name te)) ;;; ret tt
   else ret tt) ;;;
  let '(r, te) :=
    if negb (te_op_type te =? op_code FILE_DELETE) && negb (te_op_type te =? op_code FILE_NONE) then
      get_trans_timestamp te sys_name
    else (r, te) in
  my_ip <- gets mn_ip ;;
  te <- some_or_oob (push_owner (PeerId my_ip P2P_PORT) te) ;;
  apply_event te ;;;
  ret (r, te).

(** The body of the loop over the events: the entry is built in the slot [tft.n],
    which keeps what is written there when [tft.n] is not advanced. *)
Definition monitor_event (ev : inotify_event) (tft : trans_file_table) : M St trans_file_table :=
  target <- on_targets (read_target (ev_wd ev)) ;;
  match target with
  | None => ret tft
  | Some _ =>
      t <- on_targets (tg_deref target) ;;
      te <- some_or_oob (tft_get tft (tft_n tft)) ;;
      name <- some_or_oob (ev_name ev) ;;
      logic_name <- (if ev_len ev =? 0 then into_name (tg_logic t) else sprintf_path (tg_logic t) name) ;;
      new_name <- (if ev_len ev =? 0 then into_name name else sprintf_path (tg_sys t) name) ;;
      x <- handle_event ev (set_te_name logic_name te) new_name ;;
      let '(r, te) := x in
      tft <- some_or_oob (tft_set tft (tft_n tft) te) ;;
      ret (if r =? 0 then TransTable (tft_n tft + 1) (tft_entries tft) else tft)
  end.

(** The loop over the buffer; every turn moves [offset] by at least [EVENT_LEN]. *)
Fixpoint event_loop (fuel : nat) (event_buf : list Z) (len offset : Z) (tft : trans_file_table) : M St trans_file_table :=
  match fuel with
  | O => ret tft
  | S fuel =>
      if (offset <? len) && (tft_n tft <? MAX_FILE_ENTRIES) then
        ev <- some_or_oob (event_at event_buf offset) ;;
        tft <- monitor_event ev tft ;;
        event_loop fuel event_buf len (i32 (offset + EVENT_LEN + ev_len ev)) tft
      else ret tft
  end.

(** One turn of the thread: [bytes] is what [read] gave, [None] its failure.  The
    buffer is not cleared between turns; it is the result. *)
Definition monitor_turn (event_buf : list Z) (bytes : option (list Z)) : M St (list Z) :=
  let '(event_buf, len) :=
    match bytes with
    | Some l => (overwrite l event_buf, Z.of_nat (length l))
    | None => (event_buf, -1)
    end in
  tft <- event_loop (S (length event_buf)) event_buf len 0 zero_table ;;
  my_ip <- gets mn_ip ;;
  pkt <- ptot_table_packet my_ip PEER_FILE_UPDATE tft ;;
  on_conn (send_ptot_packet pkt) ;;;
  ret event_buf.

(** ** Specification *)

(** The operation a mask stands for, by the first of these bits that is set, and
    whether it is the watched directory itself that went. *)
Definition mask_ops : list (Z * (operation_type * bool)) :=
  [(IN_CREATE, (FILE_ADD, false)); (IN_DELETE, (FILE_DELETE, false)); (IN_DELETE_SELF, (FILE_DELETE, true));
   (IN_MODIFY, (FILE_MODIFY, false)); (IN_MOVE_SELF, (FILE_DELETE, true)); (IN_MOVED_FROM, (FILE_DELETE, false));
   (IN_MOVED_TO, (FILE_ADD, false)); (IN_ATTRIB, (FILE_MODIFY, false))].
Definition op_of_mask (mask : Z) : option (operation_type * bool) := snd <$> List.find (λ p, bit mask p.1) mask_ops.

(** The watched directories, by descriptor: where they are and what they are called. *)
Record watches := Watches {
  wt_dirs : gmap Z (list Z * list Z);
  wt_kernel : K
}.

(** What an event announces of a watched directory: [None] is an event the
    specification does not cover, one on which the code overflows a buffer, fails
    to read the time of a file, or finds no operation. *)
Definition observed_names (ev : inotify_event) (dir : list Z * list Z) : option (list Z * list Z) :=
  name ← ev_name ev;
  let '(sys, logic) := if ev_len ev =? 0 then (name, dir.2) else (dir.1 ++ SLASH :: name, dir.2 ++ SLASH :: name) in
  if decide (length sys < MAX_NAME_LEN ∧ length logic < MAX_NAME_LEN)%nat then Some (sys, logic) else None.

Definition observed_watches (w : watches) (ev : inotify_event) (op : operation_type) (self : bool)
    (type : file_type) (sys logic : list Z) : option watches :=
  match op, type, self with
  | _, _, true => Some (Watches (delete (ev_wd ev) (wt_dirs w)) (inotify_rm_watch (ev_wd ev) (wt_kernel w)))
  | FILE_ADD, DIRECTORY, _ =>
      let '(wd, k) := inotify_add_watch sys DEFAULT_WATCH_MASK (wt_kernel w) in
      if decide (0 ≤ wd < WD_HASH_SIZE) then
        Some (Watches (if wt_dirs w !! wd then wt_dirs w else <[wd := (sys, logic)]> (wt_dirs w)) k)
      else None
  | _, _, _ => Some w
  end.

Definition observed_time (op : operation_type) (sys : list Z) : option Z :=
  match op with FILE_DELETE => Some 0 | _ => u64 <$> stat sys end.

(** The entry for version [ts] of a file, held by this machine alone. *)
Definition own_entry (my_ip : Z) (logic : list Z) (ts : Z) (op : operation_type) (type : file_type) : trans_file_entry :=
  TransEntry logic ts (op_code op) (file_type_code type) 1 (<[0%nat := PeerId my_ip P2P_PORT]> zero_owners).

Definition observe_one (my_ip : Z) (w : watches) (ev : inotify_event) : option (option trans_file_entry * watches) :=
  match wt_dirs w !! ev_wd ev with
  | None => if decide (0 ≤ ev_wd ev < WD_HASH_SIZE) then Some (None, w) else None
  | Some dir =>
      '(sys, logic) ← observed_names ev dir;
      if tricky_string sys then Some (Some (set_te_name logic zero_entry), w) else
      '(op, self) ← op_of_mask (ev_mask ev);
      let type := if self || bit (ev_mask ev) IN_ISDIR then DIRECTORY else REGULAR in
      ts ← observed_time op sys;
      w ← observed_watches w ev op self type sys logic;
      Some (Some (own_entry my_ip logic ts op type), w)
  end.

Fixpoint observe (my_ip : Z) (w : watches) (evs : list inotify_event) : option (list trans_file_entry * watches) :=
  match evs with
  | [] => Some ([], w)
  | ev :: evs =>
      '(te, w) ← observe_one my_ip w ev;
      '(tes, w) ← observe my_ip w evs;
      Some (option_list te ++ tes, w)
  end.

(** What an announced entry does to the files this machine knows. *)
Definition local_apply (te : trans_file_entry) (v : fview) : fview :=
  match op_of (te_op_type te) with
  | Some FILE_ADD => learn te v
  | Some FILE_MODIFY => if v !! te_name te then learn te v else v
  | Some FILE_DELETE => delete (te_name te) v
  | Some FILE_NONE | None => v
  end.
Definition local_apply_all (tes : list trans_file_entry) (v : fview) : fview := fold_left (λ v te, local_apply te v) tes v.

(** The table of targets has these watches. *)
Definition shows (w : watches) (s : mstate K) : Prop :=
  ms_kernel s = wt_kernel w ∧
  ∀ wd dir, wt_dirs w !! wd = Some dir ↔
    ∃ i t, ms_heap s !! i = Some t ∧ tg_wd t = wd ∧ dir = (tg_sys t, tg_logic t).

(** The bytes of an event as the kernel writes it: the name is followed by at least
    one NUL when there is one (inotify(7)). *)
Record raw_event := Raw { raw_wd : Z; raw_mask : Z; raw_name : list Z; raw_pad : nat }.
Definition raw_len (r : raw_event) : Z := Z.of_nat (length (raw_name r) + raw_pad r).
Definition raw_bytes (r : raw_event) : list Z :=
  le 4 (raw_wd r) ++ le 4 (raw_mask r) ++ le 4 0 ++ le 4 (raw_len r) ++ raw_name r ++ zeros (raw_pad r).
Definition raw_ok (r : raw_event) : Prop :=
  is_i32 (raw_wd r) ∧ is_u32 (raw_mask r) ∧ is_u32 (raw_len r) ∧ Forall is_char (raw_name r) ∧
  (raw_name r = [] ∨ (0 < raw_pad r)%nat).
Definition raws_bytes (rs : list raw_event) : list Z := concat (raw_bytes <$> rs).

(** How the thread reads them: an event without a name is given the string that
    follows it in the buffer. *)
Definition as_read (r : raw_event) (post : list Z) : inotify_event :=
  Event (raw_wd r) (raw_mask r) (raw_len r) (if raw_len r =? 0 then string_at post 0 else Some (raw_name r)).
Fixpoint all_read (rs : list raw_event) (post : list Z) : list inotify_event :=
  match rs with
  | [] => []
  | r :: rs => as_read r (raws_bytes rs ++ post) :: all_read rs post
  end.

(** ** Lemmas: the table of targets *)
Context {L : KernelLaws K}.

Record targets_good (w : watches) (s : mstate K) : Prop := {
  tgood_ok : mt_ok s;
  tgood_calloc : ms_calloc s = [];
  tgood_shows : shows w s
}.

Lemma shows_read w s wd dir :
  targets_good w s → wt_dirs w !! wd = Some dir →
  ∃ i t, read_target wd s = Ok (Some i, s) ∧ ms_heap s !! i = Some t ∧ tg_wd t = wd ∧ dir = (tg_sys t, tg_logic t).
Proof.
  intros [Hok _ [_ Hs]] (i & t & Hi & <- & ->)%Hs. exists i, t. destruct (mo_slot s Hok _ _ Hi) as [Hr Ht].
  split_and!; [|done..]. rw /read_target decide_True // Ht //.
Qed.
Lemma shows_read_none w s wd :
  targets_good w s → wt_dirs w !! wd = None → 0 ≤ wd < WD_HASH_SIZE → read_target wd s = Ok (None, s).
Proof.
  intros [Hok _ [_ Hs]] Hnone Hr. rw /read_target decide_True //.
  destruct (ms_targets s !! Z.to_nat wd) as [[i|]|] eqn:E; [|done|done]. exfalso.
  destruct (mo_back s Hok _ _ E) as (t & Hi & Ew). pose proof (mo_slot s Hok _ _ Hi) as [Hr' _].
  assert (Hsome : wt_dirs w !! wd = Some (tg_sys t, tg_logic t)) by (apply Hs; exists i, t; split_and!; [done|lia|done]).
  congruence.
Qed.

Lemma shows_dropped w s i t :
  targets_good w s → ms_heap s !! i = Some t →
  targets_good (Watches (delete (tg_wd t) (wt_dirs w)) (inotify_rm_watch (tg_wd t) (wt_kernel w))) (target_dropped s i t).
Proof.
  intros [Hok Hc [Hk Hs]] Hi. split; [by apply unwatch_run|done|].
  split; [by rw /= Hk|]. intros wd dir. cbn [wt_dirs target_dropped ms_heap]. rw lookup_delete_Some Hs. split.
  - intros (Hne & j & t' & Hj & Hw & ->). exists j, t'. split_and!; [|done..].
    rw lookup_delete_ne //. intros <-. congruence.
  - intros (j & t' & [Hne Hj]%lookup_delete_Some & Hw & ->). split; [|by eauto].
    intros E. apply Hne. rw -Hw in E. by eapply mt_wd_inj.
Qed.

Lemma shows_rewatched w s i t m :
  targets_good w s → ms_heap s !! i = Some t → 0 ≤ (inotify_add_watch (tg_sys t) m (wt_kernel w)).1 →
  (inotify_add_watch (tg_sys t) m (wt_kernel w)).1 = tg_wd t ∧
  targets_good (Watches (wt_dirs w) (inotify_add_watch (tg_sys t) m (wt_kernel w)).2)
    (ms_set_kernel (inotify_add_watch (tg_sys t) m (wt_kernel w)).2 s).
Proof.
  intros [Hok Hc [Hk Hs]] Hi. rw -Hk. intros Hwd. destruct (rewatch s i t m Hok Hi Hwd) as (E & Hok' & _).
  split; [done|]. by split.
Qed.

Lemma shows_added w s sys logic :
  let wd := (inotify_add_watch sys DEFAULT_WATCH_MASK (wt_kernel w)).1 in
  let k := (inotify_add_watch sys DEFAULT_WATCH_MASK (wt_kernel w)).2 in
  targets_good w s → (∀ i t, ms_heap s !! i = Some t → tg_sys t ≠ sys) → 0 ≤ wd < WD_HASH_SIZE →
  wt_dirs w !! wd = None ∧
  targets_good (Watches (<[wd := (sys, logic)]> (wt_dirs w)) k) (target_added s (Target wd sys logic) k).
Proof.
  intros wd k [Hok Hc [Hk Hs]] Hnew Hr. destruct (added_ok s sys logic Hok) as [Hok' Hfree]; [done|by rw Hk|].
  rw Hk -/wd -/k in Hok' Hfree.
  assert (Hnone : wt_dirs w !! wd = None).
  { destruct (wt_dirs w !! wd) as [dir|] eqn:E; [|done]. apply Hs in E as (i & t & Hi & Hw & _). by destruct (Hfree i t). }
  assert (Hnh : ms_heap s !! ms_next s = None).
  { destruct (ms_heap s !! ms_next s) as [t|] eqn:E; [|done].
    pose proof (mo_fresh s Hok (ms_next s)) as Hfr. rw -(mo_live s Hok) in Hfr. specialize (Hfr ltac:(by eexists)). lia. }
  split; [done|]. split; [done|done|]. split; [done|]. intros wd' dir. cbn [wt_dirs target_added ms_heap]. split.
  - intros [[<- <-]|[Hne Hd]]%lookup_insert_Some.
    + eexists _, _. split; [apply lookup_insert_eq|done].
    + apply Hs in Hd as (i & t & Hi & ?). exists i, t. split; [|done]. rw lookup_insert_ne //. congruence.
  - intros (i & t & [[<- <-]|[Hne Hi]]%lookup_insert_Some & Hw & ->).
    + apply lookup_insert_Some. by left.
    + apply lookup_insert_Some. right. split; [|apply Hs; by eauto]. rw -Hw. intros E. by eapply Hfree.
Qed.

(** [watch_target_add] on a table with these watches. *)
Lemma watch_target_add_good w s sys logic :
  let wd := (inotify_add_watch sys DEFAULT_WATCH_MASK (wt_kernel w)).1 in
  let k := (inotify_add_watch sys DEFAULT_WATCH_MASK (wt_kernel w)).2 in
  targets_good w s → 0 ≤ wd < WD_HASH_SIZE → (length sys < MAX_NAME_LEN)%nat → (length logic < MAX_NAME_LEN)%nat →
  wp (watch_target_add sys logic) (λ _ s', targets_good
     (Watches (if wt_dirs w !! wd then wt_dirs w else <[wd := (sys, logic)]> (wt_dirs w)) k) s') s.
Proof.
  intros wd k Hg Hr Hl1 Hl2. pose proof Hg as [Hok Hc [Hk Hs]].
  destruct (wd_at (ms_kernel s) sys) as [w0|] eqn:E.
  - destruct (mo_only s Hok _ _ E) as (i & t & Hi & <-).
    destruct (shows_rewatched w s i t DEFAULT_WATCH_MASK Hg Hi ltac:(lia)) as [Ew Hg']. fold wd k in Ew, Hg'.
    rw /wp (watch_target_add_known s i t) //; [by rw Hk; lia|]. rw Hk -/k.
    rw (proj2 (Hs wd (tg_sys t, tg_logic t))) //. by exists i, t.
  - assert (Hnew : ∀ i t, ms_heap s !! i = Some t → tg_sys t ≠ sys).
    { intros i t Hi <-. rw (mo_kernel s Hok _ _ Hi) in E. done. }
    destruct (shows_added w s sys logic Hg Hnew Hr) as [Hnone Hg']. fold wd k in Hnone, Hg'.
    rw /wp watch_target_add_new // ?Hk // -/wd -/k. by rw Hnone.
Qed.

(** ** Lemmas: one event *)
Lemma op_of_mask_cascade mask op self {A} (f : operation_type → bool → A) (none : A) :
  op_of_mask mask = Some (op, self) →
  (if bit mask IN_CREATE then f FILE_ADD false
   else if bit mask IN_DELETE then f FILE_DELETE false
   else if bit mask IN_DELETE_SELF then f FILE_DELETE true
   else if bit mask IN_MODIFY then f FILE_MODIFY false
   else if bit mask IN_MOVE_SELF then f FILE_DELETE true
   else if bit mask IN_MOVED_FROM then f FILE_DELETE false
   else if bit mask IN_MOVED_TO then f FILE_ADD false
   else if bit mask IN_ATTRIB then f FILE_MODIFY false
   else none) = f op self.
Proof.
  rw /op_of_mask. cbn [List.find mask_ops fst].
  do 8 (case_match; [by intros [= <- <-]|]). done.
Qed.

Lemma self_is_delete mask op : op_of_mask mask = Some (op, true) → op = FILE_DELETE.
Proof. rw /op_of_mask. cbn [List.find mask_ops fst]. do 8 (case_match; [by intros [= <-]|]). done. Qed.

Lemma op_of_mask_some mask self : op_of_mask mask ≠ Some (FILE_NONE, self).
Proof. rw /op_of_mask. cbn [List.find mask_ops fst]. do 8 (case_match; [done|]). done. Qed.

Lemma event_op_run w s ev te op self i t :
  targets_good w s → read_target (ev_wd ev) s = Ok (Some i, s) → ms_heap s !! i = Some t → 
  op_of_mask (ev_mask ev) = Some (op, self) →
  event_op ev te s =
    Ok ((0, if self then set_te_type DIRECTORY (set_op_type op te) else set_op_type op te),
        if self then target_dropped s i t else s).
Proof.
  intros [Hok _ _] Hread Hi Hop. rw /event_op {1}/bind Hread {1}/bind {1}/tg_deref Hi.
  set (fin := λ (op : operation_type) (self : bool), if self then target_gone ev te else ret (0, set_op_type op te)).
  transitivity (fin op self s).
  { by rw -(op_of_mask_cascade _ _ _ fin (ret (-1, set_op_type FILE_NONE te)) Hop). }
  rw /fin. destruct self; [|done].
  rw /target_gone {1}/bind Hread {1}/bind (proj1 (unwatch_run s i t Hok Hi)).
  by destruct (self_is_delete _ _ Hop) as [].
Qed.

(** The state of the monitor between two events. *)
Record mon_good (F : gset (list Z)) (P : gset Z) (w : watches) (s : St) : Prop := {
  mgood_targets : targets_good w (mn_targets s);
  mgood_table : bounded F P (mn_ft s);
  mgood_oom : no_oom (mn_ft s)
}.

Section deployment.
Context {F : gset (list Z)} {P : gset Z} `{D : !Deployment F P}.

Lemma apply_event_wp te w s :
  mon_good F P w s → known F P te →
  wp (apply_event te) (λ _ s', mon_good F P w s' ∧ mn_targets s' = mn_targets s ∧ mn_ip s' = mn_ip s ∧ mn_conn s' = mn_conn s ∧
    view (mn_ft s') = local_apply te (view (mn_ft s))) s.
Proof.
  intros [Ht Hb Ho] Hk. rw /apply_event /local_apply. destruct (op_of (te_op_type te)) as [[]|].
  - by apply wp_ret.
  - apply wp_bind, wp_on_table. eapply wp_mono; [by eapply table_add_wp|]. intros r t (Hb' & Hoom & _).
    destruct (Hoom Ho) as [Ho' Hv]. by apply wp_ret.
  - apply wp_bind, wp_on_table. eapply wp_mono; [by eapply table_delete_wp|]. intros r t (Hb' & Hoom & Hv & _).
    apply wp_ret. split_and!; [split; auto|done..].
  - apply wp_bind, wp_on_table. destruct (view (mn_ft s) !! te_name te) as [e|] eqn:E.
    + eapply wp_mono; [by eapply table_update_wp|]. intros r t (Hb' & Hoom).
      destruct (Hoom Ho) as [Ho' Hv]. apply wp_ret. split_and!; [done..|]. apply Hv. by eexists.
    + eapply wp_mono; [by eapply table_update_none|]. intros r t ->. by apply wp_ret.
  - by apply wp_ret.
Qed.

Lemma own_entry_known my_ip logic ts op type : logic ∈ F → my_ip ∈ P → known F P (own_entry my_ip logic ts op type).
Proof.
  intros HF HP. split; [split; [done|cbn; rw /MAX_PEER_ENTRIES; lia]|]. split; [done|].
  by intros p ->%list_elem_of_singleton.
Qed.

Lemma wp_on_targets {A} (m : M (mstate K) A) (Q : A → St → Prop) (s : St) :
  wp m (λ a t, Q a (Mon t (mn_ft s) (mn_ip s) (mn_conn s))) (mn_targets s) → wp (on_targets m) Q s.
Proof. intros Hm. by apply wp_zoom. Qed.

(** A new directory is watched. *)
Lemma watch_new_dir w s ev op type sys logic w1 (te : trans_file_entry) :
  mon_good F P w s → observed_watches w ev op false type sys logic = Some w1 →
  te_op_type te = op_code op → te_file_type te = file_type_code type → te_name te = logic →
  (length sys < MAX_NAME_LEN)%nat → (length logic < MAX_NAME_LEN)%nat →
  wp (if (te_op_type te =? op_code FILE_ADD) && (te_file_type te =? file_type_code DIRECTORY)
      then on_targets (watch_target_add sys (te_name te)) ;;; ret tt else ret tt)
     (λ _ s', mon_good F P w1 s' ∧ mn_ft s' = mn_ft s ∧ mn_ip s' = mn_ip s ∧ mn_conn s' = mn_conn s) s.
Proof.
  intros [Ht Hb Ho] Hw -> -> <- Hl1 Hl2.
  destruct op, type; simpl; cbn [observed_watches] in Hw; try (injection Hw as <-; by apply wp_ret).
  destruct (inotify_add_watch _ _ _) as [wd k] eqn:E. case_decide as Hr; [|done]. injection Hw as <-.
  apply wp_bind, wp_on_targets.
  eapply wp_mono; [apply (watch_target_add_good w _ sys (te_name te)); [done|by rw E|done|done]|].
  rw E. intros r t Ht'. by apply wp_ret.
Qed.

Lemma handle_event_wp w s ev dir sys logic te w1 :
  mon_good F P w s → wt_dirs w !! ev_wd ev = Some dir → observed_names ev dir = Some (sys, logic) →
  observe_one (mn_ip s) w ev = Some (Some te, w1) → logic ∈ F → mn_ip s ∈ P →
  wp (handle_event ev (set_te_name logic zero_entry) sys) (λ x s', x = (0, te) ∧
     mon_good F P w1 s' ∧ view (mn_ft s') = local_apply te (view (mn_ft s)) ∧ 
     mn_ip s' = mn_ip s ∧ mn_conn s' = mn_conn s) s.
Proof.
  intros Hg Hdir Hnames Hobs HF HP. rw /observe_one Hdir Hnames /= in Hobs.
  assert (Hlen : (length sys < MAX_NAME_LEN ∧ length logic < MAX_NAME_LEN)%nat).
  { rw /observed_names in Hnames. destruct (ev_name ev); simpl in Hnames; [|done].
    destruct (ev_len ev =? 0); case_decide; simplify_eq; done. }
  destruct Hlen as [Hl1 Hl2]. rw /handle_event. destruct (tricky_string sys).
  { injection Hobs as <- <-. by apply wp_ret. }
  destruct (op_of_mask (ev_mask ev)) as [[op self]|] eqn:Hop; simpl in Hobs; [|done].
  set (type := if self || _ then _ else _) in Hobs.
  destruct (observed_time op sys) as [ts|] eqn:Hts; simpl in Hobs; [|done].
  destruct (observed_watches w ev op self type sys logic) as [w2|] eqn:Hw; simpl in Hobs; [|done].
  injection Hobs as <- <-. pose proof Hg as [Ht Hb Ho].
  destruct (shows_read _ _ _ _ Ht Hdir) as (i & t & Hread & Hi & Hwd & ->).
  set (te1 := TransEntry logic 0 (op_code op) (file_type_code type) 0 zero_owners).
  assert (Hop_run : wp (on_targets (event_op ev (set_te_type (if bit (ev_mask ev) IN_ISDIR then DIRECTORY else REGULAR)
              (set_te_name logic zero_entry)))) (λ x s1, x = (0, te1) ∧ mn_ft s1 = mn_ft s ∧ mn_ip s1 = mn_ip s ∧
              mn_conn s1 = mn_conn s ∧ ∃ w1, mon_good F P w1 s1 ∧ observed_watches w1 ev op false type sys logic = Some w2) s).
  { apply wp_on_targets. rw /wp (event_op_run w _ _ _ op self i t) //. rw /te1 /type. destruct self.
    - rw (self_is_delete _ _ Hop) in Hw *. injection Hw as <-. split_and!; [done..|].
      eexists. split; [|done]. rw -Hwd. split; [by apply shows_dropped|done|done].
    - split_and!; [done..|]. by exists w. }
  apply wp_bind. eapply wp_mono; [exact Hop_run|]. intros x s1 (-> & E1 & E2 & E3 & w1 & Hg1 & Hw1). clear Hop_run.
  apply wp_bind. eapply wp_mono; [by eapply watch_new_dir|]. intros ? s2 (Hg2 & E4 & E5 & E6).
  assert (Hte : (if negb (te_op_type te1 =? op_code FILE_DELETE) && negb (te_op_type te1 =? op_code FILE_NONE)
                 then get_trans_timestamp te1 sys else (0, te1)) = (0, set_te_timestamp ts te1)).
  { rw /get_trans_timestamp /te1. destruct op; simpl in *; try done;
      [by apply op_of_mask_some in Hop|..]; destruct (stat sys); simpl in Hts; try done; by injection Hts as <-. }
  rw Hte. cbn beta iota. apply wp_bind, wp_gets, wp_bind.
  change (push_owner (PeerId (mn_ip s2) P2P_PORT) (set_te_timestamp ts te1))
    with (Some (own_entry (mn_ip s2) logic ts op type)).
  apply wp_ret, wp_bind. eapply wp_mono; [apply apply_event_wp; [done|apply own_entry_known; [done|congruence]]|].
  intros ? s3 (Hg3 & _ & E7 & E8 & Hv). apply wp_ret. split_and!; [congruence|done|congruence..].
Qed.

Lemma tft_set_end t te :
  packed t → tft_n t < MAX_FILE_ENTRIES → tft_set t (tft_n t) te = Some (TransTable (tft_n t) (tft_entries t ++ [te])).
Proof.
  intros Hp Hn. pose proof (tft_push_packed t te Hp Hn) as Hpush. rw /tft_push in Hpush.
  rw /tft_set in Hpush *. destruct (in_table (tft_n t)); simpl in *; [|done].
  injection Hpush as E. by rw E.
Qed.

Lemma observed_names_run w s ev i t sys logic :
  targets_good w s → ms_heap s !! i = Some t → observed_names ev (tg_sys t, tg_logic t) = Some (sys, logic) →
  ∃ name, ev_name ev = Some name ∧
    (if ev_len ev =? 0 then into_name (tg_logic t) else sprintf_path (tg_logic t) name) = (ret logic : M St _) ∧
    (if ev_len ev =? 0 then into_name name else sprintf_path (tg_sys t) name) = (ret sys : M St _).
Proof.
  intros Ht Hi. rw /observed_names. destruct (ev_name ev) as [name|]; simpl; [|done]. intros Hn.
  exists name. split; [done|]. rw /sprintf_path /into_name.
  destruct (ev_len ev =? 0); case_decide as Hl; try done; injection Hn as <- <-; by rw !decide_True; try apply Hl.
Qed.

Lemma monitor_event_wp w s ev te w1 tft :
  mon_good F P w s → observe_one (mn_ip s) w ev = Some (te, w1) → (∀ e, te = Some e → te_name e ∈ F) → mn_ip s ∈ P →
  small_table tft → tft_n tft < MAX_FILE_ENTRIES →
  wp (monitor_event ev tft) (λ tft' s', tft' = TransTable (tft_n tft + Z.of_nat (length (option_list te))) (tft_entries tft ++ option_list te) ∧
     mon_good F P w1 s' ∧ view (mn_ft s') = local_apply_all (option_list te) (view (mn_ft s)) ∧
     mn_ip s' = mn_ip s ∧ mn_conn s' = mn_conn s) s.
Proof.
  intros Hg Hobs HF HP Hsm Hn. pose proof Hg as [Ht _ _]. pose proof Hsm as [Hp _]. rw /monitor_event.
  pose proof Hobs as Hobs'. rw /observe_one in Hobs'. destruct (wt_dirs w !! ev_wd ev) as [dir|] eqn:Hdir.
  2: { case_decide as Hr; [|done]. injection Hobs' as <- <-. apply wp_bind, wp_on_targets.
       rw /wp (shows_read_none w) //. rw Z.add_0_r app_nil_r. by destruct tft, s. }
  destruct (shows_read _ _ _ _ Ht Hdir) as (i & t & Hread & Hi & Hwd & ->).
  destruct (observed_names _ _) as [[sys logic]|] eqn:Hnames; simpl in Hobs'; [|done].
  destruct te as [te|].
  2: { exfalso. destruct (tricky_string sys); [done|]. destruct (op_of_mask _) as [[op self]|]; simpl in Hobs'; [|done].
       destruct (observed_time op sys); simpl in Hobs'; [|done]. by destruct (observed_watches _ _ _ _ _ _ _). }
  destruct (observed_names_run w _ ev i t sys logic Ht Hi Hnames) as (name & Hname & E1 & E2).
  apply wp_bind, wp_on_targets. rw {1}/wp Hread. apply wp_bind, wp_on_targets. rw {1}/wp /tg_deref Hi.
  rw small_table_get //. apply wp_bind, wp_ret. rw Hname. apply wp_bind, wp_ret.
  rw E1. apply wp_bind, wp_ret. rw E2. apply wp_bind, wp_ret.
  replace (Mon _ _ _ _) with s by by destruct s.
  assert (Hlogic : logic = te_name te).
  { destruct (tricky_string sys); [by injection Hobs' as <- _|].
    destruct (op_of_mask _) as [[op self]|]; simpl in Hobs'; [|done].
    destruct (observed_time op sys); simpl in Hobs'; [|done]. destruct (observed_watches _ _ _ _ _ _ _); [|done].
    by injection Hobs' as <- _. }
  assert (HFl : logic ∈ F) by (rw Hlogic; by apply HF).
  apply wp_bind. eapply wp_mono; [by apply (handle_event_wp w s ev (tg_sys t, tg_logic t) sys logic te w1)|].
  intros x s' (-> & Hg' & Hv & E3 & E4). rw tft_set_end //.
Qed.

(** ** Lemmas: the buffer *)

(** From [offset] the buffer holds these events, up to [len]. *)
Fixpoint events_in (buf : list Z) (len offset : Z) (evs : list inotify_event) : Prop :=
  match evs with
  | [] => offset = len
  | ev :: evs => event_at buf offset = Some ev ∧ 0 ≤ ev_len ev ∧ events_in buf len (offset + EVENT_LEN + ev_len ev) evs
  end.

Lemma events_in_length buf len offset evs : events_in buf len offset evs → offset + EVENT_LEN * Z.of_nat (length evs) ≤ len.
Proof.
  revert offset. induction evs as [|ev evs IH]; intros offset; cbn [events_in length]; [lia|].
  intros (_ & Hl & Hev%IH). rw /EVENT_LEN in Hev *. lia.
Qed.

Lemma event_loop_wp buf len evs : ∀ offset w s tft tes w1 fuel,
  events_in buf len offset evs → observe (mn_ip s) w evs = Some (tes, w1) → 0 ≤ offset → len ≤ EVENT_BUF_LEN →
  mon_good F P w s → (∀ te, te ∈ tes → te_name te ∈ F) → mn_ip s ∈ P →
  small_table tft → tft_n tft + Z.of_nat (length evs) < MAX_FILE_ENTRIES → (length evs < fuel)%nat →
  wp (event_loop fuel buf len offset tft) (λ tft' s',
     tft' = TransTable (tft_n tft + Z.of_nat (length tes)) (tft_entries tft ++ tes) ∧ mon_good F P w1 s' ∧
     view (mn_ft s') = local_apply_all tes (view (mn_ft s)) ∧ mn_ip s' = mn_ip s ∧ mn_conn s' = mn_conn s) s.
Proof.
  induction evs as [|ev evs IH]; intros offset w s tft tes w1 fuel Hin Hobs H0 Hlen Hg HF HP Hsm Hmax Hf;
    (destruct fuel as [|fuel]; [simpl in Hf; lia|]); cbn [event_loop].
  { cbn in Hin, Hobs. subst offset. injection Hobs as <- <-. rw Z.ltb_irrefl. apply wp_ret.
    rw Z.add_0_r app_nil_r. by destruct tft. }
  pose proof (events_in_length _ _ _ _ Hin) as Hroom. cbn [length] in Hroom, Hmax, Hf. rw /EVENT_LEN in Hroom.
  destruct Hin as (Hev & Hl & Hin). pose proof (events_in_length _ _ _ _ Hin) as Hroom'.
  rw (proj2 (Z.ltb_lt offset len)); [lia|]. rw (proj2 (Z.ltb_lt _ _)); [lia|]. rw Hev. apply wp_bind, wp_ret.
  cbn [observe] in Hobs. destruct (observe_one _ w ev) as [[te w2]|] eqn:Hone; simpl in Hobs; [|done].
  destruct (observe _ w2 evs) as [[tes' w3]|] eqn:Hrest; simpl in Hobs; [|done]. injection Hobs as <- <-.
  assert (Hte : ∀ e, te = Some e → te_name e ∈ F) by (intros e ->; apply HF; by left).
  apply wp_bind. eapply wp_mono; [apply (monitor_event_wp w s ev te w2); [done..|lia]|].
  intros tft' s' (-> & Hg' & Hv & E1 & E2).
  assert (Hn : (length (option_list te) ≤ 1)%nat) by (destruct te; simpl; lia).
  rw i32_id; [rw /EVENT_BUF_LEN /EVENT_LEN in Hlen Hroom' *; lia|].
  eapply wp_mono; [eapply (IH _ w2 s'); [done|by rw E1|rw /EVENT_LEN; lia|done|done| |by rw E1| |cbn [tft_n]; lia|lia]|].
  - intros e He. apply HF, elem_of_app. by right.
  - destruct Hsm as [Hp Hm]. split; [rw /packed /= length_app Nat2Z.inj_add -Hp //|cbn [tft_n]; lia].
  - intros tft' s1 (-> & Hg1 & Hv1 & E3 & E4). cbn [tft_n tft_entries].
    split_and!; [|done| |congruence|congruence].
    + rw length_app Nat2Z.inj_add -app_assoc Z.add_assoc //.
    + rw Hv1 Hv /local_apply_all fold_left_app //.
Qed.

Lemma c_string_app name l : Forall is_char name → c_string (name ++ 0 :: l) = name.
Proof.
  induction 1 as [|c name Hc _ IH]; [done|]. cbn [app c_string]. destruct (Z.eqb_spec c 0) as [->|]; [by destruct Hc|].
  by rw IH.
Qed.

Lemma event_at_raw pre r post :
  raw_ok r → event_at (pre ++ raw_bytes r ++ post) (Z.of_nat (length pre)) = Some (as_read r post).
Proof.
  intros (Hwd & Hmask & Hlen & Hname & Hpad).
  rw /event_at Nat2Z.id (proj2 (Z.leb_le 0 _)); [lia|]. rw (proj2 (Z.leb_le _ _)).
  { rw /raw_bytes !length_app !length_le /EVENT_LEN. lia. }
  rw andb_true_l. f_equal.
  assert (Hget : ∀ k l, get (length pre + k) 4 (pre ++ l) = get k 4 l).
  { intros k l. rw /get slice_skip; [lia|]. do 2 f_equal. lia. }
  pose proof (Hget 0%nat) as Hget0. rw Nat.add_0_r in Hget0. rw !Hget Hget0.
  assert (E1 : get 0 4 (raw_bytes r ++ post) = unle (le 4 (raw_wd r))) by by rw /raw_bytes /get -!app_assoc slice_here.
  assert (E2 : get 4 4 (raw_bytes r ++ post) = unle (le 4 (raw_mask r))).
  { rw /raw_bytes /get -!app_assoc. find_slice. }
  assert (E3 : get 12 4 (raw_bytes r ++ post) = unle (le 4 (raw_len r))).
  { rw /raw_bytes /get -!app_assoc. find_slice. }
  rw E1 E2 E3 unle_le_i32 // !unle_le_id //. rw /as_read. f_equal.
  assert (E4 : string_at (pre ++ raw_bytes r ++ post) (length pre + 16) = string_at (raw_name r ++ zeros (raw_pad r) ++ post) 0).
  { rw /string_at. replace (drop (length pre + 16) _) with (raw_name r ++ zeros (raw_pad r) ++ post); [done|].
    rw drop_app_ge; [lia|]. replace (length pre + 16 - length pre)%nat with 16%nat by lia. 
    rw /raw_bytes -!app_assoc. done. }
  rw E4 /raw_len. destruct (raw_pad r) as [|pad].
  - destruct Hpad as [->|?]; [done|lia].
  - rw (proj2 (Z.eqb_neq _ _)); [lia|]. rw /string_at drop_0 bool_decide_true; [|by f_equal; apply c_string_app].
    apply elem_of_app. right. by left.
Qed.

Lemma all_read_in rs : ∀ pre post,
  Forall raw_ok rs →
  events_in (pre ++ raws_bytes rs ++ post) (Z.of_nat (length pre + length (raws_bytes rs))) (Z.of_nat (length pre)) (all_read rs post).
Proof.
  induction rs as [|r rs IH]; intros pre post Hok; cbn [all_read events_in]; [by rw Nat.add_0_r|].
  apply Forall_cons in Hok as [Hr Hok]. 
  assert (E : raws_bytes (r :: rs) = raw_bytes r ++ raws_bytes rs) by done.
  assert (Hlen : Z.of_nat (length (raw_bytes r)) = EVENT_LEN + raw_len r).
  { rw /raw_bytes /raw_len !length_app !length_le length_zeros /EVENT_LEN. lia. }
  rw E -app_assoc. split; [by apply event_at_raw|]. split; [cbn [ev_len as_read]; rw /raw_len; lia|].
  specialize (IH (pre ++ raw_bytes r) post Hok). rw -app_assoc length_app in IH. cbn [ev_len as_read].
  rw -Z.add_assoc -Hlen length_app -!Nat2Z.inj_add Nat.add_assoc. exact IH.
Qed.

Lemma events_in_unique buf len : ∀ evs offset evs', events_in buf len offset evs → events_in buf len offset evs' → evs = evs'.
Proof.
  induction evs as [|ev evs IH]; intros offset [|ev' evs']; cbn [events_in]; [done|..].
  - intros -> (_ & Hl & Hin). apply events_in_length in Hin. rw /EVENT_LEN in Hin. lia.
  - intros (_ & Hl & Hin) ->. apply events_in_length in Hin. rw /EVENT_LEN in Hin. lia.
  - intros (E & _ & Hin) (E' & _ & Hin'). assert (ev' = ev) as -> by congruence. f_equal. by eapply IH.
Qed.

Lemma length_all_read rs post : length (all_read rs post) = length rs.
Proof. induction rs as [|r rs IH]; [done|]. by rw /= IH. Qed.

(** A batch of events: the file table, the directories and the packet that is sent. *)
Lemma monitor_turn_run w s buf bytes evs tes w1 :
  let event_buf := overwrite bytes buf in
  events_in event_buf (Z.of_nat (length bytes)) 0 evs → observe (mn_ip s) w evs = Some (tes, w1) →
  Z.of_nat (length bytes) ≤ EVENT_BUF_LEN → Z.of_nat (length tes) ≤ MAX_SENT_ENTRIES →
  mon_good F P w s → (∀ te, te ∈ tes → te_name te ∈ F) → mn_ip s ∈ P → oc_answers (mn_conn s) = [] →
  wp (monitor_turn buf (Some bytes)) (λ buf' s', buf' = event_buf ∧ mon_good F P w1 s' ∧
     view (mn_ft s') = local_apply_all tes (view (mn_ft s)) ∧ mn_ip s' = mn_ip s ∧
     mn_conn s' = OutConn (oc_sent (mn_conn s) ++ 
       frame (ptot_bytes (table_request (mn_ip s) PEER_FILE_UPDATE (TransTable (Z.of_nat (length tes)) tes)))) []) s.
Proof.
  intros event_buf Hin Hobs Hlen Hfit Hg HF HP Hc. rw /monitor_turn -/event_buf. apply wp_bind.
  pose proof (events_in_length _ _ _ _ Hin) as Hroom. rw /EVENT_BUF_LEN /EVENT_LEN in Hlen Hroom.
  assert (Hbuf : (length bytes ≤ length event_buf)%nat) by (rw /event_buf /overwrite length_app; lia).
  eapply wp_mono; [apply (event_loop_wp event_buf _ evs 0 w s zero_table tes w1); try done|].
  - cbn [tft_n zero_table]. rw /MAX_FILE_ENTRIES. lia.
  - lia.
  - intros tft s' (-> & Hg' & Hv & E1 & E2). apply wp_bind, wp_gets, wp_bind. rw E1.
    set (t := TransTable (Z.of_nat (length tes)) tes). 
    rw /wp (ptot_table_packet_run (mn_ip s) PEER_FILE_UPDATE t); [done|rw /t /MAX_SENT_ENTRIES /MAX_FILE_ENTRIES /= in Hfit *; lia|].
    rw (proj2 (Z.leb_le _ _)) //. rw /on_conn /bind /zoom E2 send_ptot_packet_run //.
    { assert (Hu : is_u16 (trans_table_len t)) by by apply fit_u16. by destruct Hu. }
    rw /ret. split_and!; [done|by destruct Hg'; split|done..].
Qed.

(** ** Lemmas: a slot that is used again *)

(** The event announces nothing because [stat] fails, and the watches stay as they are. *)
Definition stat_fails (w : watches) (ev : inotify_event) : Prop :=
  ∃ dir sys logic op,
    wt_dirs w !! ev_wd ev = Some dir ∧ observed_names ev dir = Some (sys, logic) ∧ tricky_string sys = false ∧
    op_of_mask (ev_mask ev) = Some (op, false) ∧ op ≠ FILE_DELETE ∧ stat sys = None ∧ logic ∈ F ∧
    observed_watches w ev op false (if bit (ev_mask ev) IN_ISDIR then DIRECTORY else REGULAR) sys logic = Some w.

(** [k] owners were left in the slot. *)
Definition slot_has (k : nat) (tft : trans_file_table) : Prop :=
  tft_n tft = 0 ∧ ∃ te, tft_get tft 0 = Some te ∧ te_wf te ∧ te_owner_n te = Z.of_nat k ∧ (∀ p, p ∈ owners_of te → ip p ∈ P).

(** Such an event up to the owners. *)
Lemma failing_event_run w s ev tft te :
  mon_good F P w s → stat_fails w ev → tft_n tft = 0 → tft_get tft 0 = Some te →
  ∃ s1 te1, mon_good F P w s1 ∧ mn_ip s1 = mn_ip s ∧ te_owner_n te1 = te_owner_n te ∧ te_owners te1 = te_owners te ∧ te_name te1 ∈ F ∧
    monitor_event ev tft s =
      (te <- some_or_oob (push_owner (PeerId (mn_ip s) P2P_PORT) te1) ;;
       apply_event te ;;; tft <- some_or_oob (tft_set tft 0 te) ;; ret tft) s1.
Proof.
  intros Hg (dir & sys & logic & op & Hdir & Hnames & Htr & Hop & Hdel & Hstat & HF & Hw) Hn Hget.
  pose proof Hg as [Ht _ _]. destruct (shows_read _ _ _ _ Ht Hdir) as (i & t & Hread & Hi & Hwd & ->).
  destruct (observed_names_run w _ ev i t sys logic Ht Hi Hnames) as (name & Hname & E1 & E2).
  set (type := if bit (ev_mask ev) IN_ISDIR then DIRECTORY else REGULAR) in Hw.
  set (te1 := set_op_type op (set_te_type type (set_te_name logic te))).
  assert (Hlen : (length sys < MAX_NAME_LEN ∧ length logic < MAX_NAME_LEN)%nat).
  { rw /observed_names Hname /= in Hnames. destruct (ev_len ev =? 0); case_decide; simplify_eq; done. }
  pose proof (watch_new_dir w s ev op type sys logic w te1 Hg Hw eq_refl eq_refl eq_refl (proj1 Hlen) (proj2 Hlen)) as Hnew.
  apply wp_run in Hnew as ([] & s1 & Hnew & Hg1 & _ & Hip & _). exists s1, te1. split_and!; [done..|].
  rw /monitor_event {1}/bind /on_targets {1}/zoom Hread. rw {1}/bind {1}/zoom /tg_deref Hi.
  assert (Es : Mon (mn_targets s) (mn_ft s) (mn_ip s) (mn_conn s) = s) by by destruct s.
  rw !Es Hn Hget. rw {1}/bind {1}/some_or_oob {1}/ret Hname. rw {1}/bind {1}/some_or_oob {1}/ret.
  rw E1 {1}/bind {1}/ret E2 {1}/bind {1}/ret {1}/bind. rw /handle_event Htr -/type.
  rw {1}/bind {1}/on_targets {1}/zoom (event_op_run w _ ev _ op false i t) //. cbn beta iota.
  rw Es -/te1 {1}/bind Hnew.
  assert (Hts : (if negb (te_op_type te1 =? op_code FILE_DELETE) && negb (te_op_type te1 =? op_code FILE_NONE)
                 then get_trans_timestamp te1 sys else (0, te1)) = (-1, te1)).
  { rw /get_trans_timestamp Hstat. destruct op; try done. by apply op_of_mask_some in Hop. }
  rw Hts /bind /gets Hip. destruct (push_owner _ te1) as [te2|]; [|done]. rw /some_or_oob /ret.
  destruct (apply_event te2 s1) as [[[] s2]|]; [|done]. by destruct (tft_set tft 0 te2).
Qed.

Lemma failing_event w s ev k tft :
  mon_good F P w s → stat_fails w ev → mn_ip s ∈ P → slot_has k tft →
  ((k < MAX_PEER_ENTRIES)%nat →
     wp (monitor_event ev tft) (λ tft' s', slot_has (S k) tft' ∧ mon_good F P w s' ∧ mn_ip s' = mn_ip s) s) ∧
  (k = MAX_PEER_ENTRIES → monitor_event ev tft s = Fault OutOfBounds).
Proof.
  intros Hg Hev HP (Hn & te & Hget & [Hwf1 Hwf2] & Hk & Ho).
  destruct (failing_event_run w s ev tft te Hg Hev Hn Hget) as (s1 & te1 & Hg1 & Hip & E1 & E2 & HF & Hrun).
  rw /wp Hrun. split.
  - intros Hlt. rw -E2 in Hwf1. destruct (push_owner_spec te1 (PeerId (mn_ip s) P2P_PORT)) as (te2 & Hpush & Hown & Hname & _ & _ & _ & Hn2 & Hl2).
    { done. } { rw E1 Hk. lia. }
    rw Hpush {1}/bind {1}/some_or_oob {1}/ret -/(wp _ _ s1).
    assert (Hwf' : te_wf te2) by (split; [done|rw Hn2 E1 Hk; lia]).
    assert (Ho' : ∀ p, p ∈ owners_of te2 → ip p ∈ P).
    { intros p. rw Hown. intros [Hp| ->%list_elem_of_singleton]%elem_of_app; [|done].
      apply Ho. by rw /owners_of -E1 -E2. }
    apply wp_bind. eapply wp_mono; [eapply (apply_event_wp te2 w s1); [done|]|].
    { split; [done|]. split; [by rw Hname|done]. }
    intros ? s2 (Hg2 & _ & Hip2 & _). rw /tft_set /=. apply wp_bind, wp_ret, wp_ret.
    split; [|split; [done|congruence]]. split; [done|]. exists te2. split_and!; [|done|rw Hn2 E1 Hk; lia|done].
    rw /tft_get /=. by destruct (tft_entries tft) as [|x l].
  - intros ->. rw /push_owner E1 E2 Hk Nat2Z.id lookup_ge_None_2 //. by rw Hwf1.
Qed.

Lemma failing_loop w buf len evs : ∀ k s tft offset fuel,
  Forall (stat_fails w) evs → events_in buf len offset evs → 0 ≤ offset → len ≤ EVENT_BUF_LEN →
  mon_good F P w s → mn_ip s ∈ P → slot_has k tft → (k ≤ MAX_PEER_ENTRIES < k + length evs)%nat → (length evs ≤ fuel)%nat →
  event_loop fuel buf len offset tft s = Fault OutOfBounds.
Proof.
  induction evs as [|ev evs IH]; intros k s tft offset fuel Hev Hin H0 Hlen Hg HP Hk Hmax Hf; [simpl in Hmax; lia|].
  apply Forall_cons in Hev as [Hev Hevs]. destruct fuel as [|fuel]; [simpl in Hf; lia|]. cbn [event_loop].
  pose proof (events_in_length _ _ _ _ Hin) as Hroom. cbn [length] in Hroom, Hmax, Hf. rw /EVENT_LEN in Hroom.
  destruct Hin as (Hat & Hl & Hin). pose proof (events_in_length _ _ _ _ Hin) as Hroom'.
  pose proof Hk as [Hn _]. rw Hn (proj2 (Z.ltb_lt offset len)); [lia|]. rw Hat {1}/bind {1}/some_or_oob {1}/ret.
  destruct (failing_event w s ev k tft Hg Hev HP Hk) as [Hgo Hstop].
  destruct (decide (k = MAX_PEER_ENTRIES)) as [E|E]; [by rw /= /bind Hstop|].
  specialize (Hgo ltac:(lia)). apply wp_run in Hgo as (tft' & s' & Hrun & Hk' & Hg' & Hip).
  rw /= /bind Hrun i32_id; [rw /EVENT_BUF_LEN /EVENT_LEN in Hlen Hroom' *; lia|].
  eapply (IH (S k)); [done|done|rw /EVENT_LEN; lia|done|done|by rw Hip|done|lia|lia].
Qed.

(** ** Theorems *)

(** What [read] leaves in the buffer is read back as the events the kernel
    wrote, in order and no others; whatever was in the buffer before matters only
    to the name of a last event that has none. *)
Theorem events_read_back rs old :
  Forall raw_ok rs →
  let bytes := raws_bytes rs in
  let len := Z.of_nat (length bytes) in
  events_in (overwrite bytes old) len 0 (all_read rs (drop (length bytes) old)) ∧
  ∀ evs, events_in (overwrite bytes old) len 0 evs → evs = all_read rs (drop (length bytes) old).
Proof.
  intros Hok bytes len. assert (Hin : events_in (overwrite bytes old) len 0 (all_read rs (drop (length bytes) old))).
  { by apply (all_read_in rs []). }
  split; [done|]. intros evs Hevs. by eapply events_in_unique.
Qed.

(** C10. A turn of the monitor on the events the kernel wrote: the tracker is sent a
    file update that announces what [observe] says, the client's own table has
    followed these announcements, and the directories that appeared or went are
    watched or not. *)
Theorem monitor_turn_correct w s rs old tes w1 :
  let bytes := raws_bytes rs in
  Forall raw_ok rs → Z.of_nat (length bytes) ≤ EVENT_BUF_LEN →
  mon_good F P w s → observe (mn_ip s) w (all_read rs (drop (length bytes) old)) = Some (tes, w1) →
  Z.of_nat (length tes) ≤ MAX_SENT_ENTRIES →
  (∀ te, te ∈ tes → te_name te ∈ F) → mn_ip s ∈ P → oc_answers (mn_conn s) = [] →
  wp (monitor_turn old (Some bytes)) (λ old' s', old' = overwrite bytes old ∧ mon_good F P w1 s' ∧
     view (mn_ft s') = local_apply_all tes (view (mn_ft s)) ∧ mn_ip s' = mn_ip s ∧
     mn_conn s' = OutConn (oc_sent (mn_conn s) ++
       frame (ptot_bytes (table_request (mn_ip s) PEER_FILE_UPDATE (TransTable (Z.of_nat (length tes)) tes)))) []) s.
Proof.
  intros bytes Hok Hlen Hg Hobs Hfit HF HP Hc.
  by apply (monitor_turn_run w s old bytes (all_read rs (drop (length bytes) old))); [apply (all_read_in rs [])|..].
Qed.

(** C40. Seventeen events in a row on files whose [stat] fails, for instance because
    they are gone again, write past the owners of the entry all of them use. *)
Theorem failing_stats_overflow w s rs old :
  let bytes := raws_bytes rs in
  Forall raw_ok rs → Z.of_nat (length bytes) ≤ EVENT_BUF_LEN →
  mon_good F P w s → mn_ip s ∈ P → Forall (stat_fails w) (all_read rs (drop (length bytes) old)) →
  (MAX_PEER_ENTRIES < length rs)%nat →
  monitor_turn old (Some bytes) s = Fault OutOfBounds.
Proof.
  intros bytes Hok Hlen Hg HP Hfail Hmany. rw /monitor_turn {1}/bind.
  assert (Hl : length (all_read rs (drop (length bytes) old)) = length rs) by by rw length_all_read.
  assert (Hin : events_in (overwrite bytes old) (Z.of_nat (length bytes)) 0 (all_read rs (drop (length bytes) old)))
    by by apply (all_read_in rs []).
  pose proof (events_in_length _ _ _ _ Hin) as Hroom. rw Hl /EVENT_LEN in Hroom.
  assert (Hrun : event_loop (S (length (overwrite bytes old))) (overwrite bytes old) (Z.of_nat (length bytes)) 0 zero_table s =
            Fault OutOfBounds); [|by rw Hrun].
  eapply (failing_loop w _ _ _ 0); [exact Hfail|exact Hin|lia|done|done|done| |rw Hl; lia|].
  - split; [done|]. exists zero_entry. split_and!; [done|by split|done|]. by intros p []%elem_of_nil.
  - rw Hl. rw /overwrite length_app. lia.
Qed.

(** A watch descriptor outside the array of targets, the -1 of
    IN_Q_OVERFLOW among them, is read out of bounds. *)
Theorem descriptor_out_of_bounds r more old s :
  raw_ok r → ¬ 0 ≤ raw_wd r < WD_HASH_SIZE → monitor_turn old (Some (raw_bytes r ++ more)) s = Fault OutOfBounds.
Proof.
  intros Hr Hwd. rw /monitor_turn {1}/bind. cbn [event_loop].
  assert (Hpos : (0 < length (raw_bytes r))%nat) by (rw /raw_bytes !length_app !length_le; lia).
  rw (proj2 (Z.ltb_lt 0 _)); [rw length_app; lia|]. cbn [tft_n zero_table andb]. rw (proj2 (Z.ltb_lt 0 MAX_FILE_ENTRIES)) //.
  rw /overwrite -app_assoc.
  pose proof (event_at_raw [] r (more ++ drop (length (raw_bytes r ++ more)) old) Hr) as Hat.
  cbn [app length Z.of_nat] in Hat. rw Hat.
  set (ev := as_read _ _). assert (Hev : ¬ 0 ≤ ev_wd ev < WD_HASH_SIZE) by done. clearbody ev.
  generalize (i32 (0 + EVENT_LEN + ev_len ev)). generalize (length (raw_bytes r ++ more ++ drop (length (raw_bytes r ++ more)) old)).
  intros fuel offset. rw {1}/bind {1}/some_or_oob {1}/ret {1}/bind /monitor_event {1}/bind /on_targets /zoom /read_target.
  by rw decide_False.
Qed.
End deployment.

End events.

(** ** Witnesses *)

(** A machine that watches "/s" as "1", without files yet, and a file system where
    every file but "/s/b" has time 7. *)
Definition monitor_files : gset (list Z) := {[ [49; 47; 97]; [49; 47; 98] ]}.
Definition monitor_machines : gset Z := {[ 9 ]}.
Lemma monitor_deployment : Deployment monitor_files monitor_machines.
Proof. split; apply Z.leb_le || apply Nat.leb_le; vm_compute; reflexivity. Qed.
#[local] Existing Instance monitor_deployment.

Definition root_watches : watches := Watches {[1 := (root_sys, root_logic)]} (ms_kernel one_watched).
Definition root_mon : mon model_kernel := Mon one_watched (fresh []) 9 (OutConn [] []).
Definition demo_stat (name : list Z) : option Z := if bool_decide (name = [47; 115; 47; 98]) then None else Some 7.

Lemma root_mon_good : mon_good monitor_files monitor_machines root_watches root_mon.
Proof.
  split; [split; [apply one_watched_ok|done|]| |done].
  - split; [done|]. intros wd dir. cbn [wt_dirs root_watches]. rw lookup_singleton_Some. split.
    + intros [<- <-]. exists 0%nat, root_target. split; [apply one_watched_at|done].
    + by intros (i & t & [-> ->]%one_watched_only & <- & ->).
  - split; [apply fresh_wf|]. intros name e. by rw fresh_view lookup_empty.
Qed.

(** "a" is created and written, and deleted again. *)
Definition demo_raws : list raw_event :=
  [Raw 1 IN_CREATE [97] 15; Raw 1 IN_MODIFY [97] 15; Raw 1 IN_DELETE [97] 15].
Definition demo_tes : list trans_file_entry :=
  [own_entry 9 [49; 47; 97] 7 FILE_ADD REGULAR; own_entry 9 [49; 47; 97] 7 FILE_MODIFY REGULAR;
   own_entry 9 [49; 47; 97] 0 FILE_DELETE REGULAR].

#[local] Instance raw_ok_dec r : Decision (raw_ok r).
Proof. unfold raw_ok, is_i32, is_u32, is_char. apply _. Defined.
Lemma demo_raws_ok : Forall raw_ok demo_raws.
Proof. apply (bool_decide_unpack _). vm_compute. exact I. Qed.

Lemma events_read_back_witness :
  events_in (overwrite (raws_bytes demo_raws) [1]) 96 0 (all_read demo_raws []) ∧
  ∀ evs, events_in (overwrite (raws_bytes demo_raws) [1]) 96 0 evs → evs = all_read demo_raws [].
Proof. exact (events_read_back demo_raws [1] demo_raws_ok). Defined.

Lemma monitor_turn_correct_witness :
  wp (monitor_turn demo_stat [] (Some (raws_bytes demo_raws))) (λ old' s', old' = raws_bytes demo_raws ∧
     mon_good monitor_files monitor_machines root_watches s' ∧
     view (mn_ft s') = local_apply_all demo_tes (view (fresh [])) ∧ mn_ip s' = 9 ∧
     mn_conn s' = OutConn (frame (ptot_bytes (table_request 9 PEER_FILE_UPDATE (TransTable 3 demo_tes)))) []) root_mon.
Proof.
  apply (monitor_turn_correct demo_stat root_watches root_mon demo_raws [] demo_tes root_watches).
  - apply demo_raws_ok.
  - apply Z.leb_le. vm_compute. reflexivity.
  - apply root_mon_good.
  - vm_compute. reflexivity.
  - apply Z.leb_le. vm_compute. reflexivity.
  - intros te Hte. assert (H : te_name te = [49; 47; 97]).
    { repeat (apply elem_of_cons in Hte as [->|Hte]; [reflexivity|]). by apply elem_of_nil in Hte. }
    rw H /monitor_files. set_solver.
  - rw /monitor_machines. set_solver.
  - reflexivity.
Defined.

(** "b" is written seventeen times before anyone looks, and is gone. *)
Definition gone_raws : list raw_event := replicate 17 (Raw 1 IN_MODIFY [98] 15).
Lemma failing_stats_overflow_witness :
  monitor_turn demo_stat [] (Some (raws_bytes gone_raws)) root_mon = Fault OutOfBounds.
Proof.
  apply (failing_stats_overflow (F := monitor_files) (P := monitor_machines) demo_stat root_watches root_mon gone_raws []).
  - apply Forall_replicate. apply (bool_decide_unpack _). vm_compute. exact I.
  - apply Z.leb_le. vm_compute. reflexivity.
  - apply root_mon_good.
  - rw /monitor_machines. set_solver.
  - assert (Hev : stat_fails (F := monitor_files) demo_stat root_watches (Event 1 IN_MODIFY 16 (Some [98]))).
    { exists (root_sys, root_logic), [47; 115; 47; 98], [49; 47; 98], FILE_MODIFY.
      split_and!; [vm_compute; reflexivity..|discriminate|vm_compute; reflexivity| |vm_compute; reflexivity].
      rw /monitor_files. set_solver. }
    repeat (apply Forall_cons; split; [exact Hev|]). by apply Forall_nil.
  - apply Nat.ltb_lt. reflexivity.
Defined.

Lemma descriptor_out_of_bounds_witness :
  monitor_turn demo_stat [] (Some (raw_bytes (Raw (-1) 0x4000 [] 0) ++ [])) root_mon = Fault OutOfBounds.
Proof.
  apply (descriptor_out_of_bounds demo_stat (Raw (-1) 0x4000 [] 0) [] [] root_mon).
  - apply (bool_decide_unpack _). vm_compute. exact I.
  - cbn. intros [? ?]. lia.
Defined.
