(* ===== verification/Upload.v ===== *)
(** * Upload: serving files to other peers, [client/start.c], [client/download.c]

    A peer that wants a file connects to the port [P2P_PORT] of an owner, asks for
    the length of the file ([get_file_len_from]) and for a port
    ([get_p2p_download_port]), and sends its requests for pieces to that port.  The
    owner's side is a thread per connection ([ptop_upload_task]), which serves the
    pieces itself ([do_upload]).  Both sides are modelled down to the bytes on the
    connections, and composed. *)
From S2P Require Import Prelude TransTable Wire Segment Packet Client Monitor Download.

(** ** The owner *)

(** What happens on the port handed out: listening or accepting fails, or one peer
    connects and sends these bytes before it closes. *)
Inductive visit : Type :=
  | ListenFails
  | AcceptFails
  | Accepted (requests : list Z).

Record up (K : Type) := Up {
  up_targets : mstate K;              (** m_table *)
  up_ports : list Z;                  (** p2p_ports *)
  up_conn : out_conn;                 (** what is sent on the connection *)
  up_visits : list visit;             (** the next visits; then listening fails *)
  up_sent : list (list Z)             (** what was written to each visitor *)
}.
Arguments Up {_} _ _ _ _ _.
Arguments up_targets {_} _.
Arguments up_ports {_} _.
Arguments up_conn {_} _.
Arguments up_visits {_} _.
Arguments up_sent {_} _.

Section upload.
Context `{Kernel K}.
Notation St := (up K).

(** The files of this machine, and [ctr_info.piece_len]. *)
Context (files : list Z → option (list Z)) (piece_len : Z).
(** What local variables hold before they are assigned. *)
Context (req0 : p2p_piece_request) (logic0 : list Z).

Definition up_on_targets {A} (m : M (mstate K) A) : M St A :=
  zoom up_targets (λ t s, Up t (up_ports s) (up_conn s) (up_visits s) (up_sent s)) m.
Definition up_on_ports {A} (m : M (list Z) A) : M St A :=
  zoom up_ports (λ p s, Up (up_targets s) p (up_conn s) (up_visits s) (up_sent s)) m.
Definition up_reply (pkt : p2p_packet) : M St Z :=
  zoom up_conn (λ c s, Up (up_targets s) (up_ports s) c (up_visits s) (up_sent s)) (send_p2p_packet pkt).
Definition next_visit : M St visit :=
  λ s, match up_visits s with
       | [] => Ok (ListenFails, s)
       | v :: l => Ok (v, Up (up_targets s) (up_ports s) (up_conn s) l (up_sent s))
       end.

(** [memcpy(&req, pkt->data, pkt->data_len)] *)
Definition read_request (pkt : p2p_packet) : res p2p_piece_request :=
  let n := Z.to_nat (p2p_data_len pkt) in
  if p2p_data_len pkt <=? 8 then Ok (dec (overwrite (mem_read n (p2p_data pkt)) (enc req0))) else Fault OutOfBounds.

(** The loop of [do_upload] on the bytes the visitor sends; the result is what is
    written back, when the connection takes all of it.  Every turn consumes input. *)
Fixpoint upload_loop (fuel : nat) (file : list Z) (pkt : p2p_packet) (input : list Z) : res (list Z) :=
  match fuel with
  | O => Ok []
  | S fuel =>
      match recv_p2p_packet pkt input with
      | Fault e => Fault e
      | Ok (r, pkt, rest) =>
          if r <=? 0 then Ok [] else
          if negb (p2p_type pkt =? p2p_code P2P_PIECE_REQ) then Ok [] else
          match read_request pkt with
          | Fault e => Fault e
          | Ok req =>
              match serve_piece file piece_len req with
              | Fault e => Fault e
              | Ok None => Ok []
              | Ok (Some data) =>
                  match upload_loop fuel file pkt rest with
                  | Fault e => Fault e
                  | Ok out => Ok (data ++ out)
                  end
              end
          end
      end
  end.

Definition zero_p2p : p2p_packet := P2pPacket 0 0 [].

Definition do_upload (visitor : visit) (sys_name : list Z) : M St unit :=
  match files sys_name with
  | None => ret tt
  | Some file =>
      ok <- up_on_targets ms_malloc ;;
      if negb ok then ret tt else
      ok <- up_on_targets ms_malloc ;;
      if negb ok then ret tt else
      match visitor with
      | ListenFails | AcceptFails => ret tt
      | Accepted input =>
          match upload_loop (S (length input)) file zero_p2p input with
          | Fault e => fail e
          | Ok out => modify (λ s, Up (up_targets s) (up_ports s) (up_conn s) (up_visits s) (up_sent s ++ [out]))
          end
      end
  end.

(** [free(sys_name)]; [None] is a [sys_name] that was not assigned. *)
Definition free_name (sys_name : option (list Z)) : M St unit :=
  match sys_name with None => fail Uninitialised | Some _ => ret tt end.

(** [memcpy(logic_name, pkt.data, pkt.data_len)], and [logic_name] as a string: a
    name without a NUL is read past the array. *)
Definition read_logic (pkt : p2p_packet) (logic_name : list Z) : res (list Z) :=
  if p2p_data_len pkt <=? Z.of_nat MAX_NAME_LEN then
    let buf := overwrite (mem_read (Z.to_nat (p2p_data_len pkt)) (p2p_data pkt)) logic_name in
    if bool_decide (0 ∈ buf) then Ok buf else Fault OutOfBounds
  else Fault OutOfBounds.

Inductive answer : Type :=
  | GoOn (pkt : p2p_packet)     (** the next turn of the loop, with [pkt] *)
  | FreeName.                   (** [goto free_sys_name] *)

(** The [switch] of [ptop_upload_task]. *)
Definition answer_request (pkt : p2p_packet) (sys_name : list Z) : M St answer :=
  if p2p_type pkt =? p2p_code P2P_FILE_LEN_REQ then
    match files sys_name with
    | None => ret FreeName
    | Some file =>
        pkt <- p2p_packet_fill (p2p_packet_init P2P_FILE_LEN_RET) (le 8 (Z.of_nat (length file))) 8 ;;
        r <- up_reply pkt ;;
        ret (if r <? 0 then FreeName else GoOn pkt)
    end
  else
    port <- up_on_ports get_free_p2p_port ;;
    let new_port := u16 port in
    pkt <- p2p_packet_fill (p2p_packet_init P2P_PORT_RET) (le 2 new_port) 2 ;;
    r <- up_reply pkt ;;
    if r <? 0 then ret FreeName else
    visitor <- next_visit ;;
    match visitor with
    | ListenFails => ret FreeName
    | _ =>
        do_upload visitor sys_name ;;;
        up_on_ports (put_p2p_port new_port) ;;;
        ret (GoOn pkt)
    end.

Definition is_name_request (type : Z) : bool := (type =? p2p_code P2P_FILE_LEN_REQ) || (type =? p2p_code P2P_PORT_REQ).

(** The loop of [ptop_upload_task] on the bytes of its connection. *)
Fixpoint ptop_upload_loop (fuel : nat) (pkt : p2p_packet) (logic_name : list Z) (sys_name : option (list Z)) (input : list Z) : M St unit :=
  match fuel with
  | O => ret tt
  | S fuel =>
      match recv_p2p_packet pkt input with
      | Fault e => fail e
      | Ok (r, pkt, rest) =>
          if r <=? 0 then free_name sys_name else
          if negb (is_name_request (p2p_type pkt)) then ptop_upload_loop fuel pkt logic_name sys_name rest else
          match read_logic pkt logic_name with
          | Fault e => fail e
          | Ok logic_name =>
              name <- up_on_targets (get_sys_name (c_string logic_name)) ;;
              match name with
              | None => ret tt
              | Some sys_name =>
                  x <- answer_request pkt sys_name ;;
                  match x with
                  | GoOn pkt => ptop_upload_loop fuel pkt logic_name (Some sys_name) rest
                  | FreeName => free_name (Some sys_name)
                  end
              end
          end
      end
  end.

Definition ptop_upload_task (input : list Z) : M St unit :=
  ptop_upload_loop (S (length input)) zero_p2p logic0 None input.
End upload.

(** ** The downloader *)

(** [strlen(name) + 1] bytes of a name. *)
Definition name_request (type : p2p_packet_type) (name : list Z) {S} : M S p2p_packet :=
  p2p_packet_fill (p2p_packet_init type) (name ++ [0]) (Z.of_nat (length name) + 1).

(** [get_file_len_from]: [conn] is the connection, or the failure to connect, and
    [input] what comes back; the result is a [uint32_t]. *)
Definition get_file_len_from (file_name : list Z) (connected : bool) (input : list Z) : M out_conn (Z * list Z) :=
  if negb connected then ret (u32 (-1), input) else
  pkt <- name_request P2P_FILE_LEN_REQ file_name ;;
  r <- send_p2p_packet pkt ;;
  if r <? 0 then ret (u32 (-1), input) else
  match recv_p2p_packet pkt input with
  | Fault e => fail e
  | Ok (r, pkt, rest) =>
      if r <? 0 then ret (u32 (-1), rest) else
      if negb (p2p_type pkt =? p2p_code P2P_FILE_LEN_RET) then ret (u32 (-1), rest) else
      ret (get 0 4 (mem_read 4 (p2p_data pkt)), rest)
  end.

(** [get_p2p_download_port]: the result is [port], a [uint16_t], converted to [int]. *)
Definition get_p2p_download_port (logic_name : list Z) (input : list Z) : M out_conn (Z * list Z) :=
  let port := u16 (-1) in
  pkt <- name_request P2P_PORT_REQ logic_name ;;
  r <- send_p2p_packet pkt ;;
  if r <? 0 then ret (port, input) else
  match recv_p2p_packet pkt input with
  | Fault e => fail e
  | Ok (r, pkt, rest) =>
      if r <? 0 then ret (port, rest) else
      if negb (p2p_type pkt =? p2p_code P2P_PORT_RET) then ret (port, rest) else
      ret (get 0 2 (mem_read 2 (p2p_data pkt)), rest)
  end.

(** The packet that asks for a piece: [p2p_packet_fill(&pkt, &req, sizeof(req))]. *)
Definition piece_packet {S} (pkt : p2p_packet) (req : p2p_piece_request) : M S p2p_packet := p2p_packet_fill pkt (enc req) 8.

(** ** Specification *)

(** The packets of an exchange. *)
Definition name_packet (type : p2p_packet_type) (name : list Z) : p2p_packet :=
  P2pPacket (p2p_code type) (Z.of_nat (length name) + 1) (name ++ [0]).
Definition len_packet (len : Z) : p2p_packet := P2pPacket (p2p_code P2P_FILE_LEN_RET) 8 (le 8 len).
Definition port_packet (port : Z) : p2p_packet := P2pPacket (p2p_code P2P_PORT_RET) 2 (le 2 port).
Definition request_packet (req : p2p_piece_request) : p2p_packet := P2pPacket (p2p_code P2P_PIECE_REQ) 8 (enc req).
(** What is on the wire for a packet. *)
Definition wire (pkt : p2p_packet) : list Z := frame (p2p_bytes pkt).

(** A packet of the protocol: it fits its fields, and the end marker is not in it. *)
Definition sendable (pkt : p2p_packet) : Prop :=
  is_u16 (p2p_type pkt) ∧ is_u16 (p2p_data_len pkt) ∧ clean (p2p_bytes pkt).

(** ** Lemmas: packets *)
Lemma mem_read_take n l k : (n ≤ k)%nat → mem_read n l = take n (l ++ zeros k).
Proof. intros Hk. rw /mem_read take_app /zeros take_replicate Nat.min_l //. lia. Qed.
Lemma mem_read_shorter m n l : (m ≤ n)%nat → mem_read m (mem_read n l) = mem_read m l.
Proof.
  intros Hm. rw (mem_read_exact m (mem_read n l) (n - m)); [rw length_mem_read; lia|].
  rw (mem_read_take n l n) // take_take Nat.min_l // -mem_read_take //.
Qed.
Lemma mem_read_of_take m n l : (m ≤ n)%nat → mem_read m (take n l) = mem_read m l.
Proof.
  intros Hm. rw /mem_read take_take Nat.min_l // length_take. do 2 f_equal. lia.
Qed.

Lemma p2p_received pkt p0 l :
  sendable pkt →
  ∃ r data, recv_p2p_packet p0 (wire pkt ++ l) = Ok (r, P2pPacket (p2p_type pkt) (p2p_data_len pkt) data, l) ∧
    0 < r ∧ (∀ n, (n ≤ Z.to_nat (p2p_data_len pkt))%nat → mem_read n data = mem_read n (p2p_data pkt)).
Proof.
  intros (Ht & Hd & Hc). pose proof (is_u16_le_data _ Hd) as Hle. set (n := Z.to_nat (p2p_data_len pkt)) in *.
  set (hdr := le 2 (p2p_type pkt) ++ le 2 (p2p_data_len pkt)).
  assert (Hbytes : p2p_bytes pkt = mem_read (4 + n) (hdr ++ p2p_data pkt)).
  { rw /p2p_bytes /p2p_packet_len /p2p_mem /hdr -app_assoc. f_equal. rw /is_u16 in Hd. lia. }
  rw /wire /recv_p2p_packet /bind. rw Hbytes in Hc *. rw recv_memory_frame //; [rw length_mem_read /sizeof_p2p_packet; lia|]. rw length_mem_read.
  set (tail := end_buf ++ _). 
  destruct (received_parts 4 n sizeof_p2p_packet hdr (p2p_data pkt) tail) as [Hh Hdata]; [done|rw /sizeof_p2p_packet; lia|].
  set (buf := take sizeof_p2p_packet _) in *. cbn [fst snd]. rw (proj2 (Z.ltb_ge _ _)); [lia|].
  assert (Hget : get 0 2 buf = p2p_type pkt ∧ get 2 2 buf = p2p_data_len pkt).
  { rw -(take_drop 4 buf) Hh. rw /hdr /get -app_assoc. split; find_slice; try done; by apply unle_le_id. }
  destruct Hget as [-> ->]. eexists _, _. split; [reflexivity|]. split; [lia|]. intros m Hm.
  assert (Hbuf : mem_read m (take (Z.to_nat MAX_PKT_DATA_LEN) (drop 4 buf)) = mem_read m (mem_read n (drop 4 buf))).
  { rw mem_read_of_take; [lia|]. by rw mem_read_shorter. }
  rw Hbuf Hdata mem_read_shorter //.
Qed.

Lemma send_p2p_packet_run pkt c :
  oc_answers c = [] → 0 ≤ p2p_data_len pkt →
  send_p2p_packet pkt c = Ok (p2p_packet_len pkt + 4, OutConn (oc_sent c ++ wire pkt) []).
Proof. intros Hc Hlen. apply send_memory_run; [done|]. rw /p2p_packet_len. lia. Qed.

Lemma fill_run {S} pkt buf (s : S) :
  is_u16 (Z.of_nat (length buf)) →
  p2p_packet_fill pkt buf (Z.of_nat (length buf)) s =
    Ok (P2pPacket (p2p_type pkt) (Z.of_nat (length buf)) (overwrite buf (p2p_data pkt)), s).
Proof.
  intros Hlen. pose proof Hlen as [_ Hmax]. rw /p2p_packet_fill /copy_data (proj2 (Z.leb_le 0 _)); [lia|].
  rw (proj2 (Z.leb_le _ _)); [rw MAX_PKT_DATA_LEN_eq; lia|]. rw /bind /ret /=.
  rw u16_id // Nat2Z.id (mem_read_exact _ _ 0); [by rw Nat.add_0_r|]. by rw firstn_all.
Qed.

Lemma name_request_run {S} type name (s : S) :
  (length name < MAX_NAME_LEN)%nat → name_request type name s = Ok (name_packet type name, s).
Proof.
  intros Hn. rw /name_request. replace (Z.of_nat (length name) + 1) with (Z.of_nat (length (name ++ [0]))) by (rw length_app /=; lia).
  rw fill_run; [rw length_app /= /is_u16; rw /MAX_NAME_LEN in Hn; lia|]. rw /name_packet /overwrite /= drop_nil app_nil_r length_app /=.
  do 3 f_equal. lia.
Qed.

(** ** Lemmas: serving *)
Section serving.
Context `{Kernel K} (files : list Z → option (list Z)) (piece_len : Z) (req0 : p2p_piece_request) (logic0 : list Z).
Notation St := (up K).

Lemma upload_loop_run file pkt0 reqs datas fuel :
  Forall2 (λ r d, storable r ∧ sendable (request_packet r) ∧ serve_piece file piece_len r = Ok (Some d)) reqs datas →
  (length reqs < fuel)%nat →
  upload_loop piece_len req0 fuel file pkt0 (concat ((λ r, wire (request_packet r)) <$> reqs)) = Ok (concat datas).
Proof.
  intros Hall. revert pkt0 fuel. induction Hall as [|r d reqs datas (Hst & Hse & Hd) Hall IH]; intros pkt0 [|fuel] Hf;
    try (simpl in Hf; lia); cbn [upload_loop].
  { done. }
  csimpl. destruct (p2p_received (request_packet r) pkt0 (concat ((λ r, wire (request_packet r)) <$> reqs)) Hse)
    as (n & data & Hrecv & Hn & Hdata).
  rw Hrecv. cbn [p2p_type p2p_data_len request_packet] in *. rw (proj2 (Z.leb_gt _ _)) // Z.eqb_refl. cbn [negb].
  assert (Hreq : read_request req0 (P2pPacket (p2p_code P2P_PIECE_REQ) 8 data) = Ok r).
  { rw /read_request. cbn [p2p_data_len p2p_data]. change (8 <=? 8) with true. cbn iota.
    change (Z.to_nat 8) with 8%nat. rw Hdata; [done|]. cbn [p2p_data request_packet].
    rw (mem_read_exact 8 (enc r) 0) // firstn_all2 // /overwrite. replace (drop _ (enc req0)) with (@nil Z) by done.
    rw app_nil_r dec_enc //. }
  rw Hreq Hd IH //. simpl in Hf. lia.
Qed.

Lemma up_malloc_run (s : St) : ms_calloc (up_targets s) = [] → up_on_targets ms_malloc s = Ok (true, s).
Proof. intros Hc. rw /up_on_targets /zoom /ms_malloc Hc. by destruct s. Qed.

(** The owner after it sent these bytes. *)
Definition said (bytes : list Z) (s : St) : St :=
  Up (up_targets s) (up_ports s) (OutConn (oc_sent (up_conn s) ++ bytes) []) (up_visits s) (up_sent s).

Lemma up_reply_run pkt (s : St) :
  oc_answers (up_conn s) = [] → 0 ≤ p2p_data_len pkt →
  up_reply pkt s = Ok (p2p_packet_len pkt + 4, said (wire pkt) s).
Proof. intros Hc Hl. by rw /up_reply /zoom send_p2p_packet_run. Qed.

Lemma len_request_run pkt sys file (s : St) :
  p2p_type pkt = p2p_code P2P_FILE_LEN_REQ → files sys = Some file → oc_answers (up_conn s) = [] →
  answer_request files piece_len req0 pkt sys s =
    Ok (GoOn (len_packet (Z.of_nat (length file))), said (wire (len_packet (Z.of_nat (length file)))) s).
Proof.
  intros Ht Hf Hc. rw /answer_request Ht Z.eqb_refl Hf.
  pose proof (fill_run (p2p_packet_init P2P_FILE_LEN_RET) (le 8 (Z.of_nat (length file))) s) as Hfill.
  rw length_le in Hfill. rw {1}/bind Hfill //. rw /overwrite. cbn [p2p_data p2p_packet_init]. rw drop_nil app_nil_r.
  rw -/(len_packet _) {1}/bind up_reply_run //.
Qed.

Lemma get_free_first k ports :
  ports !! k = Some 0 → (∀ k' x, (k' < k)%nat → ports !! k' = Some x → x ≠ 0) →
  get_free_from 0 ports = Some (k, <[k := 1]> ports).
Proof.
  intros Hk Hmin. pose proof (get_free_from_spec 0 ports) as Hs. destruct (get_free_from 0 ports) as [[j l]|].
  - destruct Hs as (k' & -> & Hk' & -> & Hmin'). assert (k' = k) as ->; [|done].
    destruct (Nat.lt_trichotomy k' k) as [Hlt|[E|Hlt]]; [by destruct (Hmin _ _ Hlt Hk')|done|by destruct (Hmin' _ _ Hlt Hk)].
  - by destruct (Hs 0 (list_elem_of_lookup_2 _ _ _ Hk)).
Qed.

Lemma do_upload_run requests sys file out (s : St) :
  files sys = Some file → ms_calloc (up_targets s) = [] →
  upload_loop piece_len req0 (S (length requests)) file zero_p2p requests = Ok out →
  do_upload files piece_len req0 (Accepted requests) sys s =
    Ok (tt, Up (up_targets s) (up_ports s) (up_conn s) (up_visits s) (up_sent s ++ [out])).
Proof.
  intros Hf Hc Hout. rw /do_upload Hf {1}/bind up_malloc_run //. cbn [negb]. rw {1}/bind up_malloc_run //. cbn [negb]. by rw Hout.
Qed.

Lemma port_request_run pkt sys file k requests visits out (s : St) :
  p2p_type pkt = p2p_code P2P_PORT_REQ → files sys = Some file → oc_answers (up_conn s) = [] →
  ms_calloc (up_targets s) = [] → up_visits s = Accepted requests :: visits →
  length (up_ports s) = Z.to_nat MAX_P2P_PORT → up_ports s !! k = Some 0 → (∀ k' x, (k' < k)%nat → up_ports s !! k' = Some x → x ≠ 0) →
  upload_loop piece_len req0 (S (length requests)) file zero_p2p requests = Ok out →
  let port := Z.of_nat k + BASE_P2P_PORT in
  answer_request files piece_len req0 pkt sys s =
    Ok (GoOn (port_packet port),
        Up (up_targets s) (up_ports s) (OutConn (oc_sent (up_conn s) ++ wire (port_packet port)) []) visits (up_sent s ++ [out])).
Proof.
  intros Ht Hf Hc Hm Hv Hlen Hk Hmin Hout port. pose proof (lookup_lt_Some _ _ _ Hk) as Hlt. rw Hlen in Hlt.
  assert (Hport : u16 port = port).
  { apply u16_id. rw /is_u16 /port /BASE_P2P_PORT. rw /MAX_P2P_PORT in Hlt. lia. }
  pose proof (fill_run (p2p_packet_init P2P_PORT_RET) (le 2 port) (Up (up_targets s) (<[k:=1]> (up_ports s)) (up_conn s) (up_visits s) (up_sent s))) as Hfill.
  rw length_le /overwrite in Hfill. cbn [p2p_data p2p_packet_init] in Hfill. rw drop_nil app_nil_r in Hfill.
  rw /answer_request Ht. change (p2p_code P2P_PORT_REQ =? p2p_code P2P_FILE_LEN_REQ) with false. cbn iota.
  rw {1}/bind /up_on_ports {1}/zoom get_free_p2p_port_run // (get_free_first k) // -/port Hport {1}/bind Hfill // -/(port_packet port).
  rw {1}/bind up_reply_run //. rw (proj2 (Z.ltb_ge (p2p_packet_len _ + 4) 0)); [done|].
  rw {1}/bind /next_visit. cbn [up_visits said]. rw Hv {1}/bind. cbn [up_targets up_ports up_conn up_sent].
  rw (do_upload_run requests sys file out) // {1}/bind /zoom. cbn [up_ports]. rw /put_p2p_port /port.
  replace (Z.of_nat k + BASE_P2P_PORT - BASE_P2P_PORT) with (Z.of_nat k) by lia.
  rw decide_True; [lia|]. rw Nat2Z.id list_insert_insert_eq (list_insert_id (up_ports s) k 0) //.
Qed.

Lemma c_string_terminated name l : Forall is_char name → c_string (name ++ 0 :: l) = name.
Proof.
  induction 1 as [|c name Hc _ IH]; [done|]. cbn [app c_string]. destruct (Z.eqb_spec c 0) as [->|]; [by destruct Hc|].
  by rw IH.
Qed.

Lemma read_logic_run type name data old :
  name_ok MAX_NAME_LEN name → (∀ n, (n ≤ S (length name))%nat → mem_read n data = mem_read n (name ++ [0])) →
  ∃ buf, read_logic (P2pPacket type (Z.of_nat (length name) + 1) data) old = Ok buf ∧ c_string buf = name.
Proof.
  intros [Hc Hl] Hdata. rw /read_logic. cbn [p2p_data_len p2p_data].
  replace (Z.to_nat (Z.of_nat (length name) + 1)) with (S (length name)) by lia.
  rw (proj2 (Z.leb_le _ _)); [lia|]. rw Hdata // (mem_read_exact _ _ 0); [rw length_app /=; lia|].
  rw firstn_all2; [rw length_app /=; lia|]. rw /overwrite -app_assoc bool_decide_true.
  { apply elem_of_app. right. by left. }
  eexists. split; [reflexivity|]. by apply c_string_terminated.
Qed.

(** A turn of [ptop_upload_task] on a request that names a file it has. *)
Lemma name_turn type name sys pkt2 (s s2 : St) fuel pkt0 old sys0 rest :
  is_name_request (p2p_code type) = true → name_ok MAX_NAME_LEN name → sendable (name_packet type name) →
  get_sys_name name (up_targets s) = Ok (Some sys, up_targets s) →
  (∀ pkt, p2p_type pkt = p2p_code type → answer_request files piece_len req0 pkt sys s = Ok (GoOn pkt2, s2)) →
  ∃ buf, ptop_upload_loop files piece_len req0 (S fuel) pkt0 old sys0 (wire (name_packet type name) ++ rest) s =
    ptop_upload_loop files piece_len req0 fuel pkt2 buf (Some sys) rest s2.
Proof.
  intros Htype Hname Hse Hget Hans. cbn [ptop_upload_loop].
  destruct (p2p_received _ pkt0 rest Hse) as (n & data & Hrecv & Hn & Hdata). rw Hrecv (proj2 (Z.leb_gt _ _)) //.
  cbn [p2p_type p2p_data_len name_packet p2p_data] in *. rw Htype. cbn [negb].
  destruct (read_logic_run (p2p_code type) name data old Hname) as (buf & Hbuf & Hcs).
  { intros m Hm. apply Hdata. lia. }
  exists buf. rw Hbuf Hcs {1}/bind /up_on_targets {1}/zoom Hget.
  replace (Up _ _ _ _ _) with s by by destruct s. by rw {1}/bind Hans.
Qed.

Lemma ptop_upload_end fuel pkt0 old sys (s : St) : ptop_upload_loop files piece_len req0 (S fuel) pkt0 old (Some sys) [] s = Ok (tt, s).
Proof. done. Qed.
End serving.

(** ** Theorems *)

(** Asking an owner for the length of a file: the owner's thread answers the
    request on the wire with the length of the file the name stands for on its
    machine, and the downloader gets that length, modulo 2^32. *)
Theorem file_len_exchanged {K} `{Kernel K} files piece_len req0 logic0 (s : up K) name sys file :
  name_ok MAX_NAME_LEN name → sendable (name_packet P2P_FILE_LEN_REQ name) →
  get_sys_name name (up_targets s) = Ok (Some sys, up_targets s) → files sys = Some file →
  sendable (len_packet (Z.of_nat (length file))) → oc_answers (up_conn s) = [] →
  let request := wire (name_packet P2P_FILE_LEN_REQ name) in
  let reply := wire (len_packet (Z.of_nat (length file))) in
  ptop_upload_task files piece_len req0 logic0 request s = Ok (tt, said reply s) ∧
  ∀ c, oc_answers c = [] →
    get_file_len_from name true reply c = Ok ((u32 (Z.of_nat (length file)), []), OutConn (oc_sent c ++ request) []).
Proof.
  intros Hname Hse Hget Hf Hlen Hc request reply. split.
  - rw /ptop_upload_task. pose proof (λ pkt Ht, len_request_run files piece_len req0 pkt sys file s Ht Hf Hc) as Hans.
    destruct (name_turn files piece_len req0 P2P_FILE_LEN_REQ name sys _ s _ (length request) zero_p2p logic0 None []
      eq_refl Hname Hse Hget Hans) as [buf E]. rw app_nil_r -/request in E. rw E.
    by destruct request.
  - intros c Hc'. rw /get_file_len_from. cbn [negb]. rw {1}/bind name_request_run; [apply Hname|].
    rw {1}/bind send_p2p_packet_run //; [cbn; lia|].
    rw (proj2 (Z.ltb_ge (p2p_packet_len _ + 4) 0)); [rw /p2p_packet_len; cbn [name_packet p2p_data_len]; lia|].
    destruct (p2p_received _ (name_packet P2P_FILE_LEN_REQ name) [] Hlen) as (n & data & Hrecv & Hn & Hdata).
    rw app_nil_r in Hrecv. rw Hrecv (proj2 (Z.ltb_ge n 0)); [lia|]. cbn [p2p_type p2p_data len_packet p2p_data_len] in *.
    rw Z.eqb_refl. cbn [negb]. rw Hdata; [lia|]. rw /ret. do 4 f_equal.
    rw /get (mem_read_exact 4 _ 4) // slice_all //.
    change (take 4 (le 8 (Z.of_nat (length file)))) with (le 4 (Z.of_nat (length file))). by rw unle_le.
Qed.

Lemma sendable_port port : BASE_P2P_PORT ≤ port < BASE_P2P_PORT + MAX_P2P_PORT → sendable (port_packet port).
Proof.
  rw /BASE_P2P_PORT /MAX_P2P_PORT. intros Hp. split; [done|]. split; [done|].
  change (p2p_bytes (port_packet port)) with [5; 0; 2; 0; port mod 256; port / 256 mod 256]. rw /clean.
  assert (Hhi : (port / 256 mod 256 =? SHARP) = false) by (apply Z.eqb_neq; rw /SHARP; Z.div_mod_to_equations; lia).
  cbn [cut_end]. change (5 =? BANG) with false. change (0 =? BANG) with false. change (2 =? BANG) with false.
  by rw Hhi andb_false_r.
Qed.

(** The requests for pieces that [piece_download_task] fills into its one packet are
    [request_packet]s on the wire. *)
Lemma piece_packet_wire {S} pkt req (s : S) :
  p2p_type pkt = p2p_code P2P_PIECE_REQ → storable req →
  ∃ pkt', piece_packet pkt req s = Ok (pkt', s) ∧ p2p_type pkt' = p2p_code P2P_PIECE_REQ ∧ wire pkt' = wire (request_packet req).
Proof.
  intros Ht Hreq. pose proof (length_enc req Hreq) as Hlen. change (csize p2p_piece_request) with 8%nat in Hlen.
  pose proof (fill_run pkt (enc req) s) as Hfill. rw Hlen in Hfill. rw /piece_packet Hfill // Ht.
  eexists. split; [reflexivity|]. split; [done|]. rw /wire /p2p_bytes /p2p_packet_len /p2p_mem /overwrite.
  cbn [p2p_type p2p_data_len p2p_data request_packet]. change (Z.to_nat (2 + 2 + Z.of_nat 8)) with 12%nat.
  change (Z.to_nat (2 + 2 + 8)) with 12%nat. set (hdr := le 2 (p2p_code P2P_PIECE_REQ)).
  assert (H12 : length (hdr ++ le 2 8 ++ enc req) = 12%nat) by by rw !length_app !length_le.
  rw (mem_read_exact 12 (hdr ++ le 2 8 ++ enc req) 0) //.
Qed.

Lemma length_concat_wires {A} (f : A → p2p_packet) l : (length l ≤ length (concat ((λ i, wire (f i)) <$> l)))%nat.
Proof.
  induction l as [|i l IH]; [done|]. rw fmap_cons. cbn [concat length]. rw length_app.
  assert (0 < length (wire (f i)))%nat; [|lia]. rw /wire /frame length_app /=. lia.
Qed.

(** C16. Asking an owner for a port and for pieces on it: the owner hands out its first
    free port, serves on it exactly the pieces that are asked for, in the order they
    are asked for, and takes the port back; the downloader gets the port. *)
Theorem pieces_exchanged {K} `{Kernel K} files pl req0 logic0 (s : up K) name sys file k ids visits :
  name_ok MAX_NAME_LEN name → sendable (name_packet P2P_PORT_REQ name) →
  get_sys_name name (up_targets s) = Ok (Some sys, up_targets s) → files sys = Some file → sizes_ok file pl →
  let request i := request_packet (piece_request (Z.of_nat (length file)) pl (Z.of_nat i)) in
  let requests := concat ((λ i, wire (request i)) <$> ids) in
  (∀ i, i ∈ ids → Z.of_nat i < file_pieces (Z.of_nat (length file)) pl ∧ sendable (request i)) →
  ms_calloc (up_targets s) = [] → oc_answers (up_conn s) = [] → up_visits s = Accepted requests :: visits →
  length (up_ports s) = Z.to_nat MAX_P2P_PORT → up_ports s !! k = Some 0 → (∀ k' x, (k' < k)%nat → up_ports s !! k' = Some x → x ≠ 0) →
  let port := Z.of_nat k + BASE_P2P_PORT in
  let asked := wire (name_packet P2P_PORT_REQ name) in
  ptop_upload_task files pl req0 logic0 asked s =
    Ok (tt, Up (up_targets s) (up_ports s) (OutConn (oc_sent (up_conn s) ++ wire (port_packet port)) []) visits
              (up_sent s ++ [concat (piece file pl <$> ids)])) ∧
  ∀ c, oc_answers c = [] →
    get_p2p_download_port name (wire (port_packet port)) c = Ok ((port, []), OutConn (oc_sent c ++ asked) []).
Proof.
  intros Hname Hse Hget Hf Hok request requests Hids Hm Hc Hv Hlen Hk Hmin port asked. split.
  - assert (Hout : upload_loop pl req0 (S (length requests)) file zero_p2p requests = Ok (concat (piece file pl <$> ids))).
    { pose proof (length_concat_wires request ids) as Hfuel. rw -/requests in Hfuel.
      rw {2}/requests /request (list_fmap_compose (λ i, piece_request (Z.of_nat (length file)) pl (Z.of_nat i)) (λ r, wire (request_packet r))).
      apply upload_loop_run.
      - apply Forall2_fmap_2, Forall_Forall2_diag, Forall_forall. intros i Hi. destruct (Hids i Hi) as [Hlt Hs].
        split; [|split; [done|by apply serve_piece_run]]. split; apply u32_range.
      - rw length_fmap. lia. }
    pose proof (λ pkt Ht, port_request_run files pl req0 pkt sys file k requests visits _ s Ht Hf Hc Hm Hv Hlen Hk Hmin Hout) as Hans.
    rw /ptop_upload_task. destruct (name_turn files pl req0 P2P_PORT_REQ name sys _ s _ (length asked) zero_p2p logic0 None []
      eq_refl Hname Hse Hget Hans) as [buf E]. rw app_nil_r -/asked in E. rw E. by destruct asked.
  - intros c Hc'. assert (Hport : sendable (port_packet port)).
    { apply sendable_port. pose proof (lookup_lt_Some _ _ _ Hk). rw /port /MAX_P2P_PORT in Hlen *. lia. }
    rw /get_p2p_download_port {1}/bind name_request_run; [apply Hname|].
    rw {1}/bind send_p2p_packet_run //; [cbn; lia|].
    rw (proj2 (Z.ltb_ge (p2p_packet_len _ + 4) 0)); [rw /p2p_packet_len; cbn [name_packet p2p_data_len]; lia|].
    destruct (p2p_received _ (name_packet P2P_PORT_REQ name) [] Hport) as (n & data & Hrecv & Hn & Hdata).
    rw app_nil_r in Hrecv. rw Hrecv (proj2 (Z.ltb_ge n 0)); [lia|]. cbn [p2p_type p2p_data port_packet p2p_data_len] in *.
    rw Z.eqb_refl. cbn [negb]. rw Hdata // /get (mem_read_exact 2 _ 0) // firstn_all2 // slice_all // unle_le /ret. do 3 f_equal.
    apply Z.mod_small. pose proof (lookup_lt_Some _ _ _ Hk). rw /port /BASE_P2P_PORT /MAX_P2P_PORT in Hlen *. lia.
Qed.

(** With the piece length of the configuration that is shipped, the request for piece
    8993 is received as one for no bytes. *)
Lemma piece_8993_received :
  match recv_p2p_packet zero_p2p (wire (request_packet (PieceRequest 8993 131072))) with
  | Ok (r, pkt, rest) =>
      bool_decide (0 < r ∧ p2p_type pkt = 2 ∧ p2p_data_len pkt = 8 ∧ mem_read 8 (p2p_data pkt) = [33; 35; 0; 0; 0; 0; 0; 0] ∧
        rest = [0; 0; 0; 0; 2; 0; 33; 35])
  | Fault _ => false
  end = true.
Proof. vm_compute. reflexivity. Qed.

(** 8993 is 0x2321, whose bytes are "!#", the end marker: the request for that
    piece is cut after its number, and the owner answers it with no bytes.  A file of
    that many pieces of 131072 bytes, the configured length, is never complete. *)
Theorem piece_8993_not_served file req0 n fuel :
  8994 * 131072 < n < 2 ^ 31 - 131072 →
  let req := piece_request n 131072 8993 in
  req = PieceRequest 8993 131072 ∧
  upload_loop 131072 req0 fuel file zero_p2p (wire (request_packet req)) = Ok [].
Proof.
  intros Hn req. assert (Hreq : req = PieceRequest 8993 131072).
  { rw /req /piece_request. assert (Hk : 8994 < file_pieces n 131072).
    { rw /file_pieces Z.quot_div_nonneg; [lia|lia|].
      apply Z.le_succ_l, Z.div_le_lower_bound; lia. }
    rw (proj2 (Z.eqb_neq _ _)) //. lia. }
  split; [done|]. rw Hreq. destruct fuel as [|fuel]; [done|]. cbn [upload_loop].
  pose proof piece_8993_received as Hrecv. destruct (recv_p2p_packet _ _) as [[[r pkt] rest]|]; [|done].
  apply bool_decide_eq_true in Hrecv as (Hr & Ht & Hl & Hd & ->). rw (proj2 (Z.leb_gt _ _)) // Ht.
  change (negb (2 =? p2p_code P2P_PIECE_REQ)) with false. cbn iota.
  assert (E : read_request req0 pkt = Ok (PieceRequest 8993 0)).
  { rw /read_request Hl. change (8 <=? 8) with true. change (Z.to_nat 8) with 8%nat. cbn iota. rw Hd /overwrite. done. }
  rw E. assert (E2 : serve_piece file 131072 (PieceRequest 8993 0) = Ok (Some [])) by done. rw E2.
  by destruct fuel.
Qed.

(** What a peer can do to an owner: a connection that is closed before it asked for
    anything makes the owner free a pointer it never assigned, and a name of more than
    128 bytes is written past the array for it. *)
Theorem upload_task_faults {K} `{Kernel K} files pl req0 logic0 (s : up K) :
  ptop_upload_task files pl req0 logic0 [] s = Fault Uninitialised ∧
  ∀ type len data rest, is_name_request (p2p_code type) = true → Z.of_nat MAX_NAME_LEN < len →
    sendable (P2pPacket (p2p_code type) len data) →
    ptop_upload_task files pl req0 logic0 (wire (P2pPacket (p2p_code type) len data) ++ rest) s = Fault OutOfBounds.
Proof.
  split; [done|]. intros type len data rest Htype Hlen Hse. rw /ptop_upload_task. cbn [ptop_upload_loop].
  destruct (p2p_received _ zero_p2p rest Hse) as (n & data' & Hrecv & Hn & _). rw Hrecv (proj2 (Z.leb_gt _ _)) //.
  cbn [p2p_type p2p_data_len]. rw Htype. cbn [negb]. rw /read_logic. cbn [p2p_data_len]. by rw (proj2 (Z.leb_gt _ _)).
Qed.

(** When the owner cannot be reached, hangs up or answers with something else, the
    length is 2^32 - 1, which is -1 as the [int] it is stored in: the file then has no
    pieces, and no thread finds one to fetch. *)
Theorem failed_length_has_no_pieces name c reply pl :
  (length name < MAX_NAME_LEN)%nat → oc_answers c = [] → 2 ≤ pl →
  let failed len := file_pieces (file_len_of len) pl = 0 ∧
    get_new_piece (replicate (Z.to_nat (file_pieces (file_len_of len) pl)) PIECE_AVAILABLE) = None in
  (∀ input, get_file_len_from name false input c = Ok ((2 ^ 32 - 1, input), c)) ∧
  (∃ c', get_file_len_from name true [] c = Ok ((2 ^ 32 - 1, []), c')) ∧
  (sendable reply → p2p_type reply ≠ p2p_code P2P_FILE_LEN_RET →
     ∃ c', get_file_len_from name true (wire reply) c = Ok ((2 ^ 32 - 1, []), c')) ∧
  failed (2 ^ 32 - 1).
Proof.
  intros Hname Hc Hpl failed. split_and!.
  - done.
  - eexists. rw /get_file_len_from. cbn [negb]. rw {1}/bind name_request_run // {1}/bind send_p2p_packet_run //; [cbn; lia|].
    rw (proj2 (Z.ltb_ge (p2p_packet_len _ + 4) 0)) //. rw /p2p_packet_len. cbn [name_packet p2p_data_len]. lia.
  - intros Hse Hne. eexists. rw /get_file_len_from. cbn [negb].
    rw {1}/bind name_request_run // {1}/bind send_p2p_packet_run //; [cbn; lia|].
    rw (proj2 (Z.ltb_ge (p2p_packet_len _ + 4) 0)); [rw /p2p_packet_len; cbn [name_packet p2p_data_len]; lia|].
    destruct (p2p_received _ (name_packet P2P_FILE_LEN_REQ name) [] Hse) as (n & data & Hrecv & Hn & _).
    rw app_nil_r in Hrecv. rw Hrecv (proj2 (Z.ltb_ge n 0)); [lia|]. cbn [p2p_type]. rw (proj2 (Z.eqb_neq _ _)) //.
  - assert (E : file_pieces (file_len_of (2 ^ 32 - 1)) pl = 0); [|by rw /failed E].
    rw /file_pieces. change (file_len_of (2 ^ 32 - 1)) with (-1). apply Z.quot_small. lia.
Qed.

(** ** Witnesses *)

(** An owner of "/s/a", known as "1/a", with the five bytes of [Download.five]. *)
Definition a_name : list Z := [49; 47; 97].
Definition a_sys : list Z := [47; 115; 47; 97].
Definition a_files (sys : list Z) : option (list Z) := if bool_decide (sys = a_sys) then Some five else None.
(** The second piece, then the first. *)
Definition a_requests : list Z :=
  concat ((λ i, wire (request_packet (piece_request 5 2 (Z.of_nat i)))) <$> [1%nat; 0%nat]).
Definition a_owner : up model_kernel :=
  Up one_watched (replicate (Z.to_nat MAX_P2P_PORT) 0) (OutConn [] []) [Accepted a_requests] [].

Definition sendable_b (pkt : p2p_packet) : bool :=
  bool_decide ((0 ≤ p2p_type pkt < 2 ^ 16 ∧ 0 ≤ p2p_data_len pkt < 2 ^ 16) ∧ clean (p2p_bytes pkt)).
Lemma sendable_check pkt : sendable_b pkt = true → sendable pkt.
Proof. intros ((Ht & Hd) & Hc)%bool_decide_eq_true. done. Qed.

Lemma a_name_ok : name_ok MAX_NAME_LEN a_name.
Proof. split; [repeat constructor; done|]. apply Nat.ltb_lt. reflexivity. Qed.

Lemma file_len_exchanged_witness :
  ptop_upload_task a_files 2 (PieceRequest 0 0) [] (wire (name_packet P2P_FILE_LEN_REQ a_name)) a_owner =
    Ok (tt, said (wire (len_packet 5)) a_owner) ∧
  ∀ c, oc_answers c = [] →
    get_file_len_from a_name true (wire (len_packet 5)) c = Ok ((u32 5, []), OutConn (oc_sent c ++ wire (name_packet P2P_FILE_LEN_REQ a_name)) []).
Proof.
  apply (file_len_exchanged a_files 2 (PieceRequest 0 0) [] a_owner a_name a_sys five a_name_ok);
    [apply sendable_check; vm_compute; reflexivity|vm_compute; reflexivity|reflexivity|
     apply sendable_check; vm_compute; reflexivity|reflexivity].
Defined.

Lemma pieces_exchanged_witness :
  ptop_upload_task a_files 2 (PieceRequest 0 0) [] (wire (name_packet P2P_PORT_REQ a_name)) a_owner =
    Ok (tt, Up one_watched (replicate (Z.to_nat MAX_P2P_PORT) 0) (OutConn (wire (port_packet 5100)) []) [] [[3; 4; 1; 2]]) ∧
  ∀ c, oc_answers c = [] →
    get_p2p_download_port a_name (wire (port_packet 5100)) c = Ok ((5100, []), OutConn (oc_sent c ++ wire (name_packet P2P_PORT_REQ a_name)) []).
Proof.
  apply (pieces_exchanged a_files 2 (PieceRequest 0 0) [] a_owner a_name a_sys five 0%nat [1%nat; 0%nat] []);
    [apply a_name_ok|apply sendable_check; vm_compute; reflexivity|vm_compute; reflexivity|reflexivity| | |reflexivity..|lia].
  - split; simpl; lia.
  - intros i Hi. assert (i = 1 ∨ i = 0)%nat as [-> | ->] by set_solver;
      (split; [reflexivity|apply sendable_check; vm_compute; reflexivity]).
Defined.

Lemma piece_8993_not_served_witness :
  piece_request 1200000000 131072 8993 = PieceRequest 8993 131072 ∧
  upload_loop 131072 (PieceRequest 0 0) 100 five zero_p2p (wire (request_packet (piece_request 1200000000 131072 8993))) = Ok [].
Proof. apply (piece_8993_not_served five (PieceRequest 0 0) 1200000000 100). lia. Defined.

Lemma failed_length_has_no_pieces_witness :
  ∃ c', get_file_len_from a_name true (wire (port_packet 5100)) (OutConn [] []) = Ok ((2 ^ 32 - 1, []), c').
Proof.
  apply (failed_length_has_no_pieces a_name (OutConn [] []) (port_packet 5100) 2);
    [apply a_name_ok|reflexivity|lia|apply sendable_check; vm_compute; reflexivity|discriminate].
Defined.

Lemma upload_task_faults_witness :
  ptop_upload_task a_files 2 (PieceRequest 0 0) [] [] a_owner = Fault Uninitialised.
Proof. apply (upload_task_faults a_files 2 (PieceRequest 0 0) [] a_owner). Defined.
