(* ===== verification/Wait.v ===== *)
(** * Wait: waiting for a thread to start, [utility/pthread_wait.c]

    [client_start] creates the file monitor's thread, then initialises the
    [pthread_wait_t] they share, then waits on it for the thread to say that it runs
    or that it failed.  A step is a critical section of one of the two threads; the
    waiter sleeps on a condition variable, which a signal leaves only when it sleeps
    already. *)
From S2P Require Import Prelude.

(** ** pthread_wait.c *)
Inductive thread_status : Set := THREAD_FAILED | THREAD_RUNNING | THREAD_TERMINATED.
#[export] Instance thread_status_eq_dec : EqDecision thread_status.
Proof. solve_decision. Defined.

(** The condition variable is the thread that sleeps on it, if one does. *)
Record pthread_wait_t := PthreadWait {
  status : thread_status;
  asleep : bool
}.

Definition pthread_wait_init (w : pthread_wait_t) : pthread_wait_t := PthreadWait THREAD_FAILED false.
(** [pthread_wait_for]: it goes to sleep whatever [status] is, and returns once it is
    woken. *)
Definition pthread_wait_for (w : pthread_wait_t) : pthread_wait_t := PthreadWait (status w) true.
Definition pthread_wait_notify (w : pthread_wait_t) (st : thread_status) : pthread_wait_t := PthreadWait st false.

(** ** The two threads *)

(** The main thread, from the creation of the monitor's on. *)
Inductive main_at : Set :=
  | Created                          (** before [pthread_wait_init] *)
  | Initialised                      (** before [pthread_wait_for] *)
  | Waiting                          (** in it *)
  | Returned (st : thread_status).   (** and has read [wait.status] *)
(** The monitor's thread. *)
Inductive child_at : Set := Starting | Notified.

Record threads := Threads {
  t_wait : pthread_wait_t;
  t_main : main_at;
  t_child : child_at
}.

(** [outcome] is what the monitor's thread will notify: whether it could watch the
    directories. *)
Inductive wait_step (outcome : thread_status) : threads → threads → Prop :=
  | ws_init w c :
      wait_step outcome (Threads w Created c) (Threads (pthread_wait_init w) Initialised c)
  | ws_wait w c :
      wait_step outcome (Threads w Initialised c) (Threads (pthread_wait_for w) Waiting c)
  | ws_notify w m :
      wait_step outcome (Threads w m Starting) (Threads (pthread_wait_notify w outcome) m Notified)
  | ws_wake w c : asleep w = false →
      wait_step outcome (Threads w Waiting c) (Threads w (Returned (status w)) c).

Definition threads_start (w : pthread_wait_t) : threads := Threads w Created Starting.

(** The [if] after the wait: does [client_start] go on? *)
Definition goes_on (st : thread_status) : bool := negb (bool_decide (st = THREAD_FAILED)).

(** ** Specification *)

(** Every run from [s] reaches a state of [P], whatever the scheduler does. *)
Inductive eventually {A} (step : A → A → Prop) (P : A → Prop) : A → Prop :=
  | ev_now s : P s → eventually step P s
  | ev_later s : (∃ s', step s s') → (∀ s', step s s' → eventually step P s') → eventually step P s.

(** The notification came before the wait. *)
Definition lost (s : threads) : Prop := t_main s = Waiting ∧ t_child s = Notified ∧ asleep (t_wait s) = true.
Definition returned (st : thread_status) (s : threads) : Prop := t_main s = Returned st ∧ t_child s = Notified.

(** What holds in every state. *)
Definition wait_ok (outcome : thread_status) (s : threads) : Prop :=
  match t_main s, t_child s with
  | Waiting, Starting => asleep (t_wait s) = true
  | Waiting, Notified => asleep (t_wait s) = false → status (t_wait s) = outcome
  | Returned st, c => st = outcome ∧ c = Notified
  | _, _ => True
  end.

(** ** Lemmas *)
Lemma wait_ok_step outcome s s' : wait_ok outcome s → wait_step outcome s s' → wait_ok outcome s'.
Proof. rw /wait_ok. intros Hok Hstep. destruct Hstep as [w []|w []|w []|w [] Hw]; simpl in *; intuition congruence. Qed.

Lemma wait_ok_run outcome w s : rtc (wait_step outcome) (threads_start w) s → wait_ok outcome s.
Proof.
  assert (Hrun : ∀ a b, rtc (wait_step outcome) a b → wait_ok outcome a → wait_ok outcome b); [|intros Hr; by eapply Hrun].
  induction 1 as [|a a1 a2 Hstep _ IH]; [done|]. intros Hok. by apply IH, (wait_ok_step outcome a).
Qed.

(** How many steps are left. *)
Definition wait_left (s : threads) : nat :=
  (match t_main s with Created => 3 | Initialised => 2 | Waiting => 1 | Returned _ => 0 end +
   match t_child s with Starting => 1 | Notified => 0 end)%nat.
Lemma wait_left_step outcome s s' : wait_step outcome s s' → (wait_left s' < wait_left s)%nat.
Proof. intros [w c|w c|w m|w c Hw]; rw /wait_left; simpl; lia. Qed.

Lemma wait_progress outcome s : wait_ok outcome s → returned outcome s ∨ lost s ∨ ∃ s', wait_step outcome s s'.
Proof.
  destruct s as [w m [|]]; [right; right; by eexists; apply ws_notify|]. rw /wait_ok /=. intros Hok.
  destruct m as [| | |st].
  - right. right. eexists. apply ws_init.
  - right. right. eexists. apply ws_wait.
  - destruct (asleep w) eqn:E; [right; by left|]. right. right. eexists. by apply ws_wake.
  - left. destruct Hok as [-> _]. by split.
Qed.

Lemma wait_eventually outcome s :
  wait_ok outcome s → eventually (wait_step outcome) (λ s, returned outcome s ∨ lost s) s.
Proof.
  remember (wait_left s) as n eqn:E. revert s E. induction n as [n IH] using lt_wf_ind. intros s -> Hok.
  destruct (wait_progress outcome s Hok) as [Hr|[Hl|Hs]]; [apply ev_now; by left|apply ev_now; by right|].
  apply ev_later; [done|]. intros s' Hstep. eapply IH; [by apply wait_left_step in Hstep|done|]. by eapply wait_ok_step.
Qed.

(** Once the main thread sleeps before the notification, it is woken by it. *)
Lemma sleeping_returns outcome w :
  asleep w = true → eventually (wait_step outcome) (returned outcome) (Threads w Waiting Starting).
Proof.
  intros Hw. apply ev_later; [eexists; apply ws_notify|]. intros s' Hstep. inversion Hstep; subst; [|congruence].
  apply ev_later; [eexists; by apply ws_wake|]. intros s' Hstep'. inversion Hstep'; subst. by apply ev_now.
Qed.

(** ** Theorems *)


(** The notification can be lost: the monitor's thread starts at once and says that it
    runs, and the main thread never hears of it. *)
Theorem wakeup_lost outcome w :
  ∃ s, rtc (wait_step outcome) (threads_start w) s ∧ lost s ∧
    ¬ eventually (wait_step outcome) (λ s, ∃ st, t_main s = Returned st) s.
Proof.
  exists (Threads (pthread_wait_for (pthread_wait_init (pthread_wait_notify w outcome))) Waiting Notified).
  split; [|split; [done|]].
  - eapply rtc_l; [apply ws_notify|]. eapply rtc_l; [apply ws_init|]. eapply rtc_l; [apply ws_wait|]. apply rtc_refl.
  - intros Hev. inversion Hev as [s [st Hs]|s [s' Hstep] _]; subst; [done|]. by inversion Hstep.
Qed.

