(* ===== verification/MonitorTask.v ===== *)
(** * MonitorTask: the whole of [file_monitor_task], [client/file_monitor.c]

    The thread watches the shared directories ([Scan]), tells [client_start] whether it
    runs ([Wait]), and then turns events into announcements ([Events]) until it is
    cancelled.  The specification [observe_turns] says what a sequence of reads announces. *)
From S2P Require Import Prelude Hash TransTable FileTable Segment Wire Packet Replica Monitor Scan Events Wait.

(** ** State *)
Record monitoring (K : Type) := Monitoring {
  mg_mon : mon K;
  mg_wait : pthread_wait_t      (** targ->wait *)
}.
Arguments Monitoring {_} _ _.
Arguments mg_mon {_} _.
Arguments mg_wait {_} _.

(** Where the thread is when the reads that are given are over. *)
Inductive monitor_at : Set :=
  | Exited (ret : Z)                   (** [pthread_exit] *)
  | Reading (event_buf : list Z).      (** in the next [read] *)

Section task.
Context `{Kernel K}.
Context (stat : list Z → option Z).
Notation St := (monitoring K).

Definition on_mon {A} (m : M (mon K) A) : M St A := zoom mg_mon (λ m s, Monitoring m (mg_wait s)) m.
Definition notify_main (st : thread_status) : M St unit :=
  modify (λ s, Monitoring (mg_mon s) (pthread_wait_notify (mg_wait s) st)).

(** [bzero] of [m_table], then an empty list. *)
Definition reset_table (s : mstate K) : mstate K :=
  MState (ms_heap s) (ms_next s) 0 true [] (replicate (Z.to_nat WD_HASH_SIZE) None) (ms_kernel s) (ms_calloc s).
Definition monitor_table_init : M (mstate K) unit := modify reset_table.

(** [fd] is the result of [inotify_init], [targets] the shared directories with their
    contents, [reads] what the calls of [read] give. *)
Definition file_monitor_task (fd : Z) (targets : list (list Z * directory)) (reads : list (option (list Z))) : M St monitor_at :=
  on_mon (on_targets monitor_table_init) ;;;
  if fd <? 0 then ret (Exited 1) else
  r <- on_mon (on_targets (watch_targets 0 1 targets)) ;;
  if negb (r =? 0) then
    notify_main THREAD_FAILED ;;;
    on_mon (on_targets unwatch_and_free_targets) ;;;
    ret (Exited r)
  else
    notify_main THREAD_RUNNING ;;;
    event_buf <- for_each reads (λ bytes event_buf, on_mon (monitor_turn stat event_buf bytes)) (zeros (Z.to_nat EVENT_BUF_LEN)) ;;
    ret (Reading event_buf).

(** What the thread does when it is cancelled. *)
Definition file_monitor_cleanup : M St unit := on_mon (on_targets unwatch_and_free_targets).

(** ** Specification: the announcements of a sequence of turns *)
Fixpoint observe_turns (my_ip : Z) (w : @watches K) (buf : list Z) (turns : list (list raw_event)) :
    option (list (list trans_file_entry) * @watches K * list Z) :=
  match turns with
  | [] => Some ([], w, buf)
  | rs :: turns =>
      let bytes := raws_bytes rs in
      '(tes, w) ← observe stat my_ip w (all_read rs (drop (length bytes) buf));
      '(tess, w, buf) ← observe_turns my_ip w (overwrite bytes buf) turns;
      Some (tes :: tess, w, buf)
  end.
(** The watches of a table, by descriptor. *)
Definition watches_of (s : mstate K) : @watches K :=
  Watches (list_to_map ((λ it, (tg_wd it.2, (tg_sys it.2, tg_logic it.2))) <$> map_to_list (ms_heap s))) (ms_kernel s).

(** The watches the thread starts with. *)
Definition start_watches (targets : list (list Z * directory)) (s : mstate K) : @watches K :=
  match watch_targets 0 1 targets (reset_table s) with Ok (_, s') => watches_of s' | Fault _ => watches_of s end.
End task.

(** The update that announces [tes]. *)
Definition announcement (my_ip : Z) (tes : list trans_file_entry) : list Z :=
  frame (ptot_bytes (table_request my_ip PEER_FILE_UPDATE (TransTable (Z.of_nat (length tes)) tes))).

Definition turn_ok (rs : list raw_event) : Prop :=
  Forall raw_ok rs ∧ Z.of_nat (length (raws_bytes rs)) ≤ EVENT_BUF_LEN.

(** Nothing is watched yet. *)
Definition unwatching {K} `{KernelLaws K} (s : mstate K) : Prop :=
  ms_heap s = ∅ ∧ ms_calloc s = [] ∧ ∀ p, wd_at (ms_kernel s) p = None.

(** ** Lemmas *)
Section lemmas.
Context `{KernelLaws K} (stat : list Z → option Z).
Context {F : gset (list Z)} {P : gset Z} `{D : !Deployment F P}.

Lemma local_apply_app l l' v : local_apply_all (l ++ l') v = local_apply_all l' (local_apply_all l v).
Proof. apply fold_left_app. Qed.

Lemma turns_run turns : ∀ (w : @watches K) (s : monitoring K) buf tess (w' : @watches K) buf',
  Forall turn_ok turns → observe_turns stat (mn_ip (mg_mon s)) w buf turns = Some (tess, w', buf') →
  Forall (λ tes, Z.of_nat (length tes) ≤ MAX_SENT_ENTRIES) tess →
  mon_good F P w (mg_mon s) → (∀ te, te ∈ concat tess → te_name te ∈ F) → mn_ip (mg_mon s) ∈ P → oc_answers (mn_conn (mg_mon s)) = [] →
  wp (for_each (Some ∘ raws_bytes <$> turns) (λ bytes buf, on_mon (monitor_turn stat buf bytes)) buf)
     (λ b s', b = buf' ∧ mg_wait s' = mg_wait s ∧ mon_good F P w' (mg_mon s') ∧
        view (mn_ft (mg_mon s')) = local_apply_all (concat tess) (view (mn_ft (mg_mon s))) ∧
        mn_conn (mg_mon s') = OutConn (oc_sent (mn_conn (mg_mon s)) ++ concat (announcement (mn_ip (mg_mon s)) <$> tess)) []) s.
Proof.
  induction turns as [|rs turns IH]; intros w s buf tess w' buf' Hok Hobs Hfit Hg HF HP Hc.
  { injection Hobs as <- <- <-. apply wp_ret. split_and!; [done..|]. rw app_nil_r. destruct (mn_conn _). simpl in *. by subst. }
  apply Forall_cons in Hok as [[Hraw Hlen] Hok]. cbn [observe_turns] in Hobs.
  destruct (observe _ _ _ _) as [[tes w1]|] eqn:E1; [|done]. cbn in Hobs.
  destruct (observe_turns _ _ _ _ _) as [[[tess' w2] buf2]|] eqn:E2; [|done]. injection Hobs as <- <- <-.
  apply Forall_cons in Hfit as [Hfit1 Hfit]. cbn [fmap list_fmap for_each concat]. apply wp_bind, wp_zoom.
  eapply wp_mono.
  { apply (monitor_turn_run (F:=F) (P:=P) stat w (mg_mon s) buf (raws_bytes rs) (all_read rs (drop (length (raws_bytes rs)) buf)) tes w1); try done; [by apply (all_read_in rs [])|].
    intros te Hte. apply HF. set_solver. }
  intros b m (-> & Hg1 & Hv & Hip & Hconn). eapply wp_mono.
  { apply (IH w1 (Monitoring m (mg_wait s)) _ tess' w2 buf2); try done; cbn [mg_mon]; rw ?Hip ?Hconn; try done.
    intros te Hte. apply HF. set_solver. }
  intros b s' (-> & Hw & Hg2 & Hv2 & Hc2). cbn [mg_mon mg_wait] in *. split_and!; try done.
  - by rw Hv2 Hv local_apply_app.
  - by rw Hc2 Hconn Hip /= -app_assoc.
Qed.

Lemma watches_of_shows s : mt_ok s → shows (watches_of s) s.
Proof.
  intros Hs. split; [done|]. intros wd dir. cbn [wt_dirs watches_of].
  assert (Hnd : NoDup ((λ it : nat * monitor_target, (tg_wd it.2, (tg_sys it.2, tg_logic it.2))) <$> map_to_list (ms_heap s)).*1).
  { rw -list_fmap_compose. apply NoDup_fmap_2_strong; [|apply NoDup_map_to_list].
    intros [i t] [j u] Hi%elem_of_map_to_list Hj%elem_of_map_to_list E. simpl in E.
    destruct (mo_slot s Hs i t Hi) as [_ E1]. destruct (mo_slot s Hs j u Hj) as [_ E2]. rw E in E1. congruence. }
  rw -elem_of_list_to_map // list_elem_of_fmap. split.
  - intros ([i t] & [= -> ->] & Hi%elem_of_map_to_list). by exists i, t.
  - intros (i & t & Hi & <- & ->). exists (i, t). split; [done|]. by apply elem_of_map_to_list.
Qed.

Lemma initialised s : unwatching s → mt_ok (reset_table s).
Proof.
  intros (Hh & _ & Hk). split; cbn [ms_up ms_list ms_heap ms_next ms_targets ms_kernel]; rw ?Hh; try done.
  - constructor.
  - intros i. split; [intros [? E]; by rw lookup_empty in E|by intros []%elem_of_nil].
  - by intros i []%elem_of_nil.
  - by intros w i [? _]%lookup_replicate.
  - intros p w. by rw Hk.
Qed.
End lemmas.

(** ** Properties *)

(** C9. The file monitor.  Started on an empty table, with directories that fit it, the
    thread runs exactly when at least one shared directory can be read with all those below
    it.  Then it has told so, watches every directory under its two names and nothing else,
    turns every sequence of reads into the announcements [observe_turns] gives, one packet
    per read, with the own table following, and when it is cancelled nothing is watched any
    more.  Otherwise it says that it failed, leaves nothing watched and exits. *)
Theorem file_monitor_task_correct {K} `{KernelLaws K} stat F P `{!Deployment F P} n fd targets (s : monitoring K) :
  let names := watch_names 0 targets in
  0 ≤ fd → unwatching (mn_targets (mg_mon s)) → bounded F P (mn_ft (mg_mon s)) → no_oom (mn_ft (mg_mon s)) →
  mn_ip (mg_mon s) ∈ P → oc_answers (mn_conn (mg_mon s)) = [] →
  Forall roomy names → NoDup names.*1 → accepts (length names + n) (ms_kernel (mn_targets (mg_mon s))) →
  if existsb (λ t, readable_dir t.2) targets then
    let w := start_watches targets (mn_targets (mg_mon s)) in
    (∀ dir, dir ∈ names ↔ ∃ wd, wt_dirs w !! wd = Some dir) ∧ accepts n (wt_kernel w) ∧
    ∀ turns tess w' buf, Forall turn_ok turns →
      observe_turns stat (mn_ip (mg_mon s)) w (zeros (Z.to_nat EVENT_BUF_LEN)) turns = Some (tess, w', buf) →
      Forall (λ tes, Z.of_nat (length tes) ≤ MAX_SENT_ENTRIES) tess → (∀ te, te ∈ concat tess → te_name te ∈ F) →
      wp (file_monitor_task stat fd targets (Some ∘ raws_bytes <$> turns))
         (λ e s', e = Reading buf ∧ status (mg_wait s') = THREAD_RUNNING ∧ mon_good F P w' (mg_mon s') ∧
            view (mn_ft (mg_mon s')) = local_apply_all (concat tess) (view (mn_ft (mg_mon s))) ∧
            mn_conn (mg_mon s') = OutConn (oc_sent (mn_conn (mg_mon s)) ++ concat (announcement (mn_ip (mg_mon s)) <$> tess)) [] ∧
            wp file_monitor_cleanup (λ _ s'', ms_heap (mn_targets (mg_mon s'')) = ∅ ∧
              ∀ wd dir, wt_dirs w' !! wd = Some dir → mask_at (ms_kernel (mn_targets (mg_mon s''))) wd = None) s') s
  else ∀ reads, wp (file_monitor_task stat fd targets reads)
    (λ e s', (∃ r, e = Exited r ∧ r ≠ 0) ∧ status (mg_wait s') = THREAD_FAILED ∧
       ms_heap (mn_targets (mg_mon s')) = ∅ ∧ mn_ft (mg_mon s') = mn_ft (mg_mon s) ∧ mn_conn (mg_mon s') = mn_conn (mg_mon s)) s.
Proof.
  intros names Hfd Hun Hb Ho HP Hc Hro Hnd Hacc. pose proof (initialised _ Hun) as Hini.
  destruct s as [[m ft ip conn] wait]. cbn [mg_mon mn_targets mn_ft mn_ip mn_conn] in *. destruct Hun as (Hh & Hcal & Hk).
  rw /start_watches. set (m0 := reset_table m) in *.
  pose proof (watch_targets_ok n targets 0 1 m0 Hini Hcal Hro Hnd Hacc) as Hw.
  assert (Hstart : unwatched (watch_names 0 targets) m0) by (intros i t; by rw /m0 /= Hh lookup_empty).
  specialize (Hw Hstart). rw {1}/wp in Hw. destruct (watch_targets 0 1 targets m0) as [[r m1]|] eqn:Erun; [|done].
  destruct Hw as [Hr Hw]. rw orb_false_r in Hr.
  assert (Hinit : ∀ reads, file_monitor_task stat fd targets reads (Monitoring (Mon m ft ip conn) wait) =
    (if negb (r =? 0) then
       (notify_main THREAD_FAILED ;;; on_mon (on_targets unwatch_and_free_targets) ;;; ret (Exited r))
     else
       (notify_main THREAD_RUNNING ;;;
        event_buf <- for_each reads (λ bytes event_buf, on_mon (monitor_turn stat event_buf bytes)) (zeros (Z.to_nat EVENT_BUF_LEN)) ;;
        ret (Reading event_buf))) (Monitoring (Mon m1 ft ip conn) wait)).
  { intros reads. rw /file_monitor_task {1}/bind. change (on_mon (on_targets monitor_table_init) _) with (Ok (tt, Monitoring (Mon m0 ft ip conn) wait)).
    cbv beta iota. rw (proj2 (Z.ltb_ge _ _)) //. rw {1}/bind /on_mon /on_targets /zoom. cbn [mg_mon mn_targets]. by rw Erun. }
  destruct (existsb _ targets).
  - pose proof (watches_of_shows m1 (wt_ok _ _ _ _ Hw)) as Hsh. split; [|split; [apply Hw|]].
    { intros [sys logic]. split.
      - intros (i & t & Hi & E1 & E2)%(wt_new _ _ _ _ Hw). exists (tg_wd t). apply Hsh. exists i, t. simpl in *. by subst.
      - intros (wd & (i & t & Hi & _ & ->)%Hsh). apply (wt_only _ _ _ _ Hw) in Hi as [Hi|Hi]; [|done]. by rw /m0 /= Hh lookup_empty in Hi. }
    intros turns tess w' buf Hok Hobs Hfit HF. rw /wp Hinit -/(wp _ _ _) Hr. cbn [negb]. apply wp_bind, wp_modify, wp_bind.
    eapply wp_mono; [apply (turns_run (F:=F) (P:=P) stat turns (watches_of m1) _ _ tess w' buf); try done|].
    { split; [split; [apply Hw|apply Hw|done]|done|done]. }
    intros b [m2 wait2] (-> & Hwait & Hg & Hv & Hconn). cbn [mg_mon mg_wait] in *. apply wp_ret. split; [done|].
    split; [by rw Hwait|]. split; [done|]. split; [done|]. split; [done|]. destruct (mgood_targets _ _ _ _ Hg) as [Hok2 _ [_ Hsh2]].
    apply wp_zoom, wp_zoom. eapply wp_mono; [by apply unwatch_all_correct|]. intros [] m3 (Hh3 & _ & _ & Hm3 & _).
    split; [done|]. intros wd dir (i & t & Hi & <- & _)%Hsh2. by apply (Hm3 i).
  - intros reads. rw /wp Hinit -/(wp _ _ _) Hr. cbn [negb]. apply wp_bind, wp_modify, wp_bind, wp_zoom, wp_zoom.
    eapply wp_mono; [apply unwatch_all_correct; apply Hw|]. intros [] m3 (Hh3 & _). apply wp_ret.
    split; [exists r; split; [done|by apply Z.eqb_neq]|]. by split_and!.
Qed.

(** When [inotify_init] fails the thread exits without a word: it never notifies, and
    [client_start], which waits for it, waits for ever. *)
Theorem monitor_failure_unnoticed {K} `{Kernel K} stat fd targets reads (s : monitoring K) outcome t :
  fd < 0 → rtc (wait_step outcome) (threads_start (mg_wait s)) t → t_child t = Starting →
  wp (file_monitor_task stat fd targets reads) (λ e s', e = Exited 1 ∧ mg_wait s' = mg_wait s) s ∧
  (∀ st, t_main t ≠ Returned st) ∧
  (∀ t', wait_step outcome t t' → t_child t' = Starting → t_main t ≠ Waiting).
Proof.
  intros Hfd Hrun Hc. split; [|split].
  - rw /file_monitor_task. apply wp_bind, wp_zoom, wp_zoom, wp_modify. rw (proj2 (Z.ltb_lt _ _)) //.
  - intros st Hm. pose proof (wait_ok_run outcome _ t Hrun) as Hok. rw /wait_ok Hm Hc in Hok. by destruct Hok.
  - intros t' Hstep Hc'. pose proof (wait_ok_run outcome _ t Hrun) as Hok. rw /wait_ok Hc in Hok.
    inversion Hstep; subst; simpl in *; try done. congruence.
Qed.

(** ** Witnesses *)

(** "/s", with a file and "."; then "a" is created, written and deleted. *)
Definition start_monitoring : monitoring model_kernel :=
  Monitoring (Mon (fresh_monitor (MKernel [] ∅)) (fresh []) 9 (OutConn [] [])) (PthreadWait THREAD_FAILED true).
Definition one_dir : list (list Z * directory) := [(root_sys, Some [EDots false; EFile [98] (Some 3)])].

Lemma start_unwatching : unwatching (mn_targets (mg_mon start_monitoring)).
Proof. split; [done|]. split; [done|]. by intros p. Qed.

Lemma demo_observed : ∃ w' buf, observe_turns demo_stat 9 (start_watches one_dir (fresh_monitor (MKernel [] ∅)))
  (zeros (Z.to_nat EVENT_BUF_LEN)) [demo_raws] = Some ([demo_tes], w', buf).
Proof.
  assert (E : ((λ x, x.1.1) <$> observe_turns demo_stat 9 (start_watches one_dir (fresh_monitor (MKernel [] ∅)))
    (zeros (Z.to_nat EVENT_BUF_LEN)) [demo_raws]) = Some [demo_tes]) by (vm_compute; reflexivity).
  revert E. generalize (observe_turns demo_stat 9 (start_watches one_dir (fresh_monitor (MKernel [] ∅))) (zeros (Z.to_nat EVENT_BUF_LEN)) [demo_raws]).
  intros [[[tess w'] buf]|] E; [|discriminate E]. injection E as E. exists w', buf. simpl in E. by rewrite E.
Qed.

Lemma file_monitor_task_correct_witness :
  wp (file_monitor_task demo_stat 5 one_dir [Some (raws_bytes demo_raws)])
     (λ e s', status (mg_wait s') = THREAD_RUNNING ∧ 
        view (mn_ft (mg_mon s')) = local_apply_all demo_tes ∅ ∧
        mn_conn (mg_mon s') = OutConn (announcement 9 demo_tes) []) start_monitoring ∧
  wp (file_monitor_task demo_stat 5 [(root_sys, None)] [])
     (λ e s', (∃ r, e = Exited r ∧ r ≠ 0) ∧ status (mg_wait s') = THREAD_FAILED) start_monitoring.
Proof.
  assert (Hb : bounded monitor_files monitor_machines (mn_ft (mg_mon start_monitoring))) by apply root_mon_good.
  assert (HP : 9 ∈ monitor_machines) by (rw /monitor_machines; set_solver).
  assert (Hn : roomy (root_sys, root_logic)) by (split; apply Nat.ltb_lt; reflexivity).
  assert (Hro : Forall roomy [(root_sys, root_logic)]) by (by apply Forall_singleton).
  assert (Ha : accepts 2 (MKernel [] ∅)) by (by apply mk_accepts).
  split.
  - destruct (file_monitor_task_correct demo_stat monitor_files monitor_machines (Deployment0:=monitor_deployment) 1 5 one_dir start_monitoring)
      as (_ & _ & Hrun); [apply Z.leb_le; reflexivity|exact start_unwatching|exact Hb|reflexivity|exact HP|reflexivity|exact Hro|apply NoDup_singleton|exact Ha|].
    destruct demo_observed as (w' & buf & E). eapply wp_mono; [apply (Hrun [demo_raws] [demo_tes] w' buf)|].
    + apply Forall_singleton. split; [exact demo_raws_ok|apply Z.leb_le; vm_compute; reflexivity].
    + exact E.
    + apply Forall_singleton, Z.leb_le. vm_compute. reflexivity.
    + intros te Hte. assert (H : te_name te = [49; 47; 97]).
      { cbn [concat app] in Hte. repeat (apply elem_of_cons in Hte as [->|Hte]; [reflexivity|]). by apply elem_of_nil in Hte. }
      rw H /monitor_files. set_solver.
    + intros e s' (_ & Hst & _ & Hv & Hc & _). split; [exact Hst|]. split; [exact Hv|].
      etrans; [exact Hc|]. exact (f_equal (λ b, OutConn b []) (app_nil_r (announcement 9 demo_tes))).
  - eapply wp_mono.
    + apply (file_monitor_task_correct demo_stat monitor_files monitor_machines (Deployment0:=monitor_deployment) 1 5 [(root_sys, None)] start_monitoring);
        [apply Z.leb_le; reflexivity|exact start_unwatching|exact Hb|reflexivity|exact HP|reflexivity|exact Hro|apply NoDup_singleton|exact Ha].
    + intros e s' (He & Hst & _). by split.
Defined.

Lemma monitor_failure_unnoticed_witness :
  wp (file_monitor_task demo_stat (-1) one_dir []) (λ e s', e = Exited 1 ∧ mg_wait s' = PthreadWait THREAD_FAILED true) start_monitoring.
Proof. apply (monitor_failure_unnoticed demo_stat (-1) one_dir [] start_monitoring THREAD_RUNNING (threads_start (mg_wait start_monitoring))); [lia|apply rtc_refl|reflexivity]. Defined.
