(* ===== verification/Conf.v ===== *)
(** * Conf: reading the configuration, [parse_conf_files] and [parse_conf_file]

    Both processes read "key: value" lines with [fscanf]; the client also reads the
    list of shared directories.  A file is its bytes.  The directives of [fscanf]
    that are used are modelled as the C standard describes them; a loop that never
    ends is one that takes any amount of fuel. *)
From S2P Require Import Prelude TransTable Packet Scan.

(** ** fscanf *)
Definition NEWLINE : Z := 10.
Definition COLON : Z := 58.
Definition MAX_LINE : nat := 1024.
Definition MAX_TARGET_DIR : nat := 2048.

Definition isspace (c : Z) : bool := (c =? 32) || ((9 <=? c) && (c <=? 13)).

(** The longest prefix of characters that satisfy [p], and the rest. *)
Fixpoint span (p : Z → bool) (l : list Z) : list Z * list Z :=
  match l with
  | [] => ([], [])
  | c :: l' => if p c then (c :: (span p l').1, (span p l').2) else ([], l)
  end.
Definition skip_space (l : list Z) : list Z := (span isspace l).2.

(** A conversion stores a string in an array of [size] bytes. *)
Definition scan_store (size : nat) (s : list Z) : res (list Z) :=
  if decide (length s < size)%nat then Ok s else Fault OutOfBounds.

(** What a [char] array holds: [None] until something is stored in it. *)
Definition var : Type := option (list Z).
Definition read_var (v : var) : res (list Z) := match v with Some s => Ok s | None => Fault Uninitialised end.

Definition EOF : Z := -1.

(** [fscanf(fp, "%[^:]: %[^\n]\n", cmd, arg)]: its result, [cmd], [arg] and what is left. *)
Definition scan_pair (cmd arg : var) (input : list Z) : res (Z * var * var * list Z) :=
  match span (λ c, negb (c =? COLON)) input with
  | ([], []) => Ok (EOF, cmd, arg, [])
  | ([], rest) => Ok (0, cmd, arg, rest)
  | (s, []) => match scan_store MAX_NAME_LEN s with Fault e => Fault e | Ok s => Ok (1, Some s, arg, []) end
  | (s, _ :: rest) =>
      match scan_store MAX_NAME_LEN s with
      | Fault e => Fault e
      | Ok s =>
          match span (λ c, negb (c =? NEWLINE)) (skip_space rest) with
          | ([], rest) => Ok (1, Some s, arg, rest)
          | (v, rest) =>
              match scan_store MAX_LINE v with
              | Fault e => Fault e
              | Ok v => Ok (2, Some s, Some v, skip_space rest)
              end
          end
      end
  end.

(** [fscanf(fp, "%s", arg)] *)
Definition scan_word (arg : var) (input : list Z) : res (Z * var * list Z) :=
  match span (λ c, negb (isspace c)) (skip_space input) with
  | ([], rest) => Ok (EOF, arg, rest)
  | (w, rest) => match scan_store MAX_LINE w with Fault e => Fault e | Ok w => Ok (1, Some w, rest) end
  end.

(** The loop over the pairs; [set] is its body for a key and a value, [None] for a
    bad key.  The result is 0, or -1 for a bad key; [None] when the fuel is used up. *)
Fixpoint scan_pairs {A} (fuel : nat) (set : list Z → var → A → res (option A)) (cmd arg : var) (input : list Z) (a : A) :
    option (res (Z * A)) :=
  match fuel with
  | O => None
  | S fuel =>
      match scan_pair cmd arg input with
      | Fault e => Some (Fault e)
      | Ok (n, cmd, arg, rest) =>
          if n =? EOF then Some (Ok (0, a)) else
          match read_var cmd with
          | Fault e => Some (Fault e)
          | Ok key =>
              match set key arg a with
              | Fault e => Some (Fault e)
              | Ok None => Some (Ok (-1, a))
              | Ok (Some a) => scan_pairs fuel set cmd arg rest a
              end
          end
      end
  end.

(** ** The tracker's configuration *)
Definition INTERVAL : list Z := [105; 110; 116; 101; 114; 118; 97; 108].
Definition PIECE_LENGTH : list Z := [112; 105; 101; 99; 101; 95; 108; 101; 110; 103; 116; 104].
Definition TRACKER : list Z := [116; 114; 97; 99; 107; 101; 114].
Definition DEVICE : list Z := [100; 101; 118; 105; 99; 101].

Definition isdigit (c : Z) : bool := (48 <=? c) && (c <=? 57).
(** [atoi]: [(int)strtol(s, NULL, 10)] *)
Definition atoi (s : list Z) : Z :=
  let s := skip_space s in
  let '(neg, s) := match s with c :: s' => if c =? 45 then (true, s') else if c =? 43 then (false, s') else (false, s) | [] => (false, []) end in
  let n := undecimal (span isdigit s).1 in
  i32 (Z.max (- 2 ^ 63) (Z.min (2 ^ 63 - 1) (if neg then - n else n))).

Definition set_control (key : list Z) (arg : var) (c : ttop_control_info) : res (option ttop_control_info) :=
  if decide (key = INTERVAL) then
    match read_var arg with Fault e => Fault e | Ok v => Ok (Some (ControlInfo (atoi v) (piece_len c))) end
  else if decide (key = PIECE_LENGTH) then
    match read_var arg with Fault e => Fault e | Ok v => Ok (Some (ControlInfo (interval c) (atoi v))) end
  else Ok None.

(** [file]: the contents of "server.conf", or [fopen] fails. *)
Definition parse_conf_file (fuel : nat) (file : option (list Z)) (control : ttop_control_info) : option (res (Z * ttop_control_info)) :=
  match file with
  | None => Some (Ok (-1, control))
  | Some input => scan_pairs fuel set_control None None input control
  end.

(** ** The client's configuration *)
Record client_conf_info := ConfInfo {
  tracker_host : list Z;
  device_name : list Z;
  target_dirs : list (list Z)      (** the first [target_n] of [MAX_TARGET_DIR] *)
}.

(** [strcpy] into an array of [MAX_NAME_LEN] bytes. *)
Definition set_conf (key : list Z) (arg : var) (c : client_conf_info) : res (option client_conf_info) :=
  let set (f : list Z → client_conf_info) :=
    match read_var arg with
    | Fault e => Fault e
    | Ok v => match scan_store MAX_NAME_LEN v with Fault e => Fault e | Ok v => Ok (Some (f v)) end
    end in
  if decide (key = TRACKER) then set (λ v, ConfInfo v (device_name c) (target_dirs c))
  else if decide (key = DEVICE) then set (λ v, ConfInfo (tracker_host c) v (target_dirs c))
  else Ok None.

(** A '/' at the end is cut off. *)
Definition strip_slash (s : list Z) : list Z :=
  match rev s with c :: r => if c =? 47 then rev r else s | [] => s end.

(** The loop over the shared directories; [calloc] gives the answers, then succeeds.
    When it fails, [target_n] is still 0. *)
Fixpoint scan_targets (fuel : nat) (calloc : list bool) (arg : var) (input : list Z) (dirs : list (list Z)) :
    option (res (Z * list (list Z))) :=
  match fuel with
  | O => None
  | S fuel =>
      match scan_word arg input with
      | Fault e => Some (Fault e)
      | Ok (n, arg, rest) =>
          if n =? EOF then Some (Ok (0, dirs)) else
          match read_var arg with
          | Fault e => Some (Fault e)
          | Ok word =>
              let dir := strip_slash word in
              if decide (length dirs < MAX_TARGET_DIR)%nat then
                match calloc with
                | false :: _ => Some (Ok (-1, []))
                | _ => scan_targets fuel (tail calloc) (Some dir) rest (dirs ++ [dir])
                end
              else Some (Fault OutOfBounds)
          end
      end
  end.

Definition parse_conf_files (fuel : nat) (conf_file target_file : option (list Z)) (calloc : list bool) (conf : client_conf_info) :
    option (res (Z * client_conf_info)) :=
  match conf_file with
  | None => Some (Ok (-1, conf))
  | Some input =>
      match scan_pairs fuel set_conf None None input conf with
      | None => None
      | Some (Fault e) => Some (Fault e)
      | Some (Ok (r, conf)) =>
          if negb (r =? 0) then Some (Ok (r, conf)) else
          match target_file with
          | None => Some (Ok (-1, conf))
          | Some input =>
              match scan_targets fuel calloc None input [] with
              | None => None
              | Some (Fault e) => Some (Fault e)
              | Some (Ok (r, dirs)) => Some (Ok (r, ConfInfo (tracker_host conf) (device_name conf) dirs))
              end
          end
      end
  end.

(** ** Specification *)

(** A configuration file as one writes it. *)
Definition conf_line (key value : list Z) : list Z := key ++ COLON :: 32 :: value ++ [NEWLINE].
Definition print_conf (c : client_conf_info) : list Z :=
  conf_line TRACKER (tracker_host c) ++ conf_line DEVICE (device_name c).
Definition print_targets (c : client_conf_info) : list Z := concat ((λ d, d ++ [NEWLINE]) <$> target_dirs c).
Definition print_control (c : ttop_control_info) : list Z :=
  conf_line INTERVAL (decimal (interval c)) ++ conf_line PIECE_LENGTH (decimal (piece_len c)).

(** Values that can be written: on one line, not beginning with a space. *)
Definition value_ok (size : nat) (v : list Z) : Prop :=
  (∃ c v', v = c :: v' ∧ isspace c = false) ∧ Forall (λ c, c ≠ NEWLINE) v ∧ (length v < size)%nat.
Definition dir_ok (d : list Z) : Prop :=
  (∃ d' c, d = d' ++ [c] ∧ c ≠ 47) ∧ Forall (λ c, isspace c = false) d ∧ (length d < MAX_LINE)%nat.
Definition conf_ok (c : client_conf_info) : Prop :=
  value_ok MAX_NAME_LEN (tracker_host c) ∧ value_ok MAX_NAME_LEN (device_name c) ∧
  Forall dir_ok (target_dirs c) ∧ (length (target_dirs c) ≤ MAX_TARGET_DIR)%nat.

(** ** Lemmas: fscanf *)
Lemma span_parts p l : l = (span p l).1 ++ (span p l).2.
Proof. induction l as [|c l IH]; [done|]. cbn [span]. destruct (p c); [|done]. cbn [fst snd app]. by f_equal. Qed.
Lemma span_stop p a c l : Forall (λ x, p x = true) a → p c = false → span p (a ++ c :: l) = (a, c :: l).
Proof. intros Ha Hc. induction Ha as [|x a Hx _ IH]; cbn [app span]; [by rw Hc|]. by rw Hx IH. Qed.
Lemma span_all p a : Forall (λ x, p x = true) a → span p a = (a, []).
Proof. induction 1 as [|x a Hx _ IH]; [done|]. cbn [span]. by rw Hx IH. Qed.

Lemma skip_space_cons c l : isspace c = false → skip_space (c :: l) = c :: l.
Proof. intros Hc. by rw /skip_space /= Hc. Qed.

Lemma scan_store_ok size s : (length s < size)%nat → scan_store size s = Ok s.
Proof. intros Hs. by rw /scan_store decide_True. Qed.

Lemma scan_pair_line cmd arg key value rest :
  key ≠ [] → Forall (λ c, c ≠ COLON) key → (length key < MAX_NAME_LEN)%nat → value_ok MAX_LINE value →
  scan_pair cmd arg (conf_line key value ++ rest) = Ok (2, Some key, Some value, skip_space rest).
Proof.
  intros Hne Hk Hkl ((c & v & -> & Hc) & Hv & Hvl).
  assert (E : conf_line key (c :: v) ++ rest = key ++ COLON :: (32 :: (c :: v) ++ NEWLINE :: rest)).
  { rw /conf_line -!app_assoc /=. do 3 f_equal. by rw -app_assoc. }
  rw /scan_pair E span_stop //; [eapply Forall_impl; [exact Hk|]; intros x Hx; by apply negb_true_iff, Z.eqb_neq|].
  destruct key as [|k key]; [done|]. rw scan_store_ok //.
  change (skip_space (32 :: (c :: v) ++ NEWLINE :: rest)) with (skip_space ((c :: v) ++ NEWLINE :: rest)).
  rw /app -/app skip_space_cons // app_comm_cons.
  rw span_stop //; [eapply Forall_impl; [exact Hv|]; intros x Hx; by apply negb_true_iff, Z.eqb_neq|].
  by rw scan_store_ok.
Qed.

(** A turn that reads something consumes it. *)
Lemma scan_pair_shorter cmd arg input n cmd' arg' rest :
  scan_pair cmd arg input = Ok (n, cmd', arg', rest) → n ≠ EOF → n ≠ 0 → (length rest < length input)%nat.
Proof.
  rw /scan_pair. pose proof (span_parts (λ c, negb (c =? COLON)) input) as E.
  destruct (span _ input) as [s r]. cbn [fst snd] in E. subst input.
  assert (Hskip : ∀ l, (length (skip_space l) ≤ length l)%nat).
  { intros l. rw {2}(span_parts isspace l) length_app /skip_space. lia. }
  destruct s as [|c s], r as [|c' r]; [by intros [= <-]|by intros [= <-]|..].
  - destruct (scan_store _ _); [|done]. intros [= <- _ _ <-] _ _. simpl. lia.
  - destruct (scan_store _ _); [|done]. pose proof (span_parts (λ c, negb (c =? NEWLINE)) (skip_space r)) as E.
    pose proof (Hskip r) as Hr. destruct (span _ (skip_space r)) as [v r']. cbn [fst snd] in E.
    rw E length_app in Hr. destruct v as [|x v].
    + intros [= <- _ _ <-] _ _. rw length_app /=. lia.
    + destruct (scan_store _ _); [|done]. intros [= <- _ _ <-] _ _. pose proof (Hskip r'). rw length_app /=. lia.
Qed.

(** When it reads nothing, nothing changes. *)
Lemma scan_pair_stuck cmd arg input cmd' arg' rest :
  scan_pair cmd arg input = Ok (0, cmd', arg', rest) → cmd' = cmd ∧ arg' = arg ∧ rest = input.
Proof.
  rw /scan_pair. pose proof (span_parts (λ c, negb (c =? COLON)) input) as E.
  destruct (span _ input) as [s r]. cbn [fst snd] in E. subst input.
  destruct s as [|c s], r as [|c' r]; [done|by intros [= <- <- <-]|..].
  - by destruct (scan_store _ _).
  - destruct (scan_store _ _); [|done]. destruct (span _ (skip_space r)) as [[|x v] r']; [done|]. by destruct (scan_store _ _).
Qed.

(** ** Lemmas: the loops *)
Section loop.
Context {A : Type} (set : list Z → var → A → res (option A)).
(** Whether a line is accepted does not depend on the lines before it. *)
Context (Hset : ∀ key arg a b a', set key arg a = Ok (Some a') → ∃ b', set key arg b = Ok (Some b')).

Lemma scan_pairs_stuck fuel cmd key arg input a a' :
  scan_pair cmd arg input = Ok (0, Some key, arg, input) → set key arg a = Ok (Some a') → cmd = Some key →
  scan_pairs fuel set cmd arg input a = None.
Proof using Hset.
  intros Hscan Hs ->. revert a a' Hs. induction fuel as [|fuel IH]; intros a a' Hs; [done|].
  cbn [scan_pairs]. rw Hscan /= Hs. destruct (Hset _ _ a a' _ Hs) as [b' Hb]. by eapply IH.
Qed.

(** Either the loop ends as soon as the input is used up, or it never does. *)
Lemma scan_pairs_ends n : ∀ input cmd arg a, (length input < n)%nat →
  (∃ r, ∀ fuel, (length input < fuel)%nat → scan_pairs fuel set cmd arg input a = Some r) ∨
  (∀ fuel, scan_pairs fuel set cmd arg input a = None).
Proof using Hset.
  induction n as [|n IH]; intros input cmd arg a Hn; [lia|].
  assert (Hend : ∀ r, (∀ fuel, scan_pairs (S fuel) set cmd arg input a = Some r) →
    ∃ r, ∀ fuel, (length input < fuel)%nat → scan_pairs fuel set cmd arg input a = Some r).
  { intros r Hr. exists r. intros [|fuel] Hf; [lia|apply Hr]. }
  destruct (scan_pair cmd arg input) as [[[[k cmd'] arg'] rest]|e] eqn:Hscan.
  2: { left. apply (Hend (Fault e)). intros fuel. cbn [scan_pairs]. by rw Hscan. }
  destruct (Z.eqb_spec k EOF) as [->|Hk].
  { left. apply (Hend (Ok (0, a))). intros fuel. cbn [scan_pairs]. by rw Hscan. }
  destruct (read_var cmd') as [key|e] eqn:Hkey.
  2: { left. apply (Hend (Fault e)). intros fuel. cbn [scan_pairs]. rw Hscan (proj2 (Z.eqb_neq _ _)) // Hkey //. }
  destruct (set key arg' a) as [[a'|]|e] eqn:Hs.
  2: { left. apply (Hend (Ok (-1, a))). intros fuel. cbn [scan_pairs]. rw Hscan (proj2 (Z.eqb_neq _ _)) // Hkey Hs //. }
  2: { left. apply (Hend (Fault e)). intros fuel. cbn [scan_pairs]. rw Hscan (proj2 (Z.eqb_neq _ _)) // Hkey Hs //. }
  assert (Hgo : ∀ fuel, scan_pairs (S fuel) set cmd arg input a = scan_pairs fuel set cmd' arg' rest a').
  { intros fuel. cbn [scan_pairs]. rw Hscan (proj2 (Z.eqb_neq _ _)) // Hkey Hs //. }
  destruct (decide (k = 0)) as [->|Hk0].
  - right. apply scan_pair_stuck in Hscan as Hsame. destruct Hsame as (-> & -> & ->).
    assert (cmd = Some key) as -> by (destruct cmd; simplify_eq/=; done).
    intros fuel. by eapply scan_pairs_stuck.
  - pose proof (scan_pair_shorter _ _ _ _ _ _ _ Hscan Hk Hk0) as Hlt.
    destruct (IH rest cmd' arg' a' ltac:(lia)) as [[r Hr]|Hr].
    + left. exists r. intros [|fuel] Hf; [lia|]. rw Hgo. apply Hr. lia.
    + right. intros [|fuel]; [done|]. rw Hgo. apply Hr.
Qed.

Lemma scan_pairs_line fuel cmd arg key value rest a a' :
  key ≠ [] → Forall (λ c, c ≠ COLON) key → (length key < MAX_NAME_LEN)%nat → value_ok MAX_LINE value →
  set key (Some value) a = Ok (Some a') →
  scan_pairs (S fuel) set cmd arg (conf_line key value ++ rest) a =
    scan_pairs fuel set (Some key) (Some value) (skip_space rest) a'.
Proof. intros H1 H2 H3 H4 Hs. cbn [scan_pairs]. rw scan_pair_line //. by rw /= Hs. Qed.
End loop.

Lemma set_control_uniform key arg a b a' : set_control key arg a = Ok (Some a') → ∃ b', set_control key arg b = Ok (Some b').
Proof.
  rw /set_control. destruct (decide (key = INTERVAL)), (decide (key = PIECE_LENGTH)), (read_var arg); naive_solver.
Qed.
Lemma set_conf_uniform key arg a b a' : set_conf key arg a = Ok (Some a') → ∃ b', set_conf key arg b = Ok (Some b').
Proof.
  rw /set_conf. destruct (decide (key = TRACKER)), (decide (key = DEVICE)), (read_var arg) as [v|]; try done;
    destruct (scan_store MAX_NAME_LEN v); naive_solver.
Qed.

(** Numbers as they are written and read. *)
Lemma decimal_digits fuel n : 0 ≤ n → Forall (λ c, isdigit c = true) (decimal_from fuel n).
Proof.
  revert n. induction fuel as [|fuel IH]; intros n Hn; cbn [decimal_from]; [constructor|].
  destruct (Z.ltb_spec n 10).
  - constructor; [|constructor]. rw /isdigit. apply andb_true_iff. rw !Z.leb_le. lia.
  - apply Forall_app. split; [apply IH, Z.div_pos; lia|]. constructor; [|constructor].
    pose proof (Z.mod_pos_bound n 10). rw /isdigit. apply andb_true_iff. rw !Z.leb_le. lia.
Qed.
Lemma decimal_cons n : 0 ≤ n → ∃ c l, decimal n = c :: l ∧ isdigit c = true.
Proof.
  intros Hn. pose proof (decimal_digits 10 n Hn) as Hd. rw -/(decimal n) in Hd.
  destruct (decimal n) as [|c l] eqn:E; [|apply Forall_cons in Hd as [? _]; by exists c, l].
  exfalso. rw /decimal in E. cbn [decimal_from] in E. destruct (n <? 10); [done|].
  by apply app_eq_nil in E as [_ ?].
Qed.
Lemma isdigit_range c : isdigit c = true → 48 ≤ c ≤ 57.
Proof. rw /isdigit andb_true_iff !Z.leb_le. done. Qed.

Lemma atoi_decimal n : 0 ≤ n < 2 ^ 31 → atoi (decimal n) = n.
Proof.
  intros Hn. pose proof (decimal_cons n ltac:(lia)) as (c & l & E & Hc). pose proof (isdigit_range c Hc) as Hr.
  pose proof (decimal_digits 10 n ltac:(lia)) as Hd. rw -/(decimal n) in Hd.
  rw /atoi E skip_space_cons.
  { rw /isspace. apply orb_false_iff. split; [apply Z.eqb_neq; lia|]. apply andb_false_iff. right. apply Z.leb_gt. lia. }
  rw (proj2 (Z.eqb_neq c 45)); [lia|]. rw (proj2 (Z.eqb_neq c 43)); [lia|]. cbv beta iota zeta. rw -E span_all //. cbn [fst].
  rw undecimal_decimal; [lia|lia|]. rw Z.min_r; [lia|]. rw Z.max_r; [lia|]. by rw i32_id; [lia|].
Qed.

Lemma value_ok_weaken v : value_ok MAX_NAME_LEN v → value_ok MAX_LINE v.
Proof. intros (H1 & H2 & H3). split_and!; [done|done|]. rw /MAX_NAME_LEN /MAX_LINE in H3 *. lia. Qed.

Lemma decimal_value n : 0 ≤ n < 10 ^ 10 → value_ok MAX_LINE (decimal n).
Proof.
  intros Hn. pose proof (decimal_cons n ltac:(lia)) as (c & l & E & Hc). pose proof (isdigit_range c Hc) as Hr. split_and!.
  - exists c, l. split; [done|]. rw /isspace. apply orb_false_iff. split; [apply Z.eqb_neq; lia|]. apply andb_false_iff. right. apply Z.leb_gt. lia.
  - eapply Forall_impl; [apply (decimal_digits 10 n); lia|]. intros x Hx%isdigit_range ->. rw /NEWLINE in Hx. lia.
  - assert (Hlen : ∀ fuel n, (length (decimal_from fuel n) ≤ fuel)%nat).
    { clear. induction fuel as [|fuel IH]; intros n; [done|]. cbn [decimal_from]. case_match; [simpl; lia|].
      rw length_app /=. specialize (IH (n / 10)). lia. }
    pose proof (Hlen 10%nat n). rw /decimal /MAX_LINE. lia.
Qed.

Lemma skip_conf_line key value rest : (∃ c k, key = c :: k ∧ isspace c = false) →
  skip_space (conf_line key value ++ rest) = conf_line key value ++ rest.
Proof. intros (c & k & -> & Hc). by rw /conf_line /= skip_space_cons. Qed.

Lemma strip_slash_ok d : dir_ok d → strip_slash d = d.
Proof. intros ((d' & c & -> & Hc) & _). by rw /strip_slash rev_app_distr /= (proj2 (Z.eqb_neq _ _)). Qed.

Lemma scan_word_dir arg d rest : dir_ok d → scan_word arg (d ++ NEWLINE :: rest) = Ok (1, Some d, NEWLINE :: rest).
Proof.
  intros ((d' & c & -> & _) & Hs & Hl). rw /scan_word.
  destruct (d' ++ [c]) as [|x l] eqn:E; [by destruct d'|]. cbn [app]. rw skip_space_cons; [by apply Forall_cons in Hs as [? _]|].
  rw app_comm_cons span_stop; [eapply Forall_impl; [exact Hs|]; intros y Hy; by rw Hy|done|]. by rw scan_store_ok.
Qed.

Lemma scan_targets_print fuel arg dirs0 dirs : ∀ pre,
  Forall dir_ok dirs → (length dirs0 + length dirs ≤ MAX_TARGET_DIR)%nat → (length dirs < fuel)%nat → pre = [] ∨ pre = [NEWLINE] →
  scan_targets fuel [] arg (pre ++ concat ((λ d, d ++ [NEWLINE]) <$> dirs)) dirs0 = Some (Ok (0, dirs0 ++ dirs)).
Proof.
  revert fuel arg dirs0. induction dirs as [|d dirs IH]; intros [|fuel] arg dirs0 pre Hd Hn Hf Hpre; try (simpl in Hf; lia).
  { csimpl. rw !app_nil_r. cbn [scan_targets]. by destruct Hpre as [-> | ->]. }
  apply Forall_cons in Hd as [Hd Hds]. csimpl. cbn [scan_targets].
  set (rest := concat _). assert (Hword : scan_word arg (pre ++ (d ++ [NEWLINE]) ++ rest) = Ok (1, Some d, [NEWLINE] ++ rest)).
  { rw -app_assoc. transitivity (scan_word arg (d ++ [NEWLINE] ++ rest)); [by destruct Hpre as [-> | ->]|by apply scan_word_dir]. }
  rw Hword. cbn [Z.eqb EOF read_var]. rw strip_slash_ok // decide_True; [simpl in Hn; lia|].
  cbn [tail]. rw IH //; [rw length_app; simpl in *; lia|simpl in Hf; lia|by right|]. by rw -app_assoc.
Qed.

(** ** Theorems *)

(** C33. Writing a configuration and reading it gives it back, the client's with its list
    of shared directories and the tracker's with its numbers. *)
Theorem configuration_roundtrip conf conf0 control control0 fuel :
  conf_ok conf → 0 ≤ interval control < 2 ^ 31 → 0 ≤ piece_len control < 2 ^ 31 →
  (2 < fuel)%nat → (length (target_dirs conf) < fuel)%nat →
  parse_conf_files fuel (Some (print_conf conf)) (Some (print_targets conf)) [] conf0 = Some (Ok (0, conf)) ∧
  parse_conf_file fuel (Some (print_control control)) control0 = Some (Ok (0, control)).
Proof.
  intros (Hh & Hdev & Hdirs & Hmax) Hi Hp Hf Hfuel. destruct fuel as [|[|[|fuel]]]; try lia. split.
  - assert (Hpairs : scan_pairs (S (S (S fuel))) set_conf None None (print_conf conf) conf0 =
              Some (Ok (0, ConfInfo (tracker_host conf) (device_name conf) (target_dirs conf0)))).
    { assert (Hset : ∀ v, value_ok MAX_NAME_LEN v → scan_store MAX_NAME_LEN v = Ok v)
        by (intros v (_ & _ & Hv); by apply scan_store_ok).
      rw /print_conf (scan_pairs_line set_conf _ _ _ TRACKER (tracker_host conf) _ _ (ConfInfo (tracker_host conf) (device_name conf0) (target_dirs conf0)));
        [done|by apply (bool_decide_unpack _)|by apply (bool_decide_unpack _)|by apply value_ok_weaken|by rw /set_conf /= Hset|].
      rw -(app_nil_r (conf_line DEVICE _)) skip_conf_line; [by exists 100, (tail DEVICE)|].
      rw (scan_pairs_line set_conf _ _ _ DEVICE (device_name conf) _ _ (ConfInfo (tracker_host conf) (device_name conf) (target_dirs conf0)));
        [done|by apply (bool_decide_unpack _)|by apply (bool_decide_unpack _)|by apply value_ok_weaken|by rw /set_conf /= Hset|].
      done. }
    rw /parse_conf_files Hpairs. cbn [Z.eqb negb]. rw /print_targets.
    pose proof (scan_targets_print (S (S (S fuel))) None [] (target_dirs conf) [] Hdirs Hmax Hfuel (or_introl eq_refl)) as E.
    cbn [app] in E. rw E. by destruct conf.
  - rw /parse_conf_file /print_control (scan_pairs_line set_control _ _ _ INTERVAL _ _ _ (ControlInfo (interval control) (piece_len control0)));
      [done|by apply (bool_decide_unpack _)|by apply (bool_decide_unpack _)|apply decimal_value; lia|by rw /set_control /= atoi_decimal|].
    rw -(app_nil_r (conf_line PIECE_LENGTH _)) skip_conf_line; [by exists 112, (tail PIECE_LENGTH)|].
    rw (scan_pairs_line set_control _ _ _ PIECE_LENGTH _ _ _ control);
      [done|by apply (bool_decide_unpack _)|by apply (bool_decide_unpack _)|apply decimal_value; lia| |done].
    rw /set_control /= atoi_decimal //. by destruct control.
Qed.

(** Reading a configuration ends once the input is read, or never does; it never does
    when a line that was accepted is followed by one that begins with a colon.  A
    colon at the very beginning makes the key an uninitialised array. *)
Theorem configuration_read_ends input conf control key value rest control' :
  ((∃ r, ∀ fuel, (length input < fuel)%nat → scan_pairs fuel set_conf None None input conf = Some r) ∨
   (∀ fuel, scan_pairs fuel set_conf None None input conf = None)) ∧
  ((∃ r, ∀ fuel, (length input < fuel)%nat → scan_pairs fuel set_control None None input control = Some r) ∨
   (∀ fuel, scan_pairs fuel set_control None None input control = None)) ∧
  (key ≠ [] → Forall (λ c, c ≠ COLON) key → (length key < MAX_NAME_LEN)%nat → value_ok MAX_LINE value →
   set_control key (Some value) control = Ok (Some control') →
   ∀ fuel, parse_conf_file fuel (Some (conf_line key value ++ COLON :: rest)) control = None) ∧
  ∀ fuel, parse_conf_file (S fuel) (Some (COLON :: rest)) control = Some (Fault Uninitialised).
Proof.
  split_and!.
  - apply (scan_pairs_ends set_conf set_conf_uniform (S (length input))). lia.
  - apply (scan_pairs_ends set_control set_control_uniform (S (length input))). lia.
  - intros H1 H2 H3 H4 Hset [|fuel]; [done|]. cbn [parse_conf_file].
    rw (scan_pairs_line set_control _ _ _ key value _ _ control') //.
    destruct (set_control_uniform key (Some value) control control' control' Hset) as [b' Hb].
    by apply (scan_pairs_stuck set_control set_control_uniform _ _ key _ _ _ b').
  - done.
Qed.

(** ** Witnesses *)
#[local] Instance value_ok_dec size v : Decision (value_ok size v).
Proof.
  destruct v as [|c v]; [right; by intros ((c & v' & [=] & _) & _)|].
  destruct (decide (isspace c = false ∧ Forall (λ c, c ≠ NEWLINE) (c :: v) ∧ (length (c :: v) < size)%nat)) as [(H1 & H2 & H3)|Hn].
  - left. split_and!; [by exists c, v|done|done].
  - right. intros ((c' & v' & [= <- <-] & H1) & H2 & H3). by apply Hn.
Defined.

(** The host "h", the device "eth0" and the directory "/s". *)
Definition demo_conf : client_conf_info := ConfInfo [104] [101; 116; 104; 48] [[47; 115]].
Definition demo_control : ttop_control_info := ControlInfo 2000000 131072.
Definition no_conf : client_conf_info := ConfInfo [] [] [].

Lemma demo_conf_ok : conf_ok demo_conf.
Proof.
  split; [apply (bool_decide_unpack _); vm_compute; exact I|].
  split; [apply (bool_decide_unpack _); vm_compute; exact I|]. split.
  - constructor; [|constructor]. split_and!; [by exists [47], 115| |].
    + apply (bool_decide_unpack _). vm_compute. exact I.
    + apply Nat.ltb_lt. reflexivity.
  - apply Nat.leb_le. reflexivity.
Qed.

Lemma configuration_roundtrip_witness :
  parse_conf_files 3 (Some (print_conf demo_conf)) (Some (print_targets demo_conf)) [] no_conf = Some (Ok (0, demo_conf)) ∧
  parse_conf_file 3 (Some (print_control demo_control)) (ControlInfo 0 0) = Some (Ok (0, demo_control)).
Proof.
  apply (configuration_roundtrip demo_conf no_conf demo_control (ControlInfo 0 0) 3 demo_conf_ok); simpl; lia.
Defined.

Lemma configuration_read_ends_witness :
  parse_conf_file 1000 (Some (conf_line INTERVAL [53] ++ COLON :: [])) (ControlInfo 0 0) = None.
Proof.
  refine (proj1 (proj2 (proj2 (configuration_read_ends [] no_conf (ControlInfo 0 0) INTERVAL [53] [] (ControlInfo 5 0)))) _ _ _ _ _ 1000%nat);
    [discriminate|apply (bool_decide_unpack _); vm_compute; exact I|apply Nat.ltb_lt; reflexivity|
     apply (bool_decide_unpack _); vm_compute; exact I|vm_compute; reflexivity].
Defined.
