(* ===== verification/Peer.v ===== *)
(** * Peer: the client's handlers and the watch on its directories together

    What the client does to its disk it does behind the back of its own watch: a
    download ([ptop_download_task]) and a deletion ([file_delete]) block the events
    of the file's directory, act, and unblock it, so that the client does not announce
    its own changes.  Here both handlers are modelled whole, with the table of
    targets; [Client] has what they do to the table of files and to the tracker.  A
    handler runs as one step: the threads that hold a directory blocked at the same
    time are not interleaved. *)
From S2P Require Import Prelude Hash TransTable FileTable Replica Segment Wire Packet Client Download Monitor Scan.

(** ** State *)

(** What is done to the files of this machine. *)
Inductive disk_op : Type :=
  | Unlink (sys_name : list Z)
  | SetTime (sys_name : list Z) (modtime : Z)
  | Written (sys_name contents : list Z).    (** by [do_download], and what is in the file in the end *)

Record peer (K : Type) := Peer {
  pr_cl : client;                       (** the client *)
  pr_targets : mstate K;                (** m_table *)
  pr_disk : list disk_op                (** in order *)
}.
Arguments Peer {_} _ _ _.
Arguments pr_cl {_} _.
Arguments pr_targets {_} _.
Arguments pr_disk {_} _.

Section peer.
Context `{Kernel K}.
Notation St := (peer K).

(** The result of [Download.do_download] for a file and its name on this machine, and
    what is in the file afterwards, [None] if it cannot be opened; it depends on the
    other machines and on the scheduler, so any function will do. *)
Context (download : mstate K → file_entry → list Z → Z * option (list Z)).

Definition on_client {A} (m : M client A) : M St A := zoom pr_cl (λ c s, Peer c (pr_targets s) (pr_disk s)) m.
Definition pr_on_targets {A} (m : M (mstate K) A) : M St A := zoom pr_targets (λ t s, Peer (pr_cl s) t (pr_disk s)) m.
Definition on_disk (ops : list disk_op) : M St unit := modify (λ s, Peer (pr_cl s) (pr_targets s) (pr_disk s ++ ops)).

Definition file_change_modtime (sys_name : list Z) (modtime : Z) : M St unit := on_disk [SetTime sys_name modtime].
Definition unlink (sys_name : list Z) : M St unit := on_disk [Unlink sys_name].
Definition written_by (sys_name : list Z) (contents : option (list Z)) : list disk_op :=
  match contents with Some c => [Written sys_name c] | None => [] end.
Definition do_download (fe : file_entry) (sys_name : list Z) : M St Z :=
  m <- gets pr_targets ;;
  on_disk (written_by sys_name (snd (download m fe sys_name))) ;;;
  ret (fst (download m fe sys_name)).

Definition ptop_download_task (fe : option fid) : M St Z :=
  e <- on_client (on_table (deref fe)) ;;
  let logic_name := fe_name e in
  target <- pr_on_targets (file_monitor_block logic_name false) ;;
  match target with
  | None => ret (-1)
  | Some _ =>
      sys_name <- pr_on_targets (monitor_get_sys_name logic_name target) ;;
      match sys_name with
      | None => pr_on_targets (file_monitor_unblock target) ;;; ret (-1)
      | Some sys_name =>
          r <- (if fe_type e =? file_type_code DIRECTORY then pr_on_targets (file_monitor_mkdir sys_name logic_name)
                else do_download e sys_name) ;;
          (if r =? 0 then
             file_change_modtime sys_name (fe_timestamp e) ;;; on_client (notify_tracker_add_me fe)
           else ret tt) ;;;
          pr_on_targets (file_monitor_unblock target) ;;;
          ret r
      end
  end.

Definition file_delete (te : option trans_file_entry) : M St unit :=
  match te with
  | None => ret tt
  | Some te =>
      target <- pr_on_targets (file_monitor_block (te_name te) true) ;;
      match target with
      | None => ret tt
      | Some _ =>
          sys_name <- pr_on_targets (monitor_get_sys_name (te_name te) target) ;;
          match sys_name with
          | None => pr_on_targets (file_monitor_unblock target)
          | Some sys_name =>
              (if te_file_type te =? file_type_code DIRECTORY then
                 pr_on_targets (file_monitor_rmdir sys_name (te_name te)) ;;; ret tt
               else unlink sys_name) ;;;
              pr_on_targets (file_monitor_unblock target)
          end
      end
  end.

(** [sync_files]; [dirs] are the shared directories with their contents. *)
Definition sync_files (dirs : list (list Z * directory)) (pkt0 : ttop_packet) (input : list Z) : M client (Z * list Z) :=
  on_table file_table_init ;;;
  my_ip <- gets cl_ip ;;
  r <- on_table (get_file_table my_ip dirs) ;;
  if negb (r =? 0) then ret (r, input) else
  sync_with_tracker pkt0 input.

(** ** Lemmas *)
Context {L : KernelLaws K}.

(** The peer with other targets. *)
Definition retarget (t : mstate K) (s : St) : St := Peer (pr_cl s) t (pr_disk s).

Lemma pr_on_targets_run {A} (m : M (mstate K) A) (s : St) a t :
  m (pr_targets s) = Ok (a, t) → pr_on_targets m s = Ok (a, retarget t s).
Proof. intros E. by rw /pr_on_targets /zoom E. Qed.

(** Blocking the directory of a file and unblocking it, with something in between that
    does not touch the targets. *)
Lemma blocked_then_unblocked (s : mstate K) n d f :
  mt_ok s → plain f → accepts (2 + n) (ms_kernel s) → (∃ i t, ms_heap s !! i = Some t ∧ tg_logic t = d) →
  ∃ i t sb s', ms_heap s !! i = Some t ∧ tg_logic t = d ∧
    (∀ del, file_monitor_block (d ++ SLASH :: f) del s = Ok (Some i, sb)) ∧ ms_heap sb = ms_heap s ∧ ms_calloc sb = ms_calloc s ∧
    mt_ok sb ∧ mask_at (ms_kernel sb) (tg_wd t) = Some BLOCK_ALL_MASK ∧
    file_monitor_unblock (Some i) sb = Ok (tt, s') ∧ mt_ok s' ∧ ms_heap s' = ms_heap s ∧ ms_calloc s' = ms_calloc s ∧
    accepts n (ms_kernel s') ∧
    ∀ w, mask_at (ms_kernel s') w = if decide (w = tg_wd t) then Some DEFAULT_WATCH_MASK else mask_at (ms_kernel s) w.
Proof.
  intros Hs Hf Hacc Hex. pose proof Hacc as [Ha _].
  destruct (block_watched s d f Hs Hf) as (i & t & Hi & Ht & E); [|done|].
  { split; [intros p m; by split; [apply Ha|]|done]. }
  destruct (Ha (tg_sys t) BLOCK_ALL_MASK) as [[Hb _] [Ha' _]]. destruct (Ha' (tg_sys t) DEFAULT_WATCH_MASK) as [[Hb' _] Ha2].
  destruct (rewatch s i t BLOCK_ALL_MASK Hs Hi Hb) as (_ & Hs1 & Hm1).
  set (k1 := (inotify_add_watch (tg_sys t) BLOCK_ALL_MASK (ms_kernel s)).2) in *.
  destruct (rewatch (ms_set_kernel k1 s) i t DEFAULT_WATCH_MASK Hs1 Hi Hb') as (_ & Hs2 & Hm2).
  eexists i, t, _, _. split_and!; [done|done|exact E|done|done|done| | |exact Hs2|done|done|exact Ha2|].
  - cbn [ms_kernel ms_set_kernel]. rw Hm1 decide_True //.
  - rw /file_monitor_unblock (set_mask_run (ms_set_kernel k1 s) i t) //.
  - intros w. cbn [ms_kernel ms_set_kernel] in *. rw Hm2 Hm1. by case_decide.
Qed.
End peer.

(** ** Lemmas: telling the tracker, or not *)
Lemma told_or_not fe e r cl :
  fs_heap (cl_ft cl) !! fe = Some e → cl_calloc cl = [] → oc_answers (cl_conn cl) = [] →
  ∃ c2, (if r =? 0 then notify_tracker_add_me (Some fe) else ret tt) cl = Ok (tt, c2) ∧
    (r = 0 → oc_sent (cl_conn c2) = oc_sent (cl_conn cl) ++
       frame (ptot_bytes (table_request (cl_ip cl) PEER_FILE_UPDATE (TransTable 1 [owned_by_me (cl_ip cl) e])))).
Proof.
  intros He Hcc Hans. destruct (Z.eqb_spec r 0); [|by exists cl].
  pose proof (notify_wp fe e cl He Hcc Hans) as Hn. apply wp_run in Hn as ([] & c2 & E & ->). by eexists.
Qed.

(** ** Theorems *)

(** C12. A download, whole: it runs while the events of the file's directory are blocked,
    under the file's name on this machine; when it succeeds the file gets the
    announced time and the tracker is told, as [Client.ptop_download_task] says;
    and in the end the directory is watched again.  If the threads end with the whole
    file, as in [Download.download_complete], then what is written is the owner's
    file, before its time is set, and this machine announces it. *)
Theorem download_task_correct {K} `{KernelLaws K} download (s : peer K) fe e d f :
  fs_heap (cl_ft (pr_cl s)) !! fe = Some e → fe_name e = d ++ SLASH :: f → plain f → fe_type e ≠ file_type_code DIRECTORY →
  mt_ok (pr_targets s) → ms_calloc (pr_targets s) = [] → accepts 2 (ms_kernel (pr_targets s)) →
  (∃ i t, ms_heap (pr_targets s) !! i = Some t ∧ tg_logic t = d) →
  (∀ i t, ms_heap (pr_targets s) !! i = Some t → tg_logic t = d → (length (tg_sys t ++ SLASH :: f) < MAX_NAME_LEN)%nat) →
  cl_calloc (pr_cl s) = [] → oc_answers (cl_conn (pr_cl s)) = [] →
  wp (ptop_download_task download (Some fe)) (λ r s', ∃ i t sb,
     ms_heap (pr_targets s) !! i = Some t ∧ tg_logic t = d ∧ mask_at (ms_kernel sb) (tg_wd t) = Some BLOCK_ALL_MASK ∧
     let sys_name := tg_sys t ++ SLASH :: f in
     let x := download sb e sys_name in
     r = fst x ∧
     pr_disk s' = pr_disk s ++ written_by sys_name (snd x) ++ (if r =? 0 then [SetTime sys_name (fe_timestamp e)] else []) ∧
     Client.ptop_download_task true true r (Some fe) (pr_cl s) = Ok (r, pr_cl s') ∧
     mt_ok (pr_targets s') ∧ ms_heap (pr_targets s') = ms_heap (pr_targets s) ∧
     mask_at (ms_kernel (pr_targets s')) (tg_wd t) = Some DEFAULT_WATCH_MASK ∧
     ∀ content pl mine run t0, sizes_ok content pl → rtc (dstep false content pl) (download_start content pl mine) run →
       finished run → d_threads run !! t0 = Some (Ended 0) → (∀ t', d_threads run !! t' ≠ Some (Ended (-1))) →
       x = (download_result run, Some (d_file run)) →
       r = 0 ∧ pr_disk s' = pr_disk s ++ [Written sys_name content; SetTime sys_name (fe_timestamp e)] ∧
       oc_sent (cl_conn (pr_cl s')) = oc_sent (cl_conn (pr_cl s)) ++
         frame (ptot_bytes (table_request (cl_ip (pr_cl s)) PEER_FILE_UPDATE (TransTable 1 [owned_by_me (cl_ip (pr_cl s)) e])))) s.
Proof.
  intros He Hname Hf Htype Hs Hc Hacc Hex Hlen Hcc Hans.
  destruct (blocked_then_unblocked (pr_targets s) 0 d f Hs Hf Hacc Hex)
    as (i & t & sb & s' & Hi & Ht & Hblock & Eheap & Ecalloc & Hsb & Hmask & Hunblock & Hs' & Eheap' & _ & _ & Hmask').
  specialize (Hmask' (tg_wd t)). rewrite (decide_True _ _ eq_refl) in Hmask'.
  set (sys_name := tg_sys t ++ SLASH :: f). set (x := download sb e sys_name).
  assert (Hsys : monitor_get_sys_name (d ++ SLASH :: f) (Some i) sb = Ok (Some sys_name, sb)).
  { rw (sys_name_of_target sb d f i t) //; [by rw Ecalloc|by rw Eheap|]. rw decide_True //. by apply (Hlen i t). }
  assert (Hderef : on_table (deref (Some fe)) (pr_cl s) = Ok (e, pr_cl s)).
  { rw /on_table /zoom /deref /= He. by destruct (pr_cl s). }
  destruct (told_or_not fe e (fst x) (pr_cl s)) as (c2 & Hnotify & Htold); [done..|].
  assert (Hrun : ptop_download_task download (Some fe) s =
    Ok (fst x, Peer c2 s' (pr_disk s ++ written_by sys_name (snd x) ++ (if fst x =? 0 then [SetTime sys_name (fe_timestamp e)] else [])))).
  { set (s1 := retarget sb s). set (s2 := Peer (pr_cl s) sb (pr_disk s ++ written_by sys_name (snd x))).
    rw /ptop_download_task {1}/bind {1}/on_client {1}/zoom Hderef. replace (Peer _ _ _) with s by by destruct s.
    rw Hname {1}/bind (pr_on_targets_run _ s (Some i) sb) // -/s1.
    rw {1}/bind (pr_on_targets_run _ s1 (Some sys_name) sb) //. rw (proj2 (Z.eqb_neq _ _)) //.
    assert (Hdl : do_download download e sys_name (retarget sb s1) = Ok (fst x, s2)) by done. rw {1}/bind Hdl.
    rw app_assoc. destruct (fst x =? 0).
    - rw {1}/bind {1}/bind {1}/file_change_modtime {1}/on_disk {1}/modify {1}/on_client {1}/zoom. cbn [pr_cl s2]. rw Hnotify.
      rw {1}/bind (pr_on_targets_run _ _ tt s') //.
    - injection Hnotify as <-. rw {1}/bind {1}/ret {1}/bind (pr_on_targets_run _ _ tt s') //. by rw app_nil_r. }
  rw /wp Hrun. exists i, t, sb. rw -/sys_name -/x. split_and!; try done.
  - rw /Client.ptop_download_task /bind Hderef. cbn [negb]. by rw Hnotify.
  - intros content pl mine run t0 Hok Hsteps Hfin Ht0 Hno Hx. cbn [pr_disk pr_cl].
    destruct (complete_run content pl mine run t0 Hok Hsteps Hfin Ht0 Hno) as [Hfile Hzero].
    rw Hx /= Hfile Hzero. split; [done|]. split; [done|]. apply Htold. by rw Hx.
Qed.

(** A deletion in a directory that is watched. *)
Lemma file_delete_run {K} `{KernelLaws K} (s : peer K) n te d f :
  te_name te = d ++ SLASH :: f → plain f → te_file_type te ≠ file_type_code DIRECTORY →
  mt_ok (pr_targets s) → ms_calloc (pr_targets s) = [] → accepts (2 + n) (ms_kernel (pr_targets s)) →
  (∀ i t, ms_heap (pr_targets s) !! i = Some t → tg_logic t = d → (length (tg_sys t ++ SLASH :: f) < MAX_NAME_LEN)%nat) →
  (∃ i t, ms_heap (pr_targets s) !! i = Some t ∧ tg_logic t = d) →
  ∃ i t m, ms_heap (pr_targets s) !! i = Some t ∧ tg_logic t = d ∧
    file_delete (Some te) s = Ok (tt, Peer (pr_cl s) m (pr_disk s ++ [Unlink (tg_sys t ++ SLASH :: f)])) ∧
    mt_ok m ∧ ms_heap m = ms_heap (pr_targets s) ∧ ms_calloc m = [] ∧ accepts n (ms_kernel m) ∧
    ∀ w, mask_at (ms_kernel m) w = if decide (w = tg_wd t) then Some DEFAULT_WATCH_MASK else mask_at (ms_kernel (pr_targets s)) w.
Proof.
  intros Hname Hf Htype Hs Hc Hacc Hlen Hex. destruct (blocked_then_unblocked (pr_targets s) n d f Hs Hf Hacc Hex)
    as (i & t & sb & s' & Hi & Ht & Hblock & Eheap & Ecalloc & Hsb & Hmask & Hunblock & Hs' & Eheap' & Ecalloc' & Ha & Hmask').
  set (sys_name := tg_sys t ++ SLASH :: f).
  assert (Hsys : monitor_get_sys_name (d ++ SLASH :: f) (Some i) sb = Ok (Some sys_name, sb)).
  { rw (sys_name_of_target sb d f i t) //; [by rw Ecalloc|by rw Eheap|]. rw decide_True //. by apply (Hlen i t). }
  exists i, t, s'. split; [done|]. split; [done|]. split; [|by rw Ecalloc'; split_and!].
  rw /file_delete Hname {1}/bind (pr_on_targets_run _ s (Some i) sb) // {1}/bind (pr_on_targets_run _ _ (Some sys_name) sb) //.
  rw (proj2 (Z.eqb_neq _ _)) // {1}/bind {1}/unlink {1}/on_disk {1}/modify (pr_on_targets_run _ _ tt s') //.
Qed.


(** ** Witnesses: a peer that watches "/s" as "1" and has the file "1/a" in its table *)
Definition sample_peer : peer model_kernel := Peer sample_client one_watched [].

Lemma only_root d i t : ms_heap one_watched !! i = Some t → tg_logic t = d → t = root_target.
Proof. by intros [_ ->]%one_watched_only. Qed.
Lemma a_plain : plain [97].
Proof. intros H%list_elem_of_singleton. done. Qed.
Lemma root_watched : ∃ i t, ms_heap one_watched !! i = Some t ∧ tg_logic t = [49].
Proof. by exists 0%nat, root_target. Qed.
Lemma short_names : ∀ i t, ms_heap one_watched !! i = Some t → tg_logic t = [49] →
  (length (tg_sys t ++ SLASH :: [97%Z]) < MAX_NAME_LEN)%nat.
Proof. intros i t [_ ->]%one_watched_only _. rw /MAX_NAME_LEN. cbn. lia. Qed.
Lemma two_accepted : accepts 2 (ms_kernel one_watched).
Proof. by apply mk_accepts. Qed.

Lemma download_task_correct_witness :
  wp (ptop_download_task (λ _ _ _, (0, Some [7])) (Some 0%nat)) (λ r s', r = 0 ∧
     pr_disk s' = [Written [47; 115; 47; 97] [7]; SetTime [47; 115; 47; 97] 5] ∧
     mask_at (ms_kernel (pr_targets s')) 1 = Some DEFAULT_WATCH_MASK) sample_peer.
Proof.
  eapply wp_mono; [apply (download_task_correct (λ _ _ _, (0, Some [7])) sample_peer 0%nat (FileEntry [49; 47; 97] 5 0 [owner1]) [49] [97])|].
  - by vm_compute.
  - reflexivity.
  - exact a_plain.
  - discriminate.
  - exact one_watched_ok.
  - reflexivity.
  - exact two_accepted.
  - exact root_watched.
  - exact short_names.
  - reflexivity.
  - reflexivity.
  - intros r s' (i & t & sb & Hi & Ht & _ & _ & _ & _ & _ & _ & Hm & Hrun).
    destruct (Hrun [7] 4 [false] (DState [PIECE_FINISHED] [7] [Ended 0]) 0%nat one_sizes one_piece_run) as (Hr & Hd & _).
    + repeat constructor.
    + reflexivity.
    + by intros [|t'].
    + reflexivity.
    + rewrite (only_root _ _ _ Hi Ht) in Hd, Hm. split; [exact Hr|]. split; [exact Hd|exact Hm].
Defined.

