(* ===== verification/Join.v ===== *)
(** * Join: a machine joins, from its disk to agreement with the tracker

    The whole of [sync_files]: the shared directories are read, the table is sent as
    bytes, the tracker answers as bytes, and the answer is followed.  The reply is
    copied over the table that was sent, so what the client reads is the reply in
    the memory of an older table. *)
From S2P Require Import Prelude Hash TransTable FileTable Replica Segment Wire Packet PeerTable Tracker Client Sync Monitor Scan Peer.

(** ** Lemmas: a table copied over another one *)

(** The entry with another port for its sixteenth owner. *)
Definition set_last_port (p : Z) (te : trans_file_entry) : trans_file_entry :=
  TransEntry (te_name te) (te_timestamp te) (te_op_type te) (te_file_type te) (te_owner_n te)
    (alter (λ o, PeerId (ip o) p) 15%nat (te_owners te)).

(** An entry whose last four bytes are others. *)
Lemma dec_entry_tail te x :
  storable te → length x = 4%nat → dec (take 268 (enc te) ++ x) = set_last_port (get 0 2 x) te.
Proof.
  intros Hst Hx. pose proof Hst as (Hn & Hts & Hop & Hft & Hon & Hl & Ho).
  destruct (last_owner _ Hl) as (l & o & E & Hlen). rw E in Ho. apply Forall_app in Ho as [Ho [[Hip _] _]%Forall_cons].
  assert (Hput : length (put_name MAX_NAME_LEN (te_name te)) = 128%nat) by (by rw length_put_name).
  assert (Harr : length (enc_array l) = 120%nat) by (rw length_enc_array // Hlen //).
  assert (Hbytes : take 268 (enc te) ++ x =
    put_name MAX_NAME_LEN (te_name te) ++ le 8 (te_timestamp te) ++ le 2 (te_op_type te) ++ le 2 (te_file_type te) ++
    le 2 (te_owner_n te) ++ zeros 2 ++ enc_array l ++ le 4 (ip o) ++ x).
  { cbn -[le zeros put_name enc_array take MAX_NAME_LEN]. rw E !enc_array_app.
    do 7 (rw take_app_ge; [rw ?Hput ?Harr ?length_le ?length_zeros; lia|]).
    rw Hput Harr !length_le length_zeros -!app_assoc. by do 8 f_equal. }
  rw Hbytes /set_last_port. destruct te as [name ts op ft n owners].
  cbn [te_name te_timestamp te_op_type te_file_type te_owner_n te_owners] in *.
  cbn -[le slice zeros put_name enc_array MAX_NAME_LEN dec_array]. rw /get.
  assert (Hmax : MAX_NAME_LEN = 128%nat) by done.
  f_equal; [rw slice_here //; by apply c_string_put|find_slice; rw ?unle_le_id //; fits..|].
  do 6 (rw slice_skip; [rw ?length_le ?length_zeros ?length_put_name //; lia|]).
  rw !length_le length_zeros length_put_name //. change (144 - 128 - 8 - 2 - 2 - 2 - 2)%nat with 0%nat.
  rw (slice_all 128); [rw !length_app Harr length_le Hx //|].
  rw E -Hlen alter_app_r_alt // Nat.sub_diag. change MAX_PEER_ENTRIES with (15 + 1)%nat.
  rw dec_array_app; [rw Harr //|]. f_equal.
  - rw -(app_nil_r (enc_array l)) -Hlen. by apply dec_enc_array.
  - cbn -[le slice get]. f_equal. rw firstn_all2; [rw length_app length_le Hx //|].
    rw /get slice_here // unle_le_id // slice_skip ?length_le //.
Qed.

Lemma visited_prefix n a b : n = Z.of_nat (length a) → tft_visited (TransTable n (a ++ b)) = a.
Proof.
  intros ->. transitivity (tft_visited (TransTable (Z.of_nat (length a)) a)); [|by apply packed_visited].
  rw /tft_visited. cbn [tft_n tft_entries].
  apply list_fmap_ext. intros i x Hx. apply lookup_seq in Hx as [-> Hi]. rw Nat2Z.id in Hi. by rw lookup_app_l.
Qed.

(** What is read of a table that was copied over another one. *)
Lemma table_load_over old t :
  table_storable t → tft_n t ≤ MAX_FILE_ENTRIES →
  let loaded := table_load old (mem_read (Z.to_nat (trans_table_len t)) (table_mem t)) in
  ∃ p, tft_n loaded = tft_n t ∧ tft_visited loaded = alter (set_last_port p) (length (tft_entries t) - 1)%nat (tft_entries t).
Proof.
  intros [Hp Hs] Hn. rw trans_table_len_eq; [rw Hp in Hn *; lia|].
  destruct t as [n es]. rw /packed /= in Hp. cbn [tft_n tft_entries] in *.
  assert (Hnr : 0 ≤ n < 2 ^ 31) by (rw /MAX_FILE_ENTRIES in Hn; lia).
  destruct es as [|te es _] using rev_ind.
  { simpl in Hp. subst n. exists 0. rw /table_load /table_of_mem. cbn [tft_n].
    rw /table_mem. cbn [tft_n tft_entries enc_array]. 
    assert (E : i32 (get 0 4 (mem_read (Z.to_nat (4 + 272 * 0)) (le 4 0 ++ zeros 4 ++ concat (enc <$> [])) ++
      drop (length (mem_read (Z.to_nat (4 + 272 * 0)) (le 4 0 ++ zeros 4 ++ concat (enc <$> [])))) (table_mem old))) = 0) by done.
    split; [exact E|]. rw /tft_visited. cbn [tft_n]. by rw E. }
  apply Forall_app in Hs as [Hes [Hte _]%Forall_cons]. rw length_app /= in Hp.
  set (data := mem_read _ _).
  assert (Hdata : data = le 4 n ++ zeros 4 ++ enc_array es ++ take 268 (enc te)).
  { apply sent_bytes; [lia|done|done]. }
  rw Hdata /table_load. set (R := drop _ (table_mem old)). rw -!app_assoc /table_of_mem.
  set (body := enc_array es ++ take 268 (enc te) ++ R).
  assert (Hbody : drop 8 (le 4 n ++ zeros 4 ++ body) = body).
  { rw (app_assoc (le 4 n)) drop_app_length' //. }
  rw Hbody (get_table_n (TransTable n [])) //.
  assert (Hlen : length body = (272 * length es + 268 + length R)%nat).
  { rw /body !length_app length_enc_array // length_take length_enc //. simpl. lia. }
  set (k := ((length body + 271) / 272)%nat).
  assert (Hk : (length body ≤ k * 272 ∧ length es + 1 ≤ k)%nat).
  { pose proof (Nat.div_mod (length body + 271) 272 ltac:(lia)) as Hd. rw -/k in Hd.
    pose proof (Nat.mod_upper_bound (length body + 271) 272 ltac:(lia)). split; [lia|].
    rw /k. apply Nat.div_le_lower_bound; lia. }
  rw mem_read_more; [apply Hk|]. set (z := (k * 272 - length body)%nat).
  set (T := R ++ zeros z). assert (HT : (4 ≤ length T)%nat) by (rw /T length_app length_zeros /z; lia).
  assert (Hall : dec_array (A := trans_file_entry) k (body ++ zeros z) =
    (es ++ [set_last_port (get 0 2 (take 4 T)) te]) ++ dec_array (k - length es - 1) (drop 4 T)).
  { replace (body ++ zeros z) with (enc_array es ++ (take 268 (enc te) ++ take 4 T) ++ drop 4 T).
    2: { by rw /body -!app_assoc take_drop /T. }
    replace k with (length es + (1 + (k - length es - 1)))%nat at 1 by lia.
    rw dec_array_app; [by rw length_enc_array|]. rw -{1}(app_nil_r (enc_array es)) dec_enc_array // -(app_assoc es). f_equal.
    assert (H4 : length (take 4 T) = 4%nat) by (rw length_take; lia).
    assert (H272 : length (take 268 (enc te) ++ take 4 T) = 272%nat).
    { rw length_app H4 length_take length_enc //. }
    etransitivity; [apply (dec_array_app 1 (k - length es - 1) (take 268 (enc te) ++ take 4 T)); by rw H272|].
    f_equal. cbn [dec_array]. rw firstn_all2; [by rw H272|]. by rw dec_entry_tail. }
  exists (get 0 2 (take 4 T)). split; [done|]. rw Hall visited_prefix; [rw length_app /=; lia|].
  by rw length_app /= Nat.add_sub alter_app_r_alt // Nat.sub_diag.
Qed.

(** ** Lemmas: following a table only depends on what is visited *)
Lemma for_entries_visited {S A} t (body : trans_file_entry → A → M S A) a s :
  for_entries t body a s = for_entries (TransTable (tft_n t) (tft_visited t)) body a s.
Proof.
  rw /for_entries. cbn [tft_n]. set (n := Z.to_nat (tft_n t)).
  assert (Hgen : ∀ k i a s, (i + k = n)%nat → for_entries_from k i t body a s =
    for_entries_from k i (TransTable (tft_n t) (tft_visited t)) body a s); [|by apply (Hgen n 0%nat)].
  clear a s. induction k as [|k IH]; intros i a s Hi; [done|]. cbn [for_entries_from].
  assert (Hget : tft_get (TransTable (tft_n t) (tft_visited t)) (Z.of_nat i) = tft_get t (Z.of_nat i)).
  { rw /tft_get Nat2Z.id /tft_visited. cbn [tft_entries]. rw list_lookup_fmap lookup_seq_lt; [lia|].
    simpl. by destruct (tft_entries t !! i). }
  rw Hget /bind. destruct (some_or_oob _ s) as [[te s1]|]; [|done]. destruct (body te a s1) as [[a2 s2]|]; [|done].
  apply IH. lia.
Qed.

(** Entries that are the same version of the same file. *)
Definition same_version (te te' : trans_file_entry) : Prop := te_name te = te_name te' ∧ te_timestamp te = te_timestamp te'.

Lemma versions_adopt my_ip te te' v v' :
  same_version te te' → versions v = versions v' → versions (adopt my_ip te v) = versions (adopt my_ip te' v').
Proof.
  intros [Hn Ht] Hv. rw /versions /adopt !fmap_insert -/(versions v) -/(versions v') Hv Hn. f_equal.
  assert (Hlook : fe_timestamp <$> v !! te_name te' = fe_timestamp <$> v' !! te_name te') by by rw -!lookup_fmap -/(versions v) Hv.
  destruct (v !! te_name te') as [e|], (v' !! te_name te') as [e'|]; simpl in *; [|done..|by rw Ht].
  injection Hlook as Hlook. by rw Hlook Ht.
Qed.
Lemma versions_adopt_all my_ip l l' v :
  Forall2 same_version l l' → versions (adopt_all my_ip l v) = versions (adopt_all my_ip l' v).
Proof.
  intros Hl. assert (Hgen : ∀ v v', versions v = versions v' → versions (adopt_all my_ip l v) = versions (adopt_all my_ip l' v')).
  2: { by apply Hgen. }
  induction Hl as [|te te' l l' Hte _ IH]; intros v1 v2 Hv; [done|]. apply IH. by apply versions_adopt.
Qed.

Lemma last_port_version p k l : Forall2 same_version (alter (set_last_port p) k l) l.
Proof.
  revert k. induction l as [|te l IH]; intros [|k]; [constructor..| |].
  - constructor; [done|]. apply Forall_Forall2_diag, Forall_forall. by intros.
  - constructor; [done|]. apply IH.
Qed.

Lemma last_port_known F P p te : known F P te → known F P (set_last_port p te).
Proof.
  intros ([Hl Hn] & HF & Ho). split; [split; [by rw /= length_alter|done]|]. split; [done|].
  intros q Hq. rw /owners_of /= in Hq.
  assert (Hips : ip <$> take (Z.to_nat (te_owner_n te)) (alter (λ o, PeerId (ip o) p) 15%nat (te_owners te)) =
                 ip <$> owners_of te).
  { rw /owners_of !fmap_take. f_equal. generalize 15%nat. intros k. clear. revert k. 
    induction (te_owners te) as [|o l IH]; intros [|k]; [done..|]. csimpl. by rw IH. }
  assert (Hin : ip q ∈ ip <$> owners_of te) by (rw -Hips; apply list_elem_of_fmap; by exists q).
  apply list_elem_of_fmap in Hin as (o & -> & Hin). by apply Ho.
Qed.

(** ** Lemmas: the two tables that travel *)

(** The table [trans_table_fill_from] makes. *)
Definition exported (s : fstate) : trans_file_table := TransTable (Z.of_nat (length (entries s))) (export <$> entries s).

Lemma exported_small F P `{!Deployment F P} s : bounded F P s → small_table (exported s).
Proof.
  intros Hb. pose proof (bounded_entries F P _ Hb) as Hmax. pose proof (bd_wf _ _ _ Hb) as Hwf.
  rw -length_entries // in Hmax. split; [by rw /packed /= length_fmap|]. rw /exported /MAX_FILE_ENTRIES /= in Hmax *. lia.
Qed.

Lemma exported_run F P `{!Deployment F P} s : bounded F P s → trans_table_fill_from s = Ok (exported s, s).
Proof.
  intros Hb. pose proof (export_table_wp F P s Hb) as H. apply wp_run in H as (t & s' & -> & -> & [Hp _] & Ht).
  destruct t as [n es]. rw /packed /= in Hp. cbn [tft_entries] in Ht. subst es n. by rw /exported length_fmap.
Qed.

(** What the client asks the tracker. *)
Lemma sync_request_run F P `{!Deployment F P} s :
  bounded F P (cl_ft s) → oc_answers (cl_conn s) = [] → tft_n (exported (cl_ft s)) ≤ MAX_SENT_ENTRIES →
  ∃ r, 0 ≤ r ∧ sync_request s = Ok ((exported (cl_ft s), r), cl_set_conn
    (OutConn (oc_sent (cl_conn s) ++ frame (ptot_bytes (table_request (cl_ip s) PEER_SYNC (exported (cl_ft s))))) []) s).
Proof.
  intros Hb Hans Hfew. destruct (exported_small F P (cl_ft s) Hb) as [Hep Hemax]. pose proof (fit_u16 _ Hep Hfew) as [Hu _].
  eexists (ptot_packet_len (table_request (cl_ip s) PEER_SYNC (exported (cl_ft s))) + 4).
  split; [rw /ptot_packet_len /=; lia|]. rw /sync_request {1}/bind {1}/on_table {1}/zoom. cbn [get_table put_table client_table].
  rw (exported_run F P) //. rw {1}/bind {1}/gets {1}/bind ptot_table_packet_run // (proj2 (Z.leb_le _ _)) //.
  rw {1}/bind {1}/send_to_tracker {1}/zoom. cbn [cl_conn cl_set_ft cl_ip]. rw send_ptot_packet_run //.
Qed.

(** What the client makes of the tracker's reply. *)
Lemma follow_reply F P `{!Deployment F P} pkt0 reply more s :
  bounded F P (cl_ft s) → no_oom (cl_ft s) → oc_answers (cl_conn s) = [] → tft_n (exported (cl_ft s)) ≤ MAX_SENT_ENTRIES →
  known_table F P reply → table_storable reply → tft_n reply ≤ MAX_SENT_ENTRIES →
  clean (ttop_bytes (ttop_table_packet TRACKER_SYNC reply)) →
  wp (sync_with_tracker pkt0 (frame (ttop_bytes (ttop_table_packet TRACKER_SYNC reply)) ++ more))
     (λ x s', x = (0, more) ∧ ∃ ft' d p, s' = moved (cl_set_conn (OutConn (oc_sent (cl_conn s) ++
          frame (ptot_bytes (table_request (cl_ip s) PEER_SYNC (exported (cl_ft s))))) []) s) ft' d [] ∧
        bounded F P ft' ∧ no_oom ft' ∧
        view ft' = adopt_all (cl_ip s) (alter (set_last_port p) (length (tft_entries reply) - 1)%nat (tft_entries reply)) (view (cl_ft s))) s.
Proof.
  intros Hb Hoom Hans Hfew [[Hp Hmax] Hknown] Hst Hrn Hclean. pose proof (fit_u16 _ Hp Hrn) as Hu.
  destruct (sync_request_run F P s) as (r0 & Hr0 & Hreq); [done..|].
  apply wp_bind. rw {1}/wp Hreq (proj2 (Z.ltb_ge r0 0)) //.
  destruct (ttop_received (ttop_table_packet TRACKER_SYNC reply) pkt0 more) as (r & data & -> & Hr & Hdata); [|done|].
  { split; cbn; [done|apply u16_range]. }
  rw (proj2 (Z.ltb_ge _ _)); [lia|]. cbn [ttop_hdr ttop_table_packet ttop_type ttop_code]. change (ttop_of 2) with (Some TRACKER_SYNC).
  cbv iota. apply wp_bind. rw /file_table_sync /ttop_table. cbn [ttop_hdr ttop_data ttop_data_len].
  cbn [ttop_hdr ttop_data ttop_data_len ttop_table_packet] in Hdata. rw u16_id // in Hdata *. rw Hdata mem_read_idem.
  destruct (table_load_over (exported (cl_ft s)) reply Hst Hmax) as (p & Hn & Hv).
  rw /wp for_entries_visited Hn Hv -/(wp _ _ _). set (k := (length (tft_entries reply) - 1)%nat).
  eapply wp_mono.
  - apply (file_table_sync_wp F P (TransTable (tft_n reply) (alter (set_last_port p) k (tft_entries reply)))); [done|].
    split; [split; [by rw /packed /= length_alter|done]|]. cbn [tft_entries].
    intros te [i Hi]%list_elem_of_lookup. rw list_lookup_alter in Hi.
    case_decide; [|by eapply Hknown, list_elem_of_lookup_2]. apply fmap_Some in Hi as (te' & Hi & ->).
    apply last_port_known. by eapply Hknown, list_elem_of_lookup_2.
  - intros [] s' (ft' & d & -> & Hb' & Hd). apply wp_ret. split; [done|]. exists ft', d, p. split; [done|]. split; [done|].
    destruct (Hd Hoom) as (Hoom' & Hv' & _). by split.
Qed.

(** ** Lemmas: the files of a directory, as they are announced *)
Definition mine (my_ip : Z) (x : list Z * option Z * file_type) : trans_file_entry := export (local_file my_ip x).

Lemma mine_storable my_ip x : is_u32 my_ip → name_ok MAX_NAME_LEN (path_of x) → storable (mine my_ip x).
Proof.
  intros Hip Hn. split; [done|]. cbn [te_timestamp mine export local_file fe_timestamp].
  split; [destruct x.1.2; [apply Z.mod_pos_bound; lia|rw /is_u64; lia]|].
  split; [done|]. split; [cbn; by destruct x.2|]. split; [done|]. split; [done|].
  constructor; [by split|]. apply Forall_replicate. split; cbn; rw /is_u32 /is_u16; lia.
Qed.

Lemma mine_clip my_ip l n es : es ≡ₚ mine my_ip <$> l → clip (TransTable n es) = TransTable n es.
Proof.
  intros Hp. rw /clip /=. f_equal. apply list_eq. intros i. rw list_lookup_alter. case_decide; [|done]. subst i.
  destruct (es !! _) as [te|] eqn:E; [|done]. cbn. f_equal. apply clip_entry_id.
  apply list_elem_of_lookup_2 in E. rw Hp in E. by apply list_elem_of_fmap in E as (x & -> & _).
Qed.

Lemma entries_local my_ip l s :
  NoDup (path_of <$> l) → wf s → view s = list_to_map ((λ x, (path_of x, local_file my_ip x)) <$> l) →
  entries s ≡ₚ local_file my_ip <$> l.
Proof.
  intros Hnd Hwf Hv. apply NoDup_Permutation.
  - eapply (NoDup_fmap_1 fe_name). by apply entries_names_nodup.
  - apply (NoDup_fmap_1 fe_name). by rw names_local.
  - intros e. transitivity (view s !! fe_name e = Some e).
    { rw view_lookup // elem_of_entries. split; [intros (i & ? & ?); by exists i|]. intros (i & ? & ? & _). by exists i. }
    rw Hv. split.
    + intros (x & [= _ ->] & Hx)%elem_of_list_to_map_2%list_elem_of_fmap. apply list_elem_of_fmap. by exists x.
    + intros (x & -> & Hx)%list_elem_of_fmap. apply elem_of_list_to_map_1; [by rw -list_fmap_compose|].
      apply list_elem_of_fmap. by exists x.
Qed.

(** The start of [sync_files]: the directories are in the table. *)
Lemma directories_read F P `{!Deployment F P} dirs cl :
  fs_heap (cl_ft cl) = ∅ → no_oom (cl_ft cl) → targets_ok 0 dirs → Z.of_nat (length dirs) < 10 ^ 10 →
  Forall (λ t, is_Some t.2) dirs →
  (∀ x, x ∈ shared_files 0 dirs → path_of x ∈ F) → cl_ip cl ∈ P →
  ∃ ft, (∀ pkt0 input, sync_files dirs pkt0 input cl = sync_with_tracker pkt0 input (cl_set_ft ft cl)) ∧
    bounded F P ft ∧ no_oom ft ∧ entries ft ≡ₚ local_file (cl_ip cl) <$> shared_files 0 dirs ∧
    view ft = list_to_map ((λ x, (path_of x, local_file (cl_ip cl) x)) <$> shared_files 0 dirs).
Proof.
  intros Hh Hoom Hok Hn Hre HF HP. pose proof (shared_NoDup 0 dirs ltac:(lia) Hn Hok) as Hnd.
  pose proof (Tracker.file_table_init_ok F P _ Hh) as Hinit. apply wp_run in Hinit as ([] & ft0 & E0 & Hb0 & Hv0 & Hc0).
  assert (Hoom0 : no_oom ft0) by by rw /no_oom Hc0.
  pose proof (get_file_table_run (cl_ip cl) dirs 0 [] ft0) as Hscan.
  rw app_nil_r in Hscan. apply wp_run in Hscan as (r & ft & E & He & ->); try done; [|by destruct Hb0|].
  2: { intros x _. by rw Hv0 lookup_empty. }
  destruct (local_view _ _ _ _ Hnd He Hv0) as [Hv Hb]. exists ft. split_and!; [|by apply Hb|apply He| |done].
  - intros pkt0 input. rw /sync_files {1}/bind {1}/on_table {1}/zoom. cbn [get_table client_table]. rw E0.
    rw {1}/bind {1}/gets {1}/bind {1}/on_table {1}/zoom /get_file_table. cbn [get_table put_table client_table cl_ft cl_ip cl_set_ft].
    by rw E.
  - apply entries_local; [done|apply He|done].
Qed.

(** The table that is sent: few enough files, all of which can be sent. *)
Lemma sent_ok F P `{!Deployment F P} my_ip (files : list (list Z * option Z * file_type)) ft :
  bounded F P ft → entries ft ≡ₚ local_file my_ip <$> files → is_u32 my_ip →
  Z.of_nat (length files) ≤ MAX_SENT_ENTRIES → (∀ x, x ∈ files → name_ok MAX_NAME_LEN (path_of x)) →
  tft_entries (exported ft) ≡ₚ mine my_ip <$> files ∧ tft_n (exported ft) ≤ MAX_SENT_ENTRIES ∧ table_storable (exported ft).
Proof.
  intros Hb Hent Hip Hfew Hfiles. destruct (exported_small F P ft Hb) as [Hp _].
  assert (Hsent : tft_entries (exported ft) ≡ₚ mine my_ip <$> files) by rw /exported /= Hent -list_fmap_compose //.
  split; [done|]. split.
  - rw Hp. apply Permutation_length in Hsent. by rw Hsent length_fmap.
  - split; [done|]. rw Hsent. apply Forall_fmap, Forall_forall. intros x Hx. by apply mine_storable, Hfiles.
Qed.

(** ** Property *)

(** C4. A machine joins.  A client with an empty table reads its shared directories and
    sends exactly their files; the tracker reads what was sent, runs [sync_task] on
    it and answers; the client reads the answer, over the table it has sent, and
    follows it; then both know the same files at the same versions, the newer of the two
    wherever they differed.  It takes at most 240 files on either side, and bytes
    without the end marker. *)
Theorem join_agreement F P `{!Deployment F P} dirs conn o st cl pktt pkt0 later more :
  tk_ok F P st → calm st → tk_conns st !! conn = Some o →
  fs_heap (cl_ft cl) = ∅ → no_oom (cl_ft cl) → cl_conn cl = OutConn [] [] → is_u32 (cl_ip cl) → cl_ip cl ∈ P →
  targets_ok 0 dirs → Forall (λ t, is_Some t.2) dirs →
  let files := shared_files 0 dirs in
  Z.of_nat (length dirs) < 10 ^ 10 → Z.of_nat (length files) ≤ MAX_SENT_ENTRIES →
  (∀ x, x ∈ files → name_ok MAX_NAME_LEN (path_of x) ∧ path_of x ∈ F) →
  ∃ sent, packed sent ∧ tft_entries sent ≡ₚ mine (cl_ip cl) <$> files ∧
    let request := ptot_bytes (table_request (cl_ip cl) PEER_SYNC sent) in
    (clean request → ∃ r pkt', recv_ptot_packet pktt (frame request ++ later) = Ok (r, pkt', later) ∧ 0 < r ∧
       ptot_of (ptot_type (ptot_hdr pkt')) = Some PEER_SYNC ∧
       wp (sync_task conn (ptot_table zero_table pkt')) (λ r' st', r' = 0 ∧
         let reply := reply_table (tft_entries sent) (tk_ft st) in
         let answer := ttop_bytes (ttop_table_packet TRACKER_SYNC reply) in
         oc_sent <$> tk_conns st' !! conn = Some (oc_sent o ++ frame answer) ∧
         (table_storable reply → tft_n reply ≤ MAX_SENT_ENTRIES → clean answer →
          wp (sync_files dirs pkt0 (frame answer ++ more)) (λ x cl', x = (0, more) ∧
            oc_sent (cl_conn cl') = frame request ∧
            versions (view (cl_ft cl')) = versions (view (tk_ft st'))) cl)) st).
Proof.
  intros Hst Hcalm Hconn Hh Hoom Hcc Hip HP Hok Hre files Hn Hfew Hfiles.
  destruct (directories_read F P dirs cl) as (ft & Hrun & Hb & Hoom' & Hent & _); try done.
  { intros x Hx. by apply Hfiles. }
  set (sent := exported ft). destruct (exported_small F P ft Hb) as [Hp Hmax]. rw -/sent in Hp Hmax.
  destruct (sent_ok F P (cl_ip cl) files ft) as (Hsent & Hsn & Hss); try done; [by intros x Hx; apply Hfiles|].
  rw -/sent in Hsent Hsn Hss.
  exists sent. split; [done|]. split; [done|]. intros request Hclean.
  destruct (request_delivered (cl_ip cl) PEER_SYNC sent (OutConn [] []) later pktt)
    as (c' & r & pkt' & Hsend & Hr & Hpos & Htype & _ & _ & Htable); [done..|].
  rw send_ptot_packet_run // in Hsend; [by apply (fit_u16 _ Hp Hsn)|]. injection Hsend as <-.
  exists r, pkt'. split_and!; [done|done|done|].
  assert (Hclip : clip sent = sent) by by eapply mine_clip.
  rw Htable Hclip. assert (Hknown : known_table F P sent) by by eapply (exported_known F P).
  eapply wp_mono; [by apply (sync_task_reply F P)|]. intros r' st' (-> & Hv & Hm). split; [done|]. intros reply answer.
  split; [done|]. intros Hrs Hrn Hrc. rw /wp Hrun -/(wp _ _ _).
  eapply wp_mono; [apply (follow_reply F P pkt0 reply more (cl_set_ft ft cl)); try done|].
  - exact (f_equal oc_answers Hcc).
  - apply (reply_known F P), (ok_ft _ _ _ Hst).
  - intros x cl' (-> & ft' & d & p & -> & _ & _ & Hv'). split; [done|]. split; [by rw /= Hcc|].
    cbn [cl_ft moved cl_set_files cl_set_ft]. rw Hv' Hv (versions_adopt_all _ _ _ _ (last_port_version p _ _)). symmetry. apply versions_agree; [apply (bd_wf _ _ _ (ok_ft _ _ _ Hst))|apply (bd_wf _ _ _ Hb)].
Qed.

(** ** Witness: a client with an older version of the tracker's file *)
Definition older : list (list Z * directory) := [([115], Some [EDots false; EFile [97] (Some 3)])].
Definition older_entry : trans_file_entry := mine (ip owner2) ([49; 47; 97], Some 3, REGULAR).
Definition older_request : list Z := ptot_bytes (table_request (ip owner2) PEER_SYNC (TransTable 1 [older_entry])).
Definition the_reply : trans_file_table := reply_table [older_entry] sample.
Definition the_answer : list Z := ttop_bytes (ttop_table_packet TRACKER_SYNC the_reply).

(** A client that was just started. *)
Definition new_machine : client := cl_set_ft (tk_ft (static_tracker [] [] [])) new_client.

Lemma the_reply_eq : the_reply = TransTable 1 [announce FILE_MODIFY (FileEntry [49; 47; 97] 5 0 [owner1])].
Proof. vm_compute. reflexivity. Qed.

Lemma the_reply_storable : table_storable the_reply.
Proof.
  rw the_reply_eq. split; [done|]. apply Forall_singleton. split; [split; [repeat constructor|rw /MAX_NAME_LEN; cbn; lia]|].
  split; [split; by vm_compute|]. split_and!; try done; repeat (apply Forall_cons_2; [split; split; by vm_compute|]); apply Forall_nil_2.
Qed.

Lemma older_ok : targets_ok 0 older.
Proof.
  split_and!; [|apply (bool_decide_unpack _); by vm_compute..|done].
  split; [apply NoDup_singleton|]. split; [done|]. split; [|done]. intros ?%list_elem_of_singleton. done.
Qed.

Lemma older_names x : x ∈ shared_files 0 older → name_ok MAX_NAME_LEN (path_of x) ∧ path_of x ∈ the_files.
Proof.
  assert (E : shared_files 0 older = [([49; 47; 97], Some 3, REGULAR)]) by by vm_compute.
  rw E. intros ->%list_elem_of_singleton. split; [split; [repeat constructor|rw /MAX_NAME_LEN; cbn; lia]|].
  cbn. rw /the_files. set_solver.
Qed.

Lemma join_agreement_witness :
  ∃ r pkt', recv_ptot_packet (ptot_packet_init 0 PEER_SYNC) (frame older_request ++ []) = Ok (r, pkt', []) ∧ 0 < r ∧
    ptot_of (ptot_type (ptot_hdr pkt')) = Some PEER_SYNC ∧
    wp (sync_task 5 (ptot_table zero_table pkt')) (λ r' st', r' = 0 ∧
      oc_sent <$> tk_conns st' !! 5 = Some (frame the_answer) ∧
      wp (sync_files older (TtopPacket (TtopHeader 0 0) []) (frame the_answer ++ [1])) (λ x cl', x = (0, [1]) ∧
        oc_sent (cl_conn cl') = frame older_request ∧
        versions (view (cl_ft cl')) = versions (view (tk_ft st'))) new_machine) sample_tracker.
Proof.
  pose proof the_deployment as D.
  destruct (join_agreement the_files the_machines older 5 (OutConn [] []) sample_tracker new_machine
    (ptot_packet_init 0 PEER_SYNC) (TtopPacket (TtopHeader 0 0) []) [] [1]) as (sent & Hp & Hperm & H).
  - exact sample_tracker_ok.
  - exact sample_calm.
  - reflexivity.
  - reflexivity.
  - reflexivity.
  - reflexivity.
  - cbn. rw /is_u32. lia.
  - cbn. rw /the_machines. set_solver.
  - exact older_ok.
  - repeat constructor; eauto.
  - by vm_compute.
  - by vm_compute.
  - exact older_names.
  - apply Permutation_singleton_r in Hperm. destruct sent as [n es]. change (es = [older_entry]) in Hperm. subst es. rw /packed /= in Hp. subst n.
    destruct H as (r & pkt' & Hr & Hpos & Ht & H); [by vm_compute|].
    exists r, pkt'. split; [exact Hr|]. split; [exact Hpos|]. split; [exact Ht|].
    eapply wp_mono; [exact H|]. intros r' st' (H0 & Hs & Hsync). split; [exact H0|]. split; [exact Hs|].
    apply Hsync; [|by vm_compute|by vm_compute].
    exact the_reply_storable.
Defined.
