(* ===== verification/Start.v ===== *)
(** * Start: how a process starts, [dartsync.c] and [client_start]

    [main] reads the options and starts one of the two sides.  [client_start] reads
    the configuration, registers, creates its threads and synchronises, in that
    order, and returns at the first failure it notices; the end of [main] then ends
    the process.  The threads run concurrently with it: what they do is in the other
    files, here is only which of them are there. *)
From S2P Require Import Prelude Hash TransTable FileTable Replica Segment Wire Packet PeerTable Tracker Client Sync Scan Wait Conf Peer Join.

(** ** dartsync.c *)
Inductive start_mode : Set := CLIENT | SERVER | NONE.
(** What [main] ends with. *)
Inductive main_result : Set :=
  | StartClient
  | StartServer
  | Help          (** usage on stdout, EXIT_SUCCESS *)
  | Usage.        (** usage on stderr, EXIT_FAILURE *)

Definition SERVER_WORD : list Z := [115; 101; 114; 118; 101; 114].
Definition CLIENT_WORD : list Z := [99; 108; 105; 101; 110; 116].

(** [opts] is what [getopt_long] returns, one after the other, before its -1: an option
    and [optarg]. *)
Fixpoint main_options (opts : list (Z * list Z)) (mode : start_mode) (debug : bool) : main_result * bool :=
  match opts with
  | [] => (match mode with CLIENT => StartClient | SERVER => StartServer | NONE => Usage end, debug)
  | (c, optarg) :: opts =>
      if c =? 0 then main_options opts mode debug
      else if c =? 100 then main_options opts mode true
      else if c =? 109 then
        main_options opts
          (if bool_decide (optarg = SERVER_WORD) then SERVER else if bool_decide (optarg = CLIENT_WORD) then CLIENT else mode) debug
      else if c =? 104 then (Help, debug)
      else (Usage, debug)
  end.
Definition main (opts : list (Z * list Z)) : main_result * bool := main_options opts NONE false.

(** ** client_start *)
Inductive task : Set := KeepAlive | FileMonitor | TtopReceiver | PtopListening.
#[export] Instance task_eq_dec : EqDecision task.
Proof. solve_decision. Defined.

Record starting := StartingUp {
  st_cl : client;
  st_tasks : list task          (** the threads that were created and not cancelled *)
}.

Definition on_st {A} (m : M client A) : M starting A := zoom st_cl (λ c s, StartingUp c (st_tasks s)) m.

(** [pthread_create], which returns 0 or the number of an error. *)
Definition create_task (t : task) (result : Z) : M starting Z :=
  modify (λ s, StartingUp (st_cl s) (if result =? 0 then st_tasks s ++ [t] else st_tasks s)) ;;; ret result.
Definition pthread_cancel (t : task) : M starting unit :=
  modify (λ s, StartingUp (st_cl s) (filter (λ t', t' ≠ t) (st_tasks s))).

(** Where [client_start] returns, or that it does not. *)
Inductive stage : Set :=
  | BadConf | NoConnection | NotRegistered | NoThread | MonitorFailed | NotSynced
  | Started       (** it waits for the threads *)
  | Stuck.        (** it loops in the configuration or waits for a notification that does not come *)

Section client_start.
(** The files "client.conf" and "target.conf", the shared directories with their
    contents, the results of [connect] and of the four [pthread_create]s, what the
    file monitor's notification leads to ([Wait]; [None]: nothing), and the reply
    packets' memory. *)
Context (fuel : nat) (conf_file target_file : option (list Z)) (conf0 : client_conf_info).
Context (contents : list Z → directory) (connected : bool) (created : task → Z) (monitor : option thread_status).
Context (pkt0 : ttop_packet).

Definition shared_dirs (conf : client_conf_info) : list (list Z * directory) := (λ d, (d, contents d)) <$> target_dirs conf.

(** [client_start] from the wait for the file monitor on. *)
Definition start_threads (conf : client_conf_info) (input : list Z) : M starting stage :=
  tasks <- gets st_tasks ;;
  match (if bool_decide (FileMonitor ∈ tasks) then monitor else None) with
  | None => ret Stuck
  | Some status =>
      if negb (goes_on status) then ret MonitorFailed else
      x <- on_st (sync_files (shared_dirs conf) pkt0 input) ;;
      if fst x <? 0 then ret NotSynced else
      r <- create_task TtopReceiver (created TtopReceiver) ;;
      if r <? 0 then pthread_cancel KeepAlive ;;; pthread_cancel FileMonitor ;;; ret NoThread else
      r <- create_task PtopListening (created PtopListening) ;;
      if r <? 0 then
        pthread_cancel KeepAlive ;;; pthread_cancel FileMonitor ;;; pthread_cancel TtopReceiver ;;; ret NoThread
      else ret Started
  end.

Definition client_start (input : list Z) : M starting stage :=
  match parse_conf_files fuel conf_file target_file [] conf0 with
  | None => ret Stuck
  | Some (Fault e) => fail e
  | Some (Ok (r, conf)) =>
      if negb (r =? 0) then ret BadConf else
      if negb connected then ret NoConnection else
      x <- on_st (register_to_tracker pkt0 input) ;;
      if fst x <? 0 then ret NotRegistered else
      r <- create_task KeepAlive (created KeepAlive) ;;
      if r <? 0 then ret NoThread else
      r <- create_task FileMonitor (created FileMonitor) ;;
      if r <? 0 then pthread_cancel KeepAlive ;;; ret NoThread else
      start_threads conf (snd x)
  end.
End client_start.

(** ** Afterwards *)

(** A turn of [keep_alive_task]; [false]: it ends. *)
Definition keep_alive_task (pkt : ptot_packet) : M starting bool :=
  go <- on_st (keep_alive_turn pkt) ;;
  if go : bool then ret true else pthread_cancel TtopReceiver ;;; ret false.

(** The handler of SIGPIPE, up to [exit(0)]. *)
Definition client_cleanup : M starting unit :=
  pthread_cancel FileMonitor ;;;
  pthread_cancel KeepAlive ;;;
  pthread_cancel TtopReceiver ;;;
  pthread_cancel PtopListening ;;;
  on_st (on_table file_table_destroy).

(** ** Lemmas *)

(** The client after it was accepted. *)
Definition accepted (ctr : ttop_control_info) (s : client) : client :=
  Client (cl_ft s) (cl_ip s) ctr
    (OutConn (oc_sent (cl_conn s) ++ frame (ptot_bytes (ptot_packet_init (cl_ip s) PEER_REGISTER))) [])
    (cl_downloads s) (cl_deleted s) (cl_calloc s).

(** An answer arrives. *)
Lemma register_answer pkt0 pkt more s :
  oc_answers (cl_conn s) = [] → storable (ttop_hdr pkt) → clean (ttop_bytes pkt) →
  ∃ data, let n := Z.to_nat (ttop_data_len (ttop_hdr pkt)) in
    mem_read n data = mem_read n (ttop_data pkt) ∧
    register_to_tracker pkt0 (frame (ttop_bytes pkt) ++ more) s =
      match ttop_of (ttop_type (ttop_hdr pkt)) with
      | Some TRACKER_ACCEPT =>
          if ttop_data_len (ttop_hdr pkt) <=? 8
          then Ok (0, more, accepted (dec (mem_read n data ++ drop n (enc (cl_ctr s)))) s) else Fault OutOfBounds
      | _ => Ok (-1, more, cl_set_conn (cl_conn (accepted (cl_ctr s) s)) s)
      end.
Proof.
  intros Hans Hst Hclean. destruct (ttop_received pkt pkt0 more) as (r & data & Hrecv & Hr & Hdata); [done..|].
  exists data. split; [done|].
  rw /register_to_tracker {1}/bind {1}/gets {1}/bind {1}/send_to_tracker {1}/zoom send_ptot_packet_run //.
  rw (proj2 (Z.ltb_ge _ 0)) // Hrecv (proj2 (Z.ltb_ge r 0)); [lia|]. cbn [ttop_hdr].
  destruct (ttop_of _) as [[]|]; try done. by destruct (_ <=? 8).
Qed.

Lemma register_run pkt0 ctr more s :
  oc_answers (cl_conn s) = [] → storable ctr → clean (ttop_bytes (accept_packet ctr)) →
  register_to_tracker pkt0 (frame (ttop_bytes (accept_packet ctr)) ++ more) s = Ok (0, more, accepted ctr s).
Proof.
  intros Hans Hctr Hclean.
  destruct (register_answer pkt0 (accept_packet ctr) more s) as (data & Hdata & ->); [done|by split|done|].
  change (Z.to_nat (ttop_data_len (ttop_hdr (accept_packet ctr)))) with 8%nat in *. cbn [ttop_hdr accept_packet ttop_type ttop_code ttop_data_len].
  change (ttop_of 0) with (Some TRACKER_ACCEPT). change (8 <=? 8) with true. cbv iota. rw Hdata.
  assert (Hlen : length (enc ctr) = 8%nat) by by rw length_enc.
  assert (Hdrop : drop 8 (enc (cl_ctr s)) = []) by done.
  rw Hdrop app_nil_r (mem_read_exact _ _ 0); [by rw Hlen|]. rw take_ge; [by rw Hlen|]. by rw dec_enc.
Qed.

(** Whatever [pthread_create] says, the check after it does not fire. *)
Lemma create_task_run {A} t r (k f : M starting A) s :
  0 ≤ r →
  (x <- create_task t r ;; if x <? 0 then k else f) s =
    f (StartingUp (st_cl s) (if r =? 0 then st_tasks s ++ [t] else st_tasks s)).
Proof. intros Hr. by rw {1}/bind {1}/create_task {1}/bind {1}/modify /ret (proj2 (Z.ltb_ge _ _)). Qed.

(** What an option says about the mode. *)
Definition mode_of (o : Z * list Z) : option start_mode :=
  if negb (o.1 =? 109) then None
  else if bool_decide (o.2 = SERVER_WORD) then Some SERVER
  else if bool_decide (o.2 = CLIENT_WORD) then Some CLIENT else None.
Definition good_option (o : Z * list Z) : Prop := o.1 ∈ [0; 100; 109].
Definition start_of (m : option start_mode) : main_result :=
  match m with Some CLIENT => StartClient | Some SERVER => StartServer | _ => Usage end.

Lemma main_options_app opts more m d :
  Forall good_option opts →
  main_options (opts ++ more) m d =
    main_options more (default m (last (omap mode_of opts))) (d || existsb (λ o, o.1 =? 100) opts).
Proof.
  revert m d. induction opts as [|[c a] opts IH]; intros m d Hgood; [by rw /= orb_false_r|].
  apply Forall_cons in Hgood as [Hc Hgood]. cbn [app main_options existsb omap list_omap fst]. rw {1}/mode_of. cbn [fst snd].
  rw /good_option /= in Hc. repeat apply elem_of_cons in Hc as [->|Hc]; [| | |by apply elem_of_nil in Hc];
    cbn [Z.eqb negb Pos.eqb]; rw IH //; [by rw orb_true_r orb_true_l|].
  repeat case_bool_decide; rw ?last_cons /=; by destruct (last (omap mode_of opts)).
Qed.

(** ** Properties *)

(** The options.  As long as they are known, the last [-m] with "client" or "server"
    decides what is started, other arguments of [-m] are ignored, without any the
    usage is printed and the status is a failure; [-h], or an unknown option, ends the
    program at once, whatever comes after it. *)
Theorem main_correct opts :
  Forall good_option opts →
  main opts = (start_of (last (omap mode_of opts)), existsb (λ o, o.1 =? 100) opts) ∧
  ∀ c arg more, ¬ good_option (c, arg) →
    (main (opts ++ (c, arg) :: more)).1 = if c =? 104 then Help else Usage.
Proof.
  intros Hgood. split.
  - rw /main -{1}(app_nil_r opts) main_options_app //=. f_equal. rw /start_of.
    destruct (last (omap mode_of opts)) as [[]|]; done.
  - intros c arg more Hc. rw /main main_options_app //. cbn [main_options]. rw /good_option /= in Hc.
    rw !not_elem_of_cons in Hc. destruct Hc as (H0 & H1 & H2 & _).
    by destruct (Z.eqb_spec c 0), (Z.eqb_spec c 100), (Z.eqb_spec c 109), (c =? 104).
Qed.

(** Registration.  The tracker's answer to a registration gives the client its
    interval and its piece length; an answer of another type is refused with -1; an
    answer with more than eight bytes, a number the client takes from the
    network, is written past the end of the global they are copied to. *)
Theorem registration_correct pkt0 ctr more s :
  oc_answers (cl_conn s) = [] → storable ctr → clean (ttop_bytes (accept_packet ctr)) →
  register_to_tracker pkt0 (frame (ttop_bytes (accept_packet ctr)) ++ more) s = Ok (0, more, accepted ctr s) ∧
  ∀ pkt, storable (ttop_hdr pkt) → clean (ttop_bytes pkt) →
    (ttop_of (ttop_type (ttop_hdr pkt)) ≠ Some TRACKER_ACCEPT →
       wp (register_to_tracker pkt0 (frame (ttop_bytes pkt) ++ more)) (λ x s', x = (-1, more) ∧ cl_ctr s' = cl_ctr s) s) ∧
    (ttop_of (ttop_type (ttop_hdr pkt)) = Some TRACKER_ACCEPT → 8 < ttop_data_len (ttop_hdr pkt) →
       register_to_tracker pkt0 (frame (ttop_bytes pkt) ++ more) s = Fault OutOfBounds).
Proof.
  intros Hans Hctr Hclean. split; [by apply register_run|]. intros pkt Hst Hpc.
  destruct (register_answer pkt0 pkt more s) as (data & _ & Hrun); [done..|]. rw /wp Hrun. split.
  - intros Ht. by destruct (ttop_of _) as [[]|].
  - intros -> Hlen. by rw (proj2 (Z.leb_gt _ _)).
Qed.

(** What is noticed when a thread cannot be created.  [pthread_create] returns 0 or a
    positive number, and [client_start] looks for a negative one: it never stops
    there.  Without the file monitor it then waits for ever for its notification;
    and in any case it starts the threads that talk to others only after it is registered
    and synchronised and the file monitor runs. *)
Theorem creation_failures_unnoticed fuel conf_file target_file conf0 contents connected created monitor pkt0 input s st s' :
  (∀ t, 0 ≤ created t) → st_tasks s = [] →
  client_start fuel conf_file target_file conf0 contents connected created monitor pkt0 input s = Ok (st, s') →
  st ≠ NoThread ∧
  (created FileMonitor ≠ 0 → st ∈ [BadConf; NoConnection; NotRegistered; Stuck]) ∧
  (TtopReceiver ∈ st_tasks s' ∨ PtopListening ∈ st_tasks s' →
     st = Started ∧ FileMonitor ∈ st_tasks s' ∧ ∃ status, monitor = Some status ∧ goes_on status = true).
Proof.
  intros Hc Hs. rw /client_start.
  destruct (parse_conf_files _ _ _ _ _) as [[[r conf]|e]|]; [|done|intros [= <- <-]; rw Hs; set_solver].
  destruct (negb (r =? 0)); [intros [= <- <-]; rw Hs; set_solver|].
  destruct (negb connected); [intros [= <- <-]; rw Hs; set_solver|].
  rw {1}/bind {1}/on_st {1}/zoom. destruct (register_to_tracker _ _ _) as [[[r1 rest] cl1]|e]; [|done]. cbn [fst snd].
  destruct (r1 <? 0); [intros [= <- <-]; cbn; rw Hs; set_solver|].
  rw !create_task_run //.
  rw /start_threads {1}/bind {1}/gets. cbn [st_tasks]. rw Hs. cbn [app].
  set (tasks := (if created FileMonitor =? 0 then _ else _)).
  assert (Htasks : TtopReceiver ∉ tasks ∧ PtopListening ∉ tasks ∧ (FileMonitor ∈ tasks ↔ created FileMonitor = 0)).
  { rw /tasks. destruct (Z.eqb_spec (created FileMonitor) 0), (created KeepAlive =? 0); set_solver. }
  destruct Htasks as (H1 & H2 & H3). case_bool_decide as Hin; [|intros [= <- <-]; cbn; set_solver].
  destruct monitor as [status|]; [|intros [= <- <-]; cbn; set_solver].
  destruct (goes_on status) eqn:Hgo; [|intros [= <- <-]; cbn; set_solver]. cbn [negb].
  rw {1}/bind {1}/on_st {1}/zoom. destruct (sync_files _ _ _ _) as [[[r2 rest2] cl2]|e]; [|done]. cbn [fst].
  destruct (r2 <? 0); [intros [= <- <-]; cbn; set_solver|].
  rw !create_task_run //. intros [= <- <-]. cbn [st_tasks].
  split; [done|]. split; [intros Hne; by destruct Hne; apply H3|]. intros _. split; [done|]. split; [|by exists status].
  destruct (created PtopListening =? 0), (created TtopReceiver =? 0); set_solver.
Qed.

(** C27. A start that goes well: registered with the tracker's control information, the
    four threads running, nothing sent but the registration and the local files, and the
    tracker's reply followed, so that the files known are the local ones and those of the
    reply, at the newer version. *)
Theorem client_start_correct F P `{!Deployment F P} fuel conf_file target_file conf0 conf contents pkt0 ctr reply more cl :
  parse_conf_files fuel conf_file target_file [] conf0 = Some (Ok (0, conf)) →
  storable ctr → clean (ttop_bytes (accept_packet ctr)) →
  fs_heap (cl_ft cl) = ∅ → no_oom (cl_ft cl) → cl_conn cl = OutConn [] [] → is_u32 (cl_ip cl) → cl_ip cl ∈ P →
  let dirs := shared_dirs contents conf in
  let files := shared_files 0 dirs in
  targets_ok 0 dirs → Forall (λ t, is_Some t.2) dirs →
  Z.of_nat (length dirs) < 10 ^ 10 → Z.of_nat (length files) ≤ MAX_SENT_ENTRIES →
  (∀ x, x ∈ files → name_ok MAX_NAME_LEN (path_of x) ∧ path_of x ∈ F) →
  known_table F P reply → table_storable reply → tft_n reply ≤ MAX_SENT_ENTRIES →
  clean (ttop_bytes (ttop_table_packet TRACKER_SYNC reply)) →
  ∃ sent, packed sent ∧ tft_entries sent ≡ₚ mine (cl_ip cl) <$> files ∧
    wp (client_start fuel conf_file target_file conf0 contents true (λ _, 0) (Some THREAD_RUNNING) pkt0
          (frame (ttop_bytes (accept_packet ctr)) ++ frame (ttop_bytes (ttop_table_packet TRACKER_SYNC reply)) ++ more))
       (λ st s', st = Started ∧ st_tasks s' = [KeepAlive; FileMonitor; TtopReceiver; PtopListening] ∧
          cl_ctr (st_cl s') = ctr ∧
          oc_sent (cl_conn (st_cl s')) = frame (ptot_bytes (ptot_packet_init (cl_ip cl) PEER_REGISTER)) ++
            frame (ptot_bytes (table_request (cl_ip cl) PEER_SYNC sent)) ∧
          versions (view (cl_ft (st_cl s'))) = versions (adopt_all (cl_ip cl) (tft_entries reply)
            (list_to_map ((λ x, (path_of x, local_file (cl_ip cl) x)) <$> files))))
       (StartingUp cl []).
Proof.
  intros Hconf Hctr Hca Hh Hoom Hcc Hip HP dirs files Hok Hre Hn Hfew Hfiles Hknown Hrs Hrn Hrc.
  destruct (directories_read F P dirs (accepted ctr cl)) as (ft & Hrun & Hb & Hoom' & Hent & Hview); try done.
  { intros x Hx. by apply Hfiles. }
  destruct (sent_ok F P (cl_ip cl) files ft) as (Hsent & Hsn & Hss); try done; [by intros x Hx; apply Hfiles|].
  exists (exported ft). split; [apply (exported_small F P ft Hb)|]. split; [done|].
  rw /client_start Hconf. cbn [Z.eqb negb]. apply wp_bind, wp_zoom. rw {1}/wp register_run //; [by rw Hcc|].
  cbn [fst snd]. change (0 <? 0) with false. cbv iota. rw /wp !create_task_run // -/(wp _ _ _).
  rw /start_threads. apply wp_bind, wp_gets. change (bool_decide _) with true. cbv iota. change (negb (goes_on THREAD_RUNNING)) with false.
  cbv iota. apply wp_bind, wp_zoom. cbn [st_cl st_tasks app Z.eqb]. rw /wp Hrun -/(wp _ _ _).
  eapply wp_mono; [apply (follow_reply F P pkt0 reply more (cl_set_ft ft (accepted ctr cl))); try done|].
  intros x cl' (-> & ft' & d & p & -> & _ & _ & Hv). cbn [fst]. change (0 <? 0) with false. cbv iota.
  rw /wp !create_task_run // -/(wp _ _ _).
  apply wp_ret. split; [done|]. split; [done|]. split; [done|]. split; [by rw /= Hcc|].
  cbn [cl_ft moved cl_set_files cl_set_ft st_cl]. rw Hv (versions_adopt_all _ _ _ _ (last_port_version p _ _)) /= Hview //.
Qed.

(** When the tracker is gone.  Keep-alive packets are sent as long as sending succeeds;
    when it fails, what was sent stays as it was and the broadcasts are no longer
    received, but the other threads go on.  The handler of SIGPIPE leaves no thread and
    no entry of the table. *)
Theorem tracker_gone pkt s :
  (oc_answers (cl_conn (st_cl s)) = [] → 0 ≤ ptot_data_len (ptot_hdr pkt) →
     wp (keep_alive_task pkt) (λ go s', go = true ∧ st_tasks s' = st_tasks s ∧
       oc_sent (cl_conn (st_cl s')) = oc_sent (cl_conn (st_cl s)) ++ frame (ptot_bytes pkt)) s) ∧
  (∀ a rest, oc_answers (cl_conn (st_cl s)) = a :: rest → a < 0 →
     wp (keep_alive_task pkt) (λ go s', go = false ∧ oc_sent (cl_conn (st_cl s')) = oc_sent (cl_conn (st_cl s)) ∧
       ∀ t, t ∈ st_tasks s' ↔ t ∈ st_tasks s ∧ t ≠ TtopReceiver) s) ∧
  (wf (cl_ft (st_cl s)) →
     wp client_cleanup (λ _ s', st_tasks s' = [] ∧ view (cl_ft (st_cl s')) = ∅) s).
Proof.
  split_and!.
  - intros Hans Hlen. apply wp_bind, wp_zoom, wp_bind, wp_zoom. rw {1}/wp send_ptot_packet_run //. apply wp_ret.
    rw (proj2 (Z.ltb_ge _ 0)); [rw /ptot_packet_len; lia|]. by apply wp_ret.
  - intros a rest Hans Ha. apply wp_bind, wp_zoom, wp_bind, wp_zoom.
    assert (E : send_ptot_packet pkt (cl_conn (st_cl s)) = Ok (-1, OutConn (oc_sent (cl_conn (st_cl s))) rest)).
    { rw /send_ptot_packet /send_memory /send_segment /bind /send Hans. by destruct (Z.ltb_spec a 0); [|lia]. }
    rw {1}/wp E. apply wp_ret. change (negb (-1 <? 0)) with false. cbv iota. apply wp_bind, wp_modify, wp_ret.
    split; [done|]. split; [done|]. intros t. cbn. rw list_elem_of_filter. tauto.
  - intros Hwf. do 4 apply wp_bind, wp_modify. apply wp_zoom, wp_on_cl. eapply wp_mono; [by apply file_table_destroy_correct|].
    intros [] ft' (_ & _ & Hv & _). split; [|done]. cbn [st_tasks]. generalize (st_tasks s). intros l.
    destruct (filter _ _) as [|t ts] eqn:E; [done|]. assert (Ht : t ∈ t :: ts) by by left.
    rw -E !list_elem_of_filter in Ht. destruct t; naive_solver.
Qed.

(** ** Witnesses *)
Lemma main_correct_witness :
  main [(109, SERVER_WORD); (100, []); (109, CLIENT_WORD); (109, [120])] = (StartClient, true) ∧
  (main ([(109, SERVER_WORD)] ++ [(63, []); (109, CLIENT_WORD)])).1 = Usage.
Proof.
  split.
  - refine (proj1 (main_correct [(109, SERVER_WORD); (100, []); (109, CLIENT_WORD); (109, [120])] _)).
    repeat constructor; rewrite /good_option; cbn; set_solver.
  - refine (proj2 (main_correct [(109, SERVER_WORD)] _) 63 [] [(109, CLIENT_WORD)] _).
    + repeat constructor; rewrite /good_option; cbn; set_solver.
    + rewrite /good_option; cbn; set_solver.
Defined.

Lemma demo_storable : storable demo_control.
Proof. split; split; by vm_compute. Qed.

Lemma registration_correct_witness :
  register_to_tracker (TtopPacket (TtopHeader 0 0) []) (frame (ttop_bytes (accept_packet demo_control)) ++ [1]) new_machine =
    Ok (0, [1], accepted demo_control new_machine) ∧
  register_to_tracker (TtopPacket (TtopHeader 0 0) []) (frame (ttop_bytes (TtopPacket (TtopHeader 0 9) [])) ++ [1]) new_machine =
    Fault OutOfBounds.
Proof.
  destruct (registration_correct (TtopPacket (TtopHeader 0 0) []) demo_control [1] new_machine) as [H H'].
  - reflexivity.
  - exact demo_storable.
  - by vm_compute.
  - split; [exact H|]. apply (H' (TtopPacket (TtopHeader 0 9) [])); [split; split; by vm_compute|by vm_compute|reflexivity|reflexivity].
Defined.

Definition demo : client_conf_info := ConfInfo [116] [101] [[115]].
Definition demo_contents (d : list Z) : directory := Some [EDots false; EFile [97] (Some 3)].

Lemma creation_failures_unnoticed_witness :
  ∃ st s', client_start 3 (Some (print_conf demo)) (Some (print_targets demo)) (ConfInfo [] [] []) demo_contents true
    (λ t, if bool_decide (t = FileMonitor) then 11 else 0) (Some THREAD_RUNNING) (TtopPacket (TtopHeader 0 0) [])
    (frame (ttop_bytes (accept_packet demo_control))) (StartingUp new_machine []) = Ok (st, s') ∧
  st ∈ [BadConf; NoConnection; NotRegistered; Stuck].
Proof.
  destruct (client_start 3 (Some (print_conf demo)) (Some (print_targets demo)) (ConfInfo [] [] []) demo_contents true
    (λ t, if bool_decide (t = FileMonitor) then 11 else 0) (Some THREAD_RUNNING) (TtopPacket (TtopHeader 0 0) [])
    (frame (ttop_bytes (accept_packet demo_control))) (StartingUp new_machine [])) as [[st s']|e] eqn:E; [|vm_compute in E; discriminate E].
  exists st, s'. split; [reflexivity|]. eapply creation_failures_unnoticed in E as (_ & H & _); [apply H| |reflexivity].
  - by rewrite bool_decide_eq_true_2.
  - intros t. by case_bool_decide.
Defined.

Lemma client_start_correct_witness :
  ∃ sent, tft_entries sent ≡ₚ [older_entry] ∧
    wp (client_start 3 (Some (print_conf demo)) (Some (print_targets demo)) (ConfInfo [] [] []) demo_contents true (λ _, 0)
          (Some THREAD_RUNNING) (TtopPacket (TtopHeader 0 0) [])
          (frame (ttop_bytes (accept_packet demo_control)) ++ frame the_answer ++ []))
       (λ st s', st = Started ∧ st_tasks s' = [KeepAlive; FileMonitor; TtopReceiver; PtopListening] ∧
          versions (view (cl_ft (st_cl s'))) = {[ [49; 47; 97] := 5 ]}) (StartingUp new_machine []).
Proof.
  pose proof the_deployment as D.
  destruct (client_start_correct the_files the_machines 3 (Some (print_conf demo)) (Some (print_targets demo))
    (ConfInfo [] [] []) demo demo_contents (TtopPacket (TtopHeader 0 0) []) demo_control the_reply [] new_machine)
    as (sent & _ & Hperm & H).
  - by vm_compute.
  - exact demo_storable.
  - by vm_compute.
  - reflexivity.
  - reflexivity.
  - reflexivity.
  - cbn. rewrite /is_u32. lia.
  - cbn. rewrite /the_machines. set_solver.
  - exact older_ok.
  - repeat constructor; eauto.
  - by vm_compute.
  - by vm_compute.
  - change (∀ x, x ∈ shared_files 0 older → name_ok MAX_NAME_LEN (path_of x) ∧ path_of x ∈ the_files). exact older_names.
  - apply (reply_known the_files the_machines), (ok_ft _ _ _ sample_tracker_ok).
  - exact the_reply_storable.
  - by vm_compute.
  - by vm_compute.
  - exists sent. split; [exact Hperm|]. eapply wp_mono; [exact H|]. intros st s' (H1 & H2 & _ & _ & H3).
    split; [exact H1|]. split; [exact H2|]. rewrite H3. by vm_compute.
Defined.
