(* ===== verification/Versions.v ===== *)
(** * Versions: the protocol between the machines, in the abstract

    What the tracker and the machines know is a map from files to versions; what
    travels between them is updates.  Every machine has a queue of updates the tracker
    has not handled and one of news it has not followed.  Without deletions versions
    only join ([Semilattice]), which is why the machines agree whenever nothing is in
    flight; with them they need not.  [System] relates the program to this. *)
From S2P Require Import Prelude.

(** ** Versions *)
Notation vmap := (gmap (list Z) Z).

(** A file gets version [ts] if it is newer. *)
Definition newer (n : list Z) (ts : Z) (vs : vmap) : vmap :=
  <[n := match vs !! n with Some t => Z.max t ts | None => ts end]> vs.

(** A file was added or changed ([create]: an addition), or deleted. *)
Inductive update := Put (create : bool) (n : list Z) (t : Z) | Drop (n : list Z).
Definition is_put (u : update) : Prop := match u with Put _ _ _ => True | Drop _ => False end.

(** What an update does to what is known, ... *)
Definition vapply (u : update) (vs : vmap) : vmap :=
  match u with Put _ n t => newer n t vs | Drop n => delete n vs end.
Definition vapply_all (us : list update) (vs : vmap) : vmap := fold_left (λ vs u, vapply u vs) us vs.

(** ... and what the tracker tells the others of it: the version it then has; of the
    change of a file it does not know, a file without a name. *)
Definition tidings (u : update) (vs : vmap) : option update :=
  match u with
  | Put create n t =>
      match vs !! n with
      | Some t' => Some (Put create n (Z.max t' t))
      | None => if create then Some (Put true n t) else Some (Put true [] 0)
      end
  | Drop n => if vs !! n then Some (Drop n) else None
  end.
Fixpoint tidings_all (us : list update) (vs : vmap) : list update :=
  match us with
  | [] => []
  | u :: us => option_list (tidings u vs) ++ tidings_all us (vapply u vs)
  end.

(** Changes are of files that are known when their turn comes. *)
Fixpoint knows (us : list update) (vs : vmap) : Prop :=
  match us with
  | [] => True
  | u :: us => (if u is Put false n _ then is_Some (vs !! n) else True) ∧ knows us (vapply u vs)
  end.

(** ** Machines and messages *)
Record member := Member {
  mb_known : vmap;                  (** what the machine knows *)
  mb_out : list (list update);      (** its updates, not yet handled by the tracker *)
  mb_in : list (list update)        (** news, not yet followed *)
}.
Record net := Net {
  nt_known : vmap;                  (** what the tracker knows *)
  nt_members : gmap Z member        (** the machines, by connection *)
}.

Definition hear (us : list update) (m : member) : member := Member (mb_known m) (mb_out m) (mb_in m ++ [us]).
(** A broadcast to all but one; an empty one is not sent. *)
Definition tell (us : list update) (c : Z) (ms : gmap Z member) : gmap Z member :=
  match us with
  | [] => ms
  | _ => map_imap (λ c' m, Some (if decide (c' = c) then m else hear us m)) ms
  end.

(** What a synchronisation tells the others: what the tracker did not have. *)
Fixpoint fresh_tidings (us : list update) (vs : vmap) : list update :=
  match us with
  | [] => []
  | Put create n t :: us =>
      (match vs !! n with
       | Some t' => if t' <? t then [Put false n t] else []
       | None => [Put true n t]
       end) ++ fresh_tidings us (newer n t vs)
  | Drop n :: us => fresh_tidings us vs
  end.
(** The reply to a machine that announced [mine]: versions the tracker has, among them
    all that are newer. *)
Definition reply_ok (mine : vmap) (vs : vmap) (us : list update) : Prop :=
  (∀ u, u ∈ us → ∃ create n t, u = Put create n t ∧ vs !! n = Some t) ∧
  (∀ n t, vs !! n = Some t → (∀ t', mine !! n = Some t' → t' < t) → ∃ create, Put create n t ∈ us).

(** Steps that create no updates: the tracker handles one, a machine follows news. *)
Inductive delivery : net → net → Prop :=
  | DoHandle vs ms c m us out :
      ms !! c = Some m → mb_out m = us :: out →
      delivery (Net vs ms)
        (Net (vapply_all us vs) (tell (tidings_all us vs) c (<[c := Member (mb_known m) out (mb_in m)]> ms)))
  | DoFollow vs ms c m us into :
      ms !! c = Some m → mb_in m = us :: into →
      delivery (Net vs ms) (Net vs (<[c := Member (vapply_all us (mb_known m)) (mb_out m) into]> ms)).

(** All steps, with the updates that machines make of their own accord restricted to
    [allowed]: a machine changes files; it announces that it has a version it was told
    about; it joins; or something is delivered. *)
Inductive net_step (allowed : update → Prop) : net → net → Prop :=
  | DoChange vs ms c m us :
      ms !! c = Some m → knows us (mb_known m) → Forall allowed us →
      net_step allowed (Net vs ms) (Net vs (<[c := Member (vapply_all us (mb_known m)) (mb_out m ++ [us]) (mb_in m)]> ms))
  | DoAnnounce vs ms c m n t :
      ms !! c = Some m → mb_known m !! n = Some t →
      net_step allowed (Net vs ms) (Net vs (<[c := Member (mb_known m) (mb_out m ++ [[Put false n t]]) (mb_in m)]> ms))
  | DoJoin vs ms c us reply :
      ms !! c = None → Forall is_put us → reply_ok (vapply_all us ∅) vs reply →
      net_step allowed (Net vs ms)
        (Net (vapply_all us vs) (<[c := Member (vapply_all us ∅) [] [reply]]> (tell (fresh_tidings us vs) c ms)))
  | DoDeliver s s' : delivery s s' → net_step allowed s s'.

Definition idle (s : net) : Prop := ∀ c m, nt_members s !! c = Some m → mb_out m = [] ∧ mb_in m = [].
Definition agree (s : net) : Prop := ∀ c m, nt_members s !! c = Some m → mb_known m = nt_known s.

(** ** Versions join *)
Class Semilattice (A : Type) `{Join A} := {
  join_assoc (x y z : A) : x ⊔ (y ⊔ z) = x ⊔ y ⊔ z;
  join_comm (x y : A) : x ⊔ y = y ⊔ x;
  join_idem (x : A) : x ⊔ x = x
}.
Definition below `{Join A} (x y : A) : Prop := y ⊔ x = y.

Section lattice.
Context {A : Type} `{Semilattice A}.
Implicit Types x y z : A.

Lemma join_right_comm x y z : x ⊔ y ⊔ z = x ⊔ z ⊔ y.
Proof. by rw -!join_assoc (join_comm y z). Qed.
Lemma below_join_l x y : below x (x ⊔ y).
Proof. rw /below join_right_comm join_idem //. Qed.
Lemma below_trans x y z : below x y → below y z → below x z.
Proof. rw /below. intros Hxy Hyz. by rw -Hyz -join_assoc Hxy. Qed.
Lemma below_mono x y z : below x y → below (x ⊔ z) (y ⊔ z).
Proof. rw /below. intros Hxy. rw join_assoc (join_right_comm y z x) Hxy -join_assoc join_idem //. Qed.
Lemma below_antisym x y : below x y → below y x → x = y.
Proof. rw /below. intros Hxy <-. by rw join_comm. Qed.
End lattice.

#[export] Instance vmap_join : Join vmap := union_with (λ a b, Some (Z.max a b)).

Lemma lookup_join (vs ws : vmap) n :
  (vs ⊔ ws) !! n = match vs !! n, ws !! n with
                   | Some a, Some b => Some (Z.max a b) | Some a, None => Some a | None, o => o end.
Proof. rw /join /vmap_join lookup_union_with. by destruct (vs !! n), (ws !! n). Qed.

#[export] Instance vmap_laws : Semilattice vmap.
Proof.
  split; intros; apply map_eq; intros n; rw !lookup_join.
  - destruct (x !! n), (y !! n), (z !! n); try done. by rw Z.max_assoc.
  - destruct (x !! n), (y !! n); try done. by rw Z.max_comm.
  - destruct (x !! n); [by rw Z.max_id|done].
Qed.
Lemma join_empty (vs : vmap) : vs ⊔ ∅ = vs.
Proof. apply map_eq. intros n. rw lookup_join lookup_empty. by destruct (vs !! n). Qed.

Lemma newer_join (n : list Z) (t : Z) (vs : vmap) : newer n t vs = vs ⊔ {[n := t]}.
Proof.
  apply map_eq. intros k. rw lookup_join /newer. destruct (decide (k = n)) as [->|Hk].
  - rw lookup_insert_eq lookup_singleton_eq. by destruct (vs !! n).
  - rw lookup_insert_ne // lookup_singleton_ne //. by destruct (vs !! k).
Qed.

Lemma below_lookup (vs ws : vmap) n t : below vs ws → vs !! n = Some t → ∃ t', ws !! n = Some t' ∧ t ≤ t'.
Proof.
  intros H Hn. pose proof (f_equal (λ m : vmap, m !! n) H) as E. cbn beta in E. rw lookup_join Hn in E.
  destruct (ws !! n) as [t'|]; [|done]. exists t'. split; [done|]. injection E. lia.
Qed.
Lemma below_dom (vs ws : vmap) n : below vs ws → is_Some (vs !! n) → is_Some (ws !! n).
Proof. intros H [t Ht]. destruct (below_lookup _ _ _ _ H Ht) as (t' & -> & _). by eexists. Qed.

(** The versions an update, and a list of them, announces. *)
Definition announced (u : update) : vmap := match u with Put _ n t => {[n := t]} | Drop _ => ∅ end.
Definition summary (us : list update) : vmap := foldr (λ u vs, announced u ⊔ vs) ∅ us.

Lemma vapply_join u vs : is_put u → vapply u vs = vs ⊔ announced u.
Proof. destruct u; [intros _; apply newer_join|done]. Qed.
Lemma summary_app us us' : summary (us ++ us') = summary us ⊔ summary us'.
Proof.
  induction us as [|u us IH]; simpl; [by rw join_comm join_empty|]. by rw IH join_assoc.
Qed.
Lemma vapply_all_join us : Forall is_put us → ∀ vs, vapply_all us vs = vs ⊔ summary us.
Proof.
  induction 1 as [|u us Hu _ IH]; intros vs; simpl; [by rw join_empty|].
  rw IH vapply_join // join_assoc //.
Qed.

(** ** Lemmas: what is told of updates *)
Lemma below_pointwise (vs ws : vmap) :
  (∀ n t, vs !! n = Some t → ∃ t', ws !! n = Some t' ∧ t ≤ t') → below vs ws.
Proof.
  intros H. apply map_eq. intros n. rw lookup_join. destruct (vs !! n) as [t|] eqn:E; [|by destruct (ws !! n)].
  destruct (H n t E) as (t' & -> & Hle). f_equal. lia.
Qed.
Lemma below_singleton (n : list Z) (t : Z) (vs : vmap) t' : vs !! n = Some t' → t ≤ t' → below {[n := t]} vs.
Proof. intros Hn Hle. apply below_pointwise. intros k x [<- <-]%lookup_singleton_Some. by exists t'. Qed.

Lemma join_singleton (X : vmap) (n : list Z) (t t' x : Z) :
  X !! n = Some x → Z.max x t = Z.max x t' → X ⊔ {[n := t]} = X ⊔ {[n := t']}.
Proof.
  intros Hx Hm. apply map_eq. intros k. rw !lookup_join. destruct (decide (k = n)) as [->|Hk].
  - by rw Hx !lookup_singleton_eq Hm.
  - by rw !lookup_singleton_ne.
Qed.

Lemma below_vapply u T X : is_put u → below T X → below (vapply u T) (X ⊔ announced u).
Proof. intros Hu H. rw vapply_join //. by apply below_mono. Qed.

Lemma tidings_put u T X :
  is_put u → (if u is Put false n _ then is_Some (T !! n) else True) → below T X →
  X ⊔ summary (option_list (tidings u T)) = X ⊔ announced u ∧ Forall is_put (option_list (tidings u T)).
Proof.
  destruct u as [create n t|n]; [|done]. intros _ Hk HX. simpl. destruct (T !! n) as [t'|] eqn:E.
  - simpl. rw join_empty. split; [|by apply Forall_singleton]. destruct (below_lookup _ _ _ _ HX E) as (x & Hx & Hle).
    apply (join_singleton X n _ _ x); [done|lia].
  - destruct create; [|by destruct Hk]. simpl. rw join_empty. split; [done|by apply Forall_singleton].
Qed.

Lemma summary_tidings us : ∀ T X,
  Forall is_put us → knows us T → below T X →
  X ⊔ summary (tidings_all us T) = X ⊔ summary us ∧ Forall is_put (tidings_all us T).
Proof.
  induction us as [|u us IH]; intros T X Hp Hk HX; [done|]. apply Forall_cons in Hp as [Hu Hp]. destruct Hk as [Hk1 Hk].
  destruct (tidings_put u T X Hu Hk1 HX) as [E1 P1].
  destruct (IH (vapply u T) (X ⊔ announced u) Hp Hk (below_vapply u T X Hu HX)) as [E P].
  cbn [tidings_all]. split; [|by apply Forall_app]. rw summary_app join_assoc E1 E. simpl. by rw join_assoc.
Qed.

Lemma summary_fresh us : ∀ T X,
  Forall is_put us → below T X →
  X ⊔ summary (fresh_tidings us T) = X ⊔ summary us ∧ Forall is_put (fresh_tidings us T).
Proof.
  induction us as [|u us IH]; intros T X Hp HX; [done|]. apply Forall_cons in Hp as [Hu Hp].
  destruct (IH (vapply u T) (X ⊔ announced u) Hp (below_vapply u T X Hu HX)) as [E P].
  destruct u as [create n t|n]; [|done]. cbn [fresh_tidings]. set (l := match (T !! n : option Z) with Some _ => _ | None => _ end).
  assert (X ⊔ summary l = X ⊔ {[n := t]} ∧ Forall is_put l) as [E1 P1].
  { rw /l. destruct (T !! n) as [t'|] eqn:En; [|by rw /= join_empty; split; [|apply Forall_singleton]].
    destruct (Z.ltb_spec t' t) as [Hlt|Hge]; [by rw /= join_empty; split; [|apply Forall_singleton]|].
    split; [|done]. rw /= join_empty. destruct (below_lookup _ _ _ _ HX En) as (x & Hx & Hle).
    symmetry. by apply (below_singleton n t X x); [|lia]. }
  split; [|by apply Forall_app]. rw summary_app join_assoc E1. simpl in E |- *. by rw E join_assoc.
Qed.

Lemma summary_elem us u : u ∈ us → below (announced u) (summary us).
Proof.
  induction us as [|x us IH]; [by intros []%elem_of_nil|]. intros [->|H]%elem_of_cons; simpl; [apply below_join_l|].
  eapply below_trans; [by apply IH|]. rw join_comm. apply below_join_l.
Qed.
Lemma summary_below us z : (∀ u, u ∈ us → below (announced u) z) → below (summary us) z.
Proof.
  induction us as [|x us IH]; intros H; simpl; [apply join_empty|].
  rw /below join_assoc. rw (H x); [by left|]. apply IH. intros u Hu. apply H. by right.
Qed.

Lemma summary_reply mine vs us : reply_ok mine vs us → mine ⊔ summary us = mine ⊔ vs ∧ Forall is_put us.
Proof.
  intros [Hin Hall]. split.
  - assert (H1 : below (summary us) vs).
    { apply summary_below. intros u (create & n & t & -> & Hn)%Hin. by apply (below_singleton n t vs t). }
    apply below_antisym; [rw !(join_comm mine); by apply below_mono|].
    rw /below (join_comm mine vs) join_assoc.
    assert (H2 : below vs (mine ⊔ summary us)); [|rw H2; apply below_join_l].
    apply below_pointwise. intros n t Hn. rw lookup_join.
    destruct (mine !! n) as [t'|] eqn:Em; [destruct (Z.ltb_spec t' t)|].
    + destruct (Hall n t Hn) as [cr Hcr%summary_elem]; [intros ? E; rw Em in E; injection E as <-; lia|]. simpl in Hcr.
      destruct (below_lookup _ _ n t Hcr) as (x & -> & Hx); [by rw lookup_singleton_eq|]. eexists. split; [done|lia].
    + destruct (summary us !! n); eexists; (split; [done|lia]).
    + destruct (Hall n t Hn) as [cr Hcr%summary_elem]; [congruence|]. simpl in Hcr.
      destruct (below_lookup _ _ n t Hcr) as (x & -> & Hx); [by rw lookup_singleton_eq|]. by exists x.
  - apply Forall_forall. by intros u (create & n & t & -> & _)%Hin.
Qed.

(** ** Lemmas: knowing files *)
Lemma vapply_dom u T X : is_put u → (∀ n, is_Some (T !! n) → is_Some (X !! n)) →
  ∀ n, is_Some (vapply u T !! n) → is_Some (vapply u X !! n).
Proof.
  destruct u as [create k t|]; [|done]. intros _ H n. rw /= /newer !lookup_insert. case_decide; [by eexists|apply H].
Qed.
Lemma knows_mono us : ∀ T X,
  Forall is_put us → (∀ n, is_Some (T !! n) → is_Some (X !! n)) → knows us T → knows us X.
Proof.
  induction us as [|u us IH]; intros T X Hp H Hk; [done|]. apply Forall_cons in Hp as [Hu Hp]. destruct Hk as [Hk1 Hk].
  split; [destruct u as [[] n t|]; auto|]. eapply IH; [done| |done]. by apply vapply_dom.
Qed.
Lemma knows_app us us' T : knows (us ++ us') T ↔ knows us T ∧ knows us' (vapply_all us T).
Proof. revert T. induction us as [|u us IH]; intros T; simpl; [tauto|]. rw IH. tauto. Qed.

(** ** What holds of every reachable state without deletions *)
Definition pending (l : list (list update)) : vmap := summary (concat l).

Lemma pending_snoc l us : pending (l ++ [us]) = pending l ⊔ summary us.
Proof. by rw /pending concat_app summary_app /= app_nil_r. Qed.
Lemma pending_cons us l : pending (us :: l) = summary us ⊔ pending l.
Proof. apply summary_app. Qed.

(** A machine: what it knows and has not followed is what the tracker knows and has not
    handled from it. *)
Record member_ok (T : vmap) (m : member) : Prop := {
  mo_versions : mb_known m ⊔ pending (mb_in m) = T ⊔ pending (mb_out m);
  mo_knows : knows (concat (mb_out m)) T;
  mo_out : Forall is_put (concat (mb_out m));
  mo_in : Forall is_put (concat (mb_in m))
}.
Definition consistent (s : net) : Prop := ∀ c m, nt_members s !! c = Some m → member_ok (nt_known s) m.

(** A broadcast of [us], heard if there is something in it. *)
Definition heard (us : list update) (m : member) : member := match us with [] => m | _ => hear us m end.
Lemma tell_lookup us c ms c' :
  tell us c ms !! c' = (λ m, if decide (c' = c) then m else heard us m) <$> ms !! c'.
Proof.
  rw /tell /heard. destruct us; [|rw map_lookup_imap; by destruct (ms !! c')].
  destruct (ms !! c'); [simpl; by case_decide|done].
Qed.

Lemma vapply_all_dom us T n : Forall is_put us → is_Some (T !! n) → is_Some (vapply_all us T !! n).
Proof.
  intros Hp H. rw vapply_all_join // lookup_join. destruct H as [t ->]. by destruct (summary us !! n); eexists.
Qed.

(** A machine when the tracker learned [us] from another one. *)
Lemma member_heard T T' m us news :
  member_ok T m → Forall is_put us → T' = vapply_all us T →
  (∀ X, below T X → X ⊔ summary news = X ⊔ summary us ∧ Forall is_put news) → member_ok T' (heard news m).
Proof.
  intros [Hv Hk Ho Hi] Hus -> Hnews. destruct (Hnews (T ⊔ pending (mb_out m)) (below_join_l _ _)) as [E P].
  assert (Hver : mb_known m ⊔ pending (mb_in m) ⊔ summary news = vapply_all us T ⊔ pending (mb_out m)).
  { rw Hv E vapply_all_join //. apply join_right_comm. }
  assert (Hk' : knows (concat (mb_out m)) (vapply_all us T)).
  { eapply knows_mono; [done| |exact Hk]. intros n. by apply vapply_all_dom. }
  rw /heard. destruct news as [|u news]; [split; try done; by rw join_empty in Hver|].
  split; cbn [mb_known mb_out mb_in hear]; [by rw pending_snoc join_assoc|done|done|].
  rw concat_app. apply Forall_app. split; [done|by rw /= app_nil_r].
Qed.

Lemma member_handled T m us out :
  member_ok T m → mb_out m = us :: out → member_ok (vapply_all us T) (Member (mb_known m) out (mb_in m)).
Proof.
  intros [Hv Hk Ho Hi] E. rw E in Hv Hk Ho. simpl in Ho. apply Forall_app in Ho as [Hus Ho].
  apply knows_app in Hk as [_ Hk]. split; [|done..]. cbn [mb_known mb_in mb_out].
  rw Hv pending_cons vapply_all_join // join_assoc //.
Qed.

Lemma member_followed T m us into :
  member_ok T m → mb_in m = us :: into → member_ok T (Member (vapply_all us (mb_known m)) (mb_out m) into).
Proof.
  intros [Hv Hk Ho Hi] E. rw E in Hv Hi. simpl in Hi. apply Forall_app in Hi as [Hus Hi].
  split; [|done..]. cbn [mb_known mb_in mb_out]. rw vapply_all_join // -join_assoc -pending_cons //.
Qed.

Lemma member_below T m : member_ok T m → below (mb_known m) (T ⊔ pending (mb_out m)).
Proof. intros Hm. rw -(mo_versions _ _ Hm). apply below_join_l. Qed.

Lemma member_changed T m us :
  member_ok T m → Forall is_put us → knows us (mb_known m) →
  member_ok T (Member (vapply_all us (mb_known m)) (mb_out m ++ [us]) (mb_in m)).
Proof.
  intros Hm Hus Hkn. pose proof (member_below _ _ Hm) as Hb. destruct Hm as [Hv Hk Ho Hi].
  split; cbn [mb_known mb_in mb_out]; [| | |done].
  - by rw vapply_all_join // pending_snoc join_assoc -Hv join_right_comm.
  - rw concat_app /= app_nil_r. apply knows_app. split; [done|].
    eapply knows_mono; [done| |exact Hkn]. intros n. rw vapply_all_join //. by apply below_dom.
  - rw concat_app /= app_nil_r. by apply Forall_app.
Qed.

Lemma member_announced T m n t :
  member_ok T m → mb_known m !! n = Some t →
  member_ok T (Member (mb_known m) (mb_out m ++ [[Put false n t]]) (mb_in m)).
Proof.
  intros Hm Hn. pose proof (member_changed T m [Put false n t] Hm) as H.
  assert (E : vapply_all [Put false n t] (mb_known m) = mb_known m).
  { simpl. rw newer_join. by apply (below_singleton n t (mb_known m) t). }
  rw E in H. apply H; [by apply Forall_singleton|]. split; [by eexists|done].
Qed.

Lemma member_joined T us reply :
  Forall is_put us → reply_ok (vapply_all us ∅) T reply →
  member_ok (vapply_all us T) (Member (vapply_all us ∅) [] [reply]).
Proof.
  intros Hus [E P]%summary_reply. split; cbn [mb_known mb_in mb_out]; [|done|done|by rw /= app_nil_r].
  rw pending_cons join_assoc E !vapply_all_join // /pending /= !join_empty (join_comm ∅) join_empty. apply join_comm.
Qed.

Lemma delivery_consistent s s' : consistent s → delivery s s' → consistent s'.
Proof.
  intros Hs Hst. revert Hs. destruct Hst as [vs ms c m us out Hm Ho|vs ms c m us into Hm Hi]; intros Hs c' m'; cbn [nt_members nt_known].
  - rw tell_lookup lookup_insert. case_decide as Hc.
    + subst c'. rw decide_True //. intros [= <-]. apply member_handled; [by apply (Hs c)|done].
    + rw decide_False //. destruct (ms !! c') as [m1|] eqn:E; [|done]. intros [= <-].
      pose proof (Hs c m Hm) as Hmem. pose proof (mo_knows _ _ Hmem) as Hk. pose proof (mo_out _ _ Hmem) as Hp.
      rw Ho in Hk Hp. simpl in Hp. apply Forall_app in Hp as [Hp _]. apply knows_app in Hk as [Hk _].
      eapply (member_heard vs); [by apply (Hs c')|done|done|]. intros X HX. by apply summary_tidings.
  - rw lookup_insert. case_decide; [|apply Hs]. intros [= <-]. apply member_followed; [by apply (Hs c)|done].
Qed.

Lemma step_consistent s s' : consistent s → net_step is_put s s' → consistent s'.
Proof.
  intros Hs Hst. revert Hs. destruct Hst as [vs ms c m us Hm Hk Hp|vs ms c m n t Hm Hn|vs ms c us reply Hc Hp Hr|s s' Hd];
    intros Hs; [| | |by eapply delivery_consistent]; intros c' m'; cbn [nt_members nt_known]; rw lookup_insert; case_decide as E.
  - intros [= <-]. apply member_changed; [by apply (Hs c)|done..].
  - apply Hs.
  - intros [= <-]. apply member_announced; [by apply (Hs c)|done].
  - apply Hs.
  - intros [= <-]. by apply member_joined.
  - rw tell_lookup. case_decide; [by subst|]. destruct (ms !! c') as [m1|] eqn:E1; [|done]. intros [= <-].
    eapply (member_heard vs); [by apply (Hs c')|done|done|]. intros X HX. by apply summary_fresh.
Qed.

Lemma consistent_agree s : consistent s → idle s → agree s.
Proof.
  intros Hs Hq c m Hm. destruct (Hq c m Hm) as [Eo Ei]. pose proof (mo_versions _ _ (Hs c m Hm)) as H.
  by rw Eo Ei !join_empty in H.
Qed.

Lemma steps_consistent s s' : consistent s → rtc (net_step is_put) s s' → consistent s'.
Proof. intros Hs H. revert Hs. induction H as [|s1 s2 s3 H12 _ IH]; [done|]. intros Hs. by eapply IH, step_consistent. Qed.

(** ** Deliveries come to an end *)

(** How many messages are in flight, to the tracker and from it. *)
Definition total (f : member → nat) (ms : gmap Z member) : nat := map_fold (λ _ m acc, f m + acc)%nat 0%nat ms.
Definition unhandled (s : net) : nat := total (λ m, length (mb_out m)) (nt_members s).
Definition unfollowed (s : net) : nat := total (λ m, length (mb_in m)) (nt_members s).

Lemma total_insert f c m m' ms : ms !! c = Some m → (total f (<[c := m']> ms) + f m = total f ms + f m')%nat.
Proof.
  intros Hm. rw -insert_delete_eq /total.
  rw (map_fold_insert_L (λ _ m acc, f m + acc)%nat); [intros; lia|apply lookup_delete_eq|].
  rw -{2}(insert_delete_id ms c m Hm) (map_fold_insert_L (λ _ m acc, f m + acc)%nat); [intros; lia|apply lookup_delete_eq|].
  lia.
Qed.

Lemma total_ext f ms ms' : (∀ c, f <$> ms !! c = f <$> ms' !! c) → total f ms = total f ms'.
Proof.
  intros H. assert (E : f <$> ms = f <$> ms') by (apply map_eq; intros c; rw !lookup_fmap; apply H).
  assert (G : ∀ ms, total f ms = map_fold (λ _ k acc, k + acc)%nat 0%nat (f <$> ms)).
  { intros l. by rw /total map_fold_fmap. }
  by rw !G E.
Qed.

Lemma delivery_less s s' :
  delivery s s' → (unhandled s' < unhandled s ∨ (unhandled s' = unhandled s ∧ unfollowed s' < unfollowed s))%nat.
Proof.
  intros [vs ms c m us out Hm Ho|vs ms c m us into Hm Hi]; rw /unhandled /unfollowed; cbn [nt_members].
  - left. rw (total_ext _ (tell _ _ _) (<[c := Member (mb_known m) out (mb_in m)]> ms)).
    + intros c'. rw tell_lookup. destruct (_ !! c') as [m1|]; [|done]. simpl. case_decide; [done|].
      by rw /heard; destruct (tidings_all us vs).
    + pose proof (total_insert (λ m, length (mb_out m)) c m (Member (mb_known m) out (mb_in m)) ms Hm) as H.
      rw Ho /= in H. lia.
  - right. pose proof (total_insert (λ m, length (mb_out m)) c m (Member (vapply_all us (mb_known m)) (mb_out m) into) ms Hm) as H.
    pose proof (total_insert (λ m, length (mb_in m)) c m (Member (vapply_all us (mb_known m)) (mb_out m) into) ms Hm) as H'.
    rw Hi /= in H'. simpl in H. lia.
Qed.

Lemma deliveries_end s : Acc (flip delivery) s.
Proof.
  remember (unhandled s) as a eqn:Ea. revert s Ea. induction (lt_wf a) as [a _ IHa]. intros s Ea.
  remember (unfollowed s) as b eqn:Eb. revert s Ea Eb. induction (lt_wf b) as [b _ IHb]. intros s Ea Eb.
  constructor. intros s' [H|[H1 H2]]%delivery_less; [by eapply IHa; [subst a|]|]. eapply (IHb (unfollowed s')); [by subst b|lia|done].
Qed.

Lemma delivery_progress s : idle s ∨ ∃ s', delivery s s'.
Proof.
  destruct s as [vs ms].
  destruct (decide (map_Forall (λ _ m, mb_out m = [] ∧ mb_in m = []) ms)) as [H|H]; [by left|right].
  apply map_not_Forall in H as (c & m & Hm & H); [|apply _].
  destruct (mb_out m) as [|us out] eqn:Eo; [|eexists; by eapply DoHandle].
  destruct (mb_in m) as [|us into] eqn:Ei; [by destruct H|eexists; by eapply DoFollow].
Qed.

(** From every reachable state the messages in flight can be delivered, every way to do
    it ends, and when it has ended the machines agree. *)
Lemma deliveries_agree s : consistent s → Acc (flip delivery) s ∧ ∃ s', rtc delivery s s' ∧ idle s' ∧ agree s'.
Proof.
  intros Hs. split; [apply deliveries_end|]. induction (deliveries_end s) as [s _ IH].
  destruct (delivery_progress s) as [Hq|[s1 H1]].
  - exists s. split; [done|]. split; [done|]. by apply consistent_agree.
  - destruct (IH s1 H1) as (s' & H & ?); [by eapply delivery_consistent|]. exists s'. split; [by eapply rtc_l|done].
Qed.
