(* ===== verification/Converge.v ===== *)
(** * Converge: an update travels from one machine to the others

    The announcer's table, the tracker's and that of any other client, before and
    after an update: the announcer has applied it as its monitor does
    ([Events.local_apply]), the tracker runs [peer_file_update_task] on what it is
    sent, and the other client reads the bytes the tracker wrote to its connection and
    follows them. *)
From S2P Require Import Prelude Hash TransTable FileTable Replica Segment Wire Packet PeerTable Tracker Client Sync Monitor Scan Events Peer Join Versions.

(** ** Specification *)

(** No modification is of a file the tracker does not know when its turn comes. *)
Fixpoint known_modifications (l : list trans_file_entry) (v : fview) : Prop :=
  match l with
  | [] => True
  | te :: l => (op_of (te_op_type te) = Some FILE_MODIFY → is_Some (v !! te_name te)) ∧ known_modifications l (apply_update te v)
  end.

(** Entries are found under their names. *)
Definition keyed (v : fview) : Prop := ∀ n e, v !! n = Some e → fe_name e = n.

(** ** Lemmas: versions *)
Lemma versions_lookup v n : versions v !! n = fe_timestamp <$> v !! n.
Proof. by rw /versions lookup_fmap. Qed.

Lemma versions_learn te v : versions (learn te v) = newer (te_name te) (te_timestamp te) (versions v).
Proof.
  rw /newer versions_lookup /versions /learn fmap_insert. f_equal. destruct (v !! te_name te); simpl; [|done].
  apply merge_timestamp.
Qed.
Lemma versions_adopt_newer my_ip te v : versions (adopt my_ip te v) = newer (te_name te) (te_timestamp te) (versions v).
Proof. rw /newer versions_lookup /versions /adopt fmap_insert. f_equal. by destruct (v !! te_name te). Qed.
Lemma versions_delete n v : versions (delete n v) = delete n (versions v).
Proof. apply fmap_delete. Qed.

Lemma newer_newer n ts vs : newer n (default ts (newer n ts vs !! n)) vs = newer n ts vs.
Proof.
  rw /newer lookup_insert_eq. f_equal. simpl. destruct (vs !! n); [|done]. lia.
Qed.

Lemma keyed_learn te v : keyed v → keyed (learn te v).
Proof.
  intros Hv n e. rw /learn lookup_insert. case_decide as Hn; [|apply Hv]. subst n. intros [= <-].
  destruct (v !! te_name te) as [e|] eqn:E; [|done]. rw merge_name. by apply Hv.
Qed.
Lemma keyed_delete n v : keyed v → keyed (delete n v).
Proof. intros Hv m e [_ He]%lookup_delete_Some. by apply Hv. Qed.
Lemma keyed_update te v : keyed v → keyed (apply_update te v).
Proof. intros Hv. rw /apply_update. destruct (op_of _) as [[]|]; auto using keyed_learn, keyed_delete. Qed.

Lemma client_apply_one my_ip te w : client_apply_all my_ip (option_list (Some te)) w = client_apply my_ip te w.
Proof. done. Qed.

(** One update, and what is told of it. *)
Lemma versions_news my_ip te v w :
  keyed v → versions w = versions v → (op_of (te_op_type te) = Some FILE_MODIFY → is_Some (v !! te_name te)) →
  versions (client_apply_all my_ip (option_list (update_news te v)) w) = versions (apply_update te v).
Proof.
  intros Hv Hw Hmod. rw /update_news /apply_update.
  assert (Htold : ∀ op e, (op = FILE_ADD ∨ op = FILE_MODIFY) → learn te v !! te_name te = Some e →
    versions (client_apply my_ip (announce op e) w) = versions (learn te v)).
  { intros op e Hop He. pose proof (keyed_learn te v Hv _ _ He) as Hn.
    assert (Hc : client_apply my_ip (announce op e) w = adopt my_ip (announce op e) w) by by destruct Hop; subst op.
    rw Hc versions_adopt_newer versions_learn Hw. change (te_name (announce op e)) with (fe_name e).
    change (te_timestamp (announce op e)) with (fe_timestamp e). rw Hn -(newer_newer _ (te_timestamp te)) -versions_learn versions_lookup He //. }
  destruct (op_of (te_op_type te)) as [[]|] eqn:Hop; [done| | | |done].
  - destruct (learn te v !! te_name te) as [e|] eqn:He; [rw client_apply_one; by apply Htold; [left|]|].
    by rw /learn lookup_insert_eq in He.
  - rw versions_delete. destruct (v !! te_name te) as [e|] eqn:He.
    + rw client_apply_one /client_apply Hop versions_delete Hw //.
    + rw delete_id; [by rw versions_lookup He|done].
  - destruct Hmod as [e He]; [done|]. rw He client_apply_one. apply Htold; [by right|]. by rw /learn He lookup_insert_eq.
Qed.

Lemma client_apply_all_app my_ip l l' v :
  client_apply_all my_ip (l ++ l') v = client_apply_all my_ip l' (client_apply_all my_ip l v).
Proof. apply fold_left_app. Qed.

Lemma versions_news_all my_ip l : ∀ v w,
  keyed v → versions w = versions v → known_modifications l v →
  versions (client_apply_all my_ip (update_news_all l v) w) = versions (apply_updates l v).
Proof.
  induction l as [|te l IH]; intros v w Hv Hw Hl; [done|]. destruct Hl as [Hte Hl]. cbn [update_news_all].
  rw client_apply_all_app. apply IH; [by apply keyed_update|by apply versions_news|done].
Qed.

(** The announcer's own table. *)
Lemma versions_local l : ∀ v w,
  versions w = versions v → known_modifications l v → versions (local_apply_all l w) = versions (apply_updates l v).
Proof.
  induction l as [|te l IH]; intros v w Hw Hl; [done|]. destruct Hl as [Hte Hl].
  change (versions (local_apply_all l (local_apply te w)) = versions (apply_updates l (apply_update te v))). apply IH; [|done].
  rw /local_apply /apply_update. destruct (op_of (te_op_type te)) as [[]|]; [done| | | |done].
  - by rw !versions_learn Hw.
  - by rw !versions_delete Hw.
  - destruct Hte as [e He]; [done|]. pose proof (versions_lookup w (te_name te)) as E. rw Hw versions_lookup He in E.
    destruct (w !! te_name te); [|done]. by rw !versions_learn Hw.
Qed.

(** The same update, up to owners' ports. *)
Definition same_update (te te' : trans_file_entry) : Prop := same_version te te' ∧ te_op_type te = te_op_type te'.

Lemma versions_same_updates my_ip l l' : Forall2 same_update l l' → ∀ v v',
  versions v = versions v' → versions (client_apply_all my_ip l v) = versions (client_apply_all my_ip l' v').
Proof.
  induction 1 as [|te te' l l' [Hte Hop] _ IH]; intros v v' Hv; [done|].
  change (versions (client_apply_all my_ip l (client_apply my_ip te v)) =
          versions (client_apply_all my_ip l' (client_apply my_ip te' v'))).
  apply IH. rw /client_apply Hop. destruct (op_of (te_op_type te')) as [[]|]; [done|by apply versions_adopt| |by apply versions_adopt|done].
  destruct Hte as [-> _]. by rw !versions_delete Hv.
Qed.

Lemma clip_updates l : Forall2 same_update (alter clip_entry (length l - 1)%nat l) l.
Proof.
  generalize (length l - 1)%nat. intros k. revert k. induction l as [|te l IH]; intros [|k]; [constructor..| |].
  - constructor; [done|]. apply Forall_Forall2_diag, Forall_forall. by intros.
  - constructor; [done|]. apply IH.
Qed.

(** What is announced is what came, or an entry after the update. *)
Lemma news_forall (Q : trans_file_entry → Prop) (I : fview → Prop) l : ∀ v,
  (∀ te w, te ∈ l → I w → I (apply_update te w) ∧ Q te ∧ ∀ op e, learn te w !! te_name te = Some e → Q (announce op e)) →
  I v → known_modifications l v → Forall Q (update_news_all l v).
Proof.
  induction l as [|te l IH]; intros v HQ Hv; [intros _; apply Forall_nil_2|]. intros [Hmod Hl].
  destruct (HQ te v) as (Hv' & Hte & Hann); [by left|done|]. cbn [update_news_all]. apply Forall_app. split.
  - rw /update_news. destruct (op_of (te_op_type te)) as [[]|]; [apply Forall_nil_2| | | |apply Forall_nil_2].
    + destruct (learn te v !! te_name te) eqn:E; [|apply Forall_nil_2]. by apply Forall_singleton, Hann.
    + destruct (v !! te_name te); [by apply Forall_singleton|apply Forall_nil_2].
    + destruct Hmod as [e He]; [done|]. rw He. apply Forall_singleton, Hann. by rw /learn He lookup_insert_eq.
  - apply IH; [|done|done]. intros x w Hx. apply HQ. by right.
Qed.

(** ** Lemmas: what the tracker announces can be followed *)
Section deployment.
Context (F : gset (list Z)) (P : gset Z).
Context {D : Deployment F P}.

(** What [bounded] says of the map of known files. *)
Definition kept (v : fview) : Prop :=
  ∀ n e, v !! n = Some e → fe_name e = n ∧ known_entry F P e ∧ owners_ok (fe_owners e).

Lemma kept_bounded s : bounded F P s → kept (view s).
Proof.
  intros Hb n e He. pose proof (bd_wf _ _ _ Hb) as Hwf. pose proof He as He'. apply view_lookup in He' as (i & Hi & Hh & Hn); [|done].
  split; [done|]. split; [by apply (bd_known _ _ _ Hb n)|]. by apply (wf_owners s Hwf i).
Qed.

Lemma kept_learn te v : known F P te → kept v → kept (learn te v).
Proof.
  intros Hte Hv n e. rw /learn lookup_insert. case_decide as Hn; [|apply Hv]. subst n. intros [= <-].
  destruct (v !! te_name te) as [e|] eqn:E.
  - destruct (Hv _ _ E) as (Hn & Hk & Ho). split; [by rw merge_name|]. split; [by apply (merge_known F P)|by apply merge_owners_ok].
  - split; [done|]. split; [|by apply add_owners_ok, owners_ok_nil]. destruct Hte as (_ & HF & Ho). split; [done|].
    intros p Hp. assert (Hx : ip p ∈ ip <$> fe_owners (new_entry te)) by (apply list_elem_of_fmap; eauto).
    apply add_owners_ips in Hx as [[]%elem_of_nil|(q & -> & Hq)%list_elem_of_fmap]. by apply Ho.
Qed.

Lemma kept_update te v : known F P te → kept v → kept (apply_update te v).
Proof.
  intros Hte Hv. rw /apply_update. destruct (op_of _) as [[]|]; [done|by apply kept_learn| |by apply kept_learn|done].
  intros m e [_ He]%lookup_delete_Some. by apply Hv.
Qed.

Lemma kept_announced op v n e : kept v → v !! n = Some e → known F P (announce op e).
Proof.
  intros Hv He. destruct (Hv _ _ He) as (_ & Hk & Ho). apply (announce_known F P); [done|].
  pose proof (few_peers (F:=F) (P:=P)) as HP. rw -(length_fmap ip). transitivity (size P); [|done].
  apply NoDup_length_size; [done|]. intros x (p & -> & Hp)%list_elem_of_fmap. by apply Hk.
Qed.

Lemma news_known l v :
  (∀ te, te ∈ l → known F P te) → kept v → known_modifications l v → Forall (known F P) (update_news_all l v).
Proof.
  intros Hl. apply news_forall. intros te w Hte Hw. pose proof (Hl te Hte) as Hk.
  split; [by apply kept_update|]. split; [done|]. intros op e. by apply kept_announced, kept_learn.
Qed.

(** The table a handler works on: the ports of the last owner apart, the one that was sent. *)
Lemma clip_known t : known_table F P t → known_table F P (clip t).
Proof.
  intros [[Hp Hmax] Hk]. split; [split; [by rw /packed /= length_alter|done]|]. cbn [clip tft_entries].
  intros te [i Hi]%list_elem_of_lookup. rw list_lookup_alter in Hi. case_decide; [|by eapply Hk, list_elem_of_lookup_2].
  apply fmap_Some in Hi as (te' & Hi & ->). apply (last_port_known F P 0). by eapply Hk, list_elem_of_lookup_2.
Qed.
(** A broadcast, read from the wire and followed. *)
Lemma follow_broadcast pkt0 t more s :
  bounded F P (cl_ft s) → no_oom (cl_ft s) → cl_calloc s = [] →
  known_table F P t → table_storable t → tft_n t ≤ MAX_SENT_ENTRIES → clean (ttop_bytes (ttop_table_packet TRACKER_BROADCAST t)) →
  wp (ttop_receiver_turn pkt0 (frame (ttop_bytes (ttop_table_packet TRACKER_BROADCAST t)) ++ more))
     (λ x s', (∃ pkt, x = Some (pkt, more)) ∧ ∃ ft' d r, s' = moved s ft' d r ∧ bounded F P ft' ∧ no_oom ft' ∧
        view ft' = client_apply_all (cl_ip s) (tft_entries (clip t)) (view (cl_ft s))) s.
Proof.
  intros Hb Hoom Hc [[Hp Hmax] Hknown] Hst Hn Hclean. pose proof (fit_u16 _ Hp Hn) as Hu.
  rw /ttop_receiver_turn.
  destruct (ttop_received (ttop_table_packet TRACKER_BROADCAST t) pkt0 more) as (r & data & -> & Hr & Hdata); [|done|].
  { split; cbn; [done|apply u16_range]. }
  rw (proj2 (Z.leb_gt _ _)) //. apply wp_bind. rw /ttop_dispatch.
  change (ttop_of _) with (Some TRACKER_BROADCAST). cbv iota. apply wp_bind. rw {1}/wp /cl_malloc Hc. cbn [negb].
  assert (Htable : ttop_table zero_table (TtopPacket (ttop_hdr (ttop_table_packet TRACKER_BROADCAST t)) data) = clip t).
  { eapply table_load_data; [done|done| |exact Hdata]. by rw /= u16_id. }
  rw Htable. eapply wp_mono; [apply (broadcast_wp F P); [done|]|].
  - by apply clip_known.
  - intros [] s' (ft' & d & -> & Hb' & H). apply wp_ret. destruct (H Hoom) as (Hoom' & Hv & _).
    split; [by eexists|]. by eexists ft', _, _.
Qed.
End deployment.

(** ** Property *)

(** C5. Agreement is kept.  Three machines know the same versions: one that announces an
    update its monitor has already applied to its own table, the tracker, and any other
    client.  After the tracker has run [peer_file_update_task] on the announcement and the
    other client has read, from the bytes the tracker wrote to its connection, what
    there is to follow, the three know the same versions again: additions, deletions and
    modifications of files that are known, in any number and order, newer or older than
    what is known. *)
Theorem update_propagates F P `{!Deployment F P} conn c o st cl tft pkt0 own more :
  tk_ok F P st → calm st → known_table F P tft → known_modifications (tft_entries tft) (view (tk_ft st)) →
  c ∈ pe_conn <$> peers (tk_pt st) → c ≠ conn → NoDup (pe_conn <$> peers (tk_pt st)) → tk_conns st !! c = Some o →
  bounded F P (cl_ft cl) → no_oom (cl_ft cl) → cl_calloc cl = [] →
  versions own = versions (view (tk_ft st)) → versions (view (cl_ft cl)) = versions (view (tk_ft st)) →
  let news := update_news_all (tft_entries tft) (view (tk_ft st)) in
  let told := TransTable (Z.of_nat (length news)) news in
  Forall storable news → tft_n told ≤ MAX_SENT_ENTRIES → clean (ttop_bytes (ttop_table_packet TRACKER_BROADCAST told)) →
  wp (peer_file_update_task conn tft) (λ r st', r = 0 ∧
    versions (local_apply_all (tft_entries tft) own) = versions (view (tk_ft st')) ∧
    ∃ sent, oc_sent <$> tk_conns st' !! c = Some (oc_sent o ++ sent) ∧
      ((sent = [] ∧ versions (view (cl_ft cl)) = versions (view (tk_ft st'))) ∨
       wp (ttop_receiver_turn pkt0 (sent ++ more)) (λ x cl', (∃ pkt, x = Some (pkt, more)) ∧
         versions (view (cl_ft cl')) = versions (view (tk_ft st'))) cl)) st.
Proof.
  intros Hst Hcalm Htft Hmod Hc Hne Hnd Hconn Hb Hoom Hcc Hown Hcl news told Hsto Hfew Hclean.
  pose proof (kept_bounded F P _ (ok_ft _ _ _ Hst)) as Hkept. destruct Htft as [Htn Htk].
  assert (Hkeyed : keyed (view (tk_ft st))) by (intros n e He; by destruct (Hkept n e He)).
  eapply wp_mono; [by apply (file_update_task_wp F P)|]. intros r st' (_ & _ & -> & H).
  destruct (H Hcalm) as (_ & Hv & Hconns). split; [done|]. split; [rw Hv; by apply versions_local|].
  assert (Hview : versions (client_apply_all (cl_ip cl) news (view (cl_ft cl))) = versions (view (tk_ft st'))).
  { rw Hv. by apply versions_news_all. }
  rw Hconns -/news. rw /broadcast_list. destruct (decide (news = [])) as [E|E].
  - exists []. rw E in Hview *. rw Hconn app_nil_r. split; [done|]. by left.
  - exists (frame (ttop_bytes (ttop_table_packet TRACKER_BROADCAST told))).
    assert (Hb0 : match news with [] => tk_conns st | _ => broadcast_to (broadcast_of news) conn (peers (tk_pt st)) (tk_conns st) end =
      broadcast_to (broadcast_of news) conn (peers (tk_pt st)) (tk_conns st)) by by destruct news.
    rw Hb0 broadcast_to_lookup // decide_True // Hconn. split; [done|]. right.
    assert (Htold : known_table F P told).
    { split; [split; [done|]|by apply Forall_forall, (news_known F P)]. rw /MAX_SENT_ENTRIES in Hfew. rw /MAX_FILE_ENTRIES. lia. }
    eapply wp_mono; [by apply (follow_broadcast F P)|]. intros x cl' (Hx & ft' & d & r' & -> & _ & _ & Hv'). split; [done|].
    cbn [cl_ft moved cl_set_files cl_set_ft]. rw Hv' -Hview. apply versions_same_updates; [apply clip_updates|done].
Qed.

(** ** Witness: a newer version of the file everybody knows *)
Definition newer_update : trans_file_table := TransTable 1 [said [49; 47; 97] 9 (op_code FILE_MODIFY)].
Definition newer_told : list trans_file_entry := update_news_all (tft_entries newer_update) (view sample).

Lemma newer_told_eq : newer_told = [announce FILE_MODIFY (FileEntry [49; 47; 97] 9 0 [owner2])].
Proof. vm_compute. reflexivity. Qed.
Lemma newer_told_storable : Forall storable newer_told.
Proof.
  rw newer_told_eq. apply Forall_singleton. split; [split; [repeat constructor|rw /MAX_NAME_LEN; cbn; lia]|].
  split; [split; by vm_compute|]. split_and!; try done; repeat (apply Forall_cons_2; [split; split; by vm_compute|]); apply Forall_nil_2.
Qed.
Lemma newer_update_known : known_table the_files the_machines newer_update.
Proof.
  split; [by split|]. intros te ->%list_elem_of_singleton. split; [by split|]. split; [rw /the_files; set_solver|].
  intros p ->%list_elem_of_singleton. rw /the_machines. set_solver.
Qed.

Lemma update_propagates_witness :
  wp (peer_file_update_task 5 newer_update) (λ r st', r = 0 ∧
    versions (local_apply_all (tft_entries newer_update) (view sample)) = versions (view (tk_ft st')) ∧
    ∃ sent, oc_sent <$> tk_conns st' !! 6 = Some ([] ++ sent) ∧
      ((sent = [] ∧ versions (view sample) = versions (view (tk_ft st'))) ∨
       wp (ttop_receiver_turn (TtopPacket (TtopHeader 0 0) []) (sent ++ [1])) (λ x cl', (∃ pkt, x = Some (pkt, [1])) ∧
         versions (view (cl_ft cl')) = versions (view (tk_ft st'))) sample_client)) sample_tracker.
Proof.
  pose proof the_deployment as D.
  apply (update_propagates the_files the_machines 5 6 (OutConn [] []) sample_tracker sample_client newer_update
    (TtopPacket (TtopHeader 0 0) []) (view sample) [1]).
  - exact sample_tracker_ok.
  - exact sample_calm.
  - exact newer_update_known.
  - split; [|exact I]. intros _. eexists. vm_compute. reflexivity.
  - apply (bool_decide_unpack _). by vm_compute.
  - discriminate.
  - apply (bool_decide_unpack _). by vm_compute.
  - reflexivity.
  - exact (ok_ft _ _ _ sample_tracker_ok).
  - reflexivity.
  - reflexivity.
  - reflexivity.
  - reflexivity.
  - exact newer_told_storable.
  - by vm_compute.
  - by vm_compute.
Defined.
