(* ===== verification/Broadcast.v ===== *)
(** * Broadcast: what a client does with a broadcast, on its table and its disk

    [broadcast_entry_handler] and [ttop_receiver_task] ([client/start.c]) with the whole of
    [file_delete]: [Client] has what they do to the table of files, [Peer] has
    [file_delete] with the watch on the directories. *)
From S2P Require Import Prelude Hash TransTable FileTable Replica Segment Wire Packet Client Sync Download Monitor Scan Peer Join Tracker Versions Converge.

Section broadcast.
Context `{Kernel K}.
Notation St := (peer K).

Definition broadcast_entry_handler (te : trans_file_entry) : M St unit :=
  match op_of (te_op_type te) with
  | Some FILE_DELETE =>
      on_client (on_table (file_table_delete (Some te))) ;;;
      file_delete (Some te)
  | _ => on_client (Client.broadcast_entry_handler te)
  end.

(** What [ttop_receiver_task] does with a packet, and a turn of its loop. *)
Definition ttop_dispatch (pkt : ttop_packet) : M St unit :=
  match ttop_of (ttop_type (ttop_hdr pkt)) with
  | Some TRACKER_BROADCAST =>
      ok <- on_client cl_malloc ;;
      if negb ok then ret tt else
      for_entries (ttop_table zero_table pkt) (λ te _, broadcast_entry_handler te) tt
  | Some TRACKER_ACCEPT | Some TRACKER_SYNC | Some TRACKER_CLOSE | None => ret tt
  end.
Definition ttop_receiver_turn (pkt : ttop_packet) (input : list Z) : M St (option (ttop_packet * list Z)) :=
  match recv_ttop_packet pkt input with
  | Fault e => fail e
  | Ok (r, pkt, rest) => if r <=? 0 then ret None else ttop_dispatch pkt ;;; ret (Some (pkt, rest))
  end.

(** ** Specification *)

(** A deleted file is a file of a directory that is watched here, and its name fits. *)
Definition deletable (h : gmap tid monitor_target) (te : trans_file_entry) : Prop :=
  te_file_type te ≠ file_type_code DIRECTORY ∧
  ∃ d f, te_name te = d ++ SLASH :: f ∧ plain f ∧ (∃ i t, h !! i = Some t ∧ tg_logic t = d) ∧
    ∀ i t, h !! i = Some t → tg_logic t = d → (length (tg_sys t ++ SLASH :: f) < MAX_NAME_LEN)%nat.
(** Its name in a directory of this machine. *)
Definition unlinks (h : gmap tid monitor_target) (te : trans_file_entry) (op : disk_op) : Prop :=
  ∃ d f i t, te_name te = d ++ SLASH :: f ∧ h !! i = Some t ∧ tg_logic t = d ∧ op = Unlink (tg_sys t ++ SLASH :: f).

(** All events of all directories are asked for. *)
Context {L : KernelLaws K}.
Definition all_watched (m : mstate K) : Prop :=
  ∀ i t, ms_heap m !! i = Some t → mask_at (ms_kernel m) (tg_wd t) = Some DEFAULT_WATCH_MASK.

(** The machine between two handlers, with room for [n] changes of a watch. *)
Record machine_good (F : gset (list Z)) (P : gset Z) (n : nat) (s : St) : Prop := {
  mg_table : bounded F P (cl_ft (pr_cl s));
  mg_oom : no_oom (cl_ft (pr_cl s));
  mg_targets : mt_ok (pr_targets s);
  mg_calloc : ms_calloc (pr_targets s) = [];
  mg_accepts : accepts n (ms_kernel (pr_targets s));
  mg_masks : all_watched (pr_targets s)
}.

(** ** Lemmas *)
Section deployment.
Context {F : gset (list Z)} {P : gset Z} `{D : !Deployment F P}.

Definition deletions (l : list trans_file_entry) : list trans_file_entry := filter is_delete l.

(** The state after the entries [l], seen from before. *)
Record after_entries (n : nat) (l : list trans_file_entry) (s s' : St) : Prop := {
  ae_good : machine_good F P n s';
  ae_heap : ms_heap (pr_targets s') = ms_heap (pr_targets s);
  ae_ip : cl_ip (pr_cl s') = cl_ip (pr_cl s);
  ae_conn : cl_conn (pr_cl s') = cl_conn (pr_cl s);
  ae_view : view (cl_ft (pr_cl s')) = client_apply_all (cl_ip (pr_cl s)) l (view (cl_ft (pr_cl s)));
  ae_disk : ∃ ops, pr_disk s' = pr_disk s ++ ops ∧ Forall2 (unlinks (ms_heap (pr_targets s))) (deletions l) ops
}.

Lemma after_entries_app n n' l l' s1 s2 s3 : after_entries n l s1 s2 → after_entries n' l' s2 s3 → after_entries n' (l ++ l') s1 s3.
Proof.
  intros [_ H1 H2 H3 H4 (o1 & E1 & F1)] [Hg H1' H2' H3' H4' (o2 & E2 & F2)]. split; [done|by rw H1'|by rw H2'|by rw H3'| |].
  - by rw H4' H2 H4 /client_apply_all fold_left_app.
  - exists (o1 ++ o2). split; [by rw E2 E1 app_assoc|]. rw /deletions filter_app. apply Forall2_app; [done|]. by rw -H1.
Qed.

Lemma entry_handled n te (s : St) :
  machine_good F P (2 * length (deletions [te]) + n) s → known F P te →
  (is_delete te → deletable (ms_heap (pr_targets s)) te) →
  wp (broadcast_entry_handler te) (λ _ s', after_entries n [te] s s') s.
Proof.
  intros [Hb Ho Hm Hc Ha Hw] Hk Hdel. rw /broadcast_entry_handler.
  assert (Hother : ¬ is_delete te → wp (on_client (Client.broadcast_entry_handler te)) (λ _ s', after_entries n [te] s s') s).
  { intros Hno. assert (E : deletions [te] = []) by by rw /deletions filter_cons_False. rw E in Ha. apply wp_zoom.
    eapply wp_mono; [by apply (broadcast_entry_handler_wp F P)|]. intros [] cl' (ft' & d & -> & Hb' & Hft).
    destruct (Hft Ho) as (Ho' & Hv & _). rw decide_False //. split; [split|..]; cbn [pr_cl pr_targets pr_disk moved cl_ft cl_set_ft cl_set_files]; try done.
    exists []. rw app_nil_r E. split; [done|constructor]. }
  assert (Hdec : is_delete te ∨ ¬ is_delete te) by (destruct (decide (is_delete te)); auto).
  destruct Hdec as [Hd|Hd]; [|pose proof Hd as Hne; rw /is_delete in Hne; destruct (op_of (te_op_type te)) as [[]|]; done || by apply Hother].
  destruct (Hdel Hd) as (Htype & d & f & Hn & Hf & Hex & Hlen). assert (E : deletions [te] = [te]) by by rw /deletions filter_cons_True. rw E in Ha.
  pose proof Hd as Hop. rw /is_delete in Hop. rw Hop. apply wp_bind, wp_zoom, wp_on_cl.
  eapply wp_mono; [by apply (table_delete_wp F P)|]. intros r ft' (Hb' & Ho' & Hv & _).
  set (s1 := Peer (cl_set_ft ft' (pr_cl s)) (pr_targets s) (pr_disk s)).
  destruct (file_delete_run s1 n te d f Hn Hf Htype Hm Hc Ha Hlen Hex) as (i & t & m & Hi & Ht & Hrun & Hm' & Hheap & Hcal & Hacc & Hmask).
  rw /wp Hrun. split; [split|..]; cbn [pr_cl pr_targets pr_disk cl_ft cl_set_ft]; try done.
  - by apply Ho'.
  - intros j u Hj. rw Hmask. case_decide; [done|]. apply (Hw j). by rw Hheap in Hj.
  - by rw /client_apply_all /= /client_apply Hop.
  - eexists. split; [done|]. rw E. constructor; [|constructor]. by exists d, f, i, t.
Qed.

Lemma entries_handled n tft (s : St) :
  machine_good F P (2 * length (deletions (tft_entries tft)) + n) s → known_table F P tft →
  (∀ te, te ∈ tft_entries tft → is_delete te → deletable (ms_heap (pr_targets s)) te) →
  wp (for_entries tft (λ te _, broadcast_entry_handler te) tt) (λ _ s', after_entries n (tft_entries tft) s s') s.
Proof.
  intros Hg Hk Hdel.
  eapply wp_mono.
  { apply (wp_for_entries F P _ (λ pre _ s', ∀ post, tft_entries tft = pre ++ post →
      after_entries (2 * length (deletions post) + n) pre s s')); [done| |].
    - intros post Heq. simpl in Heq. rw Heq in Hg. split; try done. exists []. by rw app_nil_r.
    - intros pre te post [] s1 Heq Hte Hpre.
      assert (Hlen : (2 * length (deletions (te :: post)) + n = 2 * length (deletions [te]) + (2 * length (deletions post) + n))%nat).
      { change (te :: post) with ([te] ++ post). rw /deletions filter_app length_app. lia. }
      pose proof (Hpre (te :: post) Heq) as Hae. rw Hlen in Hae.
      eapply wp_mono; [apply (entry_handled (2 * length (deletions post) + n) te s1); [apply Hae|done|]|].
      + intros Hd. rw (ae_heap _ _ _ _ Hae). apply Hdel; [rw Heq; set_solver|done].
      + intros [] s2 H2 post' Heq'. assert (post' = post) as -> by (rw Heq -app_assoc in Heq'; by apply app_inv_head in Heq' as [= <-]).
        by eapply after_entries_app. }
  intros [] s' H'. specialize (H' [] (eq_sym (app_nil_r _))). exact H'.
Qed.
End deployment.
End broadcast.

(** ** Properties *)

(** C11. A broadcast, from its bytes to the disk.  A machine whose directories are all
    watched reads a broadcast ([clip]: without the port the wire loses) and follows it:
    its table becomes what the entries say, in order; exactly the files whose deletion is
    announced are unlinked, in order, each under its name in the directory that is
    watched for it; and in the end all the directories are watched for all events again, so
    that what it did to its disk is not announced. *)
Theorem broadcast_on_disk {K} `{KernelLaws K} F P `{!Deployment F P} n pkt0 t more (s : peer K) :
  let l := tft_entries (clip t) in
  machine_good F P (2 * length (deletions l) + n) s → cl_calloc (pr_cl s) = [] →
  known_table F P t → table_storable t → tft_n t ≤ MAX_SENT_ENTRIES → clean (ttop_bytes (ttop_table_packet TRACKER_BROADCAST t)) →
  (∀ te, te ∈ l → is_delete te → deletable (ms_heap (pr_targets s)) te) →
  wp (ttop_receiver_turn pkt0 (frame (ttop_bytes (ttop_table_packet TRACKER_BROADCAST t)) ++ more))
     (λ x s', (∃ pkt, x = Some (pkt, more)) ∧ machine_good F P n s' ∧
        view (cl_ft (pr_cl s')) = client_apply_all (cl_ip (pr_cl s)) l (view (cl_ft (pr_cl s))) ∧
        cl_conn (pr_cl s') = cl_conn (pr_cl s) ∧ ms_heap (pr_targets s') = ms_heap (pr_targets s) ∧
        ∃ ops, pr_disk s' = pr_disk s ++ ops ∧ Forall2 (unlinks (ms_heap (pr_targets s))) (deletions l) ops) s.
Proof.
  intros l Hg Hc Hk Hst Hn Hclean Hdel. pose proof Hk as [[Hp Hmax] _]. pose proof (fit_u16 _ Hp Hn) as Hu.
  rw /ttop_receiver_turn.
  destruct (ttop_received (ttop_table_packet TRACKER_BROADCAST t) pkt0 more) as (r & data & -> & Hr & Hdata); [|done|].
  { split; cbn; [done|apply u16_range]. }
  rw (proj2 (Z.leb_gt _ _)) //. apply wp_bind. rw /ttop_dispatch. change (ttop_of _) with (Some TRACKER_BROADCAST).
  cbv iota. apply wp_bind, wp_zoom. rw {1}/wp /cl_malloc Hc. cbn [negb].
  replace (Peer _ _ _) with s by by destruct s.
  assert (Htable : ttop_table zero_table (TtopPacket (ttop_hdr (ttop_table_packet TRACKER_BROADCAST t)) data) = clip t).
  { eapply table_load_data; [done|done| |exact Hdata]. by rw /= u16_id. }
  rw Htable. eapply wp_mono; [apply (entries_handled (F:=F) (P:=P) n); [done|by apply clip_known|done]|].
  intros [] s' Hae. apply wp_ret. split; [by eexists|]. split_and!; apply Hae.
Qed.

(** ** Witness: "1/a" is deleted, in "/s" *)
Definition a_gone : trans_file_entry := TransEntry [49; 47; 97] 0 (op_code FILE_DELETE) 0 1 (owner1 :: replicate 15 (PeerId 0 0)).
Lemma broadcast_on_disk_witness :
  wp (ttop_receiver_turn (TtopPacket (TtopHeader 0 0) []) (frame (ttop_bytes (ttop_table_packet TRACKER_BROADCAST (TransTable 1 [a_gone]))) ++ [1]))
     (λ x s', view (cl_ft (pr_cl s')) = ∅ ∧ pr_disk s' = [Unlink [47; 115; 47; 97]]) sample_peer.
Proof.
  assert (Hk : known_table client_files client_machines (TransTable 1 [a_gone])).
  { split; [by split|]. intros te ->%list_elem_of_singleton. split; [by split|]. split; [rw /client_files; set_solver|].
    intros p ->%list_elem_of_singleton. rw /client_machines. set_solver. }
  eapply wp_mono; [apply (broadcast_on_disk client_files client_machines (Deployment0:=client_deployment) 0 (TtopPacket (TtopHeader 0 0) []) (TransTable 1 [a_gone]) [1] sample_peer)|].
  - split.
    + exact sample_client_ok.
    + reflexivity.
    + exact one_watched_ok.
    + reflexivity.
    + exact two_accepted.
    + intros i t [_ ->]%one_watched_only. reflexivity.
  - reflexivity.
  - exact Hk.
  - apply (bool_decide_unpack _). by vm_compute.
  - by vm_compute.
  - by vm_compute.
  - intros te Hte _. apply list_elem_of_singleton in Hte as ->. split; [discriminate|]. exists [49], [97].
    split; [reflexivity|]. split; [exact a_plain|]. split; [exact root_watched|exact short_names].
  - intros x s' (_ & _ & Hv & _ & _ & ops & Hd & Hops). split; [rewrite Hv; reflexivity|]. rewrite Hd.
    apply Forall2_cons_inv_l in Hops as (op & ops' & (d & f & i & t & Hn & Hi & Ht & ->) & ->%Forall2_nil_inv_l & ->).
    apply one_watched_only in Hi as [_ ->]. cbn in Ht. subst d. injection Hn as ->. reflexivity.
Defined.
