(* ===== verification/System.v ===== *)
(** * System: the tracker and any number of machines

    The processes with the bytes between them: the handlers of [Tracker], [Client],
    [Events] and [Join] are the steps, and what one side wrote to a connection and the
    other has not read is in flight.  Then what the handlers do, said of versions and of
    the updates of [Versions]; [Agreement] puts this together. *)
From S2P Require Import Prelude Hash TransTable FileTable Replica Segment Wire Packet PeerTable Tracker Client Sync Monitor Scan Events Peer Join Versions Converge.

(** ** Entries as updates *)
Definition update_of (te : trans_file_entry) : option update :=
  match op_of (te_op_type te) with
  | Some FILE_ADD => Some (Put true (te_name te) (te_timestamp te))
  | Some FILE_MODIFY => Some (Put false (te_name te) (te_timestamp te))
  | Some FILE_DELETE => Some (Drop (te_name te))
  | Some FILE_NONE | None => None
  end.
Definition updates (l : list trans_file_entry) : list update := omap update_of l.
(** The entries of a table that is synchronised: files the machine has. *)
Definition puts (l : list trans_file_entry) : list update := (λ te, Put true (te_name te) (te_timestamp te)) <$> l.

(** The members of an entry fit their C types. *)
Definition typed (e : file_entry) : Prop := is_u64 (fe_timestamp e) ∧ is_u16 (fe_type e).
Definition all_typed (v : fview) : Prop := ∀ n e, v !! n = Some e → typed e.
Definition fits (e : file_entry) : Prop := typed e ∧ Forall storable (fe_owners e).
Definition all_fit (v : fview) : Prop := ∀ n e, v !! n = Some e → fits e.

(** ** The processes and what is between them *)

(** [oc_sent] of a connection is what was written to it and not read at the other end. *)
Record system (K : Type) := System {
  sy_tracker : tracker;
  sy_machines : gmap Z (peer K)      (** the clients that have synchronised, by the tracker's connection *)
}.
Arguments System {_} _ _.
Arguments sy_tracker {_} _.
Arguments sy_machines {_} _.

Definition set_unread (c : Z) (rest : list Z) (st : tracker) : tracker :=
  set_conns (alter (λ o, OutConn rest (oc_answers o)) c (tk_conns st)) st.
Definition sent {K} (p : peer K) : list Z := oc_sent (cl_conn (pr_cl p)).
Definition set_sent {K} (rest : list Z) (p : peer K) : peer K :=
  Peer (cl_set_conn (OutConn rest (oc_answers (cl_conn (pr_cl p)))) (pr_cl p)) (pr_targets p) (pr_disk p).

(** The monitor's thread works on the client's table and connection. *)
Definition mon_of {K} (p : peer K) : mon K :=
  Mon (pr_targets p) (cl_ft (pr_cl p)) (cl_ip (pr_cl p)) (cl_conn (pr_cl p)).
Definition on_monitor {K A} (m : M (mon K) A) : M (peer K) A :=
  zoom mon_of (λ t p, Peer (cl_set_conn (mn_conn t) (cl_set_ft (mn_ft t) (pr_cl p))) (mn_targets t) (pr_disk p)) m.

(** What was written since then has no end marker in a payload. *)
Definition clean_since (before after : list Z) : Prop := ∀ p, after = before ++ frame p → clean p.

(** What the receiver of [conn] does with the next packet, and then the thread it started
    for it.  The threads for the packets of one connection are assumed to run in
    the order in which they were started. *)
Definition receive_and_run (now tid conn : Z) (pkt0 : ptot_packet) (input : list Z) : M tracker (option (ptot_packet * list Z)) :=
  l <- gets tk_tasks ;;
  x <- receiver_turn tid conn pkt0 input ;;
  handle (EvRun (length l) now) ;;;
  ret x.

Section steps.
(** [stat]: the modification time of a file at the moment of an event. *)
Context `{KernelLaws K} (stat : list Z → option Z) (F : gset (list Z)) (P : gset Z).
Notation St := (system K).

(** A client that has been started and has read its directories. *)
Record joining (p : peer K) : Prop := {
  jn_table : bounded F P (cl_ft (pr_cl p));
  jn_oom : no_oom (cl_ft (pr_cl p)) ∧ cl_calloc (pr_cl p) = [];
  jn_conn : cl_conn (pr_cl p) = OutConn [] [];
  jn_ip : cl_ip (pr_cl p) ∈ P;
  jn_fits : all_fit (view (cl_ft (pr_cl p)))
}.

(** Events that change files of the deployment and delete none. *)
Definition no_deletions (tes : list trans_file_entry) (v : fview) : Prop :=
  Z.of_nat (length tes) ≤ MAX_SENT_ENTRIES ∧
  Forall (λ te, te_name te ∈ F ∧ op_of (te_op_type te) ≠ Some FILE_DELETE) tes ∧ known_modifications tes v.

(** No broadcast has an end marker in its payload. *)
Definition cleanly (s s' : St) : Prop :=
  ∀ k x x', tk_conns (sy_tracker s) !! k = Some x → tk_conns (sy_tracker s') !! k = Some x' → clean_since (oc_sent x) (oc_sent x').

(** The steps that read what was written. *)
Inductive sys_delivery : St → St → Prop :=
  (** The tracker reads the next packet of a machine and does what it asks for. *)
  | SysHandle (st : tracker) (ms : gmap Z (peer K)) (c : Z) (p : peer K) tid now pktt pkt rest st' :
      ms !! c = Some p → sent p ≠ [] →
      receive_and_run now tid c pktt (sent p) st = Ok (Some (pkt, rest), st') →
      sys_delivery (System st ms) (System st' (<[c := set_sent rest p]> ms))
  (** A machine reads the next packet of the tracker and follows it. *)
  | SysFollow (st : tracker) (ms : gmap Z (peer K)) (c : Z) (p : peer K) o pkt0 pkt rest p' :
      ms !! c = Some p → tk_conns st !! c = Some o → oc_sent o ≠ [] →
      on_client (ttop_receiver_turn pkt0 (oc_sent o)) p = Ok (Some (pkt, rest), p') →
      sys_delivery (System st ms) (System (set_unread c rest st) (<[c := p']> ms)).

Inductive sys_step : St → St → Prop :=
  (** A connection is accepted and its machine registers; it has read the answer. *)
  | SysConnect (st : tracker) (ms : gmap Z (peer K)) (c : Z) tid now peer st' :
      c ∉ pe_conn <$> peers (tk_pt st) →
      (accept_conn tid c ;;; peer_register_handler_task now c peer tid) st = Ok (0, st') →
      sys_step (System st ms) (System (set_unread c [] st') ms)
  (** It synchronises: nothing was written to its connection before the reply. *)
  | SysJoin (st : tracker) (ms : gmap Z (peer K)) (c : Z) o (p p1 : peer K) x tid now pktt pkt pkt0 st' o' p' :
      ms !! c = None → c ∈ pe_conn <$> peers (tk_pt st) → tk_conns st !! c = Some o → oc_sent o = [] → joining p →
      on_client sync_request p = Ok (x, p1) →
      receive_and_run now tid c pktt (sent p1) st = Ok (Some (pkt, []), st') →
      tk_conns st' !! c = Some o' → on_client (sync_with_tracker pkt0 (oc_sent o')) p = Ok ((0, []), p') →
      clean_since [] (sent p1) → clean_since [] (oc_sent o') →
      (∀ k x x', k ≠ c → tk_conns st !! k = Some x → tk_conns st' !! k = Some x' → clean_since (oc_sent x) (oc_sent x')) →
      sys_step (System st ms) (System (set_unread c [] st') (<[c := set_sent [] p']> ms))
  (** A machine's monitor finds events. *)
  | SysChange (st : tracker) (ms : gmap Z (peer K)) (c : Z) (p : peer K) w rs old tes w' old' p' :
      ms !! c = Some p → Forall raw_ok rs → Z.of_nat (length (raws_bytes rs)) ≤ EVENT_BUF_LEN →
      targets_good w (pr_targets p) →
      observe stat (cl_ip (pr_cl p)) w (all_read rs (drop (length (raws_bytes rs)) old)) = Some (tes, w') →
      no_deletions tes (view (cl_ft (pr_cl p))) →
      on_monitor (monitor_turn stat old (Some (raws_bytes rs))) p = Ok (old', p') →
      clean_since (sent p) (sent p') →
      sys_step (System st ms) (System st (<[c := p']> ms))
  (** A download ends well, and the tracker is told. *)
  | SysAnnounce (st : tracker) (ms : gmap Z (peer K)) (c : Z) (p : peer K) fe e r p' :
      ms !! c = Some p → entry_at (cl_ft (pr_cl p)) (fe_name e) fe e →
      on_client (Client.ptop_download_task true true 0 (Some fe)) p = Ok (r, p') →
      clean_since (sent p) (sent p') →
      sys_step (System st ms) (System st (<[c := p']> ms))
  (** What is in flight arrives. *)
  | SysDelivery s s' :
      sys_delivery s s' → cleanly s s' → sys_step s s'.

(** Nothing is in flight. *)
Definition settled (s : St) : Prop :=
  map_Forall (λ c p, sent p = [] ∧ from_option oc_sent [] (tk_conns (sy_tracker s) !! c) = []) (sy_machines s).
(** Every machine knows the versions the tracker knows. *)
Definition in_agreement (s : St) : Prop :=
  ∀ c p, sy_machines s !! c = Some p → versions (view (cl_ft (pr_cl p))) = versions (view (tk_ft (sy_tracker s))).
End steps.

(** ** Lemmas: the handlers, on versions *)
Lemma updates_cons te l : updates (te :: l) = option_list (update_of te) ++ updates l.
Proof. rw /updates. csimpl. by destruct (update_of te). Qed.
Lemma updates_app l l' : updates (l ++ l') = updates l ++ updates l'.
Proof. apply omap_app. Qed.
Lemma vapply_all_app us us' vs : vapply_all (us ++ us') vs = vapply_all us' (vapply_all us vs).
Proof. apply fold_left_app. Qed.

Lemma versions_apply_updates l : ∀ v, versions (apply_updates l v) = vapply_all (updates l) (versions v).
Proof.
  induction l as [|te l IH]; intros v; [done|]. change (apply_updates (te :: l) v) with (apply_updates l (apply_update te v)).
  rw IH updates_cons vapply_all_app. f_equal. rw /apply_update /update_of.
  destruct (op_of (te_op_type te)) as [[]|]; [done|apply versions_learn|apply versions_delete|apply versions_learn|done].
Qed.

Lemma versions_client_apply_all my_ip l : ∀ v, versions (client_apply_all my_ip l v) = vapply_all (updates l) (versions v).
Proof.
  induction l as [|te l IH]; intros v; [done|].
  change (client_apply_all my_ip (te :: l) v) with (client_apply_all my_ip l (client_apply my_ip te v)).
  rw IH updates_cons vapply_all_app. f_equal. rw /client_apply /update_of.
  destruct (op_of (te_op_type te)) as [[]|]; [done|apply versions_adopt_newer|apply versions_delete|apply versions_adopt_newer|done].
Qed.

Lemma versions_adopt_puts my_ip l : ∀ v,
  Forall (λ te, ∃ op, update_of te = Some (Put op (te_name te) (te_timestamp te))) l →
  versions (adopt_all my_ip l v) = vapply_all (updates l) (versions v).
Proof.
  induction l as [|te l IH]; intros v; [done|]. intros [[op Hop] Hl]%Forall_cons.
  change (adopt_all my_ip (te :: l) v) with (adopt_all my_ip l (adopt my_ip te v)).
  rw IH // updates_cons vapply_all_app. f_equal. rw Hop. apply versions_adopt_newer.
Qed.

Lemma versions_learn_all l : ∀ v, versions (learn_all l v) = vapply_all (puts l) (versions v).
Proof.
  induction l as [|te l IH]; intros v; [done|]. change (learn_all (te :: l) v) with (learn_all l (learn te v)).
  rw IH versions_learn //.
Qed.

Lemma announced_version te v e :
  keyed v → learn te v !! te_name te = Some e →
  fe_name e = te_name te ∧ fe_timestamp e = match versions v !! te_name te with Some t => Z.max t (te_timestamp te) | None => te_timestamp te end.
Proof.
  intros Hv He. split; [by eapply keyed_learn|].
  pose proof (versions_lookup (learn te v) (te_name te)) as H. rw He versions_learn /newer lookup_insert_eq /= in H.
  by injection H.
Qed.

Lemma tidings_updates l : ∀ v, keyed v → updates (update_news_all l v) = tidings_all (updates l) (versions v).
Proof.
  induction l as [|te l IH]; intros v Hv; [done|]. cbn [update_news_all]. rw updates_app updates_cons.
  pose proof (versions_apply_updates [te] v) as Happ. rw updates_cons app_nil_r in Happ. change (apply_updates [te] v) with (apply_update te v) in Happ.
  rw IH; [by apply keyed_update|]. rw Happ. clear IH Happ. rw /update_news /update_of.
  destruct (op_of (te_op_type te)) as [[]|] eqn:Hop; [done| | | |done]; cbn [option_list app tidings_all]; f_equal.
  - destruct (learn te v !! te_name te) as [e|] eqn:He; [|by rw /learn lookup_insert_eq in He].
    destruct (announced_version te v e Hv He) as [Hn Ht]. rw /= /updates /= /update_of /= Hn Ht.
    by destruct (versions v !! te_name te).
  - simpl. rw versions_lookup. destruct (v !! te_name te); [|done]. by rw /= /updates /= /update_of Hop.
  - simpl. rw versions_lookup. destruct (v !! te_name te) as [e|] eqn:E; [|done].
    by rw /= /updates /= /update_of /= merge_name merge_timestamp (Hv _ _ E).
Qed.

Lemma knows_updates l : ∀ v, knows (updates l) (versions v) ↔ known_modifications l v.
Proof.
  induction l as [|te l IH]; intros v; [done|]. rw updates_cons.
  pose proof (versions_apply_updates [te] v) as Happ. rw updates_cons app_nil_r in Happ. change (apply_updates [te] v) with (apply_update te v) in Happ.
  rw knows_app -Happ IH. cbn [known_modifications]. rw /update_of.
  destruct (op_of (te_op_type te)) as [[]|]; simpl; try (split; intros [? ?]; split; done).
  rw versions_lookup fmap_is_Some. split; [intros [[? _] ?]|intros [? ?]]; by split; auto.
Qed.

Lemma fresh_updates l : ∀ v, updates (news_all l v) = fresh_tidings (puts l) (versions v).
Proof.
  induction l as [|te l IH]; intros v; [done|]. cbn [news_all puts fmap list_fmap fresh_tidings]. rw updates_app IH versions_learn. f_equal.
  rw /news versions_lookup. destruct (v !! te_name te) as [e|]; [|done]. simpl. by destruct (_ <? _).
Qed.

Lemma updates_same l l' : Forall2 same_update l l' → updates l = updates l'.
Proof.
  induction 1 as [|te te' l l' [[Hn Ht] Hop] _ IH]; [done|]. rw !updates_cons IH /update_of Hn Ht Hop //.
Qed.
Lemma updates_clip l k : updates (alter clip_entry k l) = updates l.
Proof.
  apply updates_same. revert k. induction l as [|te l IH]; intros [|k]; [constructor..| |].
  - constructor; [done|]. apply Forall_Forall2_diag, Forall_forall. by intros.
  - constructor; [done|]. apply IH.
Qed.

(** ** Lemmas: what is known can be sent *)
Lemma add_owners_elem l p : ∀ owners, p ∈ add_owners owners l → p ∈ owners ∨ p ∈ l.
Proof.
  induction l as [|o l IH]; intros owners; [by left|]. intros [H|H]%IH; [|right; by right].
  rw /add_owner in H. repeat case_match; set_solver.
Qed.
Lemma add_owners_storable owners l : Forall storable owners → Forall storable l → Forall storable (add_owners owners l).
Proof. rw !Forall_forall. intros Ho Hl p [H|H]%add_owners_elem; auto. Qed.

Lemma owners_of_storable te : storable te → Forall storable (owners_of te).
Proof. intros (_ & _ & _ & _ & _ & _ & H). by apply Forall_take. Qed.

Lemma new_entry_fits te : storable te → fits (new_entry te).
Proof.
  intros H. pose proof (owners_of_storable te H). destruct H as (_ & Ht & _ & Hf & _).
  split; [done|]. by apply add_owners_storable.
Qed.
Lemma merge_typed te e : is_u64 (te_timestamp te) → typed e → typed (merge te e).
Proof. intros Ht [He1 He2]. rw /typed merge_timestamp merge_type. split; [|done]. rw /is_u64 in Ht He1 *. lia. Qed.
Lemma merge_fits te e : storable te → fits e → fits (merge te e).
Proof.
  intros H [He1 He2]. pose proof (owners_of_storable te H) as Ho. destruct H as (_ & Ht & _).
  split; [by apply merge_typed|]. rw /merge. repeat case_match; cbn [fe_owners set_owners]; try done; by apply add_owners_storable.
Qed.

(** An invariant of entries over a list of changes. *)
Lemma all_entries_fold (R : file_entry → Prop) (Q : trans_file_entry → Prop) (f : trans_file_entry → fview → fview) l v :
  (∀ te w, Q te → (∀ n e, w !! n = Some e → R e) → ∀ n e, f te w !! n = Some e → R e) →
  Forall Q l → (∀ n e, v !! n = Some e → R e) → ∀ n e, fold_left (λ v te, f te v) l v !! n = Some e → R e.
Proof. intros Hf Hl. revert v. induction Hl as [|te l Hte _ IH]; intros v Hv; [done|]. by apply IH, Hf. Qed.
Lemma all_entries_insert (R : file_entry → Prop) (n : list Z) (e : file_entry) (v : fview) :
  R e → (∀ m x, v !! m = Some x → R x) → ∀ m x, <[n := e]> v !! m = Some x → R x.
Proof. intros He Hv m x. rw lookup_insert. case_decide; [by intros [= <-]|apply Hv]. Qed.
Lemma all_entries_delete (R : file_entry → Prop) (n : list Z) (v : fview) :
  (∀ m x, v !! m = Some x → R x) → ∀ m x, delete n v !! m = Some x → R x.
Proof. intros Hv m x [_ Hx]%lookup_delete_Some. by eapply Hv. Qed.

Lemma all_fit_learn te v : storable te → all_fit v → all_fit (learn te v).
Proof.
  intros Ht Hv. refine (all_entries_insert fits _ _ _ _ Hv).
  destruct (v !! te_name te) eqn:E; [apply merge_fits; eauto|by apply new_entry_fits].
Qed.
Lemma all_fit_updates l v : Forall storable l → all_fit v → all_fit (apply_updates l v).
Proof.
  refine (all_entries_fold fits storable apply_update l v _). intros te w Ht Hw. rw /apply_update.
  destruct (op_of _) as [[]|]; [done|by apply all_fit_learn|exact (all_entries_delete fits _ _ Hw)|by apply all_fit_learn|done].
Qed.
Lemma all_fit_learn_all l v : Forall storable l → all_fit v → all_fit (learn_all l v).
Proof. exact (all_entries_fold fits storable learn l v all_fit_learn). Qed.

(** The types are those of the entries that came. *)
Definition te_typed (te : trans_file_entry) : Prop := is_u64 (te_timestamp te) ∧ is_u16 (te_file_type te).
Lemma all_typed_learn te v : te_typed te → all_typed v → all_typed (learn te v).
Proof.
  intros Ht Hv. refine (all_entries_insert typed _ _ _ _ Hv).
  destruct (v !! te_name te) eqn:E; [apply merge_typed; [apply Ht|eauto]|done].
Qed.
Lemma all_typed_adopt my_ip te v : te_typed te → all_typed v → all_typed (adopt my_ip te v).
Proof.
  intros Ht Hv. refine (all_entries_insert typed _ _ _ _ Hv). destruct (v !! te_name te) as [e|] eqn:E; [|done].
  destruct Ht as [Ht _], (Hv _ _ E) as [He1 He2]. split; [|done]. rw /= /is_u64 in Ht He1 *. lia.
Qed.
Lemma all_typed_client my_ip l v : Forall te_typed l → all_typed v → all_typed (client_apply_all my_ip l v).
Proof.
  refine (all_entries_fold typed te_typed (client_apply my_ip) l v _). intros te w Ht Hw. rw /client_apply.
  destruct (op_of _) as [[]|]; [done|by apply all_typed_adopt|exact (all_entries_delete typed _ _ Hw)|by apply all_typed_adopt|done].
Qed.
Lemma all_typed_local l v : Forall te_typed l → all_typed v → all_typed (local_apply_all l v).
Proof.
  refine (all_entries_fold typed te_typed local_apply l v _). intros te w Ht Hw. rw /local_apply.
  destruct (op_of _) as [[]|]; [done|by apply all_typed_learn|exact (all_entries_delete typed _ _ Hw)| |done].
  destruct (w !! _); [by apply all_typed_learn|done].
Qed.
Lemma all_typed_adopt_all my_ip l v : Forall te_typed l → all_typed v → all_typed (adopt_all my_ip l v).
Proof. exact (all_entries_fold typed te_typed (adopt my_ip) l v (all_typed_adopt my_ip)). Qed.

Lemma storable_typed te : storable te → te_typed te.
Proof. by intros (_ & ? & _ & ? & _). Qed.
Lemma all_storable_typed l : Forall storable l → Forall te_typed l.
Proof. intros H. eapply Forall_impl; [exact H|apply storable_typed]. Qed.

Lemma Forall_alter_all {A} (Q : A → Prop) (f : A → A) k l :
  (∀ x, Q x → Q (f x)) → Forall Q l → Forall Q (alter f k l).
Proof.
  intros Hf Hl. revert k. induction Hl as [|te l Hte Hl IH]; intros [|k]; [apply Forall_nil_2..| |]; apply Forall_cons_2; [by apply Hf|done|done|apply IH].
Qed.
Lemma storable_op op te : storable te → storable (set_op_type op te).
Proof. intros (H1 & H2 & _ & H). split; [done|]. split; [done|]. split; [by destruct op|done]. Qed.
Lemma announce_storable op e :
  name_ok MAX_NAME_LEN (fe_name e) → fits e → (length (fe_owners e) ≤ MAX_PEER_ENTRIES)%nat → storable (announce op e).
Proof.
  intros Hn ([Ht Hty] & Ho) Hlen. rw /MAX_PEER_ENTRIES in Hlen. split_and!; try done; cbn [te_op_type te_owner_n te_owners announce set_op_type FileTable.export].
  - by destruct op.
  - rw /is_u16. lia.
  - rw length_app length_replicate /MAX_PEER_ENTRIES. lia.
  - apply Forall_app. split; [done|]. apply Forall_replicate. split; cbn; rw /is_u32 /is_u16; lia.
Qed.
