(* ===== verification/Typed.v ===== *)
(** * Typed: the entries of the table fit their C types

    Every member of an entry is an integer of the model: here is why none ever leaves the
    range of its type in [include/file_table.h] and [include/trans_file_table.h], whatever
    is done to the table, and that an entry survives the wire. *)
From S2P Require Import Prelude Hash TransTable FileTable Replica Segment Wire Tracker Client System.

(** ** Specification *)

(** An operation with typed arguments. *)
Definition op_typed (o : table_op) : Prop :=
  match o with OpAdd te | OpUpdate te => te_wf te ∧ storable te | _ => True end.

(** Every entry has a name that fits the buffer and members of their types. *)
Definition well_typed (v : fview) : Prop := ∀ n e, v !! n = Some e → name_ok MAX_NAME_LEN (fe_name e) ∧ fits e.

(** ** Lemmas *)
Lemma op_typed_wf o : op_typed o → op_wf o.
Proof. destruct o; try done; by intros []. Qed.

Lemma first_owners_storable te m : storable te → (m ≤ Z.to_nat (te_owner_n te))%nat →
  storable (TransEntry (te_name te) (te_timestamp te) (te_op_type te) (te_file_type te) (Z.of_nat m) (te_owners te)).
Proof. intros (? & ? & ? & ? & Hu & ? & ?) Hm. split_and!; try done. rw /te_owner_n /is_u16 in Hu *. destruct te. simpl in *. lia. Qed.

Lemma well_typed_updated te e e' : storable te → updated te e e' → fits e → fits e'.
Proof. intros Ht (_ & _ & _ & _ & m & Hm & ->) He. apply merge_fits; [by apply first_owners_storable|done]. Qed.
Lemma well_typed_created te e : storable te → created te e → name_ok MAX_NAME_LEN (fe_name e) ∧ fits e.
Proof.
  intros Ht (Hn & Hts & Hty & _ & m & Ho). pose proof (owners_of_storable te Ht) as Hown. destruct Ht as (Hname & Htime & _ & Hft & _).
  split; [by rw Hn|]. split; [by split; rw ?Hts ?Hty|]. rw Ho. apply add_owners_storable; [done|by apply Forall_take].
Qed.

Lemma well_typed_insert n e v : well_typed v → name_ok MAX_NAME_LEN (fe_name e) → fits e → well_typed (<[n := e]> v).
Proof. intros Hv Hn He m x. rw lookup_insert. case_decide; [by intros [= <-]|apply Hv]. Qed.
Lemma well_typed_omap f v : (∀ e x, fits e → f e = Some x → fe_name x = fe_name e ∧ fits x) → well_typed v → well_typed (omap f v).
Proof.
  intros Hf Hv n x. rw lookup_omap. destruct (v !! n) as [e|] eqn:E; [|done]. cbn. intros Hx. destruct (Hv n e E) as [Hn He].
  destruct (Hf e x He Hx) as [-> ?]. by split.
Qed.

Lemma drop_owner_fits ip0 e x : fits e → drop_owner ip0 e = Some x → fe_name x = fe_name e ∧ fits x.
Proof.
  intros [Ht Ho]. rw /drop_owner. assert (Hf : Forall storable (filter (λ p, ip p ≠ ip0) (fe_owners e))).
  { apply Forall_forall. intros p [_ Hp]%list_elem_of_filter. by eapply (proj1 (Forall_forall _ _)). }
  destruct (filter _ _) as [|p l]; [done|]. intros [= <-]. by split.
Qed.

Lemma run_op_typed o s : wf s → op_typed o → well_typed (view s) → wp (run_op o) (λ _ s', well_typed (view s')) s.
Proof.
  intros Hwf Ho Hv. destruct o as [te|te|te|te|ip0|]; cbn [run_op op_typed] in *; [|destruct Ho as [Hte Hst]..| | |].
  - apply wp_bind. eapply wp_mono; [by apply __file_table_search_wp|]. by intros ? ? [-> _].
  - apply wp_bind. eapply wp_mono; [by apply file_table_add_wp|]. intros r s' H. apply wp_ret.
    destruct (view s !! te_name te) as [e|] eqn:E.
    + destruct H as (i & e' & c & _ & Hat & -> & Hupd & _). pose proof Hupd as (Hn & _ & Hok & _). pose proof Hat as (_ & _ & Hne).
      rw (written_view s (te_name te) i e); [done|done|congruence|done|]. destruct (Hv _ _ E) as [H1 H2].
      apply well_typed_insert; [done|by rw Hn|by eapply well_typed_updated].
    + destruct H as (c & _ & H). destruct r as [i|]; [|by destruct H as [-> _]]. destruct H as (_ & e & -> & Hcr & _).
      pose proof Hcr as (Hn & _ & _ & Hok & _). rw view_inserted //; [by rw Hn|]. destruct (well_typed_created te e) as [H1 H2]; [done..|].
      by apply well_typed_insert.
  - apply wp_bind. eapply wp_mono; [by apply file_table_update_wp|]. intros r s' H. apply wp_ret.
    destruct (view s !! te_name te) as [e|] eqn:E; [|by destruct H as [_ ->]].
    destruct H as (_ & i & e' & c & Hat & -> & Hupd & _). pose proof Hupd as (Hn & _ & Hok & _). pose proof Hat as (_ & _ & Hne).
    rw (written_view s (te_name te) i e); [done|done|congruence|done|]. destruct (Hv _ _ E) as [H1 H2].
    apply well_typed_insert; [done|by rw Hn|by eapply well_typed_updated].
  - apply wp_bind. eapply wp_mono; [by apply file_table_delete_wp|]. intros r s' H. apply wp_ret.
    destruct (view s !! te_name te) as [e|] eqn:E; [|by destruct H as [_ ->]]. destruct H as (_ & i & Hat & ->).
    rw (view_removed s (te_name te) i e) //. intros n x [_ Hx]%lookup_delete_Some. by apply (Hv n).
  - eapply wp_mono; [by apply (sweep_wp _ _ _ _ (drop_owner_turn ip0))|]. intros _ s' (_ & -> & _).
    apply well_typed_omap; [apply drop_owner_fits|done].
  - eapply wp_mono; [by apply (sweep_wp _ _ _ _ destroy_turn)|]. intros _ s' (_ & -> & _). by apply well_typed_omap.
Qed.

(** ** Properties *)

(** C20. Types.  From [file_table_init] on, through any sequence of table operations on
    entries that fit their types, and whatever the allocator answers, every entry of the
    table has a name that fits its buffer with the final zero, a 64-bit time, a 16-bit type
    and owners with 32-bit addresses and 16-bit ports; so every entry with at most 16 owners
    can be announced under any operation and is read back from its 272 bytes as it was. *)
Theorem table_typed ops c :
  Forall op_typed ops →
  wp (for_each ops (λ o _, run_op o) tt)
     (λ _ s', well_typed (view s') ∧
        ∀ n e op, view s' !! n = Some e → (length (fe_owners e) ≤ MAX_PEER_ENTRIES)%nat →
          storable (announce op e) ∧ length (enc (announce op e)) = 272%nat ∧ dec (enc (announce op e)) = announce op e) (fresh c).
Proof.
  intros Hops. eapply wp_mono.
  { apply (wp_for_each _ (λ _ _ s, wf s ∧ well_typed (view s)) ops []).
    - split; [apply fresh_wf|]. intros n e. by rw fresh_view lookup_empty.
    - intros pre o post [] s Heq [Hwf Hv]. simpl in Heq. subst. apply Forall_app in Hops as [_ [Ho _]%Forall_cons].
      pose proof (run_op_wf o s Hwf (op_typed_wf o Ho)) as H1. pose proof (run_op_typed o s Hwf Ho Hv) as H2.
      rw /wp in H1, H2 |- *. destruct (run_op o s) as [[? ?]|]; [|done]. by destruct H1. }
  intros [] s' [_ Hv]. split; [done|]. intros n e op He Hlen. destruct (Hv n e He) as [H1 H2].
  pose proof (announce_storable op e H1 H2 Hlen) as Hst. split; [done|]. split; [exact (length_enc (announce op e) Hst)|exact (dec_enc (announce op e) Hst)].
Qed.

(** ** Witness *)
Lemma table_typed_witness :
  wp (for_each [OpAdd (sample_te 5 owner1); OpUpdate (sample_te 6 owner2); OpDropOwner (ip owner1)] (λ o _, run_op o) tt)
     (λ _ s', well_typed (view s')) (fresh [true; true; false]).
Proof.
  eapply wp_mono; [apply (table_typed [OpAdd (sample_te 5 owner1); OpUpdate (sample_te 6 owner2); OpDropOwner (ip owner1)])|by intros _ s' [H _]].
  assert (Hst : ∀ ts o, is_u64 ts → storable o → te_wf (sample_te ts o) ∧ storable (sample_te ts o)).
  { intros ts o Hts Ho. split; [by split|]. split_and!; try done; cbn [te_owners sample_te].
    - by split; [repeat constructor|apply Nat.ltb_lt].
    - apply Forall_cons_2; [done|]. by apply Forall_replicate. }
  repeat apply Forall_cons_2; [by apply Hst|by apply Hst|done|constructor].
Defined.
