(* ===== verification/Agreement.v ===== *)
(** * Agreement: the machines end up with the same files

    [follows] relates the processes of [System], with the bytes between them, to the
    abstract protocol of [Versions]; every step of the one is some steps of the other
    ([step_simulated]), so that what holds there of all reachable states holds here. *)
From S2P Require Import Prelude Hash TransTable FileTable Replica Segment Wire Packet PeerTable Tracker Client Sync Monitor Scan Events Peer Join Versions Converge System.

(** Deployments whose names, addresses and tables fit the packets. *)
Class Sendable (F : gset (list Z)) (P : gset Z) : Prop := {
  names_ok : ∀ n, n ∈ F → name_ok MAX_NAME_LEN n;
  ips_ok : ∀ x, x ∈ P → is_u32 x;
  files_fit : Z.of_nat (size F) ≤ MAX_SENT_ENTRIES
}.

Section system.
Context (F : gset (list Z)) (P : gset Z) {D : Deployment F P} {S : Sendable F P}.

Lemma kept_storable op v n e : kept F P v → all_fit v → v !! n = Some e → storable (announce op e).
Proof.
  intros Hv Hfit He. destruct (Hv _ _ He) as (_ & [Hn Hp] & Ho).
  apply announce_storable; [by apply names_ok|by eapply Hfit|].
  pose proof (few_peers (F:=F) (P:=P)) as HP. rw -(length_fmap ip). transitivity (size P); [|done].
  apply NoDup_length_size; [done|]. intros x (p & -> & Hx)%list_elem_of_fmap. by apply Hp.
Qed.

Lemma news_storable l v :
  (∀ te, te ∈ l → known F P te) → Forall storable l → kept F P v → all_fit v → known_modifications l v →
  Forall storable (update_news_all l v).
Proof.
  intros Hl Hst Hv Hfit. rw Forall_forall in Hst. apply (news_forall storable (λ w, kept F P w ∧ all_fit w)); [|done].
  intros te w Hte [Hw Hwf]. split; [|split; [by apply Hst|]].
  - split; [by apply (kept_update F P); [apply Hl|]|]. by apply (all_fit_updates [te]); [apply Forall_singleton, Hst|].
  - intros op e. apply kept_storable; [by apply (kept_learn F P); [apply Hl|]|by apply all_fit_learn; [apply Hst|]].
Qed.

Lemma news_length l v : (length (update_news_all l v) ≤ length l)%nat.
Proof.
  revert v. induction l as [|te l IH]; intros v; [done|]. cbn [update_news_all]. rw length_app. specialize (IH (apply_update te v)).
  destruct (update_news te v); simpl; lia.
Qed.

Lemma fresh_news_ok l : ∀ v,
  (∀ te, te ∈ l → known F P te) → Forall storable l →
  Forall (known F P) (news_all l v) ∧ Forall storable (news_all l v) ∧ (length (news_all l v) ≤ length l)%nat.
Proof.
  induction l as [|te l IH]; intros v Hk Hs; [by split_and!; [apply Forall_nil_2..|]|]. apply Forall_cons in Hs as [Hte Hs].
  destruct (IH (learn te v)) as (H1 & H2 & H3); [intros x Hx; apply Hk; by right|done|]. cbn [news_all]. rw !Forall_app length_app.
  assert (Hnew : ∀ op, let l := [set_op_type op te] in Forall (known F P) l ∧ Forall storable l).
  { intros op. split; apply Forall_singleton; [by apply known_set_op, Hk; left|by apply storable_op]. }
  rw /news. destruct (v !! te_name te) as [e|]; [destruct (_ <? _)|]; simpl; [| |].
  - destruct (Hnew FILE_MODIFY). split_and!; [done..|lia].
  - split_and!; [apply Forall_nil_2|done|apply Forall_nil_2|done|lia].
  - destruct (Hnew FILE_ADD). split_and!; [done..|lia].
Qed.

(** ** Lemmas: what is in flight *)

(** A table as a packet that carries [us]. *)
Record carried (bytes_of : trans_file_table → list Z) (t : trans_file_table) (us : list update) : Prop := {
  ca_known : known_table F P t;
  ca_storable : table_storable t;
  ca_few : tft_n t ≤ MAX_SENT_ENTRIES;
  ca_clean : clean (bytes_of t);
  ca_updates : updates (tft_entries t) = us
}.
Definition in_flight (bytes_of : trans_file_table → list Z) (bytes : list Z) (l : list (list update)) : Prop :=
  ∃ ts, bytes = concat ((λ t, frame (bytes_of t)) <$> ts) ∧ Forall2 (carried bytes_of) ts l.

Definition request_bytes (my_ip : Z) (t : trans_file_table) : list Z := ptot_bytes (table_request my_ip PEER_FILE_UPDATE t).
Definition broadcast_bytes (t : trans_file_table) : list Z := ttop_bytes (ttop_table_packet TRACKER_BROADCAST t).

Lemma in_flight_nil f : in_flight f [] [].
Proof. by exists []. Qed.
Lemma in_flight_snoc f bytes l t us : in_flight f bytes l → carried f t us → in_flight f (bytes ++ frame (f t)) (l ++ [us]).
Proof.
  intros (ts & -> & Hts) Ht. exists (ts ++ [t]). rw fmap_app concat_app /= app_nil_r. split; [done|].
  apply Forall2_app; [done|]. by apply Forall2_cons.
Qed.
Lemma in_flight_cons f bytes l :
  in_flight f bytes l → bytes ≠ [] →
  ∃ t us l' rest, l = us :: l' ∧ bytes = frame (f t) ++ rest ∧ carried f t us ∧ in_flight f rest l'.
Proof.
  intros (ts & -> & Hts) Hne. destruct Hts as [|t us ts l Ht Hts]; [done|]. eexists t, us, l, _. split; [done|]. split; [done|].
  split; [done|]. by exists ts.
Qed.
Lemma in_flight_empty f l : in_flight f [] l → l = [].
Proof. intros (ts & E & Hts). by destruct Hts. Qed.

Lemma wp_ok {T A} (m : M T A) Q s a s' : wp m Q s → m s = Ok (a, s') → Q a s'.
Proof. rw /wp. by intros H E; rw E in H. Qed.

(** The table that carries a list of entries. *)
Definition table_of (l : list trans_file_entry) : trans_file_table := TransTable (Z.of_nat (length l)) l.
Lemma table_carried f l :
  Forall (known F P) l → Forall storable l → Z.of_nat (length l) ≤ MAX_SENT_ENTRIES → clean (f (table_of l)) →
  carried f (table_of l) (updates l).
Proof.
  intros Hk Hs Hl Hc. split; try done. split; [split; [done|]|by apply Forall_forall].
  rw /MAX_SENT_ENTRIES in Hl. rw /MAX_FILE_ENTRIES /=. lia.
Qed.

Lemma clip_carried f t us : carried f t us →
  known_table F P (clip t) ∧ Forall storable (tft_entries (clip t)) ∧ updates (tft_entries (clip t)) = us ∧
  Z.of_nat (length (tft_entries (clip t))) ≤ MAX_SENT_ENTRIES.
Proof.
  intros [Hk [Hp Hs] Hf _ Hu]. split; [by apply (clip_known F P)|]. split; [by apply Forall_alter_all; [apply storable_clip_entry|]|].
  split; [by rw /= updates_clip|]. by rw /= length_alter -Hp.
Qed.

(** ** The relation *)
Section machines.
Context `{KernelLaws K} (stat : list Z → option Z).
Notation St := (system K).

Record machine_ok (p : peer K) (m : member) : Prop := {
  mf_table : bounded F P (cl_ft (pr_cl p));
  mf_oom : no_oom (cl_ft (pr_cl p));
  mf_calloc : cl_calloc (pr_cl p) = [];
  mf_typed : all_typed (view (cl_ft (pr_cl p)));
  mf_ip : cl_ip (pr_cl p) ∈ P;
  mf_answers : oc_answers (cl_conn (pr_cl p)) = [];
  mf_known : versions (view (cl_ft (pr_cl p))) = mb_known m;
  mf_out : in_flight (request_bytes (cl_ip (pr_cl p))) (sent p) (mb_out m)
}.
(** The connection of a machine, at the tracker. *)
Definition link_ok (st : tracker) (c : Z) (m : member) : Prop :=
  c ∈ pe_conn <$> peers (tk_pt st) ∧
  ∃ o, tk_conns st !! c = Some o ∧ in_flight broadcast_bytes (oc_sent o) (mb_in m).
Record tracker_ok (st : tracker) (vs : vmap) : Prop := {
  tf_ok : tk_ok F P st;
  tf_calm : calm st;
  tf_fit : all_fit (view (tk_ft st));
  tf_known : versions (view (tk_ft st)) = vs;
  tf_peers : NoDup (pe_conn <$> peers (tk_pt st))
}.
Definition follows (s : St) (n : net) : Prop :=
  tracker_ok (sy_tracker s) (nt_known n) ∧
  ∀ c, option_Forall2 (λ p m, machine_ok p m ∧ link_ok (sy_tracker s) c m) (sy_machines s !! c) (nt_members n !! c).

Lemma follows_machine s n c p :
  follows s n → sy_machines s !! c = Some p →
  ∃ m, nt_members n !! c = Some m ∧ machine_ok p m ∧ link_ok (sy_tracker s) c m.
Proof. intros [_ Hs] Hp. specialize (Hs c). rw Hp in Hs. inversion Hs as [? m [? ?]|]. by exists m. Qed.

Lemma keyed_kept v : kept F P v → keyed v.
Proof. intros Hv n e He. by destruct (Hv n e He). Qed.

(** ** Lemmas: the steps of a machine *)

(** A packet of the tracker is followed. *)
Lemma follow_run p m pkt0 bytes :
  machine_ok p m → in_flight broadcast_bytes bytes (mb_in m) → bytes ≠ [] →
  ∃ us into rest, mb_in m = us :: into ∧ in_flight broadcast_bytes rest into ∧
    wp (on_client (ttop_receiver_turn pkt0 bytes)) (λ x p', (∃ pkt, x = Some (pkt, rest)) ∧
       machine_ok p' (Member (vapply_all us (mb_known m)) (mb_out m) into)) p.
Proof.
  intros Hm Hin Hne. destruct (in_flight_cons _ _ _ Hin Hne) as (t & us & into & rest & Ein & Ebytes & Ht & Hrest).
  exists us, into, rest. split; [done|]. split; [done|].
  destruct (clip_carried _ _ _ Ht) as (Hck & Hcs & Hcu & _). destruct Ht as [Hk Hs Hf Hc _]. destruct Hm as [? ? ? ? ? ? Hv ?].
  apply wp_zoom. rw Ebytes. eapply wp_mono; [by apply (follow_broadcast F P)|].
  intros y cl (Hy & ft' & d & r & -> & Hb' & Hoom' & Hview). split; [done|]. split; try done; cbn [pr_cl cl_ft moved cl_set_files cl_set_ft mb_known].
  - rw Hview. by apply all_typed_client; [apply all_storable_typed|].
  - rw Hview versions_client_apply_all Hcu Hv //.
Qed.

(** Something is sent to the tracker, and nothing else changes for the others. *)
Lemma machine_sends p p' m v us t :
  machine_ok p m → bounded F P (cl_ft (pr_cl p')) → no_oom (cl_ft (pr_cl p')) → cl_calloc (pr_cl p') = [] →
  all_typed (view (cl_ft (pr_cl p'))) → cl_ip (pr_cl p') = cl_ip (pr_cl p) → oc_answers (cl_conn (pr_cl p')) = [] →
  versions (view (cl_ft (pr_cl p'))) = v → sent p' = sent p ++ frame (request_bytes (cl_ip (pr_cl p)) t) →
  carried (request_bytes (cl_ip (pr_cl p))) t us →
  machine_ok p' (Member v (mb_out m ++ [us]) (mb_in m)).
Proof.
  intros Hm ???? Eip ? Hv Hsent Ht. destruct Hm. split; try done; [by rw Eip|]. rw Eip Hsent. by apply in_flight_snoc.
Qed.

(** A download is announced. *)
Lemma announce_ok p m fe e r p' :
  machine_ok p m → entry_at (cl_ft (pr_cl p)) (fe_name e) fe e →
  on_client (Client.ptop_download_task true true 0 (Some fe)) p = Ok (r, p') → clean_since (sent p) (sent p') →
  mb_known m !! fe_name e = Some (fe_timestamp e) ∧
  machine_ok p' (Member (mb_known m) (mb_out m ++ [[Put false (fe_name e) (fe_timestamp e)]]) (mb_in m)).
Proof.
  intros Hm Hat Hrun Hclean. pose proof Hat as (_ & He & _). pose proof Hm as [Hb ? Hcc Hfit Hip Hans Hv _].
  pose proof (view_at F P _ _ _ _ Hb Hat) as Hview.
  assert (Hn : mb_known m !! fe_name e = Some (fe_timestamp e)) by by rw -Hv versions_lookup Hview.
  split; [done|]. set (l := [owned_by_me (cl_ip (pr_cl p)) e]).
  assert (H1 : wp (on_client (Client.ptop_download_task true true 0 (Some fe))) (λ _ p',
    p' = set_sent (sent p ++ frame (request_bytes (cl_ip (pr_cl p)) (table_of l))) p) p).
  { apply wp_zoom, wp_bind, wp_on_cl_read. eapply wp_fe_deref; [exact He|]. split; [done|]. cbn [negb].
    apply wp_bind. eapply wp_mono; [by apply notify_wp|]. intros ? cl ->. apply wp_ret. by rw /set_sent Hans. }
  pose proof (wp_ok _ _ _ _ _ H1 Hrun) as ->.
  destruct (bd_known _ _ _ Hb _ _ Hview) as [HF _]. destruct (Hfit _ _ Hview) as [Ht Hty].
  assert (Hst : storable (owned_by_me (cl_ip (pr_cl p)) e)).
  { split; [by apply names_ok|]. split; [done|]. split; [done|]. split; [done|]. split; [done|]. split; [done|].
    apply Forall_cons_2; [split; [by apply ips_ok|done]|]. apply Forall_replicate. split; cbn; rw /is_u32 /is_u16; lia. }
  apply (machine_sends p _ m (mb_known m) (updates l) (table_of l)); try done.
  apply table_carried; [| |done|by apply Hclean].
  - apply Forall_singleton. split; [split; [done|cbn; rw /MAX_PEER_ENTRIES; lia]|]. split; [done|].
    by intros q ->%list_elem_of_singleton.
  - by apply Forall_singleton.
Qed.

(** What the events of a batch announce. *)
Lemma observed_entries my_ip evs : ∀ w tes w',
  observe stat my_ip w evs = Some (tes, w') →
  Forall (λ te, te = set_te_name (te_name te) zero_entry ∨
    ∃ ts op type, te = own_entry my_ip (te_name te) ts op type ∧ is_u64 ts) tes.
Proof.
  induction evs as [|ev evs IH]; intros w tes w'; [by intros [= <- <-]|]. cbn [observe].
  destruct (observe_one stat my_ip w ev) as [[te w1]|] eqn:E1; [|done]. cbn [mbind option_bind].
  destruct (observe stat my_ip w1 evs) as [[tes1 w2]|] eqn:E2; [|done]. intros [= <- <-]. apply Forall_app.
  split; [|by eapply IH]. clear IH E2. rw /observe_one in E1. destruct (wt_dirs w !! ev_wd ev) as [dir|].
  2: { case_decide; [|done]. injection E1 as <- <-. apply Forall_nil_2. }
  destruct (observed_names ev dir) as [[sys logic]|]; [|done]. cbn [mbind option_bind] in E1.
  destruct (tricky_string sys); [injection E1 as <- <-; apply Forall_singleton; by left|].
  destruct (op_of_mask (ev_mask ev)) as [[op self]|]; [|done]. cbn [mbind option_bind] in E1.
  set (type := if _ || _ then _ else _) in E1.
  destruct (observed_time stat op sys) as [ts|] eqn:Et; [|done]. cbn [mbind option_bind] in E1.
  destruct (observed_watches w ev op self type sys logic) as [w2'|]; [|done]. injection E1 as <- <-.
  apply Forall_singleton. right. exists ts, op, type. split; [done|]. rw /observed_time in Et.
  destruct op; try (destruct (stat sys); [|done]; injection Et as <-; apply u64_range). injection Et as <-. rw /is_u64. lia.
Qed.

Lemma observed_ok my_ip w evs tes w' :
  observe stat my_ip w evs = Some (tes, w') → my_ip ∈ P → Forall (λ te, te_name te ∈ F) tes →
  Forall (known F P) tes ∧ Forall storable tes.
Proof.
  intros Hobs%observed_entries Hip HF.
  assert (Hzeros : ∀ k, Forall storable (replicate k (PeerId 0 0))).
  { intros k. apply Forall_replicate. split; cbn; rw /is_u32 /is_u16; lia. }
  assert (H1 : Forall (λ te, known F P te ∧ storable te) tes).
  { eapply Forall_impl; [by apply Forall_and; split; [exact HF|exact Hobs]|]. cbn beta.
    intros te [Hn [->|(ts & op & type & -> & Hts)]].
    - split; [split; [by split|]; split; [done|by intros p []%elem_of_nil]|].
      split; [by apply names_ok|]. split_and!; try done; apply Hzeros.
    - split; [by apply (own_entry_known (F:=F) (P:=P))|]. split; [by apply names_ok|]. split; [done|].
      split; [by destruct op|]. split; [by destruct type|]. split; [done|]. split; [done|].
      apply Forall_cons_2; [split; [by apply ips_ok|done]|exact (Hzeros 15%nat)]. }
  by apply Forall_and in H1.
Qed.

(** The monitor announces changes. *)
Lemma change_ok p m w rs old tes w' old' p' :
  machine_ok p m → Forall raw_ok rs → Z.of_nat (length (raws_bytes rs)) ≤ EVENT_BUF_LEN →
  targets_good w (pr_targets p) →
  observe stat (cl_ip (pr_cl p)) w (all_read rs (drop (length (raws_bytes rs)) old)) = Some (tes, w') →
  no_deletions F tes (view (cl_ft (pr_cl p))) →
  on_monitor (monitor_turn stat old (Some (raws_bytes rs))) p = Ok (old', p') → clean_since (sent p) (sent p') →
  knows (updates tes) (mb_known m) ∧ Forall is_put (updates tes) ∧
  machine_ok p' (Member (vapply_all (updates tes) (mb_known m)) (mb_out m ++ [updates tes]) (mb_in m)).
Proof.
  intros Hm Hraw Hlen Hw Hobs (Hfew & HF & Hmod) Hrun Hclean. pose proof Hm as [Hb Hoom Hcc Hfit Hip Hans Hv _].
  apply Forall_and in HF as [HF Hdel]. destruct (observed_ok _ _ _ _ _ Hobs Hip HF) as [Hk Hs].
  assert (Hkn : knows (updates tes) (mb_known m)) by by rw -Hv knows_updates.
  split; [done|]. split.
  { rw Forall_forall in Hdel. apply Forall_forall. intros u (te & Hte & Hu)%list_elem_of_omap. specialize (Hdel te Hte).
    rw /update_of in Hu. destruct (op_of _) as [[]|]; by simplify_eq. }
  assert (H1 : wp (on_monitor (monitor_turn stat old (Some (raws_bytes rs)))) (λ _ p', ∃ ft, 
    bounded F P ft ∧ no_oom ft ∧ view ft = local_apply_all tes (view (cl_ft (pr_cl p))) ∧
    pr_cl p' = cl_set_conn (OutConn (sent p ++ frame (request_bytes (cl_ip (pr_cl p)) (table_of tes))) []) (cl_set_ft ft (pr_cl p))) p).
  { pose proof (all_read_in rs [] (drop (length (raws_bytes rs)) old) Hraw) as Hin.
    apply wp_zoom. eapply wp_mono; [apply (monitor_turn_run (F:=F) (P:=P) stat w (mon_of p) old (raws_bytes rs) _ tes w' Hin); try done|].
    - by rw Forall_forall in HF.
    - intros ? t (_ & [_ Hb' Ho'] & Hview & _ & Hconn). exists (mn_ft t). split_and!; [done..|]. by rw /= Hconn. }
  destruct (wp_ok _ _ _ _ _ H1 Hrun) as (ft & Hb' & Ho' & Hview & Ep).
  apply (machine_sends p _ m _ (updates tes) (table_of tes)); rw /sent ?Ep; try done; cbn [cl_ft cl_set_conn cl_set_ft].
  - rw Hview. by apply all_typed_local; [apply all_storable_typed|].
  - rw Hview -Hv -versions_apply_updates. by apply versions_local.
  - apply table_carried; try done. apply Hclean. by rw /sent Ep.
Qed.

(** ** Lemmas: the steps of the tracker *)
Lemma receive_and_run_wp now tid c pktt input task pkt later st (Q : option (ptot_packet * list Z) → tracker → Prop) :
  receiver_turn tid c pktt input st = Ok (Some (pkt, later), set_threads (tk_receivers st) (tk_tasks st ++ [task]) st) →
  wp (run_task now task) (λ _ st', Q (Some (pkt, later)) st') st → wp (receive_and_run now tid c pktt input) Q st.
Proof.
  intros Hrun HQ. rw /receive_and_run. apply wp_bind, wp_gets, wp_bind. rw {1}/wp Hrun. apply wp_bind.
  rw /handle. apply wp_bind, wp_gets. cbn [tk_tasks set_threads]. rw lookup_app_r // Nat.sub_diag.
  apply wp_bind, wp_modify. cbn [tk_receivers set_threads].
  rw take_app_length drop_ge; [rw length_app /=; lia|]. rw app_nil_r.
  replace (set_threads _ _ _) with st by by destruct st. eapply wp_mono; [exact HQ|]. intros ? st' HQ'. by apply wp_ret.
Qed.

(** The packets with a table, as the receiver takes them. *)
Lemma table_received type my_ip t tid c pktt later st :
  type = PEER_SYNC ∨ type = PEER_FILE_UPDATE →
  is_u32 my_ip → table_storable t → tft_n t ≤ MAX_SENT_ENTRIES → clean (ptot_bytes (table_request my_ip type t)) →
  tk_calloc st = [] →
  ∃ pkt, receiver_turn tid c pktt (frame (ptot_bytes (table_request my_ip type t)) ++ later) st =
    Ok (Some (pkt, later), set_threads (tk_receivers st)
      (tk_tasks st ++ [if type is PEER_SYNC then SyncTask c (clip t) else FileUpdateTask c (clip t)]) st).
Proof.
  intros Htype Hip Hs Hn Hclean Hcc.
  destruct (request_delivered my_ip type t (OutConn [] []) later pktt)
    as (c' & r & pkt & Hsend & Hr & Hpos & Ht & _ & _ & Htable); [done..|].
  pose proof Hs as [Hp _]. pose proof (fit_u16 _ Hp Hn) as [Hu _].
  rw send_ptot_packet_run // in Hsend. injection Hsend as <-. exists pkt.
  rw (recv_positive _ _ _ _ _ _ _ _ Hr Hpos) {1}/bind /receiver_dispatch Ht -Htable.
  destruct Htype as [-> | ->]; rw /bind /tk_malloc Hcc; cbn [negb]; by rw Hcc.
Qed.

Lemma broadcast_list_lookup news conn l m c :
  NoDup (pe_conn <$> l) → c ∈ pe_conn <$> l →
  broadcast_list news conn l m !! c =
    if decide (c = conn) then m !! c
    else match news with [] => m !! c
         | _ => (λ o, OutConn (oc_sent o ++ frame (broadcast_bytes (table_of news))) []) <$> m !! c end.
Proof.
  intros Hnd Hc. rw /broadcast_list. destruct news as [|te news]; [by case_decide|].
  rw broadcast_to_lookup //. destruct (decide (c = conn)) as [->|Hne]; [by rw decide_False; [intros []|]|by rw decide_True].
Qed.

(** The connections after a broadcast of [news], made when [conn] sent something. *)
Lemma link_told st st' conn news c m :
  NoDup (pe_conn <$> peers (tk_pt st)) → tk_pt st' = tk_pt st →
  tk_conns st' !! c = broadcast_list news conn (peers (tk_pt st)) (tk_conns st) !! c →
  Forall (known F P) news → Forall storable news → Z.of_nat (length news) ≤ MAX_SENT_ENTRIES →
  (updates news = [] → news = []) →
  (∀ x x', tk_conns st !! c = Some x → tk_conns st' !! c = Some x' → clean_since (oc_sent x) (oc_sent x')) →
  link_ok st c m → link_ok st' c (if decide (c = conn) then m else heard (updates news) m).
Proof.
  intros Hnd Ept Econn Hk Hs Hl Hup Hclean (Hpeer & o & Ho & Hin). rw broadcast_list_lookup // Ho in Econn.
  split; [by rw Ept|]. case_decide as Hc; [by exists o|]. destruct news as [|te news]; [by exists o|].
  simpl in Econn. rw Econn. eexists. split; [done|]. cbn [oc_sent]. specialize (Hclean _ _ Ho Econn).
  rw /heard. destruct (updates (te :: news)) as [|u us] eqn:Eu; [by specialize (Hup eq_refl)|]. rw -Eu. cbn [mb_in hear].
  apply in_flight_snoc; [done|]. apply table_carried; [done..|]. by apply Hclean.
Qed.

Lemma update_news_updates l v : updates (update_news_all l v) = [] → update_news_all l v = [].
Proof.
  revert v. induction l as [|te l IH]; intros v; [done|]. cbn [update_news_all]. rw updates_app.
  intros [H1 H2]%app_eq_nil. rw (IH _ H2) app_nil_r. revert H1. rw /update_news.
  destruct (op_of (te_op_type te)) as [[]|] eqn:Hop; [done| | | |done].
  - by destruct (learn te v !! te_name te).
  - destruct (v !! te_name te); [|done]. by rw /updates /= /update_of Hop.
  - by destruct (v !! te_name te).
Qed.
Lemma fresh_news_updates l v : updates (news_all l v) = [] → news_all l v = [].
Proof.
  revert v. induction l as [|te l IH]; intros v; [done|]. cbn [news_all]. rw updates_app.
  intros [H1 H2]%app_eq_nil. rw (IH _ H2) app_nil_r. revert H1. rw /news. destruct (v !! te_name te); [by destruct (_ <? _)|done].
Qed.

(** A request of a machine is handled. *)
Lemma handle_run now tid pktt st vs c p m :
  tracker_ok st vs → machine_ok p m → sent p ≠ [] →
  ∃ t us out pkt rest, mb_out m = us :: out ∧ carried (request_bytes (cl_ip (pr_cl p))) t us ∧
    machine_ok (set_sent rest p) (Member (mb_known m) out (mb_in m)) ∧
    wp (receive_and_run now tid c pktt (sent p)) (λ x st', x = Some (pkt, rest) ∧ tk_ok F P st' ∧ calm st' ∧
      tk_pt st' = tk_pt st ∧ updated_by c (tft_entries (clip t)) st st') st.
Proof.
  intros [Hok Hcalm _ _ _] Hm Hne. pose proof Hm as [? ? ? ? Hip ? ? Hout].
  destruct (in_flight_cons _ _ _ Hout Hne) as (t & us & out & rest & Eout & Ebytes & Ht & Hrest).
  pose proof Ht as [Hk Hs Hf Hc _].
  destruct (table_received PEER_FILE_UPDATE (cl_ip (pr_cl p)) t tid c pktt rest st) as (pkt & Hturn); try done;
    [by right|by apply ips_ok|apply Hcalm|]. rw -Ebytes in Hturn.
  exists t, us, out, pkt, rest. split; [done|]. split; [done|]. split; [by destruct Hm|].
  eapply receive_and_run_wp; [exact Hturn|]. apply wp_bind.
  eapply wp_mono; [by apply (file_update_task_wp F P); [|apply (clip_known F P)]|].
  intros r st1 (Hok1 & Hsame & _ & Hup). apply wp_ret. destruct (Hup Hcalm). split_and!; try done. apply Hsame.
Qed.

Lemma handled_ok now tid pktt st vs c p m x st' :
  tracker_ok st vs → machine_ok p m → sent p ≠ [] →
  knows (concat (mb_out m)) vs → receive_and_run now tid c pktt (sent p) st = Ok (x, st') →
  (∀ k x x', tk_conns st !! k = Some x → tk_conns st' !! k = Some x' → clean_since (oc_sent x) (oc_sent x')) →
  ∃ us out pkt rest, mb_out m = us :: out ∧ x = Some (pkt, rest) ∧ tracker_ok st' (vapply_all us vs) ∧
    machine_ok (set_sent rest p) (Member (mb_known m) out (mb_in m)) ∧
    ∀ c' m', link_ok st c' m' → link_ok st' c' (if decide (c' = c) then m' else heard (tidings_all us vs) m').
Proof.
  intros Htk Hm Hne Hknows Hrun Hclean. pose proof Htk as [Hok Hcalm Hfit Hvs Hnd].
  destruct (handle_run now tid pktt st vs c p m Htk Hm Hne) as (t & us & out & pkt & rest & Eout & Ht & Hm' & Hwp).
  destruct (clip_carried _ _ _ Ht) as (Hck & Hcs & Hcu & Hcl).
  rw Eout in Hknows. apply knows_app in Hknows as [Hknows _]. rw -Hcu -Hvs knows_updates in Hknows.
  pose proof (kept_bounded F P _ (ok_ft _ _ _ Hok)) as Hkept.
  set (l := tft_entries (clip t)) in *. set (news := update_news_all l (view (tk_ft st))).
  destruct (wp_ok _ _ _ _ _ Hwp Hrun) as (-> & Hok' & Hcalm' & Hpt & Hview & Hconns).
  exists us, out, pkt, rest. split; [done|]. split; [done|]. split; [|split; [done|]].
  - split; [done|done|rw Hview; by apply all_fit_updates| |by rw Hpt]. by rw Hview versions_apply_updates Hcu Hvs.
  - intros c' m1 Hl'. pose proof (tidings_updates l (view (tk_ft st)) (keyed_kept _ Hkept)) as Et. rw Hcu Hvs in Et. rw -Et.
    eapply link_told; try done; [by rw Hconns| | | |apply update_news_updates|by apply Hclean].
    + apply (news_known F P); [|done|done]. by apply Hck.
    + by apply news_storable; [apply Hck| | | |].
    + pose proof (news_length l (view (tk_ft st))). lia.
Qed.

(** Reading from a connection. *)
Lemma link_unread st c c' rest m : c' ≠ c → link_ok st c' m → link_ok (set_unread c rest st) c' m.
Proof. intros Hne (Hp & o & Ho & Hin). split; [done|]. exists o. split; [|done]. by rw /= lookup_alter_ne. Qed.
Lemma link_read st c o rest m :
  c ∈ pe_conn <$> peers (tk_pt st) → tk_conns st !! c = Some o → in_flight broadcast_bytes rest (mb_in m) →
  link_ok (set_unread c rest st) c m.
Proof. intros Hp Ho Hin. split; [done|]. eexists. split; [by rw /= lookup_alter_eq Ho|done]. Qed.
Lemma tracker_unread st vs c rest : tracker_ok st vs → tracker_ok (set_unread c rest st) vs.
Proof.
  intros [[] (Hoom & Hc & Hq) Hfit Hvs Hnd]. split; try done. split; [done|]. split; [done|].
  intros k o. cbn [tk_conns set_unread set_conns]. rw lookup_alter. case_decide as E; [subst k|by apply Hq].
  destruct (tk_conns st !! c) as [o1|] eqn:E1; [|done]. intros [= <-]. by apply (Hq c o1).
Qed.

(** A connection is accepted and its machine registers. *)
Lemma connect_ok st vs c tid now peer st' :
  tracker_ok st vs → c ∉ pe_conn <$> peers (tk_pt st) →
  (accept_conn tid c ;;; peer_register_handler_task now c peer tid) st = Ok (0, st') →
  tracker_ok (set_unread c [] st') vs ∧ ∀ c' m, link_ok st c' m → link_ok (set_unread c [] st') c' m.
Proof.
  intros [[Hf Hp Ht] (Hoom & Hc & Hq) Hfit Hvs Hnd] Hc0 Hrun.
  assert (H1 : wp (accept_conn tid c ;;; peer_register_handler_task now c peer tid) (λ r st', r = 0 →
    tracker_ok st' vs ∧ peers (tk_pt st') = PeerEntry c now peer tid :: peers (tk_pt st) ∧
    ∀ c', c' ≠ c → tk_conns st' !! c' = tk_conns st !! c') st).
  { apply wp_bind, wp_modify. set (s1 := set_threads _ _ _). eapply wp_mono; [by apply (register_wp F P)|].
    intros r s2 (Hok & Eft & _ & Ecc & Hcase & Hd) ->. destruct Hcase as [(_ & Ep & _)|[? _]]; [|done].
    assert (Hq1 : Tracker.quiet (tk_conns s1)).
    { intros k o. cbn [tk_conns s1 set_threads set_conns]. rw lookup_insert. case_decide; [by intros [= <-]|apply Hq]. }
    destruct (Hd Hq1) as [Ed _]. split; [|split; [done|]].
    - split; rw ?Eft ?Ep; [done| |done|done|by constructor].
      split; [by rw Eft|]. split; [by rw Ecc|]. rw Ed. by apply deliver_quiet.
    - intros c' Hne. rw Ed /deliver lookup_alter_ne // /= lookup_insert_ne //. }
  destruct (wp_ok _ _ _ _ _ H1 Hrun eq_refl) as (Hok & Ep & Econns). split; [by apply tracker_unread|].
  intros c' m (Hp' & o & Ho & Hin). assert (Hne : c' ≠ c) by by intros ->. apply link_unread; [done|].
  split; [rw Ep; by right|]. exists o. by rw Econns.
Qed.

(** ** Lemmas: a synchronisation *)
Lemma entries_size s : bounded F P s → Z.of_nat (length (entries s)) ≤ MAX_SENT_ENTRIES.
Proof.
  intros Hb. pose proof (bd_wf _ _ _ Hb) as Hwf. pose proof (files_fit (F:=F) (P:=P)) as HF.
  enough (length (fe_name <$> entries s) ≤ size F)%nat as H1 by (rw length_fmap in H1; lia).
  apply NoDup_length_size; [by apply entries_names_nodup|].
  intros n (e & -> & (i & Hi & He)%elem_of_entries)%list_elem_of_fmap.
  apply (bd_known _ _ _ Hb (fe_name e)). apply view_lookup; [done|]. by exists i.
Qed.

Lemma elem_of_view s e : wf s → e ∈ entries s ↔ view s !! fe_name e = Some e.
Proof.
  intros Hwf. rw elem_of_entries view_lookup //. split; [intros (i & ? & ?)|intros (i & ? & ? & _)]; by exists i.
Qed.

(** The table that is sent, as versions. *)
Lemma find_exported s n : wf s → find_name n (export <$> entries s) = export <$> view s !! n.
Proof.
  intros Hwf. rw export_omap find_name_entries; [done|by intros e te [= <-]|]. by destruct (view s !! n).
Qed.
Lemma versions_exported s : wf s → vapply_all (puts (tft_entries (clip (exported s)))) ∅ = versions (view s).
Proof.
  intros Hwf. assert (E : puts (tft_entries (clip (exported s))) = puts (export <$> entries s)).
  { rw /puts /=. apply list_eq. intros i. rw !list_lookup_fmap list_lookup_alter. case_decide as Hi; [|by rw list_lookup_fmap].
    subst i. rw list_lookup_fmap. by destruct (entries s !! _). }
  transitivity (versions (learn_all (export <$> entries s) ∅)); [by rw E versions_learn_all /versions fmap_empty|]. apply map_eq. intros n. rw !versions_lookup learn_all_lookup.
  { rw export_omap. apply omap_names_nodup; [by intros e te [= <-]|by apply entries_names_nodup]. }
  rw find_exported // lookup_empty. by destruct (view s !! n).
Qed.
Lemma clip_exported_elem s te :
  wf s → te ∈ tft_entries (clip (exported s)) → versions (view s) !! te_name te = Some (te_timestamp te).
Proof.
  intros Hwf [i Hi]%list_elem_of_lookup. cbn [clip tft_entries exported] in Hi. rw list_lookup_alter in Hi.
  assert (∃ te', (export <$> entries s) !! i = Some te' ∧ te_name te' = te_name te ∧ te_timestamp te' = te_timestamp te)
    as (te' & Hi' & <- & <-).
  { case_decide as Hi0; [subst i|exists te; by split_and!]. apply fmap_Some in Hi as (te1 & Hi & ->). exists te1. by split_and!. }
  rw list_lookup_fmap in Hi'. apply fmap_Some in Hi' as (e & He%list_elem_of_lookup_2 & ->).
  apply elem_of_view in He; [|done]. by rw versions_lookup /= He.
Qed.

(** The reply has what [reply_ok] asks for. *)
Lemma reply_entry_put l te s : te ∈ tft_entries (reply_table l s) →
  ∃ create e, e ∈ entries s ∧ te = announce (if create : bool then FILE_ADD else FILE_MODIFY) e ∧
    update_of te = Some (Put create (te_name te) (te_timestamp te)).
Proof.
  intros (e & He & Hr)%list_elem_of_omap. rw /reply_for in Hr. destruct (find_name _ l) as [te'|].
  - case_decide; [|done]. injection Hr as <-. by exists false, e.
  - injection Hr as <-. by exists true, e.
Qed.
Lemma reply_table_ok s sc :
  wf s → wf sc → let l := tft_entries (clip (exported sc)) in
  reply_ok (versions (view sc)) (versions (view s)) (updates (tft_entries (reply_table l s))).
Proof.
  intros Hwf Hwc l. split.
  - intros u (te & (cr & e & He & -> & Hu)%reply_entry_put & E)%list_elem_of_omap. rw Hu in E. injection E as <-.
    apply elem_of_view in He; [|done]. eexists _, _, _. split; [done|]. by rw versions_lookup /= He.
  - intros n t Hn Hold. rw versions_lookup in Hn. apply fmap_Some in Hn as (e & He & ->).
    assert (fe_name e = n) as <- by by apply view_lookup in He as (i & _ & _ & ?).
    apply elem_of_view in He; [|done].
    assert (∃ cr, reply_for l e = Some (announce (if cr : bool then FILE_ADD else FILE_MODIFY) e)) as [cr Hr].
    { rw /reply_for. destruct (find_name (fe_name e) l) as [te|] eqn:E; [|by exists true].
      apply find_name_Some in E as [Hte Hten]. apply clip_exported_elem in Hte; [|done]. rw Hten in Hte.
      rw decide_True; [left; by apply Hold|]. by exists false. }
    exists cr. apply list_elem_of_omap. exists (announce (if cr then FILE_ADD else FILE_MODIFY) e).
    split; [by apply list_elem_of_omap; exists e|]. by destruct cr.
Qed.

Lemma exported_ok s : bounded F P s → all_fit (view s) →
  known_table F P (exported s) ∧ table_storable (exported s) ∧ tft_n (exported s) ≤ MAX_SENT_ENTRIES.
Proof.
  intros Hb Hfit. pose proof (bd_wf _ _ _ Hb) as Hwf. pose proof (exported_small F P s Hb) as Hsmall.
  split; [by eapply (exported_known F P)|]. split; [|by apply entries_size].
  split; [apply Hsmall|]. apply Forall_forall. intros te (e & -> & He)%list_elem_of_fmap.
  apply elem_of_view in He; [|done]. by apply (kept_storable FILE_NONE _ _ _ (kept_bounded F P _ Hb)) in He.
Qed.
Lemma reply_table_fits l s : bounded F P s → all_fit (view s) →
  table_storable (reply_table l s) ∧ tft_n (reply_table l s) ≤ MAX_SENT_ENTRIES.
Proof.
  intros Hb Hfit. pose proof (bd_wf _ _ _ Hb) as Hwf. pose proof (entries_size s Hb) as Hsize. split; [split; [done|]|].
  - apply Forall_forall. intros te (cr & e & He & -> & _)%reply_entry_put. apply elem_of_view in He; [|done].
    by eapply kept_storable; [apply (kept_bounded F P _ Hb)|done|].
  - rw /reply_table /=. transitivity (Z.of_nat (length (entries s))); [|done].
    enough (length (omap (reply_for l) (entries s)) ≤ length (entries s))%nat by lia. clear Hsize. generalize (entries s).
    induction l0 as [|e k IH]; [done|]. csimpl. destruct (reply_for l e); simpl; lia.
Qed.

(** The tracker's half. *)
Lemma join_tracker_ok st vs c o (p p1 : peer K) y tid now pktt x st' :
  tracker_ok st vs → joining F P p → tk_conns st !! c = Some o → oc_sent o = [] → c ∈ pe_conn <$> peers (tk_pt st) →
  on_client sync_request p = Ok (y, p1) → clean_since [] (sent p1) →
  receive_and_run now tid c pktt (sent p1) st = Ok (x, st') →
  (∀ k x x', k ≠ c → tk_conns st !! k = Some x → tk_conns st' !! k = Some x' → clean_since (oc_sent x) (oc_sent x')) →
  let l := tft_entries (clip (exported (cl_ft (pr_cl p)))) in
  tracker_ok st' (vapply_all (puts l) vs) ∧ tk_pt st' = tk_pt st ∧
  tk_conns st' !! c = Some (OutConn (frame (ttop_bytes (ttop_table_packet TRACKER_SYNC (reply_table l (tk_ft st))))) []) ∧
  ∀ c' m, c' ≠ c → link_ok st c' m → link_ok st' c' (heard (fresh_tidings (puts l) vs) m).
Proof.
  intros [Hok Hcalm Hfit Hvs Hnd] [Hb Hoom Hconn Hip Hpfit] Ho Eo Hc Hreq Hcl Hrun Hclean l.
  destruct (exported_ok _ Hb Hpfit) as (Hk & Hst & Hn). set (t := exported (cl_ft (pr_cl p))) in *.
  assert (Hsent : sent p1 = frame (ptot_bytes (table_request (cl_ip (pr_cl p)) PEER_SYNC t))).
  { destruct (sync_request_run F P (pr_cl p) Hb) as (r & _ & E); [by rw Hconn|done|].
    rw /on_client /zoom E in Hreq. injection Hreq as _ <-. by rw /sent /= Hconn. }
  destruct (table_received PEER_SYNC (cl_ip (pr_cl p)) t tid c pktt [] st) as (pkt & Hturn); try done;
    [by left|by apply ips_ok|by apply Hcl; rw Hsent|apply Hcalm|]. rw app_nil_r -Hsent in Hturn.
  pose proof (clip_known F P _ Hk) as Hck. pose proof Hst as [Hp Hs].
  assert (Hcs : Forall storable l) by by apply Forall_alter_all; [apply storable_clip_entry|].
  assert (Hcl' : Z.of_nat (length l) ≤ MAX_SENT_ENTRIES) by by rw /l /= length_alter -Hp.
  set (news := news_all l (view (tk_ft st))).
  assert (H1 : wp (receive_and_run now tid c pktt (sent p1)) (λ _ st', tk_ok F P st' ∧ calm st' ∧
    tk_pt st' = tk_pt st ∧ synced c l st st') st).
  { eapply receive_and_run_wp; [exact Hturn|]. apply wp_bind. eapply wp_mono; [by apply (sync_task_wp F P)|].
    intros r st1 (Hok1 & Hsame & Hup). apply wp_ret. destruct (Hup Hcalm) as (_ & ? & ?). split_and!; try done. apply Hsame. }
  destruct (wp_ok _ _ _ _ _ H1 Hrun) as (Hok' & Hcalm' & Hpt & Hview & Hconns). split; [|split; [done|split]].
  - split; [done|done|rw Hview; by apply all_fit_learn_all| |by rw Hpt]. by rw Hview versions_learn_all Hvs.
  - rw Hconns broadcast_list_lookup // decide_True // /deliver lookup_alter_eq Ho /= Eo //.
  - intros c' m Hne Hl. destruct (fresh_news_ok l (view (tk_ft st))) as (Hnk & Hns & Hnl); [by apply Hck|done|].
    pose proof (fresh_updates l (view (tk_ft st))) as Ef. rw Hvs in Ef. rw -Ef.
    pose proof (link_told st st' c news c' m) as H2. rw decide_False // in H2. apply H2; try done.
    + pose proof Hl as [Hp' _]. rw Hconns !broadcast_list_lookup // !decide_False // /deliver lookup_alter_ne //.
    + rw /news. lia.
    + apply fresh_news_updates.
    + intros x0 x'. by apply Hclean.
Qed.

(** The machine's half. *)
Lemma join_machine_ok (p : peer K) pkt0 s y p' :
  joining F P p → bounded F P s → all_fit (view s) →
  let l := tft_entries (clip (exported (cl_ft (pr_cl p)))) in
  let reply := reply_table l s in
  clean (ttop_bytes (ttop_table_packet TRACKER_SYNC reply)) →
  on_client (sync_with_tracker pkt0 (frame (ttop_bytes (ttop_table_packet TRACKER_SYNC reply)))) p = Ok (y, p') →
  machine_ok (set_sent [] p') (Member (vapply_all (updates (tft_entries reply)) (vapply_all (puts l) ∅)) [] []).
Proof.
  intros [Hb [Hoom Hcc] Hconn Hip Hpfit] Hbs Hfs l reply Hclean Hrun.
  destruct (exported_ok _ Hb Hpfit) as (Hk & Hst & Hn). destruct (reply_table_fits l s Hbs Hfs) as [Hrs Hrn].
  assert (Hrk : known_table F P reply) by by apply (reply_known F P).
  assert (Hwf : wf (cl_ft (pr_cl p))) by apply (bd_wf _ _ _ Hb).
  assert (H1 : wp (on_client (sync_with_tracker pkt0 (frame (ttop_bytes (ttop_table_packet TRACKER_SYNC reply)))))
    (λ _ p', machine_ok (set_sent [] p') (Member (vapply_all (updates (tft_entries reply)) (vapply_all (puts l) ∅)) [] [])) p).
  { apply wp_zoom. rw -(app_nil_r (frame _)). eapply wp_mono; [apply (follow_reply F P); try done; by rw Hconn|].
    intros ? cl (_ & ft' & d & q & -> & Hb' & Hoom' & Hview).
    split; try done; cbn [pr_cl cl_ft set_sent cl_set_conn moved cl_set_files cl_set_ft mb_known mb_out].
    - rw Hview. apply all_typed_adopt_all; [|by intros n e [? _]%Hpfit].
      apply Forall_alter_all; [done|]. apply all_storable_typed, Hrs.
    - rw Hview (versions_adopt_all _ _ _ _ (last_port_version q _ _)) versions_adopt_puts.
      + apply Forall_forall. intros te (cr & e & _ & -> & Hu)%reply_entry_put. by exists cr.
      + by rw /l versions_exported.
    - apply in_flight_nil. }
  exact (wp_ok _ _ _ _ _ H1 Hrun).
Qed.

(** ** Lemmas: the simulation *)

(** One machine takes a step, and the tracker perhaps with it. *)
Lemma follows_step st st' ms vs vs' ns ns' c p' m' :
  follows (System st ms) (Net vs ns) → tracker_ok st' vs' → machine_ok p' m' → link_ok st' c m' → ns' !! c = Some m' →
  (∀ c', c' ≠ c → option_Forall2 (λ m m', mb_known m' = mb_known m ∧ mb_out m' = mb_out m ∧
     (link_ok st c' m → link_ok st' c' m')) (ns !! c') (ns' !! c')) →
  follows (System st' (<[c := p']> ms)) (Net vs' ns').
Proof.
  intros [_ Hs] Ht Hp' Hl' Hm' Hns. split; [done|]. intros c'. cbn [sy_machines nt_members sy_tracker] in *. rw lookup_insert.
  case_decide as Hc; [subst c'; rw Hm'; by constructor|]. specialize (Hs c'). specialize (Hns c' ltac:(done)).
  inversion Hs as [p m [Hp Hl] E1 E2|E1 E2]; rw -E2 in Hns; inversion Hns as [? m1 (Ek & Eo & Hl1) |]; subst; constructor.
  split; [|by apply Hl1]. destruct Hp. by split; rw ?Ek ?Eo.
Qed.

(** The other machines stay what they were. *)
Lemma others_same st st' (ns : gmap Z member) c m' :
  (∀ c' m, c' ≠ c → link_ok st c' m → link_ok st' c' m) →
  ∀ c', c' ≠ c → option_Forall2 (λ m m', mb_known m' = mb_known m ∧ mb_out m' = mb_out m ∧
     (link_ok st c' m → link_ok st' c' m')) (ns !! c') (<[c := m']> ns !! c').
Proof. intros Hl c' Hc. rw lookup_insert_ne //. destruct (ns !! c'); constructor. split_and!; auto. Qed.
(** The other machines are told something. *)
Lemma others_told st st' (ns : gmap Z member) c us :
  (∀ c' m, c' ≠ c → link_ok st c' m → link_ok st' c' (heard us m)) →
  ∀ c', c' ≠ c → option_Forall2 (λ m m', mb_known m' = mb_known m ∧ mb_out m' = mb_out m ∧
     (link_ok st c' m → link_ok st' c' m')) (ns !! c') (tell us c ns !! c').
Proof.
  intros Hl c' Hc. rw tell_lookup. destruct (ns !! c') as [m|]; simpl; [|constructor]. rw decide_False //. constructor.
  split; [by rw /heard; destruct us|]. split; [by rw /heard; destruct us|auto].
Qed.

Lemma connect_simulated st ms c tid now peer st' n :
  follows (System st ms) n → c ∉ pe_conn <$> peers (tk_pt st) →
  (accept_conn tid c ;;; peer_register_handler_task now c peer tid) st = Ok (0, st') →
  follows (System (set_unread c [] st') ms) n.
Proof.
  intros Hs Hc Hrun. destruct (connect_ok _ _ _ _ _ _ _ (proj1 Hs) Hc Hrun) as [Ht Hl]. split; [done|].
  intros c'. pose proof (proj2 Hs c') as H1. cbn [sy_machines sy_tracker] in *.
  destruct H1 as [p m [Hp Hlm]|]; constructor. split; [done|]. by apply Hl.
Qed.

Lemma own_simulated (st : tracker) (ms : gmap Z (peer K)) vs ns c p p' m m' :
  follows (System st ms) (Net vs ns) → ms !! c = Some p → ns !! c = Some m →
  machine_ok p' m' → mb_in m' = mb_in m → follows (System st (<[c := p']> ms)) (Net vs (<[c := m']> ns)).
Proof.
  intros Hs Hp Hm Hp' Ein. destruct (follows_machine _ _ _ _ Hs Hp) as (m1 & Hm1 & _ & Hl).
  cbn [nt_members sy_tracker] in Hm1, Hl. rw Hm in Hm1. injection Hm1 as <-.
  eapply follows_step; [exact Hs|apply Hs|done| |apply lookup_insert_eq|by apply others_same].
  destruct Hl as (Hc & o & Ho & Hin). split; [done|]. exists o. by rw Ein.
Qed.

Lemma follow_simulated st ms c p o pkt0 pkt rest p' n :
  follows (System st ms) n → ms !! c = Some p → tk_conns st !! c = Some o → oc_sent o ≠ [] →
  on_client (ttop_receiver_turn pkt0 (oc_sent o)) p = Ok (Some (pkt, rest), p') →
  ∃ n', delivery n n' ∧ follows (System (set_unread c rest st) (<[c := p']> ms)) n'.
Proof.
  intros Hs Hp Ho Hne Hrun. destruct (follows_machine _ _ _ _ Hs Hp) as (m & Hmem & Hm & Hl). destruct n as [vs ns].
  pose proof Hl as (Hpe & o' & Ho' & Hin). cbn [sy_tracker] in *. rw Ho in Ho'. injection Ho' as <-.
  destruct (follow_run p m pkt0 _ Hm Hin Hne) as (us & into & rest' & Ein & Hfl & Hwp).
  destruct (wp_ok _ _ _ _ _ Hwp Hrun) as [[pkt' [= <- <-]] Hm'].
  eexists. split; [by eapply DoFollow|].
  eapply follows_step; [exact Hs|by apply tracker_unread; apply Hs|exact Hm'| |apply lookup_insert_eq|].
  - by eapply link_read; [apply Hl| |].
  - apply others_same. intros c' m0 Hc. by apply link_unread.
Qed.

Lemma handle_simulated st ms c p tid now pktt x st' n :
  follows (System st ms) n → consistent n → ms !! c = Some p → sent p ≠ [] →
  receive_and_run now tid c pktt (sent p) st = Ok (x, st') →
  (∀ k x x', tk_conns st !! k = Some x → tk_conns st' !! k = Some x' → clean_since (oc_sent x) (oc_sent x')) →
  ∃ n' pkt rest, x = Some (pkt, rest) ∧ delivery n n' ∧ follows (System st' (<[c := set_sent rest p]> ms)) n'.
Proof.
  intros Hs Hc Hp Hne Hrun Hclean. destruct (follows_machine _ _ _ _ Hs Hp) as (m & Hmem & Hm & Hl). destruct n as [vs ns].
  destruct (handled_ok _ _ _ _ _ _ _ _ _ _ (proj1 Hs) Hm Hne (mo_knows _ _ (Hc c m Hmem)) Hrun Hclean)
    as (us & out & pkt & rest & Eout & -> & Ht & Hm' & Hlink).
  eexists _, pkt, rest. split; [done|]. split; [by eapply DoHandle|].
  eapply follows_step; [exact Hs|done|exact Hm'| | |].
  - specialize (Hlink c m Hl). by rw decide_True // in Hlink.
  - by rw tell_lookup lookup_insert_eq /= decide_True.
  - intros c' Hc'. pose proof (others_told st st' ns c (tidings_all us vs)) as Ho.
    rw tell_lookup lookup_insert_ne // -tell_lookup. apply Ho; [|done]. intros c1 m1 Hc1 H1.
    specialize (Hlink c1 m1 H1). by rw decide_False // in Hlink.
Qed.

Lemma join_simulated st ms c o p p1 y tid now pktt pkt pkt0 st' o' p' n :
  follows (System st ms) n → ms !! c = None → c ∈ pe_conn <$> peers (tk_pt st) → tk_conns st !! c = Some o → oc_sent o = [] →
  joining F P p → on_client sync_request p = Ok (y, p1) →
  receive_and_run now tid c pktt (sent p1) st = Ok (Some (pkt, []), st') →
  tk_conns st' !! c = Some o' → on_client (sync_with_tracker pkt0 (oc_sent o')) p = Ok ((0, []), p') →
  clean_since [] (sent p1) → clean_since [] (oc_sent o') →
  (∀ k x x', k ≠ c → tk_conns st !! k = Some x → tk_conns st' !! k = Some x' → clean_since (oc_sent x) (oc_sent x')) →
  ∃ n1 n2, net_step is_put n n1 ∧ delivery n1 n2 ∧ follows (System (set_unread c [] st') (<[c := set_sent [] p']> ms)) n2.
Proof.
  intros Hs Hms Hpe Ho Eo Hj Hreq Hrecv Ho' Hsync Hc1 Hc2 Hclean. destruct n as [vs ns]. pose proof (proj1 Hs) as Htk.
  cbn [nt_known sy_tracker] in Htk.
  destruct (join_tracker_ok _ _ _ _ _ _ _ _ _ _ _ _ Htk Hj Ho Eo Hpe Hreq Hc1 Hrecv Hclean) as (Ht & Ept & Econn & Hlink).
  set (l := tft_entries _) in *. set (reply := reply_table l (tk_ft st)) in *. rw Econn in Ho'. injection Ho' as <-.
  destruct Htk as [Hok _ Hfit Hvs _]. cbn [oc_sent] in *. pose proof (ok_ft _ _ _ Hok) as Hb.
  pose proof (join_machine_ok p pkt0 (tk_ft st) _ p' Hj Hb Hfit (Hc2 _ eq_refl) Hsync) as Hm.
  assert (Hrep : reply_ok (vapply_all (puts l) ∅) vs (updates (tft_entries reply))).
  { rw /l versions_exported; [apply (bd_wf _ _ _ (jn_table _ _ _ Hj))|]. rw -Hvs.
    apply reply_table_ok; [apply (bd_wf _ _ _ Hb)|apply (bd_wf _ _ _ (jn_table _ _ _ Hj))]. }
  assert (Hnone : ns !! c = None).
  { pose proof (proj2 Hs c) as H1. cbn [sy_machines nt_members] in H1. rw Hms in H1. by inversion H1. }
  eexists _, _. split; [eapply (DoJoin _ vs ns c (puts l)); [done| |exact Hrep]|].
  { apply Forall_forall. by intros u (te & -> & _)%list_elem_of_fmap. }
  split; [by eapply DoFollow; [apply lookup_insert_eq|]|].
  eapply follows_step; [exact Hs|by apply tracker_unread|exact Hm| |apply lookup_insert_eq|].
  - eapply link_read; [by rw Ept|exact Econn|apply in_flight_nil].
  - intros c' Hc'. rw !lookup_insert_ne //. apply (others_told st); [|done]. intros c1 m1 Hne Hl1.
    apply link_unread; [done|]. by apply Hlink.
Qed.

Lemma delivery_simulated s s' n :
  follows s n → consistent n → sys_delivery s s' → cleanly s s' → ∃ n', delivery n n' ∧ follows s' n'.
Proof.
  intros Hs Hc Hst. revert Hs. destruct Hst as [st ms c p tid now pktt pkt rest st' Hp Hne Hrun|st ms c p o pkt0 pkt rest p' Hp Ho Hne Hrun];
    intros Hs Hclean.
  - destruct (handle_simulated _ _ _ _ _ _ _ _ _ _ Hs Hc Hp Hne Hrun Hclean) as (n' & ? & ? & [= <- <-] & Hd & Hf). by exists n'.
  - by eapply follow_simulated.
Qed.

Lemma step_simulated s s' n :
  follows s n → consistent n → sys_step stat F P s s' → ∃ n', rtc (net_step is_put) n n' ∧ follows s' n'.
Proof.
  intros Hs Hc Hst. revert Hs.
  destruct Hst as [st ms c tid now q st' Hc0 Hrun
    |st ms c o p p1 x tid now pktt pkt pkt0 st' o' p' Hms Hpe Ho Eo Hj Hreq Hrecv Ho' Hsync Hc1 Hc2 Hclean
    |st ms c p w rs old tes w' old' p' Hp Hraw Hlen Hw Hobs Hno Hrun Hclean
    |st ms c p fe e r p' Hp Hat Hrun Hclean|s s' Hd Hclean]; intros Hs.
  - exists n. split; [done|]. by eapply connect_simulated.
  - destruct (join_simulated _ _ _ _ _ _ _ _ _ _ _ _ _ _ _ _ Hs Hms Hpe Ho Eo Hj Hreq Hrecv Ho' Hsync Hc1 Hc2 Hclean)
      as (n1 & n2 & H1 & H2 & Hf). exists n2. split; [|done]. eapply rtc_l; [exact H1|]. apply rtc_once. by apply DoDeliver.
  - destruct (follows_machine _ _ _ _ Hs Hp) as (m & Hmem & Hm & _). destruct n as [vs ns].
    destruct (change_ok _ _ _ _ _ _ _ _ _ Hm Hraw Hlen Hw Hobs Hno Hrun Hclean) as (Hk & Hput & Hm').
    eexists. split; [apply rtc_once; by eapply DoChange|]. by eapply own_simulated.
  - destruct (follows_machine _ _ _ _ Hs Hp) as (m & Hmem & Hm & _). destruct n as [vs ns].
    destruct (announce_ok _ _ _ _ _ _ Hm Hat Hrun Hclean) as [Hn Hm'].
    eexists. split; [apply rtc_once; by eapply DoAnnounce|]. by eapply own_simulated.
  - destruct (delivery_simulated _ _ _ Hs Hc Hd Hclean) as (n' & Hn' & Hf). exists n'.
    split; [|done]. apply rtc_once. by apply DoDeliver.
Qed.

Lemma steps_simulated s s' n :
  rtc (sys_step stat F P) s s' → follows s n → consistent n → ∃ n', follows s' n' ∧ consistent n'.
Proof.
  intros Hsteps. revert n. induction Hsteps as [s|s1 s2 s3 H12 _ IH]; intros n Hs Hc; [by exists n|].
  destruct (step_simulated _ _ _ Hs Hc H12) as (n2 & Hn & H2). eapply IH; [exact H2|]. by eapply steps_consistent.
Qed.

(** The tracker has been started, and no machine is there. *)
Definition first (ctr : ttop_control_info) : St :=
  System (match server_start ctr (static_tracker [] [] []) with Ok (_, st) => st | Fault _ => static_tracker [] [] [] end) ∅.

Lemma first_follows ctr : follows (first ctr) (Net ∅ ∅).
Proof.
  rw /first. pose proof (server_start_wp F P ctr [] [] []) as H1. rw /wp in H1.
  destruct (server_start _ _) as [[[] st]|]; [|done]. destruct H1 as (Hok & ft & pt & -> & Hv & Hc & Hp).
  split; [|intros c; cbn [sy_machines nt_members]; rw !lookup_empty; constructor].
  split; cbn [sy_tracker nt_known tk_ft tk_pt]; rw ?Hv ?Hp; [done| |by intros n e|by rw /versions fmap_empty|by constructor].
  split; [exact Hc|]. split; [done|]. by intros c o.
Qed.

Lemma reachable_follows ctr s :
  rtc (sys_step stat F P) (first ctr) s → ∃ n, follows s n ∧ consistent n.
Proof. intros Hs. eapply steps_simulated; [exact Hs|apply first_follows|]. by intros c m. Qed.

Lemma settled_idle s n : follows s n → settled s → idle n.
Proof.
  intros Hs Hset c m Hm. pose proof (proj2 Hs c) as H1. rw Hm in H1. inversion H1 as [p ? [Hp (Hpe & o & Ho & Hin)] E|]; subst.
  symmetry in E. destruct (Hset c p E) as [E1 E2]. rw Ho /= in E2. rw E2 in Hin.
  pose proof (mf_out _ _ Hp) as Hout. rw E1 in Hout. split; by eapply in_flight_empty.
Qed.

Lemma idle_agreement s n : follows s n → consistent n → idle n → in_agreement s.
Proof.
  intros Hs Hc Hidle c p Hp. destruct (follows_machine _ _ _ _ Hs Hp) as (m & Hmem & Hm & _).
  rw (mf_known _ _ Hm) (tf_known _ _ (proj1 Hs)). by apply (consistent_agree n Hc Hidle c).
Qed.

Lemma delivery_possible s n : follows s n → settled s ∨ ∃ s', sys_delivery s s'.
Proof.
  intros Hs. destruct (decide (settled s)) as [?|Hno]; [by left|right]. destruct s as [st ms].
  apply map_not_Forall in Hno as (c & p & Hp & Hno); [|apply _]. cbn [sy_machines sy_tracker] in *.
  destruct (follows_machine _ _ _ _ Hs Hp) as (m & _ & Hm & Hpe & o & Ho & Hin). cbn [sy_tracker] in *.
  destruct (decide (sent p = [])) as [E|E].
  - assert (E2 : oc_sent o ≠ []) by (intros E2; apply Hno; by rw Ho).
    destruct (follow_run p m (TtopPacket (TtopHeader 0 0) []) _ Hm Hin E2) as (us & into & rest & _ & _ & Hwp).
    apply wp_run in Hwp as (x & p' & Hrun & [pkt ->] & _). eexists. by eapply SysFollow.
  - destruct (handle_run 0 0 (PtotPacket (PtotHeader [] 0 0 0 0) []) st _ c p m (proj1 Hs) Hm E)
      as (t & us & out & pkt & rest & _ & _ & _ & Hwp).
    apply wp_run in Hwp as (x & st' & Hrun & -> & _). eexists. by eapply SysHandle.
Qed.

Lemma deliveries_accessible s n : follows s n → consistent n → Acc (λ s' s, sys_delivery s s' ∧ cleanly s s') s.
Proof.
  revert s. induction (deliveries_end n) as [n _ IH]. intros s Hs Hc. constructor. intros s' [Hd Hcl].
  destruct (delivery_simulated _ _ _ Hs Hc Hd Hcl) as (n' & Hn & Hf). apply (IH n' Hn s' Hf). by eapply delivery_consistent.
Qed.

(** ** Properties *)

(** C1. The machines agree.  Start the tracker; let machines connect and synchronise
    with whatever files they have, add and change files, finish downloads and announce
    them, and let the tracker and the machines read what they were sent, in any order.
    In every state that is reached in this way and in which nothing is in flight, every
    machine knows the same files at the same versions as the tracker.  (No file is
    deleted, no machine leaves, and none is told anything before its synchronisation
    is answered: see [deletion_race], [departure_not_told] and
    [broadcast_before_reply].) *)
Theorem machines_agree ctr s :
  rtc (sys_step stat F P) (first ctr) s → settled s → in_agreement s.
Proof.
  intros (n & Hs & Hc)%reachable_follows Hset. apply (idle_agreement s n Hs Hc). by eapply settled_idle.
Qed.

(** C2. What is in flight arrives.  In every state that is reached, either nothing is in
    flight or some process can read its next packet, without a fault; and if no
    broadcast has the end marker in its payload, reading comes to an end, in whatever order
    the packets are read; then the machines agree. *)
Theorem messages_arrive ctr s :
  rtc (sys_step stat F P) (first ctr) s →
  (settled s ∨ ∃ s', sys_delivery s s') ∧
  Acc (λ s' s, sys_delivery s s' ∧ cleanly s s') s ∧
  ∀ s', rtc (λ s s', sys_delivery s s' ∧ cleanly s s') s s' → (∀ s'', ¬ sys_delivery s' s'') → in_agreement s'.
Proof.
  intros (n & Hs & Hc)%reachable_follows. split; [by eapply delivery_possible|]. split; [by eapply deliveries_accessible|].
  intros s' H1 Hstuck. assert (∃ n', follows s' n' ∧ consistent n') as (n' & Hs' & Hc').
  { revert n Hs Hc. clear Hstuck. induction H1 as [s|s1 s2 s3 [Hd Hcl] _ IH]; intros n Hs Hc; [by exists n|].
    destruct (delivery_simulated _ _ _ Hs Hc Hd Hcl) as (n2 & Hn & H2). eapply IH; [exact H2|]. by eapply delivery_consistent. }
  destruct (delivery_possible s' n' Hs') as [Hset|[s'' H2]]; [|by destruct (Hstuck s'')].
  apply (idle_agreement s' n' Hs' Hc'). by eapply settled_idle.
Qed.

(** C3. The simulation.  A step of the processes, with the bytes in between, is some steps
    of the abstract protocol, in which versions only join. *)
Theorem step_refines s s' n :
  follows s n → consistent n → sys_step stat F P s s' → ∃ n', rtc (net_step is_put) n n' ∧ follows s' n' ∧ consistent n'.
Proof.
  intros Hs Hc Hst. destruct (step_simulated _ _ _ Hs Hc Hst) as (n' & Hn & Hf). exists n'. split_and!; [done..|].
  by eapply steps_consistent.
Qed.
End machines.
End system.

(** ** Witness: two machines, one of which changes a file *)

(** What an operation leaves, and whether it answers as expected. *)
Definition left_by {T A} (m : M T A) (s : T) : T := match m s with Ok (_, s') => s' | Fault _ => s end.
Definition answers {T A} (m : M T A) (s : T) (f : A → bool) : bool := match m s with Ok (a, _) => f a | Fault _ => false end.
Lemma answers_run {T A} (m : M T A) s f : answers m s f = true → ∃ a, f a = true ∧ m s = Ok (a, left_by m s).
Proof. rw /answers /left_by. destruct (m s) as [[a s']|]; [|done]. intros H. by exists a. Qed.

(** The payload of what was written, and [clean_since] as a test. *)
Definition payload (l : list Z) : list Z := take (length l - 4) (drop 2 l).
Definition clean_sinceb (before after : list Z) : bool := bool_decide (clean (payload (drop (length before) after))).
Lemma clean_sinceb_ok before after : clean_sinceb before after = true → clean_since before after.
Proof.
  intros H%bool_decide_eq_true p ->. rw drop_app_length /payload /frame in H.
  replace (length (start_buf ++ p ++ end_buf) - 4)%nat with (length p) in H by (rw !length_app; simpl; lia).
  change (drop 2 (start_buf ++ p ++ end_buf)) with (p ++ end_buf) in H. by rw take_app_length in H.
Qed.

Definition no_ptot : ptot_packet := PtotPacket (PtotHeader [] 0 0 0 0) [].
Definition no_ttop : ttop_packet := TtopPacket (TtopHeader 0 0) [].
Definition unread (c : Z) (st : tracker) : list Z := from_option oc_sent [] (tk_conns st !! c).
Definition all_read_or {A} (x : option (A * list Z)) : bool := match x with Some (_, []) => true | _ => false end.

Section demo.
Notation St := (system model_kernel).
Notation the_step := (sys_step demo_stat the_files the_machines).

Definition connected (c : Z) (q : peer_id) (s : St) : St :=
  System (set_unread c [] (left_by (accept_conn c c ;;; peer_register_handler_task 0 c q c) (sy_tracker s))) (sy_machines s).
Lemma connected_step c q s :
  bool_decide (c ∈ pe_conn <$> peers (tk_pt (sy_tracker s))) = false →
  answers (accept_conn c c ;;; peer_register_handler_task 0 c q c) (sy_tracker s) (λ r, r =? 0) = true →
  the_step s (connected c q s).
Proof.
  intros Hc%bool_decide_eq_false (r & ->%Z.eqb_eq & Hrun)%answers_run. destruct s as [st ms]. by eapply SysConnect.
Qed.

(** A machine synchronises. *)
Definition asked (p : peer model_kernel) : peer model_kernel := left_by (on_client sync_request) p.
Definition answered (c : Z) (p : peer model_kernel) (s : St) : tracker :=
  left_by (receive_and_run 0 c c no_ptot (sent (asked p))) (sy_tracker s).
Definition joined (c : Z) (p : peer model_kernel) (s : St) : St :=
  System (set_unread c [] (answered c p s))
    (<[c := set_sent [] (left_by (on_client (sync_with_tracker no_ttop (unread c (answered c p s)))) p)]> (sy_machines s)).
Definition can_join (c : Z) (p : peer model_kernel) (s : St) : bool :=
  let st := sy_tracker s in let p1 := asked p in
  let m := receive_and_run 0 c c no_ptot (sent p1) st in
  let st' := match m with Ok (_, st') => st' | Fault _ => st end in
  bool_decide (sy_machines s !! c = None) && bool_decide (c ∈ pe_conn <$> peers (tk_pt st)) &&
  bool_decide (oc_sent <$> tk_conns st !! c = Some []) && bool_decide (is_Some (tk_conns st' !! c)) &&
  answers (on_client sync_request) p (λ _, true) &&
  match m with Ok (x, _) => all_read_or x | Fault _ => false end &&
  answers (on_client (sync_with_tracker no_ttop (unread c st'))) p (λ x, bool_decide (x = (0, []))) &&
  clean_sinceb [] (sent p1) && clean_sinceb [] (unread c st') &&
  bool_decide (map_Forall (λ k x, k = c ∨ clean_sinceb (oc_sent x) (unread k st') = true) (tk_conns st)).
Lemma joined_step c p s : joining the_files the_machines p → can_join c p s = true → the_step s (joined c p s).
Proof.
  intros Hj Hcan. rw /can_join in Hcan. cbv zeta in Hcan.
  change (match receive_and_run _ _ _ _ _ _ with Ok (_, st') => st' | Fault _ => sy_tracker s end) with (answered c p s) in Hcan.
  rw !andb_true_iff in Hcan.
  destruct Hcan as ((((((((( H1%bool_decide_eq_true & H2%bool_decide_eq_true) & H3%bool_decide_eq_true) & [o' Ho']%bool_decide_eq_true) &
    H5%answers_run) & H6%answers_run) & H7%answers_run) & H8%clean_sinceb_ok) & H9%clean_sinceb_ok) & H10%bool_decide_eq_true).
  destruct H5 as (x & _ & H5), H6 as ([[pkt [|]]|] & ? & H6), H7 as (r & ->%bool_decide_eq_true & H7); try done.
  apply fmap_Some in H3 as (o & Ho & Eo). destruct s as [st ms]. cbn [sy_tracker sy_machines] in *.
  assert (Eu : unread c (answered c p (System st ms)) = oc_sent o') by rw /unread Ho' //. rw Eu in H7 H9.
  rw /joined Eu. eapply (SysJoin _ _ _ st ms c o p (asked p)); try done.
  intros k y y' Hk Hy Hy'. destruct (H10 k y Hy) as [?|H10']; [done|]. apply clean_sinceb_ok in H10'.
  by rw /unread Hy' in H10'.
Qed.

(** A machine's monitor finds one event. *)
Definition changed (c : Z) (p : peer model_kernel) (rs : list raw_event) (s : St) : St :=
  System (sy_tracker s) (<[c := left_by (on_monitor (monitor_turn demo_stat [] (Some (raws_bytes rs)))) p]> (sy_machines s)).

(** The tracker, or a machine, reads a packet. *)
Definition handled (c : Z) (p : peer model_kernel) (s : St) : St :=
  System (left_by (receive_and_run 0 c c no_ptot (sent p)) (sy_tracker s)) (<[c := set_sent [] p]> (sy_machines s)).
Lemma handled_step c p s :
  sy_machines s !! c = Some p → bool_decide (sent p = []) = false →
  answers (receive_and_run 0 c c no_ptot (sent p)) (sy_tracker s) all_read_or = true →
  bool_decide (map_Forall (λ k x, clean_sinceb (oc_sent x) (unread k (sy_tracker (handled c p s))) = true) (tk_conns (sy_tracker s))) = true →
  the_step s (handled c p s).
Proof.
  intros Hp Hne%bool_decide_eq_false ([[pkt [|]]|] & ? & Hrun)%answers_run Hcl%bool_decide_eq_true; try done.
  destruct s as [st ms]. apply SysDelivery; [by eapply SysHandle|].
  intros k x x' Hx Hx'. specialize (Hcl k x Hx). apply clean_sinceb_ok in Hcl. by rw /unread Hx' in Hcl.
Qed.
Definition followed_by (c : Z) (p : peer model_kernel) (s : St) : St :=
  System (set_unread c [] (sy_tracker s)) (<[c := left_by (on_client (ttop_receiver_turn no_ttop (unread c (sy_tracker s)))) p]> (sy_machines s)).
Lemma followed_step c p s :
  sy_machines s !! c = Some p → bool_decide (unread c (sy_tracker s) = []) = false →
  answers (on_client (ttop_receiver_turn no_ttop (unread c (sy_tracker s)))) p all_read_or = true →
  the_step s (followed_by c p s).
Proof.
  intros Hp Hne%bool_decide_eq_false ([[pkt [|]]|] & ? & Hrun)%answers_run; try done.
  destruct s as [st ms]. rw /followed_by. cbn [sy_tracker sy_machines] in *. revert Hne Hrun. rw /unread.
  destruct (tk_conns st !! c) as [o|] eqn:Ho; [|done]. intros Hne Hrun. apply SysDelivery; [by eapply SysFollow|].
  intros k x x' Hx. cbn [sy_tracker tk_conns set_unread set_conns]. rw lookup_alter. case_decide as Hk.
  - subst k. rw Hx. intros [= <-] q Hq. apply (f_equal length) in Hq. rw /frame !length_app /= in Hq. lia.
  - rw Hx. intros [= <-] q Hq. apply (f_equal length) in Hq. rw /frame !length_app /= in Hq. lia.
Qed.
End demo.

(** The first machine has the sample file, the second one nothing; then the first changes
    its file, the tracker is told, and the second machine follows. *)
Definition machine_with (t : fstate) (q : peer_id) : peer model_kernel :=
  Peer (Client t (ip q) (ControlInfo 0 0) (OutConn [] []) [] [] []) one_watched [].
Definition machine_at (c : Z) (s : system model_kernel) : peer model_kernel :=
  default (machine_with (fresh []) owner1) (sy_machines s !! c).
Definition a_changes : list raw_event := [Raw 1 IN_MODIFY [97] 15].
Definition a_changed : list trans_file_entry := [own_entry (ip owner1) [49; 47; 97] 7 FILE_MODIFY REGULAR].

Definition demo_0 : system model_kernel := first (ControlInfo 1 2).
Definition demo_1 := connected 5 owner1 demo_0.
Definition demo_2 := joined 5 (machine_with sample owner1) demo_1.
Definition demo_3 := connected 6 owner2 demo_2.
Definition demo_4 := joined 6 (machine_with (fresh []) owner2) demo_3.
Definition demo_5 := changed 5 (machine_at 5 demo_4) a_changes demo_4.
Definition demo_6 := handled 5 (machine_at 5 demo_5) demo_5.
Definition demo_7 := followed_by 6 (machine_at 6 demo_6) demo_6.

Definition can_connect (c : Z) (q : peer_id) (s : system model_kernel) : bool :=
  negb (bool_decide (c ∈ pe_conn <$> peers (tk_pt (sy_tracker s)))) &&
  answers (accept_conn c c ;;; peer_register_handler_task 0 c q c) (sy_tracker s) (λ r, r =? 0).
Definition can_change (c : Z) (p : peer model_kernel) (s : system model_kernel) : bool :=
  let m := on_monitor (monitor_turn demo_stat [] (Some (raws_bytes a_changes))) p in
  bool_decide (is_Some (sy_machines s !! c)) && bool_decide (cl_ip (pr_cl p) = ip owner1) &&
  bool_decide (is_Some (view (cl_ft (pr_cl p)) !! [49; 47; 97])) &&
  match m with Ok (_, p') => clean_sinceb (sent p) (sent p') | Fault _ => false end.
Definition can_handle (c : Z) (p : peer model_kernel) (s : system model_kernel) : bool :=
  bool_decide (is_Some (sy_machines s !! c)) && negb (bool_decide (sent p = [])) &&
  match receive_and_run 0 c c no_ptot (sent p) (sy_tracker s) with
  | Ok (x, st') => all_read_or x && bool_decide (map_Forall (λ k x, clean_sinceb (oc_sent x) (unread k st') = true) (tk_conns (sy_tracker s)))
  | Fault _ => false
  end.
Definition can_follow (c : Z) (p : peer model_kernel) (s : system model_kernel) : bool :=
  bool_decide (is_Some (sy_machines s !! c)) && negb (bool_decide (unread c (sy_tracker s) = [])) &&
  answers (on_client (ttop_receiver_turn no_ttop (unread c (sy_tracker s)))) p all_read_or.

(** The whole run, tested at once. *)
Definition demo_runs : bool :=
  let s0 := demo_0 in let s1 := connected 5 owner1 s0 in let s2 := joined 5 (machine_with sample owner1) s1 in
  let s3 := connected 6 owner2 s2 in let s4 := joined 6 (machine_with (fresh []) owner2) s3 in
  let p5 := machine_at 5 s4 in let s5 := changed 5 p5 a_changes s4 in
  let p6 := machine_at 5 s5 in let s6 := handled 5 p6 s5 in
  let p7 := machine_at 6 s6 in let s7 := followed_by 6 p7 s6 in
  forallb id [can_connect 5 owner1 s0; can_join 5 (machine_with sample owner1) s1; can_connect 6 owner2 s2;
    can_join 6 (machine_with (fresh []) owner2) s3; can_change 5 p5 s4; can_handle 5 p6 s5; can_follow 6 p7 s6;
    bool_decide (settled s7); bool_decide (fe_timestamp <$> view (cl_ft (pr_cl (machine_at 6 s7))) !! [49; 47; 97] = Some 7)].
Lemma all_true l : forallb id l = true → Forall (λ b, b = true) l.
Proof. intros H. apply Forall_forall. intros b Hb. by apply (proj1 (forallb_forall id l) H), list_elem_of_In. Qed.
Lemma demo_runs_ok : demo_runs = true.
Proof. vm_compute. reflexivity. Qed.

#[local] Instance the_deployment_ok : Deployment the_files the_machines := the_deployment.
Lemma the_files_sendable : Sendable the_files the_machines.
Proof.
  split.
  - intros n. rw /the_files elem_of_union !elem_of_singleton. intros [-> | ->]; (split; [|rw /MAX_NAME_LEN; simpl; lia]);
      repeat (apply Forall_cons_2; [rw /is_char; lia|]); apply Forall_nil_2.
  - intros x. rw /the_machines elem_of_union !elem_of_singleton. intros [-> | ->]; split; by vm_compute.
  - by vm_compute.
Qed.
#[local] Existing Instance the_files_sendable.

Lemma sample_all_fit : all_fit (view sample).
Proof.
  assert (E : view sample = {[ [49; 47; 97] := FileEntry [49; 47; 97] 5 0 [owner1] ]}) by (vm_compute; reflexivity).
  rw E. clear E. intros n e [<- <-]%lookup_singleton_Some. split; [by split|]. by apply Forall_singleton.
Qed.
Lemma sample_joins : joining the_files the_machines (machine_with sample owner1).
Proof.
  constructor; [exact (ok_ft _ _ _ sample_tracker_ok)|split; [exact (proj1 sample_calm)|reflexivity]|reflexivity| |exact sample_all_fit].
  apply elem_of_union_l, elem_of_singleton. reflexivity.
Qed.
Lemma fresh_joins : joining the_files the_machines (machine_with (fresh []) owner2).
Proof.
  constructor; [apply fresh_bounded|split; reflexivity|reflexivity| |].
  - apply elem_of_union_r, elem_of_singleton. reflexivity.
  - intros n e. cbn [machine_with pr_cl cl_ft]. by rw fresh_view.
Qed.

Lemma connected_demo c q s : can_connect c q s = true → sys_step demo_stat the_files the_machines s (connected c q s).
Proof. intros [H1%negb_true_iff H2]%andb_true_iff. by apply connected_step. Qed.

#[local] Instance raw_ok_dec r : Decision (raw_ok r).
Proof. rw /raw_ok /is_i32 /is_u32 /is_char. apply _. Defined.

Lemma changed_demo c s :
  let p := machine_at c s in
  targets_good root_watches (pr_targets p) → can_change c p s = true →
  sys_step demo_stat the_files the_machines s (changed c p a_changes s).
Proof.
  intros p Hw. rw /can_change !andb_true_iff. cbv zeta. intros (((Hs%bool_decide_eq_true & Hip%bool_decide_eq_true) & Hv%bool_decide_eq_true) & Hm).
  assert (Hp : sy_machines s !! c = Some p) by (rw /p /machine_at; by destruct Hs as [? ->]). destruct s as [st ms].
  assert (Hrun : ∃ x, on_monitor (monitor_turn demo_stat [] (Some (raws_bytes a_changes))) p =
    Ok (x, left_by (on_monitor (monitor_turn demo_stat [] (Some (raws_bytes a_changes)))) p)).
  { rw /left_by. destruct (on_monitor _ p) as [[x p']|]; [by exists x|done]. }
  destruct Hrun as [x Hrun]. rw Hrun in Hm.
  eapply (SysChange _ _ _ st ms c p root_watches a_changes [] a_changed); try done.
  - apply Forall_singleton. by apply (bool_decide_unpack _).
  - rw Hip. vm_compute. reflexivity.
  - split; [by apply Z.leb_le|]. split; [|by split].
    apply Forall_singleton. split; [rw /the_files; set_solver|done].
  - by apply clean_sinceb_ok.
Qed.

Lemma handled_demo c s :
  can_handle c (machine_at c s) s = true → sys_step demo_stat the_files the_machines s (handled c (machine_at c s) s).
Proof.
  rw /can_handle !andb_true_iff. intros ((Hs%bool_decide_eq_true & Hne%negb_true_iff) & Hm).
  assert (Hp : sy_machines s !! c = Some (machine_at c s)) by (rw /machine_at; by destruct Hs as [? ->]).
  destruct (receive_and_run _ _ _ _ _ _) as [[x st']|] eqn:E; [|done]. apply andb_true_iff in Hm as [Hx Hcl].
  apply handled_step; [done|done|by rw /answers E|]. by rw /handled /left_by E.
Qed.
Lemma followed_demo c s :
  can_follow c (machine_at c s) s = true → sys_step demo_stat the_files the_machines s (followed_by c (machine_at c s) s).
Proof.
  rw /can_follow !andb_true_iff. intros ((Hs%bool_decide_eq_true & Hne%negb_true_iff) & Hm).
  assert (Hp : sy_machines s !! c = Some (machine_at c s)) by (rw /machine_at; by destruct Hs as [? ->]).
  by apply followed_step.
Qed.

Lemma demo_watched : pr_targets (machine_at 5 demo_4) = one_watched.
Proof. vm_compute. reflexivity. Qed.
Lemma root_targets_good : targets_good root_watches one_watched.
Proof. exact (mgood_targets _ _ _ _ root_mon_good). Qed.

(** The run is one, and the second machine has the new version. *)
Lemma demo_reached :
  rtc (sys_step demo_stat the_files the_machines) demo_0 demo_5 ∧
  rtc (sys_step demo_stat the_files the_machines) demo_5 demo_7 ∧ settled demo_7 ∧
  fe_timestamp <$> view (cl_ft (pr_cl (machine_at 6 demo_7))) !! [49; 47; 97] = Some 7.
Proof.
  pose proof demo_runs_ok as Hok. rw /demo_runs in Hok. cbv zeta in Hok. apply all_true in Hok.
  rw -/demo_1 -/demo_2 -/demo_3 -/demo_4 -/demo_5 -/demo_6 -/demo_7 in Hok.
  rw !Forall_cons in Hok. destruct Hok as (H1 & H2 & H3 & H4 & H5 & H6 & H7 & H8%bool_decide_eq_true & H9%bool_decide_eq_true & _).
  split; [|split; [|by split]].
  - eapply rtc_l; [exact (connected_demo 5 owner1 demo_0 H1)|]. eapply rtc_l; [exact (joined_step 5 _ demo_1 sample_joins H2)|].
    eapply rtc_l; [exact (connected_demo 6 owner2 demo_2 H3)|]. eapply rtc_l; [exact (joined_step 6 _ demo_3 fresh_joins H4)|].
    apply rtc_once. refine (changed_demo 5 demo_4 _ H5). rw demo_watched. apply root_targets_good.
  - eapply rtc_l; [exact (handled_demo 5 demo_5 H6)|]. apply rtc_once. exact (followed_demo 6 demo_6 H7).
Qed.

Lemma machines_agree_witness :
  fe_timestamp <$> view (cl_ft (pr_cl (machine_at 6 demo_7))) !! [49; 47; 97] = Some 7 ∧ in_agreement demo_7.
Proof.
  destruct demo_reached as (H1 & H2 & H3 & H4). split; [exact H4|].
  apply (machines_agree the_files the_machines demo_stat (ControlInfo 1 2) demo_7); [|exact H3].
  etransitivity; [exact H1|exact H2].
Defined.

Lemma messages_arrive_witness :
  (settled demo_5 ∨ ∃ s', sys_delivery demo_5 s') ∧ Acc (λ s' s, sys_delivery s s' ∧ cleanly s s') demo_5.
Proof.
  destruct (messages_arrive the_files the_machines demo_stat (ControlInfo 1 2) demo_5 (proj1 demo_reached)) as (H1 & H2 & _).
  split; [exact H1|exact H2].
Defined.

Lemma step_refines_witness :
  ∃ n, rtc (net_step is_put) (Net ∅ ∅) n ∧ follows the_files the_machines (connected 5 owner1 demo_0) n ∧ consistent n.
Proof.
  apply (step_refines the_files the_machines demo_stat demo_0 (connected 5 owner1 demo_0) (Net ∅ ∅)).
  - apply first_follows, _.
  - intros c m H. cbn [nt_members] in H. by rw lookup_empty in H.
  - apply connected_demo. vm_compute. reflexivity.
Defined.
