(* ===== verification/Races.v ===== *)
(** * Races: when the machines do not agree

    What [Agreement.machines_agree] leaves out, and why: a file that is deleted while
    another machine changes it, two packets of one machine that are handled in the other
    order, a machine that leaves, and a machine that is told something before its
    synchronisation is answered. *)
From S2P Require Import Prelude Hash TransTable FileTable Replica Segment Wire Packet PeerTable Tracker Client Sync Monitor Scan Events Peer Join Wait Start Versions Converge System Agreement.

Section races.
Context (F : gset (list Z)) (P : gset Z) {D : Deployment F P}.

(** ** Specification *)

(** An entry of the deployment that says [op] of the file [n]. *)
Definition says (op : operation_type) (n : list Z) (te : trans_file_entry) : Prop :=
  known F P te ∧ te_name te = n ∧ op_of (te_op_type te) = Some op.
(** Nobody but the machine of the connection has the file. *)
Definition held_by (conn : Z) (e : file_entry) (st : tracker) : Prop :=
  ∀ p, p ∈ fe_owners e → ip p = ip_of_conn conn (peers (tk_pt st)).
(** Shared directories that can be read and whose files fit a packet. *)
Definition sharable (dirs : list (list Z * directory)) : Prop :=
  targets_ok 0 dirs ∧ Forall (λ t, is_Some t.2) dirs ∧ Z.of_nat (length dirs) < 10 ^ 10 ∧
  Z.of_nat (length (shared_files 0 dirs)) ≤ MAX_SENT_ENTRIES ∧
  ∀ x, x ∈ shared_files 0 dirs → name_ok MAX_NAME_LEN (path_of x) ∧ path_of x ∈ F.

(** ** Lemmas *)
Lemma one_known te : known F P te → known_table F P (table_of [te]).
Proof. intros Hte. split; [by split|]. by intros x ->%list_elem_of_singleton. Qed.

(** A thread for an update of one entry. *)
Lemma one_update conn te st :
  tk_ok F P st → calm st → known F P te →
  wp (peer_file_update_task conn (table_of [te]))
     (λ _ st', tk_ok F P st' ∧ calm st' ∧ same_threads st st' ∧ view (tk_ft st') = apply_update te (view (tk_ft st)) ∧
        tk_conns st' = broadcast_list (option_list (update_news te (view (tk_ft st)))) conn (peers (tk_pt st)) (tk_conns st)) st.
Proof.
  intros Hst Hcalm Hte. eapply wp_mono; [by apply (file_update_task_wp F P), one_known|].
  intros r st' (Hok & Hsame & _ & H). destruct (H Hcalm) as [? [Hv Hc]]. split_and!; try done. by rw Hc /= app_nil_r.
Qed.

Lemma client_keeps my_ip l n : ∀ w,
  Forall (λ te, op_of (te_op_type te) ≠ Some FILE_DELETE) l → is_Some (w !! n) → is_Some (client_apply_all my_ip l w !! n).
Proof.
  induction l as [|te l IH]; intros w; [done|]. intros [Hte Hl]%Forall_cons Hw. apply IH; [done|].
  assert (Hadopt : is_Some (adopt my_ip te w !! n)) by (rw /adopt lookup_insert; case_decide; [by eexists|done]).
  rw /client_apply. by destruct (op_of (te_op_type te)) as [[]|].
Qed.

Lemma only_owner ip0 l : (∀ p, p ∈ l → ip p = ip0) → filter (λ p, ip p ≠ ip0) l = [].
Proof.
  induction l as [|p l IH]; intros Hl; [done|]. rw filter_cons_False; [|apply IH; intros q Hq; apply Hl; by right].
  intros H. apply H, Hl. by left.
Qed.

Lemma remove_conn_sublist conn l : sublist (remove_conn conn l) l.
Proof. induction l as [|x l IH]; simpl; [done|]. destruct (_ =? _); by constructor. Qed.
Lemma remove_conn_elem conn c l : c ∈ pe_conn <$> l → c ≠ conn → c ∈ pe_conn <$> remove_conn conn l.
Proof.
  intros Hc Hne. induction l as [|x l IH]; [done|]. csimpl in *. apply elem_of_cons in Hc as [->|Hc].
  - destruct (Z.eqb_spec (pe_conn x) conn); [done|]. by left.
  - destruct (_ =? _); [done|]. right. by apply IH.
Qed.

(** ** Properties *)

(** C23. A deletion against a change.  One machine deletes a file while another one
    changes it, and the tracker is told of the change first.  The tracker forgets
    the file; the machine that deleted it is told of the change and has the
    file again; the machine that changed it is told of the deletion and loses it, with
    the change.  Nothing is in flight any more, and the three do not agree. *)
Theorem deletion_race a b te_mod te_del n e oa ob my_ip va vb st :
  tk_ok F P st → calm st → says FILE_MODIFY n te_mod → says FILE_DELETE n te_del →
  NoDup (pe_conn <$> peers (tk_pt st)) → a ∈ pe_conn <$> peers (tk_pt st) → b ∈ pe_conn <$> peers (tk_pt st) → a ≠ b →
  tk_conns st !! a = Some oa → tk_conns st !! b = Some ob → view (tk_ft st) !! n = Some e →
  wp (peer_file_update_task b (table_of [te_mod]) ;;; peer_file_update_task a (table_of [te_del]))
     (λ _ st', view (tk_ft st') !! n = None ∧
        (∃ told, oc_sent <$> tk_conns st' !! a = Some (oc_sent oa ++ frame (broadcast_bytes (table_of [told]))) ∧
           is_Some (client_apply my_ip told (local_apply te_del va) !! n)) ∧
        oc_sent <$> tk_conns st' !! b = Some (oc_sent ob ++ frame (broadcast_bytes (table_of [te_del]))) ∧
        client_apply my_ip te_del (local_apply te_mod vb) !! n = None) st.
Proof.
  intros Hst Hcalm (Hkm & Hnm & Hom) (Hkd & Hnd & Hod) Hdup Ha Hb Hab Hca Hcb Hn.
  assert (Hname : fe_name e = n) by by destruct (kept_bounded F P _ (ok_ft _ _ _ Hst) n e Hn).
  apply wp_bind. eapply wp_mono; [by apply one_update|]. intros _ st1 (Hst1 & Hcalm1 & (_ & _ & Hpt1 & _) & Hv1 & Hc1).
  eapply wp_mono; [by apply one_update|]. intros _ st2 (_ & _ & _ & Hv2 & Hc2).
  set (told := announce FILE_MODIFY (merge te_mod e)).
  assert (En1 : update_news te_mod (view (tk_ft st)) = Some told) by by rw /update_news Hom Hnm Hn.
  assert (Hn1 : view (tk_ft st1) !! n = Some (merge te_mod e)).
  { by rw Hv1 /apply_update Hom /learn Hnm Hn lookup_insert_eq. }
  assert (En2 : update_news te_del (view (tk_ft st1)) = Some te_del) by by rw /update_news Hod Hnd Hn1.
  rw En1 in Hc1. rw En2 Hpt1 in Hc2. cbn [option_list] in Hc1, Hc2.
  split; [by rw Hv2 /apply_update Hod Hnd lookup_delete_eq|]. split; [exists told; split|split].
  - by rw Hc2 broadcast_list_lookup // decide_True // Hc1 broadcast_list_lookup // decide_False // Hca.
  - rw /client_apply /adopt /told. cbn [te_op_type te_name announce set_op_type export].
    change (op_of (op_code FILE_MODIFY)) with (Some FILE_MODIFY). cbv iota. rw merge_name Hname lookup_insert_eq. by eexists.
  - by rw Hc2 broadcast_list_lookup // decide_False // Hc1 broadcast_list_lookup // decide_True // Hcb.
  - by rw /client_apply Hod Hnd lookup_delete_eq.
Qed.

(** Two packets of one machine, handled in the other order.  A file is added and
    deleted again; each packet has its thread, and if the second one runs first the
    tracker ends with a file that the announcer does not have. *)
Theorem updates_reordered conn te_add te_del n now1 now2 v st :
  tk_ok F P st → calm st → says FILE_ADD n te_add → says FILE_DELETE n te_del →
  tk_tasks st = [FileUpdateTask conn (table_of [te_add]); FileUpdateTask conn (table_of [te_del])] →
  wp (handle (EvRun 1 now1) ;;; handle (EvRun 0 now2))
     (λ _ st', tk_tasks st' = [] ∧ is_Some (view (tk_ft st') !! n) ∧ local_apply_all [te_add; te_del] v !! n = None) st.
Proof.
  intros Hst Hcalm (Hka & Hna & Hoa) (Hkd & Hnd & Hod) Htasks.
  assert (Hok : ∀ l, (∀ t, t ∈ l → t ∈ tk_tasks st) → tk_ok F P (set_threads (tk_receivers st) l st)).
  { intros l Hl. destruct Hst as [H1 H2 H3]. split; [done|done|]. intros t Ht. by apply H3, Hl. }
  apply wp_bind. rw {1}/handle. apply wp_bind, wp_gets. rw Htasks. cbn [lookup list_lookup take drop app]. apply wp_bind, wp_modify, wp_bind.
  eapply wp_mono; [apply one_update; [apply Hok; rw Htasks; set_solver|done|done]|].
  intros _ st1 (Hst1 & Hcalm1 & (Ht1 & _) & Hv1 & _). apply wp_ret.
  rw /handle. apply wp_bind, wp_gets. rw Ht1. cbn [tk_tasks set_threads lookup list_lookup take drop app]. apply wp_bind, wp_modify, wp_bind.
  assert (Hst1' : tk_ok F P (set_threads (tk_receivers st1) [] st1)) by (destruct Hst1 as [H1 H2 H3]; split; [done|done|by intros t ?%elem_of_nil]).
  eapply wp_mono; [by apply one_update|]. intros _ st2 (_ & _ & (Ht2 & _) & Hv2 & _). apply wp_ret. split; [done|]. split.
  - rw Hv2 /apply_update Hoa /learn Hna lookup_insert_eq. by eexists.
  - rw /local_apply_all /=. by rw {1}/local_apply Hod Hnd lookup_delete_eq.
Qed.

(** C25. A machine leaves.  A file that only the machine of a connection owned is gone
    from the tracker's table when the thread of the connection ends; the others are told of
    every file that is left, as changed, and of no deletion: a machine that knows the
    file goes on knowing it, and can not fetch it from anyone. *)
Theorem departure_not_told conn c o n e my_ip w st :
  tk_ok F P st → calm st → view (tk_ft st) !! n = Some e →
  held_by conn e st →
  NoDup (pe_conn <$> peers (tk_pt st)) → c ∈ pe_conn <$> peers (tk_pt st) → c ≠ conn → 0 ≤ c →
  tk_conns st !! c = Some o → is_Some (w !! n) →
  wp (receiver_task_cleanup conn)
     (λ _ st', view (tk_ft st') !! n = None ∧
        ∃ told, oc_sent <$> tk_conns st' !! c =
            Some (oc_sent o ++ match told with [] => [] | _ => frame (broadcast_bytes (table_of told)) end) ∧
          (∀ te, te ∈ told → te_name te ≠ n) ∧ is_Some (client_apply_all my_ip told w !! n)) st.
Proof.
  intros Hst Hcalm Hn Hown Hdup Hc Hne Hpos Hco Hw. eapply wp_mono; [by apply (cleanup_wp F P)|].
  intros [] st' (Hst' & _ & _ & _ & H). destruct (H Hcalm) as (_ & Hv & Hp & Hconns).
  assert (Hgone : view (tk_ft st') !! n = None).
  { rw Hv lookup_omap Hn /= /drop_owner. clear Hn. by rw only_owner. }
  split; [done|]. set (told := announce FILE_MODIFY <$> entries (tk_ft st')) in *. exists told.
  assert (Hc' : NoDup (pe_conn <$> remove_conn conn (peers (tk_pt st))) ∧ c ∈ pe_conn <$> remove_conn conn (peers (tk_pt st))).
  { split; [|by apply remove_conn_elem]. eapply sublist_NoDup; [exact Hdup|]. apply fmap_sublist, remove_conn_sublist. }
  destruct Hc' as [Hdup' Hin]. split; [|split].
  - rw Hconns lookup_delete_ne // Hp broadcast_list_lookup // decide_False; [lia|]. rw Hco. destruct told; [by rw app_nil_r|done].
  - intros te (x & -> & Hx)%list_elem_of_fmap E. apply elem_of_view in Hx; [|apply (bd_wf _ _ _ (ok_ft _ _ _ Hst'))].
    change (fe_name x = n) in E. by rw E Hgone in Hx.
  - apply client_keeps; [|done]. apply Forall_forall. by intros te (x & -> & _)%list_elem_of_fmap.
Qed.

(** A packet that is not the reply. *)
Lemma sync_refused pkt0 pkt more cl :
  bounded F P (cl_ft cl) → oc_answers (cl_conn cl) = [] → tft_n (exported (cl_ft cl)) ≤ MAX_SENT_ENTRIES →
  storable (ttop_hdr pkt) → clean (ttop_bytes pkt) → ttop_of (ttop_type (ttop_hdr pkt)) ≠ Some TRACKER_SYNC →
  wp (sync_with_tracker pkt0 (frame (ttop_bytes pkt) ++ more)) (λ x cl', x = (-1, more) ∧ cl_ft cl' = cl_ft cl) cl.
Proof.
  intros Hb Hans Hfew Hst Hclean Htype. destruct (sync_request_run F P cl) as (r0 & Hr0 & Hreq); [done..|].
  apply wp_bind. rw {1}/wp Hreq (proj2 (Z.ltb_ge r0 0)) //.
  destruct (ttop_received pkt pkt0 more) as (r & data & -> & Hr & _); [done..|].
  rw (proj2 (Z.ltb_ge _ _)); [lia|]. cbn [ttop_hdr]. by destruct (ttop_of _) as [[]|].
Qed.

(** C24. Told too early.  A machine is told what the others announce from the moment it is
    registered; if the first thing that comes after its registration is a broadcast, it
    takes it for the reply to its synchronisation, the reply is never read, and
    [client_start] gives up. *)
Theorem broadcast_before_reply contents created pkt0 conf t more cl tasks :
  fs_heap (cl_ft cl) = ∅ → no_oom (cl_ft cl) → oc_answers (cl_conn cl) = [] → is_u32 (cl_ip cl) → cl_ip cl ∈ P →
  FileMonitor ∈ tasks →
  let dirs := shared_dirs contents conf in
  let files := shared_files 0 dirs in
  sharable dirs → clean (broadcast_bytes t) →
  wp (start_threads contents created (Some THREAD_RUNNING) pkt0 conf (frame (broadcast_bytes t) ++ more))
     (λ stage s', stage = NotSynced ∧ st_tasks s' = tasks ∧
        ∀ n e, view (cl_ft (st_cl s')) !! n = Some e → ∃ x, x ∈ files ∧ n = path_of x) (StartingUp cl tasks).
Proof.
  intros Hh Hoom Hans Hip HP Hmon dirs files (Hok & Hre & Hn & Hfew & Hfiles) Hclean.
  destruct (directories_read F P dirs cl) as (ft & Hrun & Hb & Hoom' & Hent & Hview); try done.
  { intros x Hx. by apply Hfiles. }
  destruct (sent_ok F P (cl_ip cl) files ft) as (_ & Hsn & _); try done; [by intros x Hx; apply Hfiles|].
  rw /start_threads. apply wp_bind, wp_gets. cbn [st_tasks]. rw bool_decide_eq_true_2 //. change (negb (goes_on THREAD_RUNNING)) with false.
  cbv iota. apply wp_bind, wp_zoom. cbn [st_cl]. rw /wp Hrun -/(wp _ _ _).
  eapply wp_mono; [apply (sync_refused pkt0 (ttop_table_packet TRACKER_BROADCAST t) more (cl_set_ft ft cl)); try done|].
  { split; cbn; [done|apply u16_range]. }
  intros x cl' (-> & Hft). apply wp_ret. split; [done|]. split; [done|]. cbn [st_cl cl_ft]. rw Hft /= Hview.
  intros n e (x & [= -> _] & Hx)%elem_of_list_to_map_2%list_elem_of_fmap. by exists x.
Qed.

(** C26. Deleted while it is downloaded.  A broadcast of a new file starts a download, with a
    pointer to the entry; a broadcast of its deletion frees the entry; when the thread reads
    it after that, the client uses memory that was freed. *)
Theorem deleted_while_downloading n te_add te_del cl :
  bounded F P (cl_ft cl) → no_oom (cl_ft cl) → says FILE_ADD n te_add → says FILE_DELETE n te_del →
  view (cl_ft cl) !! n = None →
  wp (broadcast_entry_handler te_add ;;; broadcast_entry_handler te_del)
     (λ _ cl', ∃ fe, cl_downloads cl' = cl_downloads cl ++ [Some fe] ∧ bounded F P (cl_ft cl') ∧
        ∀ target sys_name result, Client.ptop_download_task target sys_name result (Some fe) cl' = Fault UseAfterFree) cl.
Proof.
  intros Hb Hoom (Hk & Hna & Hadd) (_ & Hn & Hdel) Hnone. subst n. apply wp_bind. rw /broadcast_entry_handler Hadd Hdel.
  apply wp_bind, wp_on_cl_read. eapply wp_mono; [apply __file_table_search_wp, (bd_wf _ _ _ Hb)|].
  intros [i|] s0 [-> H]; [destruct H as (e & _ & H); by rw Hnone in H|]. split; [done|].
  apply wp_bind, wp_on_cl. eapply wp_mono; [by apply (table_add_wp F P)|].
  intros r ft (Hb1 & Hok & Hr). destruct (Hok Hoom) as [Hoom1 Hv1].
  destruct r as [i|]; [|by destruct Hr]. destruct Hr as (e & Hat & _). apply wp_modify, wp_bind, wp_on_cl.
  assert (Hs : is_Some (view ft !! te_name te_add)) by (exists e; apply view_lookup; [apply (bd_wf _ _ _ Hb1)|by exists i]).
  pose proof (table_delete_wp F P te_del ft Hb1) as Hd. pose proof (file_table_delete_wp te_del ft (bd_wf _ _ _ Hb1)) as Hw.
  cbn [cl_ft cl_set_files cl_set_ft]. rw /wp in Hd, Hw |- *. destruct (file_table_delete _ ft) as [[r ft']|]; [|done].
  destruct Hs as [e' He']. rw Hn He' in Hw. destruct Hw as (_ & j & Hat' & ->).
  exists i. split; [done|]. split; [apply Hd|]. destruct (entry_at_inj ft _ _ _ _ _ (bd_wf _ _ _ Hb1) Hat Hat') as [-> _].
  intros target sys_name result. rw /Client.ptop_download_task /bind /on_table /zoom /deref /=. by rw lookup_delete_eq.
Qed.
End races.

(** ** Witnesses: the file of the sample tracker, on connections 5 and 6 *)
Definition a_modified : trans_file_entry := said [49; 47; 97] 9 (op_code FILE_MODIFY).
Definition a_deleted : trans_file_entry := said [49; 47; 97] 0 (op_code FILE_DELETE).
Definition b_added : trans_file_entry := said [49; 47; 98] 4 (op_code FILE_ADD).
Definition b_deleted : trans_file_entry := said [49; 47; 98] 0 (op_code FILE_DELETE).

Lemma a_in_files : [49; 47; 97] ∈ the_files.
Proof. rw /the_files. set_solver. Qed.
Lemma b_in_files : [49; 47; 98] ∈ the_files.
Proof. rw /the_files. set_solver. Qed.

Lemma deletion_race_witness :
  wp (peer_file_update_task 6 (table_of [a_modified]) ;;; peer_file_update_task 5 (table_of [a_deleted]))
     (λ _ st', view (tk_ft st') !! [49; 47; 97] = None ∧
        (∃ told, oc_sent <$> tk_conns st' !! 5 = Some (frame (broadcast_bytes (table_of [told]))) ∧
           is_Some (client_apply 3 told (local_apply a_deleted (view sample)) !! [49; 47; 97])) ∧
        client_apply 3 a_deleted (local_apply a_modified (view sample)) !! [49; 47; 97] = None) sample_tracker.
Proof.
  pose proof the_deployment as D.
  eapply wp_mono; [apply (deletion_race the_files the_machines 5 6 a_modified a_deleted [49; 47; 97]
    (FileEntry [49; 47; 97] 5 0 [owner1]) (OutConn [] []) (OutConn [] []) 3 (view sample) (view sample) sample_tracker
    sample_tracker_ok sample_calm (conj (said_known _ _ _ a_in_files) (conj eq_refl eq_refl))
    (conj (said_known _ _ _ a_in_files) (conj eq_refl eq_refl)))|].
  - apply (bool_decide_unpack _). by vm_compute.
  - apply (bool_decide_unpack _). by vm_compute.
  - apply (bool_decide_unpack _). by vm_compute.
  - discriminate.
  - reflexivity.
  - reflexivity.
  - vm_compute. reflexivity.
  - intros _ st' (H1 & H2 & _ & H3). split; [exact H1|]. split; [exact H2|exact H3].
Defined.

(** The sample tracker with two packets of a machine received and not handled. *)
Definition two_received : tracker :=
  set_threads (tk_receivers sample_tracker) [FileUpdateTask 5 (table_of [b_added]); FileUpdateTask 5 (table_of [b_deleted])] sample_tracker.
Lemma two_received_ok : tk_ok the_files the_machines two_received.
Proof.
  destruct sample_tracker_ok as [H1 H2 _]. split; [exact H1|exact H2|]. cbn [tk_tasks two_received set_threads].
  intros t [->|[->|[]%elem_of_nil]%elem_of_cons]%elem_of_cons; apply one_known, said_known, b_in_files.
Qed.

Lemma updates_reordered_witness :
  wp (handle (EvRun 1 0) ;;; handle (EvRun 0 0))
     (λ _ st', tk_tasks st' = [] ∧ is_Some (view (tk_ft st') !! [49; 47; 98]) ∧
        local_apply_all [b_added; b_deleted] (view sample) !! [49; 47; 98] = None) two_received.
Proof.
  pose proof the_deployment as D.
  apply (updates_reordered the_files the_machines 5 b_added b_deleted [49; 47; 98] 0 0 (view sample) two_received
    two_received_ok sample_calm (conj (said_known _ _ _ b_in_files) (conj eq_refl eq_refl))
    (conj (said_known _ _ _ b_in_files) (conj eq_refl eq_refl))); reflexivity.
Defined.

(** The machine that owns the file is the one of connection 5. *)
Definition its_tracker : tracker := set_pt (two_machines owner1 owner2) sample_tracker.
Lemma its_tracker_ok : tk_ok the_files the_machines its_tracker.
Proof. destruct sample_tracker_ok as [H1 _ H3]. split; [exact H1|apply two_machines_wf|exact H3]. Qed.

Lemma departure_not_told_witness :
  wp (receiver_task_cleanup 5)
     (λ _ st', view (tk_ft st') !! [49; 47; 97] = None ∧
        ∃ told, oc_sent <$> tk_conns st' !! 6 = Some (match told with [] => [] | _ => frame (broadcast_bytes (table_of told)) end) ∧
          is_Some (client_apply_all 3 told (view sample) !! [49; 47; 97])) its_tracker.
Proof.
  pose proof the_deployment as D.
  eapply wp_mono; [apply (departure_not_told the_files the_machines 5 6 (OutConn [] []) [49; 47; 97]
    (FileEntry [49; 47; 97] 5 0 [owner1]) 3 (view sample) its_tracker its_tracker_ok sample_calm)|].
  - vm_compute. reflexivity.
  - intros p ->%list_elem_of_singleton. vm_compute. reflexivity.
  - apply (bool_decide_unpack _). by vm_compute.
  - apply (bool_decide_unpack _). by vm_compute.
  - discriminate.
  - lia.
  - reflexivity.
  - vm_compute. by eexists.
  - intros _ st' (H1 & told & H2 & _ & H3). split; [exact H1|]. exists told. split; [exact H2|exact H3].
Defined.

Lemma broadcast_before_reply_witness :
  wp (start_threads demo_contents (λ _, 0) (Some THREAD_RUNNING) no_ttop demo (frame (broadcast_bytes (table_of [a_modified])) ++ frame the_answer))
     (λ stage s', stage = NotSynced ∧ st_tasks s' = [KeepAlive; FileMonitor]) (StartingUp new_machine [KeepAlive; FileMonitor]).
Proof.
  pose proof the_deployment as D.
  eapply wp_mono; [apply (broadcast_before_reply the_files the_machines demo_contents (λ _, 0) no_ttop demo (table_of [a_modified])
    (frame the_answer) new_machine [KeepAlive; FileMonitor])|].
  - reflexivity.
  - reflexivity.
  - reflexivity.
  - cbn. rewrite /is_u32. lia.
  - cbn. rewrite /the_machines. set_solver.
  - set_solver.
  - change (sharable the_files older). split; [exact older_ok|]. split; [repeat constructor; eauto|].
    split; [by vm_compute|]. split; [by vm_compute|exact older_names].
  - by vm_compute.
  - intros st s' (H1 & H2 & _). split; [exact H1|exact H2].
Defined.

Lemma deleted_while_downloading_witness :
  wp (broadcast_entry_handler b_added ;;; broadcast_entry_handler b_deleted)
     (λ _ cl', ∃ fe, cl_downloads cl' = [Some fe] ∧
        ∀ target sys_name result, Client.ptop_download_task target sys_name result (Some fe) cl' = Fault UseAfterFree) new_client.
Proof.
  eapply wp_mono; [apply (deleted_while_downloading the_files the_machines [49; 47; 98] b_added b_deleted new_client)|].
  - split; [apply fresh_wf|]. intros name e. by rewrite fresh_view lookup_empty.
  - reflexivity.
  - split; [apply said_known, b_in_files|by split].
  - split; [apply said_known, b_in_files|by split].
  - rewrite fresh_view. apply lookup_empty.
  - intros _ cl' (fe & H1 & _ & H2). exists fe. split; [exact H1|exact H2].
Defined.
