(* ===== verification/Sockets.v ===== *)
(** * Sockets: listening, connecting and accepting

    [client_tcp_listen] ([client/packet.c]), [server_tcp_listen] ([server/packet.c]),
    [connect_tracker], [get_my_ip], [get_server_ip], [ptop_listening_task]
    ([client/start.c]), [connect_to_peer] ([client/download.c]) and the loop of
    [server_start].  [Sockets] is the interface to the system calls, over the state of
    the kernel; [SocketLaws] is what their manuals say of descriptors. *)
From S2P Require Import Prelude Hash TransTable FileTable Replica Segment Wire Packet PeerTable Tracker.

(** ** The system calls *)
Definition AF_INET : Z := 2.
Definition INADDR_ANY : Z := 0.
Definition MAX_CONNECTIONS : Z := 1024.
Definition TRACKER_RECEIVER_PORT : Z := 4092.

Record sockaddr_in := SockAddr {
  sin_family : Z;
  sin_addr : Z;      (** in network byte order, as it is in memory *)
  sin_port : Z       (** likewise *)
}.
#[export] Instance sockaddr_eq_dec : EqDecision sockaddr_in.
Proof. solve_decision. Defined.

(** [htons] on a little-endian machine. *)
Definition htons (p : Z) : Z := 256 * (p mod 256) + (p / 256) mod 256.

Class Sockets (K : Type) := {
  socket : K → Z * K;                          (** [socket(AF_INET, SOCK_STREAM, 0)] *)
  set_reuseaddr : Z → K → Z * K;               (** [setsockopt(fd, SOL_SOCKET, SO_REUSEADDR, &on, sizeof(on))] *)
  sys_bind : Z → sockaddr_in → K → Z * K;
  sys_listen : Z → Z → K → Z * K;
  sys_connect : Z → sockaddr_in → K → Z * K;
  open_fds : K → gset Z;                       (** the open descriptors *)
  bound_to : K → Z → option sockaddr_in;       (** the address of a socket *)
  connected_to : K → Z → option sockaddr_in;   (** the other end *)
  listens : K → Z → bool
}.

(** socket(2), setsockopt(2), bind(2), listen(2), connect(2). *)
Class SocketLaws (K : Type) `{Sockets K} : Prop := {
  socket_new k : let '(fd, k') := socket k in
    if 0 <=? fd then fd ∉ open_fds k ∧ open_fds k' = {[fd]} ∪ open_fds k else open_fds k' = open_fds k;
  reuseaddr_fds fd k : open_fds (set_reuseaddr fd k).2 = open_fds k;
  bind_fds fd a k : open_fds (sys_bind fd a k).2 = open_fds k;
  bind_bound fd a k : (sys_bind fd a k).1 = 0 → bound_to (sys_bind fd a k).2 fd = Some a;
  listen_fds fd n k : open_fds (sys_listen fd n k).2 = open_fds k;
  listen_bound fd n k : bound_to (sys_listen fd n k).2 fd = bound_to k fd;
  listen_listens fd n k : listens (sys_listen fd n k).2 fd = ((sys_listen fd n k).1 =? 0) || listens k fd;
  connect_fds fd a k : open_fds (sys_connect fd a k).2 = open_fds k;
  connect_connected fd a k : 0 ≤ (sys_connect fd a k).1 → connected_to (sys_connect fd a k).2 fd = Some a
}.

Section sockets.
Context `{Sockets K}.

Definition call {A} (f : K → A * K) : M K A := λ k, Ok (f k).

(** ** Operations *)
Definition client_tcp_listen (port : Z) : M K Z :=
  listenfd <- call socket ;;
  if listenfd <? 0 then ret (-1) else
  r <- call (set_reuseaddr listenfd) ;;
  if negb (r =? 0) then ret (-1) else
  let servaddr := SockAddr AF_INET (htons INADDR_ANY) (htons port) in
  r <- call (sys_bind listenfd servaddr) ;;
  if negb (r =? 0) then ret (-1) else
  call (sys_listen listenfd MAX_CONNECTIONS) ;;;
  ret listenfd.

Definition server_tcp_listen (port : Z) : M K Z :=
  listenfd <- call socket ;;
  if listenfd <? 0 then ret (-1) else
  r <- call (set_reuseaddr listenfd) ;;
  if negb (r =? 0) then ret (-1) else
  let servaddr := SockAddr AF_INET (htons INADDR_ANY) (htons port) in
  r <- call (sys_bind listenfd servaddr) ;;
  if negb (r =? 0) then ret (-1) else
  call (sys_listen listenfd MAX_CONNECTIONS) ;;;
  ret listenfd.

Definition connect_tracker (serv_ip : Z) : M K Z :=
  fd <- call socket ;;
  if fd <? 0 then ret (-1) else
  let servaddr := SockAddr AF_INET serv_ip (htons TRACKER_RECEIVER_PORT) in
  r <- call (sys_connect fd servaddr) ;;
  if r <? 0 then ret (-1) else ret fd.

Definition connect_to_peer (ip port : Z) : M K Z :=
  fd <- call socket ;;
  if fd <? 0 then ret (-1) else
  let servaddr := SockAddr AF_INET ip (htons port) in
  r <- call (sys_connect fd servaddr) ;;
  if r <? 0 then ret (-1) else ret fd.

(** Trying again and again: what a machine does with an owner it cannot reach. *)
Fixpoint connect_attempts (n : nat) (ip port : Z) : M K (list Z) :=
  match n with
  | O => ret []
  | S n => r <- connect_to_peer ip port ;; l <- connect_attempts n ip port ;; ret (r :: l)
  end.
End sockets.

(** ** Addresses *)

(** [struct ifreq]: 16 bytes of name, then a [struct sockaddr]: the family in 2 bytes, the
    port in 2, the address in 4.  [ifr0] is what is on the stack.  The name is cut at 15
    bytes; the last one is not written. *)
Definition IFNAMSIZ : nat := 16.
Definition set_bytes (o : nat) (b l : list Z) : list Z := take o l ++ b ++ drop (o + length b) l.
Definition strncpy (name : list Z) (n : nat) : list Z := take n name ++ zeros (n - length name).

(** [ioctl] with [SIOCGIFADDR], netdevice(7): the address of the interface with the name,
    if there is one; the kernel ends the name at its last byte. *)
Definition SIOCGIFADDR (addresses : list Z → option Z) (ifr : list Z) : option (list Z) :=
  a ← addresses (c_string (take (IFNAMSIZ - 1) ifr ++ [0]));
  Some (set_bytes IFNAMSIZ (le 2 AF_INET ++ zeros 2 ++ le 4 a) ifr).

(** [fd] is what [socket] returned; [my_ip] afterwards. *)
Definition get_my_ip (ifr0 : list Z) (fd : Z) (addresses : list Z → option Z) (if_name : list Z) : Z :=
  let ifr := set_bytes IFNAMSIZ (le 2 AF_INET) ifr0 in
  let ifr := set_bytes 0 (strncpy if_name (IFNAMSIZ - 1)) ifr in
  let ifr := if fd <? 0 then ifr else default ifr (SIOCGIFADDR addresses ifr) in
  get 20 4 ifr.

(** [gethostbyname]: an error, or an address of [h_length] bytes, here the length of the
    list; it is copied over the four bytes of [serv_ip]. *)
Definition get_server_ip (host_info : option (list Z)) : res Z :=
  match host_info with
  | None => Fault NullDeref
  | Some h_addr => if (length h_addr <=? 4)%nat then Ok (unle h_addr) else Fault OutOfBounds
  end.

(** ** Accepting *)
Inductive accept_result :=
  | Accepted (tid conn : Z)    (** a connection, and the thread that is created for it *)
  | Interrupted                (** EINTR *)
  | AcceptFailed.              (** any other error *)

#[export] Instance accept_result_eq_dec : EqDecision accept_result.
Proof. solve_decision. Defined.

(** The loop of [server_start] over what [accept] returns; [true]: it has ended. *)
Fixpoint accept_loop (l : list accept_result) : M tracker bool :=
  match l with
  | [] => ret false
  | Accepted tid conn :: l => accept_conn tid conn ;;; accept_loop l
  | Interrupted :: l => accept_loop l
  | AcceptFailed :: _ => on_table file_table_destroy ;;; ret true
  end.

(** The whole of [server_start], the control information read and [listenfd] open or not. *)
Definition server_start (ctr : ttop_control_info) (listenfd : Z) (l : list accept_result) : M tracker bool :=
  Tracker.server_start ctr ;;;
  if listenfd <? 0 then ret true else accept_loop l.

(** [ptop_listening_task]: the uploads it starts; it never leaves the loop. *)
Fixpoint listening_loop (l : list accept_result) : M (list Z) unit :=
  match l with
  | [] => ret tt
  | Accepted _ conn :: l => modify (λ uploads, uploads ++ [conn]) ;;; listening_loop l
  | (Interrupted | AcceptFailed) :: l => listening_loop l
  end.
(** [true]: it has ended. *)
Definition ptop_listening_task (listenfd : Z) (l : list accept_result) : M (list Z) bool :=
  if listenfd <? 0 then ret true else listening_loop l ;;; ret false.

(** ** Specification *)
Definition accepted_conns (l : list accept_result) : list (Z * Z) :=
  omap (λ x, match x with Accepted tid conn => Some (tid, conn) | _ => None end) l.
Fixpoint until_failure (l : list accept_result) : list accept_result :=
  match l with
  | [] | AcceptFailed :: _ => []
  | x :: l => x :: until_failure l
  end.

(** ** Lemmas *)
Lemma slice_set_before o b n k l : (o + length b ≤ n)%nat → (n ≤ length l)%nat → slice n k (set_bytes o b l) = slice n k l.
Proof.
  intros Hn Hl. rw /slice /set_bytes. f_equal.
  rw drop_app_ge; [rw length_take; lia|]. rw length_take Nat.min_l; [lia|]. rw drop_app_ge; [lia|].
  rw drop_drop. f_equal. lia.
Qed.
Lemma slice_set_within o n k b l : (o ≤ n)%nat → (n + k ≤ o + length b)%nat → (o ≤ length l)%nat →
  slice n k (set_bytes o b l) = slice (n - o) k b.
Proof.
  intros Ho Hn Hl. rw /slice /set_bytes drop_app_ge; [rw length_take; lia|]. rw length_take Nat.min_l; [lia|].
  rw drop_app_le; [lia|]. rw take_app_le; [rw length_drop; lia|done].
Qed.
Lemma length_set_bytes o b l : (o + length b ≤ length l)%nat → length (set_bytes o b l) = length l.
Proof. intros Hl. rw /set_bytes !length_app length_take length_drop. lia. Qed.
Lemma length_strncpy name n : length (strncpy name n) = n.
Proof. rw /strncpy length_app length_take length_zeros. lia. Qed.

Lemma wp_call {K A} (f : K → A * K) Q (k : K) : Q (f k).1 (f k).2 → wp (call f) Q k.
Proof. rw /wp /call. by destruct (f k). Qed.

Section laws.
Context `{SocketLaws K}.

Lemma wp_socket Q (k : K) :
  (∀ k', open_fds k' = open_fds k → (socket k).1 < 0 → Q (socket k).1 k') →
  (∀ fd k', fd = (socket k).1 → 0 ≤ fd → fd ∉ open_fds k → open_fds k' = {[fd]} ∪ open_fds k → Q fd k') →
  wp (call socket) Q k.
Proof.
  intros Hbad Hgood. apply wp_call. pose proof (socket_new k) as Hs. destruct (socket k) as [fd k'] eqn:E. simpl in *.
  destruct (Z.leb_spec 0 fd); [destruct Hs; by apply (Hgood fd k')|by apply Hbad].
Qed.

(** A socket that was made and is not returned stays open. *)
Lemma tcp_listen_wp port (k : K) :
  wp (client_tcp_listen port)
     (λ r k', (0 ≤ r ∧ r ∉ open_fds k ∧ open_fds k' = {[r]} ∪ open_fds k ∧
                 bound_to k' r = Some (SockAddr AF_INET INADDR_ANY (htons port))) ∨
              (r = -1 ∧ (open_fds k' = open_fds k ∨ ∃ fd, fd ∉ open_fds k ∧ open_fds k' = {[fd]} ∪ open_fds k))) k.
Proof.
  rw /client_tcp_listen. apply wp_bind, wp_socket.
  { intros k' Ho Hneg. rw (proj2 (Z.ltb_lt _ _)) //. apply wp_ret. right. split; [done|]. by left. }
  intros fd k1 _ Hpos Hnew Ho. rw (proj2 (Z.ltb_ge _ _)) //.
  assert (Hleak : ∀ k', open_fds k' = open_fds k1 → ∃ fd, fd ∉ open_fds k ∧ open_fds k' = {[fd]} ∪ open_fds k).
  { intros k' E. exists fd. by rw E Ho. }
  apply wp_bind, wp_call. destruct (Z.eqb_spec (set_reuseaddr fd k1).1 0); cbn [negb].
  2: { apply wp_ret. right. split; [done|]. right. apply Hleak, reuseaddr_fds. }
  apply wp_bind, wp_call. set (k2 := (set_reuseaddr fd k1).2). destruct (Z.eqb_spec (sys_bind fd (SockAddr AF_INET (htons INADDR_ANY) (htons port)) k2).1 0) as [Hb|]; cbn [negb].
  2: { apply wp_ret. right. split; [done|]. right. apply Hleak. by rw bind_fds reuseaddr_fds. }
  apply wp_bind, wp_call, wp_ret. left. split; [done|]. split; [done|]. rw listen_fds bind_fds reuseaddr_fds Ho listen_bound.
  split; [done|]. by apply bind_bound.
Qed.

Lemma connect_wp ip port (k : K) :
  wp (connect_to_peer ip port)
     (λ r k', (0 ≤ r ∧ r ∉ open_fds k ∧ open_fds k' = {[r]} ∪ open_fds k ∧
                 connected_to k' r = Some (SockAddr AF_INET ip (htons port))) ∨
              (r = -1 ∧ ((socket k).1 < 0 ∧ open_fds k' = open_fds k ∨ ∃ fd, fd ∉ open_fds k ∧ open_fds k' = {[fd]} ∪ open_fds k))) k.
Proof.
  rw /connect_to_peer. apply wp_bind, wp_socket.
  { intros k' Ho Hneg. rw (proj2 (Z.ltb_lt _ _)) //. apply wp_ret. right. split; [done|]. by left. }
  intros fd k1 _ Hpos Hnew Ho. rw (proj2 (Z.ltb_ge _ _)) //. apply wp_bind, wp_call.
  destruct (Z.ltb_spec (sys_connect fd (SockAddr AF_INET ip (htons port)) k1).1 0) as [Hc|Hc]; apply wp_ret.
  - right. split; [done|]. right. exists fd. by rw connect_fds Ho.
  - left. split; [done|]. split; [done|]. rw connect_fds Ho. split; [done|]. by apply connect_connected.
Qed.
End laws.

(** A loop of [accept] is a sequence of events of the tracker. *)
Lemma accept_loop_run l : ∀ s,
  AcceptFailed ∉ l → ∃ s', accept_loop l s = Ok (false, s') ∧ tk_ft s' = tk_ft s ∧
    tk_receivers s' = fold_left (λ m x, <[x.1 := x.2]> m) (accepted_conns l) (tk_receivers s).
Proof.
  induction l as [|x l IH]; intros s Hl; [by exists s|]. apply not_elem_of_cons in Hl as [Hx Hl].
  destruct x as [tid conn| |]; [| |done].
  - rw /= /bind /accept_conn /modify. edestruct IH as (s' & E & Hft & Hr); [exact Hl|]. exists s'. split; [exact E|].
    split; [by rw Hft|by rw Hr].
  - destruct (IH s Hl) as (s' & E & Hft & Hr). by exists s'.
Qed.

Lemma accept_loop_app l l' s s' : accept_loop l s = Ok (false, s') → accept_loop (l ++ l') s = accept_loop l' s'.
Proof.
  revert s. induction l as [|[tid conn| |] l IH]; intros s; [by intros [= <-]| | |].
  - rw /= /bind /accept_conn /modify. apply IH.
  - apply IH.
  - rw /= /bind. by destruct (on_table file_table_destroy s) as [[[] ?]|].
Qed.

Lemma accept_loop_steps F P l : ∀ s s', AcceptFailed ∉ l → accept_loop l s = Ok (false, s') → rtc (tk_step F P) s s'.
Proof.
  induction l as [|x l IH]; intros s s' Hl; [by intros [= <-]|]. apply not_elem_of_cons in Hl as [Hx Hl].
  destruct x as [tid conn| |]; [|by apply IH|done]. rw /= /bind /accept_conn /modify. intros Hrun.
  eapply rtc_l; [|by eapply IH]. by apply (tk_step_event F P (EvAccept tid conn)).
Qed.

Lemma until_failure_no l : AcceptFailed ∉ until_failure l.
Proof. induction l as [|[tid conn| |] l IH]; simpl; set_solver. Qed.
Lemma until_failure_split l : AcceptFailed ∈ l → ∃ rest, l = until_failure l ++ AcceptFailed :: rest.
Proof.
  induction l as [|x l IH]; [by intros ?%elem_of_nil|]. intros [<-|Hl]%elem_of_cons; [by exists l|].
  destruct x; [destruct (IH Hl) as [r Hr]; exists r; by rw /= -Hr..|by exists l].
Qed.

(** ** Properties *)


(** Descriptors run out.  As long as sockets can be made, every attempt to connect to
    a machine ends with one more descriptor open, whether it succeeds or not: after [n]
    attempts that all fail, [n] descriptors are lost. *)
Theorem connect_leaks `{SocketLaws K} n ip port (k : K) :
  (∀ k' : K, 0 ≤ (socket k').1) →
  wp (connect_attempts n ip port)
     (λ l k', length l = n ∧ Forall (λ r, r = -1 ∨ r ∈ open_fds k') l ∧ (size (open_fds k') = size (open_fds k) + n)%nat) k.
Proof.
  intros Hs. assert (Hgen : ∀ k, wp (connect_attempts n ip port) (λ l k', length l = n ∧ Forall (λ r, r = -1 ∨ r ∈ open_fds k') l ∧
    open_fds k ⊆ open_fds k' ∧ (size (open_fds k') = size (open_fds k) + n)%nat) k).
  2: { eapply wp_mono; [apply Hgen|]. intros l k' (? & ? & _ & ?). by split_and!. }
  clear k. induction n as [|n IH]; intros k; [apply wp_ret; split_and!; [done|by constructor|done|lia]|].
  apply wp_bind. eapply wp_mono; [apply connect_wp|]. intros r k1 Hr.
  assert (Hk1 : ∃ fd, (r = -1 ∨ r = fd) ∧ fd ∉ open_fds k ∧ open_fds k1 = {[fd]} ∪ open_fds k).
  { destruct Hr as [(_ & ? & ? & _)|(-> & [[Hneg _]|(fd & ? & ?)])]; [by exists r; split_and!; [right| |]|pose proof (Hs k); lia|].
    exists fd. by split_and!; [left| |]. }
  destruct Hk1 as (fd & Hrfd & Hnew & Hopen).
  apply wp_bind. eapply wp_mono; [apply IH|]. intros l k2 (Hl & Hall & Hsub & Hsize). apply wp_ret.
  split; [by rw /= Hl|]. split; [apply Forall_cons_2; [|done]|split].
  - destruct Hrfd as [-> | ->]; [by left|right]. set_solver.
  - set_solver.
  - rw Hsize Hopen size_union ?size_singleton; [set_solver|]. lia.
Qed.


(** Serving.  Without a listening socket the thread that serves other machines ends at
    once, and nobody is told; with one it never ends: every connection gets its thread,
    and every failure of [accept], of whatever kind, is only tried again. *)
Theorem listening_never_ends listenfd l uploads :
  ptop_listening_task listenfd l uploads =
    Ok (if listenfd <? 0 then (true, uploads) else (false, uploads ++ (accepted_conns l).*2)).
Proof.
  rw /ptop_listening_task. destruct (listenfd <? 0); [done|].
  assert (Hgen : ∀ l uploads, listening_loop l uploads = Ok (tt, uploads ++ (accepted_conns l).*2)); [|by rw /bind Hgen].
  clear. induction l as [|[tid conn| |] l IH]; intros uploads; simpl; [by rw app_nil_r| |apply IH|apply IH].
  by rw /bind /modify IH -app_assoc.
Qed.


Lemma c_string_strncpy name : Forall is_char name → c_string (strncpy name 15 ++ [0]) = take 15 name.
Proof.
  intros Hn. assert (Ht : Forall is_char (take 15 name)) by by apply Forall_take.
  rw /strncpy -app_assoc. revert Ht. generalize (take 15 name). intros t Ht.
  assert (Hz : ∃ l, zeros (15 - length name) ++ [0] = 0 :: l).
  { destruct (15 - length name)%nat; simpl; by eexists. }
  destruct Hz as [l ->]. induction Ht as [|x t Hx _ IH]; [done|]. simpl. rw (proj2 (Z.eqb_neq x 0)); [rw /is_char in Hx; lia|]. by rw IH.
Qed.

(** The own address is that of the interface that is named, cut at 15 bytes; but when
    there is none, or the socket could not be made, it is the four bytes that happened to be
    on the stack. *)
Theorem get_my_ip_correct ifr0 fd addresses if_name :
  (24 ≤ length ifr0)%nat → Forall is_char if_name → (∀ name a, addresses name = Some a → is_u32 a) →
  get_my_ip ifr0 fd addresses if_name =
    match addresses (take 15 if_name) with Some a => if fd <? 0 then get 20 4 ifr0 else a | None => get 20 4 ifr0 end.
Proof.
  intros Hl Hn Ha. rw /get_my_ip. set (ifr1 := set_bytes IFNAMSIZ _ ifr0). set (ifr2 := set_bytes 0 _ ifr1).
  assert (Hl1 : length ifr1 = length ifr0) by (apply length_set_bytes; simpl; lia).
  assert (Hs : length (strncpy if_name (IFNAMSIZ - 1)) = 15%nat) by apply length_strncpy.
  assert (Hl2 : length ifr2 = length ifr0) by (rw /ifr2 length_set_bytes // Hs; lia).
  assert (Hkeep : get 20 4 ifr2 = get 20 4 ifr0).
  { rw /get /ifr2 slice_set_before ?Hs /ifr1; [lia|rw -/ifr1; lia|]. rw slice_set_before //; simpl; lia. }
  assert (Hname : c_string (take (IFNAMSIZ - 1) ifr2 ++ [0]) = take 15 if_name).
  { rw /ifr2 /set_bytes /= take_app_le; [by rw Hs|]. rw take_ge; [by rw Hs|]. by apply c_string_strncpy. }
  rw /SIOCGIFADDR Hname. destruct (fd <? 0); [by destruct (addresses _)|].
  destruct (addresses (take 15 if_name)) as [a|] eqn:E; [|done]. cbn [mbind option_bind default].
  rw /get slice_set_within; [by rw /IFNAMSIZ; lia|rw /IFNAMSIZ !length_app !length_le length_zeros; lia|rw /IFNAMSIZ; lia|].
  transitivity (unle (le 4 a)); [reflexivity|]. apply unle_le_id. by apply (Ha _ _ E).
Qed.

(** ** Witnesses *)

(** A kernel for the witnesses: descriptors are given in order and never closed; an
    address can be bound once, and only the addresses that are [up] accept connections. *)
Record toy_kernel := ToyKernel {
  toy_fds : nat;
  toy_bound : gmap Z sockaddr_in;
  toy_connected : gmap Z sockaddr_in;
  toy_listens : gset Z;
  toy_up : list sockaddr_in
}.

#[export] Instance toy_sockets : Sockets toy_kernel := {
  socket := λ k, (Z.of_nat (toy_fds k), ToyKernel (S (toy_fds k)) (toy_bound k) (toy_connected k) (toy_listens k) (toy_up k));
  set_reuseaddr := λ _ k, (0, k);
  sys_bind := λ fd a k,
    if decide (a ∈ (map_to_list (toy_bound k)).*2) then (-1, k)
    else (0, ToyKernel (toy_fds k) (<[fd := a]> (toy_bound k)) (toy_connected k) (toy_listens k) (toy_up k));
  sys_listen := λ fd _ k, (0, ToyKernel (toy_fds k) (toy_bound k) (toy_connected k) ({[fd]} ∪ toy_listens k) (toy_up k));
  sys_connect := λ fd a k,
    if decide (a ∈ toy_up k) then (0, ToyKernel (toy_fds k) (toy_bound k) (<[fd := a]> (toy_connected k)) (toy_listens k) (toy_up k))
    else (-1, k);
  open_fds := λ k, list_to_set (Z.of_nat <$> seq 0 (toy_fds k));
  bound_to := λ k fd, toy_bound k !! fd;
  connected_to := λ k fd, toy_connected k !! fd;
  listens := λ k fd, bool_decide (fd ∈ toy_listens k)
}.

#[export] Instance toy_socket_laws : SocketLaws toy_kernel.
Proof.
  split.
  - intros k. rw /socket /toy_sockets (proj2 (Z.leb_le _ _)); [lia|]. split.
    + rw elem_of_list_to_set list_elem_of_fmap. intros (n & E & [_ Hn]%elem_of_seq). lia.
    + transitivity (list_to_set (Z.of_nat <$> seq 0 (S (toy_fds k))) : gset Z); [done|]. rw seq_S fmap_app list_to_set_app_L /=. set_solver.
  - done.
  - intros fd a k. simpl. by case_decide.
  - intros fd a k. simpl. case_decide; [done|]. by rw /= lookup_insert_eq.
  - done.
  - done.
  - intros fd n k. simpl. apply bool_decide_eq_true. set_solver.
  - intros fd a k. simpl. by case_decide.
  - intros fd a k. simpl. case_decide; [|done]. by rw /= lookup_insert_eq.
Qed.

Definition toy : toy_kernel := ToyKernel 3 ∅ ∅ ∅ [SockAddr AF_INET 16777343 (htons 9000)].

Definition result {S A} (r : res (A * S)) : option A := match r with Ok x => Some x.1 | Fault _ => None end.


Lemma connect_leaks_witness :
  result (connect_attempts 3 16777343 9000 toy) = Some [3; 4; 5] ∧ result (connect_attempts 3 16777343 9001 toy) = Some [-1; -1; -1] ∧
  wp (connect_attempts 3 16777343 9001)
     (λ l k', length l = 3%nat ∧ Forall (λ r, r = -1 ∨ r ∈ open_fds k') l ∧ (size (open_fds k') = size (open_fds toy) + 3)%nat) toy.
Proof.
  split; [by vm_compute|]. split; [by vm_compute|]. apply (connect_leaks 3 16777343 9001 toy). intros k. apply Nat2Z.is_nonneg.
Defined.

(** Two connections, one interrupted call, then a failure. *)
Definition some_accepts : list accept_result := [Accepted 1 5; Interrupted; Accepted 2 6; AcceptFailed; Accepted 3 7].

(** The interface eth0 has the address 10.0.0.7; there is no eth1. *)
Definition some_addresses (name : list Z) : option Z := if bool_decide (name = [101; 116; 104; 48]) then Some 117440522 else None.
Lemma get_my_ip_correct_witness :
  get_my_ip (replicate 40 170) 3 some_addresses [101; 116; 104; 48] = 117440522 ∧
  get_my_ip (replicate 40 170) 3 some_addresses [101; 116; 104; 49] = 2863311530.
Proof.
  assert (Ha : ∀ name a, some_addresses name = Some a → is_u32 a).
  { intros name a. rw /some_addresses. case_bool_decide; intros [= <-]. done. }
  assert (Hl : (24 ≤ length (replicate 40 170%Z))%nat) by (rw length_replicate; lia).
  assert (H0 : Forall is_char [101; 116; 104; 48]) by (repeat constructor; lia).
  assert (H1 : Forall is_char [101; 116; 104; 49]) by (repeat constructor; lia).
  split.
  - etrans; [exact (get_my_ip_correct _ 3 some_addresses _ Hl H0 Ha)|by vm_compute].
  - etrans; [exact (get_my_ip_correct _ 3 some_addresses _ Hl H1 Ha)|by vm_compute].
Defined.
